(* ===== verification/_CoqProject ===== *)
-Q . S2P
Prelude.v
Errors.v
Basics.v
Logger.v
BufferQueue.v
TcpPackage.v
Framing.v
FramingSpec.v
Messages.v
Gossip.v
Events.v
Settings.v
Cluster.v
GossipHttp.v
Operations.v
OperationsMap.v
ErasedOperations.v
World.v
Triples.v
Connection.v
Requests.v
ConnectOps.v
Subscription.v
Catchup.v
CatchupAll.v
Client.v
Lifecycle.v
Sending.v
Steps.v
Conversation.v
Receiving.v
ConnectChain.v
Silence.v
Points.v
CatchupRun.v
EventLog.v
CatchupAllRun.v
Reentrant.v
Answers.v
WellFormed.v
PackageMemory.v
UnitTests.v
Programs.v
Examples.v
Scenarios.v
Drops.v
