(* ===== verification/Prelude.v ===== *)
(** * The EventStore C++ client: a verification development

    The program is a header-only client library (include/) of an event store.
    An application opens a TCP connection to a node, sends requests (append,
    read, delete, transactions, metadata, management of persistent
    subscriptions), and opens subscriptions that push events to it.  All the
    work is done by completion handlers run by one io_context.

    ** The parts and the files

    The layers of the program, from the wire up, and the file of each:

    - Prelude: outcomes of C++ functions, machine integers, generic lemmas,
      tactics, the hint database.
    - Errors (error/error.hpp): error enumerations, categories, error codes.
    - Basics (guid.hpp, position.hpp, system/*.hpp, user/*.hpp,
      connection/*_info.hpp): small value types.
    - Logger (logger.hpp): the two loggers, their levels, and the loggers'
      absence.
    - BufferQueue (buffer/buffer_queue.hpp): the chunked queue and the FIFO
      queue it implements (classes QueueOps and QueueLaws).
    - TcpPackage (tcp/tcp_commands.hpp, tcp_flags.hpp, tcp_package.hpp): the
      frames of the protocol, byte for byte.
    - Framing (tcp/read.hpp): the receive operation over a dynamic buffer and
      the receive loop over a byte stream cut into arbitrary chunks;
      FramingSpec: the frames of a stream, by recursion on the stream.
    - Messages: the fields of the protocol messages, with the interface of
      their serialization.
    - Gossip (message/cluster_messages.hpp): node states and their JSON form.
    - Events (recorded_event.hpp, resolved_event.hpp, *_slice.hpp, ...):
      what is handed to the user.
    - Settings (connection_settings.hpp, cluster_settings.hpp,
      *_subscription_settings.hpp): the settings and their builders.
    - Cluster (tcp/discovery_service.hpp, tcp/cluster_discovery_service.hpp):
      the choice of the node to connect to; GossipHttp: the request for the
      gossip of a node.
    - Operations: for each request, its package and the lambda that reads the
      response.
    - OperationsMap (operations_map.hpp): pending operations by correlation id,
      as a map of closures; ErasedOperations: the type-erased operation in its
      memory, and the map of such operations, which implements the former.
    - World: the state of the running client and the monad over it; Triples: a
      logic of pre- and postconditions for its programs.
    - Connection (connection/basic_tcp_connection.hpp, tcp/operation.hpp):
      the write chain, the dispatch of received packages, request timeouts.
    - Requests (append_to_stream.hpp and the headers of the other requests,
      transaction.hpp).
    - ConnectOps (tcp/connect.hpp, authenticate.hpp, identify.hpp,
      heartbeat.hpp): what the connection does for itself.
    - Subscription (subscription/subscription_base.hpp,
      volatile_subscription.hpp, persistent_subscription.hpp), Catchup
      (catchup_subscription.hpp), CatchupAll (catchup_all_subscription.hpp).
    - Client: the closures of all parts tied to the connection that calls
      them, and the client as a transition system.
    - Theorems about whole executions of the client.  Lifecycle: the ends a
      pending request can have.  Sending: the write chain.  Steps: lemmas on
      single steps that the others share.  Conversation: requests in flight
      together.  Receiving: the receive loop byte by byte, composed with the
      client.  ConnectChain: the connect chain as a whole.  Silence: a server
      that stops answering.  Points: the states of a catch-up
      subscription between two events; CatchupRun, CatchupAllRun: the whole
      course of a catch-up subscription against the log of its stream, or of all
      streams (EventLog).  Answers, WellFormed,
      Scenarios, Drops: invariants of all executions, and concrete ones.
    - Reentrant: event handlers that call the client before they return.
    - PackageMemory (tcp/tcp_package.hpp): the package objects and the memory
      they own, under their moves, copies and destructions.
    - UnitTests (tests/): the requirements of the unit tests, evaluated.
    - Programs: main functions and handlers over the client; Examples
      (examples/*.cpp): the fourteen example programs that are built.

    How they interact.  A request function makes a correlation id and a
    package, and starts an operation, which registers itself in the
    connection's operations map, arms a timer and gives the package to
    async_send.  async_send posts a job that appends the package to the
    message queue and starts a write when none is under way; a completed write
    starts the next one.  The receive loop cuts the byte stream into frames;
    the connection turns each into a package view and dispatches it by
    correlation id: to a pending operation, which is erased and called; to a
    subscription, which is called and stays; a heartbeat request is answered.
    Subscriptions call the unsubscribe and the read requests of the same
    connection; catch-up subscriptions hold events received live in a buffer
    queue while they read the past.

    ** Conventions of the model

    - A C++ function is a Rocq function to an [outcome]: a value, an exception
      of the standard library or of a library in use, or undefined behaviour
      ([Undef], with its kind).  An access that C++ leaves undefined (index out
      of range, use of a destroyed object or of a moved-from function, signed
      overflow) is a result of the model, not an assumption.
    - Integers are Z; each place where the source narrows or wraps applies
      [wrap_i32], [wrap_u32], ... of Prelude.  Bytes are Byte.byte.
    - The state of the running client is the record [world] of World; the code
      that changes it is a program over the commands of that file, written with
      the do-notation and run by [run_prog].
    - Closures are data: for each lambda of the source there is a constructor
      that carries what the lambda captured, and one function per lambda says
      what calling it does.  User handlers are numbers; a call of a user
      handler is an entry of a log, with its arguments.  What a user's handler
      calls in its turn is an event of the transition system after it; in
      Programs it is the next event, at the end of the client's step; Reentrant
      models the calls made before the handler returns, where the code goes on
      after the handler.
    - A program with a thread that runs the io_context is interleaved with the
      client's steps between any two of its statements; a statement and a step
      are not cut into smaller pieces.
    - The io_context is a FIFO queue of posted jobs run by one thread; pending
      reads, writes and timer waits are part of the state and are completed by
      events of the transition system, in any order the environment chooses.
      A timer's expiry queues the completion of its wait; cancelling it after
      that does not take the completion back.
    - A raw this or reference captured by a lambda is an object identity; using
      it after the object's destruction is [Undef dangling_reference].  A
      reference into the closure of a subscription holds the number of its
      registration, so that a later closure under the same key is another one;
      the receive operation's reference to the buffer ends with the connection.
    - Code that is not part of the sources is a class with its laws: protobuf's
      serialization (Messages), the JSON and guid libraries (Gossip,
      GossipHttp), the dynamic buffer (Framing), guid generation, DNS, HTTP,
      spdlog (Logger), the allocators (TcpPackage, ErasedOperations) and the
      standard algorithms whose result is unspecified (Cluster: the shuffle and
      the unstable sort).  A theorem names the laws it uses, and its witness
      instantiates them with concrete functions.

    ** What the theorems show

    - Wire format: packing a package and viewing it again gives its parts
      back, with and without credentials; a view is made exactly of the byte
      strings that hold a header; a stream of frames cut anyhow into reads is
      received as the same frames.  On every stream the receive loop gives
      what the recursive definition of FramingSpec gives.
    - Receiving: the client to which the socket gives bytes, in any pieces,
      refines the client to which packages come, exceptions and undefined
      behaviour included; what is proved of the latter holds of the former.
    - Containers: the chunked queue is a FIFO queue under every sequence of
      operations; the map of type-erased operations implements a finite map of
      closures without an error of memory (and never destroys a closure).
    - Packages in memory: from the function that builds a package to the end of
      its write, or to the destruction of the connection that has queued it, its
      block has one owner, is whole while it is written, and is given back once.
    - Requests: a request is issued with a registered operation, an armed
      timer and a package that reads back as the request; a response or a
      timeout answers it; each response lambda gives a result exactly on
      success; transactions refine a three-state machine.  Any number of
      requests in flight together, answered in any order or out of time, each
      end once, with the answer meant for them.
    - Whole executions: over all sequences of events, packages are written in
      the order of async_send, each once, with one write under way at most,
      and all of them when the writes succeed; what is written is a stream of
      well-formed packages, which read back as the packages the client built;
      no handler is called more often than it was given to a request; every
      call of a handler has an error or a result as its signature promises; a
      volatile or persistent subscription calls its dropped handler at most once
      each time it is started, and a catch-up subscription may call it twice.
    - Subscriptions: the base's life cycle, the events of each subscription
      in order, the answers of the persistent ones; what a catch-up subscription
      delivers of its stream's log, or of the log of all streams, over its whole
      course: what it asks for, which event is lost and which ones come twice;
      and that its delivery loop bears handlers that call the client, except one that unsubscribes.
    - Connection: the course from async_connect to the user's handler, whatever
      the discovery, the socket and the server answer; that a server which never
      answers keeps nobody waiting, in whatever order the timers, the jobs and
      the failures of the socket come; heartbeats, identification and its
      retries, discovery and its attempts over the HTTP request for the gossip,
      the choice of the best node.
    - Examples: the statements and handlers of the example programs do not throw
      (under a condition on the events they are sent; what the client's own
      steps throw is apart), and none uses the connection before it is
      established.
    - Gossip: members, clusters and states read back from their JSON; what the
      discovery makes of the gossip of a node.
    - Logging: levels and their names; which of the two loggers each function
      writes to; what happens without a logger.
    - Where the code does something else than it means to, the theorem states
      what it does (in Operations, Cluster, Lifecycle, Scenarios and others).

    ** Fuel and bounds

    The receive loop has as fuel the number of rounds; the stream's length
    plus one is enough ([Framing.receive_loop_total]).  The loop over the
    buffered events of a catch-up subscription has the source's own bound, the
    maximal size of the live queue.  The waits of a program's main function are
    not bounded: its executions are a relation, and [Programs.drive] runs it on
    a list of events.  A discovery ends within the configured
    number of attempts and one more ([Cluster.discovery_cycle]).  One receive makes at
    most two reads, the header's and the message's, hence the two rounds of
    [Framing.drive].

    ** Not modelled

    The text of log messages (what their arguments may throw is modelled in
    Examples); the code protoc generates (used through its interface); the copy
    constructor and the move assignment of type-erased operations, which do not
    compile when they are used; the reuse of one static message object per
    request type, which one thread cannot observe; enums and classes that
    nothing uses (reconnection information among them); the lifetime of the
    string_view captured by get_stream_metadata; the races between main and
    the thread that runs the io_context in some examples (a statement of main
    and a step of the client never overlap); two read operations at a time on the one receive buffer
    (a second async_connect while the client is connected);
    connect-to-es-01.cpp, which is not built; the mocks of the unit tests and
    their counts of constructor calls; build files. *)
From Stdlib Require Export ZArith Lia Strings.Byte Strings.String.
From stdpp Require Export base gmap strings list.
From stdpp Require Export fin_maps.

#[global] Open Scope Z_scope.

(** ** Outcomes of a C++ function

    A call returns a value, leaves by a standard-library exception, or has
    undefined behaviour; the last two are values of the model, so that a
    theorem can say which one happens. *)

Inductive exception : Type :=
| std_out_of_range         (* std::unordered_map::at on an absent key *)
| std_bad_optional_access  (* std::optional::value on an empty optional *)
| json_exception           (* thrown by the JSON library: no such key, wrong type *)
| std_invalid_argument     (* std::stoi and std::stoll on a text that is no number *)
| std_length_error         (* std::vector::reserve beyond max_size() *)
| invalid_guid             (* thrown by boost::uuids::string_generator *)
| invalid_address.         (* thrown by boost::asio::ip::make_address_v4 *)

Inductive undefined : Type :=
| null_dereference   (* access through a null pointer *)
| out_of_bounds      (* access outside the object a pointer designates *)
| empty_container    (* front(), pop_front() or *begin() of an empty container *)
| signed_overflow      (* signed integer arithmetic out of range *)
| indeterminate_value  (* a member read before it was given a value *)
| dangling_reference   (* use of an object after its destruction *)
| moved_from           (* use of an object that has been moved from *)
| bad_deallocation     (* memory given back with another size than it was allocated with *)
| missing_return.      (* the end of a function that returns a value, without a return *)

Inductive outcome (A : Type) : Type :=
| Ret (a : A)
| Throw (e : exception)
| Undef (u : undefined).
Arguments Ret {A} a.
Arguments Throw {A} e.
Arguments Undef {A} u.

#[global] Instance exception_eq_dec : EqDecision exception.
Proof. solve_decision. Defined.
#[global] Instance undefined_eq_dec : EqDecision undefined.
Proof. solve_decision. Defined.
#[global] Instance outcome_eq_dec `{EqDecision A} : EqDecision (outcome A).
Proof. solve_decision. Defined.

#[global] Instance outcome_ret : MRet outcome := λ A a, Ret a.
#[global] Instance outcome_bind : MBind outcome := λ A B f m,
  match m with
  | Ret a => f a
  | Throw e => Throw e
  | Undef u => Undef u
  end.
#[global] Instance outcome_fmap : FMap outcome := λ A B f m,
  match m with
  | Ret a => Ret (f a)
  | Throw e => Throw e
  | Undef u => Undef u
  end.

Lemma outcome_bind_ret {A B} (a : A) (f : A → outcome B) : Ret a ≫= f = f a.
Proof. reflexivity. Qed.

Lemma outcome_bind_assoc {A B C} (m : outcome A) (f : A → outcome B) (g : B → outcome C) :
  (m ≫= f) ≫= g = m ≫= (λ a, f a ≫= g).
Proof. by destruct m. Qed.

Lemma outcome_bind_Ret_inv {A B} (m : outcome A) (f : A → outcome B) b :
  m ≫= f = Ret b → ∃ a, m = Ret a ∧ f a = Ret b.
Proof. destruct m; simpl; intros; try discriminate; eauto. Qed.

(** [std::optional<T>::value()]. *)
Definition opt_value {A} (o : option A) : outcome A :=
  match o with Some a => Ret a | None => Throw std_bad_optional_access end.

(** ** Machine integers *)

Definition wrap_u8 (z : Z) : Z := z mod 2 ^ 8.
Definition wrap_u16 (z : Z) : Z := z mod 2 ^ 16.
Definition wrap_u32 (z : Z) : Z := z mod 2 ^ 32.
Definition wrap_u64 (z : Z) : Z := z mod 2 ^ 64.
Definition wrap_i32 (z : Z) : Z := (z + 2 ^ 31) mod 2 ^ 32 - 2 ^ 31.
Definition wrap_i64 (z : Z) : Z := (z + 2 ^ 63) mod 2 ^ 64 - 2 ^ 63.

Definition in_i32 (z : Z) : Prop := - 2 ^ 31 ≤ z < 2 ^ 31.
Definition in_i64 (z : Z) : Prop := - 2 ^ 63 ≤ z < 2 ^ 63.

Definition INT32_MAX : Z := 2 ^ 31 - 1.
Definition INT64_MAX : Z := 2 ^ 63 - 1.

Lemma wrap_u32_small z : 0 ≤ z < 2 ^ 32 → wrap_u32 z = z.
Proof. apply Z.mod_small. Qed.
Lemma wrap_u64_nonneg z : 0 ≤ wrap_u64 z.
Proof. apply Z.mod_pos_bound. lia. Qed.
Lemma wrap_u64_small z : 0 ≤ z < 2 ^ 64 → wrap_u64 z = z.
Proof. apply Z.mod_small. Qed.
Lemma wrap_u8_small z : 0 ≤ z < 2 ^ 8 → wrap_u8 z = z.
Proof. apply Z.mod_small. Qed.
Lemma wrap_u32_range z : 0 ≤ wrap_u32 z < 2 ^ 32.
Proof. by apply Z.mod_pos_bound. Qed.
Lemma wrap_i32_small z : in_i32 z → wrap_i32 z = z.
Proof. unfold in_i32, wrap_i32. intros. rewrite Z.mod_small; lia. Qed.
Lemma wrap_i64_small z : in_i64 z → wrap_i64 z = z.
Proof. unfold in_i64, wrap_i64. intros. rewrite Z.mod_small; lia. Qed.
Lemma wrap_u32_i32 z : wrap_u32 (wrap_i32 z) = wrap_u32 z.
Proof.
  unfold wrap_u32, wrap_i32. rewrite Zminus_mod_idemp_l.
  by rewrite Z.add_simpl_r.
Qed.
Lemma wrap_u32_idemp z : wrap_u32 (wrap_u32 z) = wrap_u32 z.
Proof. unfold wrap_u32. by rewrite Z.mod_mod. Qed.

(** Checked signed arithmetic: the C++ expression is undefined out of range. *)
Definition i32_checked (z : Z) : outcome Z :=
  if decide (- 2 ^ 31 ≤ z ∧ z < 2 ^ 31) then Ret z else Undef signed_overflow.
Definition i64_checked (z : Z) : outcome Z :=
  if decide (- 2 ^ 63 ≤ z ∧ z < 2 ^ 63) then Ret z else Undef signed_overflow.

Lemma i64_checked_ok z : in_i64 z → i64_checked z = Ret z.
Proof. intros. unfold i64_checked. by rewrite decide_True. Qed.
Lemma i32_checked_ok z : in_i32 z → i32_checked z = Ret z.
Proof. intros. unfold i32_checked. by rewrite decide_True. Qed.

(** ** Bytes and memory blocks *)

Abbreviation bytes := (list byte).

#[global] Instance byte_eq_dec : EqDecision byte := Byte.byte_eq_dec.
#[global] Instance byte_countable : Countable byte.
Proof.
  refine (inj_countable Byte.to_N Byte.of_N _).
  apply Byte.of_to_N.
Defined.
#[global] Instance byte_inhabited : Inhabited byte := populate x00.

(** The value of a byte, and the byte with a given value modulo 256. *)
Definition u8 (b : byte) : Z := Z.of_N (Byte.to_N b).
Definition byte_of_Z (z : Z) : byte := default x00 (Byte.of_N (Z.to_N (wrap_u8 z))).

Lemma u8_range b : 0 ≤ u8 b < 256.
Proof.
  unfold u8. pose proof (Byte.to_N_bounded b). lia.
Qed.

Lemma u8_byte_of_Z z : u8 (byte_of_Z z) = wrap_u8 z.
Proof.
  unfold u8, byte_of_Z.
  assert (0 ≤ wrap_u8 z < 256) by (by apply Z.mod_pos_bound).
  destruct (Byte.of_N (Z.to_N (wrap_u8 z))) as [b|] eqn:E; simpl.
  - apply Byte.to_of_N in E. rewrite E. lia.
  - apply Byte.of_N_None_iff in E. lia.
Qed.

Lemma u8_inj a b : u8 a = u8 b → a = b.
Proof.
  unfold u8. intros H%N2Z.inj.
  assert (Some a = Some b) by (rewrite <- !Byte.of_to_N; by f_equal).
  congruence.
Qed.

Lemma byte_of_Z_u8 b : byte_of_Z (u8 b) = b.
Proof. apply u8_inj. rewrite u8_byte_of_Z. apply wrap_u8_small, u8_range. Qed.

(** A std::string is a Rocq [string]; its characters in memory. *)
Definition string_bytes (s : string) : bytes := list_byte_of_string s.
Definition bytes_string (bs : bytes) : string := string_of_list_byte bs.

Lemma bytes_string_bytes s : bytes_string (string_bytes s) = s.
Proof. apply string_of_list_byte_of_string. Qed.
Lemma string_bytes_string bs : string_bytes (bytes_string bs) = bs.
Proof. apply list_byte_of_string_of_list_byte. Qed.

Definition string_size (s : string) : nat := length (string_bytes s).

(** Little-endian image of an unsigned integer of [n] bytes. *)
Fixpoint le_encode (n : nat) (z : Z) : bytes :=
  match n with
  | O => []
  | S n => byte_of_Z z :: le_encode n (z / 256)
  end.
Fixpoint le_decode (bs : bytes) : Z :=
  match bs with
  | [] => 0
  | b :: bs => u8 b + 256 * le_decode bs
  end.

Lemma length_le_encode n z : length (le_encode n z) = n.
Proof. revert z. induction n; simpl; intros; by f_equal. Qed.

Lemma le_decode_encode n z : le_decode (le_encode n z) = z mod 2 ^ (8 * Z.of_nat n).
Proof.
  revert z. induction n as [|n IH]; intros z.
  - simpl. by rewrite Z.mod_1_r.
  - cbn [le_encode le_decode]. rewrite u8_byte_of_Z, IH. unfold wrap_u8.
    replace (2 ^ (8 * Z.of_nat (S n))) with (256 * 2 ^ (8 * Z.of_nat n))
      by (rewrite Nat2Z.inj_succ, Z.mul_succ_r, Z.pow_add_r by lia; lia).
    rewrite (Z.mul_comm 256 (2 ^ _)), (Z.mul_comm (2 ^ _) 256).
    rewrite Z.rem_mul_r by (try apply Z.pow_pos_nonneg; lia). reflexivity.
Qed.

(** Reading and writing a block of memory, with the bounds of the object. *)
Definition slice (off n : nat) (mem : bytes) : bytes := take n (drop off mem).

Definition read_at (off n : nat) (mem : bytes) : outcome bytes :=
  if decide (off + n ≤ length mem)%nat then Ret (slice off n mem)
  else Undef out_of_bounds.

Definition write_at (off : nat) (bs : bytes) (mem : bytes) : outcome bytes :=
  if decide (off + length bs ≤ length mem)%nat
  then Ret (take off mem ++ bs ++ drop (off + length bs) mem)
  else Undef out_of_bounds.

Lemma length_slice off n mem :
  (off + n ≤ length mem)%nat → length (slice off n mem) = n.
Proof. intros. unfold slice. rewrite length_take, length_drop. lia. Qed.

(** The slice of a concatenation that starts and ends at its seams. *)
Lemma slice_app (l k r : bytes) off n :
  off = length l → n = length k → slice off n (l ++ k ++ r) = k.
Proof.
  intros -> ->. unfold slice. rewrite drop_app_length. apply take_app_length.
Qed.

Lemma read_at_app (l k r : bytes) off n :
  off = length l → n = length k → read_at off n (l ++ k ++ r) = Ret k.
Proof.
  intros Hl Hk. unfold read_at.
  rewrite decide_True by (rewrite !length_app; lia). by rewrite slice_app.
Qed.

(** Writing just after an already written prefix extends that prefix. *)
Lemma write_at_extend (done raw bs : bytes) off :
  off = length done → (length bs ≤ length raw)%nat →
  write_at off bs (done ++ raw) = Ret ((done ++ bs) ++ drop (length bs) raw).
Proof.
  intros -> Hle. unfold write_at.
  rewrite decide_True by (rewrite length_app; lia).
  rewrite take_app_length, drop_app_add, <- app_assoc. done.
Qed.

(** What a write leaves in the memory: its own bytes, and before it and in
    the length what was there. *)
Lemma write_at_length off bs mem mem' :
  write_at off bs mem = Ret mem' → length mem' = length mem ∧ (off + length bs ≤ length mem)%nat.
Proof.
  unfold write_at. case_decide as H; intros [= <-]. rewrite !length_app, length_take, length_drop. lia.
Qed.

Lemma write_at_slice off bs mem mem' :
  write_at off bs mem = Ret mem' → slice off (length bs) mem' = bs.
Proof.
  unfold write_at. case_decide as H; intros [= <-]. apply slice_app; [|done]. rewrite length_take. lia.
Qed.

Lemma write_at_slice_before off bs mem mem' i n :
  write_at off bs mem = Ret mem' → (i + n ≤ off)%nat → slice i n mem' = slice i n mem.
Proof.
  unfold write_at. case_decide as H; intros [= <-] Hi. unfold slice.
  rewrite drop_app_le by (rewrite length_take; lia).
  rewrite skipn_firstn_comm, take_app_le by (rewrite length_take, length_drop; lia).
  by rewrite take_take, Nat.min_l by lia.
Qed.

(** ** Lists *)

(** [omap] on lists. *)
Lemma omap_cons {A B} (f : A → option B) x (l : list A) :
  omap f (x :: l) = match f x with Some y => y :: omap f l | None => omap f l end.
Proof. done. Qed.

Lemma omap_same {A B} (f g : A → option B) (l : list A) : (∀ x, x ∈ l → f x = g x) → omap f l = omap g l.
Proof.
  induction l as [|x l IH]; intros Hfg; [done|]. rewrite !omap_cons, (Hfg x), IH by (by left || (intros; apply Hfg; by right)).
  done.
Qed.

Lemma length_omap_all {A B} (f : A → option B) (l : list A) :
  (∀ x, x ∈ l → is_Some (f x)) → length (omap f l) = length l.
Proof.
  induction l as [|x l IH]; intros Hall; [done|]. rewrite omap_cons.
  destruct (Hall x) as [y ->]; [by left|]. simpl. rewrite IH; [done|]. intros z Hz. apply Hall. by right.
Qed.

Lemma filter_permutation {A} (p : A → bool) l k : l ≡ₚ k → List.filter p l ≡ₚ List.filter p k.
Proof.
  induction 1 as [|x l k _ IH|x y l|l k m _ IH1 _ IH2]; simpl.
  - done.
  - destruct (p x); [by constructor|done].
  - destruct (p x), (p y); try done. constructor.
  - by etrans.
Qed.

Lemma elem_of_filter_bool {A} (p : A → bool) l x : x ∈ List.filter p l ↔ x ∈ l ∧ p x = true.
Proof. rewrite !list_elem_of_In. apply filter_In. Qed.

(** ** Reachability for step relations *)

Section star.
Context {S L : Type} (step : S → L → S → Prop).

(** [run s tr s']: the transitions labelled [tr] lead from [s] to [s']. *)
Inductive run : S → list L → S → Prop :=
| run_refl s : run s [] s
| run_step s l s' tr s'' : step s l s' → run s' tr s'' → run s (l :: tr) s''.

Lemma run_trans s tr s' tr' s'' : run s tr s' → run s' tr' s'' → run s (tr ++ tr') s''.
Proof. induction 1; simpl; eauto using run. Qed.

Lemma run_app s tr tr' s'' : run s (tr ++ tr') s'' → ∃ s', run s tr s' ∧ run s' tr' s''.
Proof.
  revert s. induction tr as [|l tr IH]; intros s Hr; [by exists s; split; [constructor|]|].
  inversion Hr as [|? ? s1 ? ? Hs Hr1]; subst. destruct (IH _ Hr1) as (s' & ? & ?). exists s'. by split; [econstructor|].
Qed.

Lemma run_single s l s' : run s [l] s' → step s l s'.
Proof. intros Hr. inversion Hr as [|? ? ? ? ? Hs Hr1]; subst. by inversion Hr1; subst. Qed.

Lemma run_invariant (I : S → Prop) s tr s' :
  (∀ s l s', I s → step s l s' → I s') → run s tr s' → I s → I s'.
Proof. intros Hstep. induction 1; eauto. Qed.

(** An invariant that also relates the state to the labels seen so far. *)
Lemma run_trace_invariant (I : list L → S → Prop) s tr s' :
  (∀ tr s l s', I tr s → step s l s' → I (tr ++ [l]) s') →
  run s tr s' → ∀ tr0, I tr0 s → I (tr0 ++ tr) s'.
Proof.
  intros Hstep. induction 1 as [|s l s' tr s'' Hl _ IH]; intros tr0 H0.
  - by rewrite app_nil_r.
  - replace (tr0 ++ l :: tr) with ((tr0 ++ [l]) ++ tr) by by rewrite <- app_assoc.
    eauto.
Qed.
End star.

(** ** Shared automation *)

(** Case analysis on every decision and match of the goal and hypotheses. *)
Ltac split_cases := repeat (case_decide || case_match); simplify_eq/=.

(** Turn [Ret]-valued binds of hypotheses into their intermediate results. *)
Ltac inv_ret :=
  repeat match goal with
  | H : _ ≫= _ = Ret _ |- _ =>
      apply outcome_bind_Ret_inv in H as (? & ? & ?)
  | H : Ret _ = Ret _ |- _ => injection H as H; subst
  | H : Throw _ = Ret _ |- _ => discriminate H
  | H : Undef _ = Ret _ |- _ => discriminate H
  end; simplify_eq/=.

Create HintDb es.
Create Rewrite HintDb es.
#[export] Hint Resolve u8_range wrap_u32_range length_le_encode : es.
#[export] Hint Rewrite @length_app @length_le_encode @length_take @length_drop : es.
#[export] Hint Rewrite bytes_string_bytes string_bytes_string : es.
