(* ===== verification/Errors.v ===== *)
(** Error enumerations, categories and error codes (include/error/error.hpp),
    and the errors of Boost.Asio the client compares against. *)
From S2P Require Import Prelude.

Inductive connection_errors : Type :=
| authentication_failed
| identification_failed
| operation_timeout
| heartbeat_timeout
| max_reconnections
| max_operation_retries
| endpoint_discovery
| conn_unexpected_response
| connection_closed
| authentication_timeout.

Inductive communication_errors : Type :=
| bad_length_prefix
| unexpected_response
| server_error
| bad_request_error.

Inductive stream_errors : Type :=
| wrong_expected_version
| stream_deleted
| stream_access_denied
| invalid_transaction
| stream_not_found
| version_mismatch
| transaction_committed
| transaction_rolled_back.

Inductive subscription_errors : Type :=
| unsubscribed
| sub_access_denied
| sub_not_found
| sub_unknown
| sub_not_authenticated
| subscription_request_not_sent
| bad_subscription_confirmation
| persistent_subscription_deleted
| subscriber_max_count_reached
| persistent_subscription_already_exists
| persistent_subscription_fail
| persistent_subscription_does_not_exist.

#[global] Instance connection_errors_eq_dec : EqDecision connection_errors.
Proof. solve_decision. Defined.
#[global] Instance communication_errors_eq_dec : EqDecision communication_errors.
Proof. solve_decision. Defined.
#[global] Instance stream_errors_eq_dec : EqDecision stream_errors.
Proof. solve_decision. Defined.
#[global] Instance subscription_errors_eq_dec : EqDecision subscription_errors.
Proof. solve_decision. Defined.

(** The underlying values of the enumerators. *)
Definition connection_errors_value (e : connection_errors) : Z :=
  match e with
  | authentication_failed => 1
  | identification_failed => 2
  | operation_timeout => 3
  | heartbeat_timeout => 4
  | max_reconnections => 5
  | max_operation_retries => 6
  | endpoint_discovery => 7
  | conn_unexpected_response => 8
  | connection_closed => 9
  | authentication_timeout => 10
  end.

Definition communication_errors_value (e : communication_errors) : Z :=
  match e with
  | bad_length_prefix => 1
  | unexpected_response => 2
  | server_error => 3
  | bad_request_error => 4
  end.

Definition stream_errors_value (e : stream_errors) : Z :=
  match e with
  | wrong_expected_version => 1
  | stream_deleted => 2
  | stream_access_denied => 3
  | invalid_transaction => 4
  | stream_not_found => 5
  | version_mismatch => 6
  | transaction_committed => 7
  | transaction_rolled_back => 8
  end.

Definition subscription_errors_value (e : subscription_errors) : Z :=
  match e with
  | unsubscribed => 1
  | sub_access_denied => 2
  | sub_not_found => 3
  | sub_unknown => 4
  | sub_not_authenticated => 5
  | subscription_request_not_sent => 6
  | bad_subscription_confirmation => 7
  | persistent_subscription_deleted => 8
  | subscriber_max_count_reached => 9
  | persistent_subscription_already_exists => 10
  | persistent_subscription_fail => 11
  | persistent_subscription_does_not_exist => 12
  end.

(** The error categories of the client; [system_category] stands for every
    category of Boost, whose codes the client only passes through. *)
Inductive error_category : Type :=
| system_category
| connection_category
| communication_category
| stream_category
| subscription_category.

#[global] Instance error_category_eq_dec : EqDecision error_category.
Proof. solve_decision. Defined.

Definition category_name (c : error_category) : string :=
  match c with
  | system_category => "system"
  | connection_category => "eventstore.connection"
  | communication_category => "eventstore.communication"
  | stream_category => "eventstore.stream"
  | subscription_category => "eventstore.subscription"
  end.

(** error_category::message of the client's categories: a switch on the value. *)
Definition connection_message (e : Z) : string :=
  match e with
  | 1 => "failed to authenticate to server"
  | 2 => "failed to identify to server"
  | 3 => "request timed out"
  | 4 => "server failed to respond to heartbeat request"
  | 5 => "reached maximum number of reconnection attempts to server"
  | 6 => "reached maximum number of retries for operation"
  | 7 => "failed to discover nodes"
  | 8 => "server response is not coherent with client request"
  | 9 => "connection to server terminated"
  | 10 => "authentication timed out"
  | _ => "unknown error"
  end.

Definition communication_message (e : Z) : string :=
  match e with
  | 1 => "tcp length-prefixed frame had invalid message length"
  | 2 => "server response could not be understood"
  | 3 => "error on server side"
  | 4 => "bad request"
  | _ => "unknown error"
  end.

Definition stream_message (e : Z) : string :=
  match e with
  | 3 => "access denied for stream"
  | 4 => "invalid transaction"
  | 2 => "stream has been deleted"
  | 1 => "wrong expected version, stream was updated before this operation or did not exist"
  | 5 => "the stream was not found"
  | 6 => "the expected version does not match actual stream version"
  | 7 => "the transaction was already committed"
  | 8 => "the transaction was already rolled back"
  | _ => "unknown error"
  end.

Definition subscription_message (e : Z) : string :=
  match e with
  | 2 => "subscription failed due to access denied"
  | 3 => "subscription not found"
  | 1 => "user unsubscribed"
  | 4 => "unsubscribed for unknown reason"
  | 5 => "not authenticated"
  | 6 => "an error occurred before sending the subscription request"
  | 7 => "subscription confirmation did not have last_event_number or last_commit_position"
  | 8 => "persistent subscription was deleted"
  | 9 => "the maximum number of subscriber for this subscription group was reached"
  | 10 => "could not create the persistent subscription since it already exists"
  | 11 => "the operation on the persistent subscription failed"
  | 12 => "the persistent subscription did not exist"
  | _ => "unknown error"
  end.

(** boost::system::error_code: a value and its category; the code is an
    error when the value is not zero. *)
Record error_code : Type := mk_error_code { value : Z; category : error_category }.

#[global] Instance error_code_eq_dec : EqDecision error_code.
Proof. solve_decision. Defined.

Definition success : error_code := mk_error_code 0 system_category.
Definition failed (ec : error_code) : bool := negb (value ec =? 0).

(** make_error_code, overloaded on the enumeration. *)
Class ErrorEnum (E : Type) := make_error_code : E → error_code.

#[global] Instance connection_error_code : ErrorEnum connection_errors :=
  λ ec, mk_error_code (connection_errors_value ec) connection_category.
#[global] Instance communication_error_code : ErrorEnum communication_errors :=
  λ ec, mk_error_code (communication_errors_value ec) communication_category.
#[global] Instance stream_error_code : ErrorEnum stream_errors :=
  λ ec, mk_error_code (stream_errors_value ec) stream_category.
#[global] Instance subscription_error_code : ErrorEnum subscription_errors :=
  λ ec, mk_error_code (subscription_errors_value ec) subscription_category.

(** [ec == enumerator]: the enumerator is converted by make_error_code. *)
Definition is_error {E} `{ErrorEnum E} (ec : error_code) (e : E) : bool :=
  bool_decide (ec = make_error_code e).

(** What Boost.Asio documents of the code a cancelled wait completes with:
    it is an error of one of Boost's own categories. *)
Class AsioErrors := {
  operation_aborted : error_code;
  operation_aborted_system : category operation_aborted = system_category;
  operation_aborted_failed : failed operation_aborted = true
}.

(** The value Linux gives it (ECANCELED); used by examples. *)
Definition linux_asio_errors : AsioErrors.
Proof. refine {| operation_aborted := mk_error_code 125 system_category |}; reflexivity. Defined.

(** ** Facts *)

Lemma failed_make_error_code_connection (e : connection_errors) : failed (make_error_code e) = true.
Proof. by destruct e. Qed.
Lemma failed_make_error_code_communication (e : communication_errors) : failed (make_error_code e) = true.
Proof. by destruct e. Qed.
Lemma failed_make_error_code_stream (e : stream_errors) : failed (make_error_code e) = true.
Proof. by destruct e. Qed.
Lemma failed_make_error_code_subscription (e : subscription_errors) : failed (make_error_code e) = true.
Proof. by destruct e. Qed.
Lemma failed_success : failed success = false.
Proof. reflexivity. Qed.

#[export] Hint Resolve failed_make_error_code_connection failed_make_error_code_communication
  failed_make_error_code_stream failed_make_error_code_subscription : es.

#[global] Instance connection_error_code_inj :
  Inj (=) (=) (λ e : connection_errors, make_error_code e).
Proof. intros [] []; by intros [=]. Qed.
#[global] Instance communication_error_code_inj :
  Inj (=) (=) (λ e : communication_errors, make_error_code e).
Proof. intros [] []; by intros [=]. Qed.
#[global] Instance stream_error_code_inj :
  Inj (=) (=) (λ e : stream_errors, make_error_code e).
Proof. intros [] []; by intros [=]. Qed.
#[global] Instance subscription_error_code_inj :
  Inj (=) (=) (λ e : subscription_errors, make_error_code e).
Proof. intros [] []; by intros [=]. Qed.

Lemma is_error_iff {E} `{ErrorEnum E} ec (e : E) :
  is_error ec e = true ↔ ec = make_error_code e.
Proof. unfold is_error. by rewrite bool_decide_eq_true. Qed.

Lemma is_error_refl {E} `{ErrorEnum E} (e : E) : is_error (make_error_code e) e = true.
Proof. by apply is_error_iff. Qed.

(** No code of the client is the code of a cancelled wait. *)
Lemma connection_error_not_aborted {AE : AsioErrors} (e : connection_errors) :
  make_error_code e ≠ operation_aborted.
Proof. intros E. pose proof operation_aborted_system as Hs. by rewrite <- E in Hs. Qed.

(** The message an error code prints. *)
Definition message (ec : error_code) : option string :=
  match category ec with
  | system_category => None (* Boost's *)
  | connection_category => Some (connection_message (value ec))
  | communication_category => Some (communication_message (value ec))
  | stream_category => Some (stream_message (value ec))
  | subscription_category => Some (subscription_message (value ec))
  end.

(** Any enumerator of the client, for statements over all of them. *)
Inductive client_error : Type :=
| of_connection (e : connection_errors)
| of_communication (e : communication_errors)
| of_stream (e : stream_errors)
| of_subscription (e : subscription_errors).

Definition client_error_code (e : client_error) : error_code :=
  match e with
  | of_connection e => make_error_code e
  | of_communication e => make_error_code e
  | of_stream e => make_error_code e
  | of_subscription e => make_error_code e
  end.

(** the codes of the client are errors, no two enumerators of any of the
    four enumerations share a code, and none prints the fallback message. *)
Theorem client_error_codes_sound :
  (∀ e, failed (client_error_code e) = true) ∧
  (∀ e1 e2, client_error_code e1 = client_error_code e2 → e1 = e2) ∧
  (∀ e, message (client_error_code e) ≠ Some "unknown error"%string).
Proof.
  split_and!.
  - intros [e|e|e|e]; simpl; auto with es.
  - intros [[]|[]|[]|[]] [[]|[]|[]|[]]; by intros [=].
  - intros [[]|[]|[]|[]]; by intros [=].
Qed.
