(* ===== verification/Basics.v ===== *)
(** Small value types of the client: guids (guid.hpp), positions of the
    transaction log (position.hpp), read directions, expected versions, the
    names of system streams (system/*.hpp), user credentials
    (user/user_credentials.hpp) and the bookkeeping records of the connection
    operations (connection/*_info.hpp). *)
From S2P Require Import Prelude.

(** ** Guids *)
Module Guid.
(** boost::uuids::uuid, an array of 16 bytes. *)
Abbreviation guid_type := (list byte).
Definition guid_size : nat := 16.
Definition wf (g : guid_type) : Prop := length g = guid_size.
#[global] Instance wf_dec g : Decision (wf g) := Nat.eq_dec _ _.

(** es::size *)
Definition size (g : guid_type) : Z := 16.

(** es::guid of a character pointer: copies 16 bytes from it. *)
Definition guid_from_chars (a : bytes) : outcome guid_type := read_at 0 guid_size a.

Lemma guid_from_chars_wf a g : guid_from_chars a = Ret g → wf g.
Proof.
  unfold guid_from_chars, read_at. case_decide; intros [=<-].
  by apply length_slice.
Qed.

Lemma guid_from_chars_self g : wf g → guid_from_chars g = Ret g.
Proof.
  unfold wf, guid_from_chars, read_at. intros H. rewrite decide_True by (rewrite H; simpl; lia).
  unfold slice. rewrite drop_0, <- H, firstn_all. done.
Qed.
End Guid.
Export Guid (guid_type).

(** ** Positions of the transaction log *)
Module Position.
Record position := mk_position { commit_position : Z; prepare_position : Z }.

#[global] Instance position_eq_dec : EqDecision position.
Proof. solve_decision. Defined.

Definition default_position : position := mk_position (-1) (-1).
Definition start : position := mk_position 0 0.
Definition end_ : position := mk_position (-1) (-1).

Definition lt (p other : position) : bool :=
  (commit_position p <? commit_position other) ||
  ((commit_position p =? commit_position other) && (prepare_position p <? prepare_position other)).
Definition gt (p other : position) : bool :=
  (commit_position p >? commit_position other) ||
  ((commit_position p =? commit_position other) && (prepare_position p >? prepare_position other)).
Definition eq (p other : position) : bool :=
  (commit_position p =? commit_position other) && (prepare_position p =? prepare_position other).
Definition ne (p other : position) : bool := negb (eq p other).
Definition ge (p other : position) : bool := eq p other || gt p other.
Definition le (p other : position) : bool := eq p other || lt p other.

Lemma eq_spec p q : eq p q = true ↔ p = q.
Proof.
  destruct p, q; unfold eq; simpl. rewrite andb_true_iff, !Z.eqb_eq.
  split; [intros [-> ->]; done | by intros [=]].
Qed.

Lemma lt_spec p q : lt p q = true ↔
  commit_position p < commit_position q ∨
  (commit_position p = commit_position q ∧ prepare_position p < prepare_position q).
Proof. unfold lt. rewrite orb_true_iff, andb_true_iff, Z.eqb_eq, !Z.ltb_lt. done. Qed.

Lemma gt_lt p q : gt p q = lt q p.
Proof. unfold gt, lt. rewrite !Z.gtb_ltb, (Z.eqb_sym (commit_position p)). done. Qed.

Lemma lt_irrefl p : lt p p = false.
Proof. destruct (lt p p) eqn:E; [|done]. apply lt_spec in E. lia. Qed.

(** The six comparison operators of a position agree with one strict total
    order: exactly one of the three cases holds, [lt] is transitive, and
    the other operators are the ones derived from it. *)
Theorem position_total_order :
  (∀ p q, (lt p q = true ∧ eq p q = false ∧ gt p q = false) ∨
          (lt p q = false ∧ p = q ∧ gt p q = false) ∨
          (lt p q = false ∧ eq p q = false ∧ gt p q = true)) ∧
  (∀ p q r, lt p q = true → lt q r = true → lt p r = true) ∧
  (∀ p q, le p q = negb (gt p q) ∧ ge p q = negb (lt p q) ∧ ne p q = negb (eq p q)).
Proof.
  assert (Htri : ∀ p q, (lt p q = true ∧ eq p q = false ∧ gt p q = false) ∨
          (lt p q = false ∧ eq p q = true ∧ gt p q = false) ∨
          (lt p q = false ∧ eq p q = false ∧ gt p q = true)).
  { intros [c p] [c' p']. unfold lt, eq, gt; simpl. rewrite !Z.gtb_ltb.
    destruct (Z.ltb_spec c c'), (Z.eqb_spec c c'), (Z.ltb_spec p p'),
      (Z.ltb_spec c' c), (Z.eqb_spec p p'), (Z.ltb_spec p' p); simpl; lia || tauto. }
  split_and!.
  - intros p q. destruct (Htri p q) as [?|[(?&He&?)|?]]; [tauto| |tauto].
    apply eq_spec in He. tauto.
  - intros p q r. rewrite !lt_spec. lia.
  - intros p q. unfold le, ge, ne. destruct (Htri p q) as [(->&->&->)|[(->&->&->)|(->&->&->)]]; done.
Qed.
End Position.
Export Position (position, mk_position, commit_position, prepare_position).

(** ** Enumerations *)
Inductive read_direction : Type := forward | backward.
#[global] Instance read_direction_eq_dec : EqDecision read_direction.
Proof. solve_decision. Defined.

Inductive expected_version : Type := any | no_stream | stream_exists.
Definition expected_version_value (v : expected_version) : Z :=
  match v with any => -2 | no_stream => -1 | stream_exists => -4 end.

Inductive node_preference : Type := prefer_master | prefer_slave | prefer_random.
#[global] Instance node_preference_eq_dec : EqDecision node_preference.
Proof. solve_decision. Defined.

(** version.hpp *)
Definition ES_CLIENT_VERSION : Z := 1.

(** ** System names *)
Module System.
Open Scope string_scope.

Definition dispatch_to_single : string := "DispatchToSingle".
Definition round_robin : string := "RoundRobin".
Definition pinned : string := "Pinned".

Definition event_type_stream_metadata : string := "$metadata".

Definition meta_stream_of (stream : string) : string := "$$" ++ stream.

(** [stream.find("$$") == 0] *)
Definition is_meta_stream (stream : string) : bool :=
  bool_decide (index 0 "$$" stream = Some 0%nat).

(** [meta_stream.substr(0, 2)] *)
Definition original_stream_of (meta_stream : string) : string := substring 0 2 meta_stream.

Lemma prefix_app_str p s : String.prefix p (p ++ s) = true.
Proof.
  induction p as [|a p IH]; simpl; [by destruct s|].
  destruct (Ascii.ascii_dec a a); done.
Qed.

Lemma is_meta_stream_prefix s : is_meta_stream s = String.prefix "$$" s.
Proof.
  unfold is_meta_stream. destruct s as [|a s]; [done|].
  cbn [index]. destruct (String.prefix "$$" (String a s)) eqn:E.
  - by rewrite bool_decide_eq_true.
  - rewrite bool_decide_eq_false. destruct (index 0 "$$" s); congruence.
Qed.

(** A metadata stream name is recognised as such, and recognising one means
    that it is the metadata stream of the name after its first two
    characters; but original_stream_of does not return that name: whatever
    the stream, it returns the prefix "$$" itself. *)
Theorem meta_stream_naming :
  (∀ s, is_meta_stream (meta_stream_of s) = true) ∧
  (∀ m, is_meta_stream m = true → ∃ s, m = meta_stream_of s) ∧
  (∀ s, original_stream_of (meta_stream_of s) = "$$").
Proof.
  split_and!.
  - intros s. rewrite is_meta_stream_prefix. apply prefix_app_str.
  - intros m. rewrite is_meta_stream_prefix. unfold meta_stream_of.
    intros H%String.prefix_correct.
    destruct m as [|a [|b s]]; simpl in H; try discriminate H.
    injection H as -> ->. by exists s.
  - intros s. unfold original_stream_of, meta_stream_of. by destruct s.
Qed.
End System.

(** ** User credentials *)
Record user_credentials := mk_user_credentials { username : string; password : string }.

#[global] Instance user_credentials_eq_dec : EqDecision user_credentials.
Proof. solve_decision. Defined.

Definition no_credentials : user_credentials := mk_user_credentials EmptyString EmptyString.

Definition credentials_null (c : user_credentials) : bool :=
  (String.eqb (username c) EmptyString) && (String.eqb (password c) EmptyString).
Definition credentials_eq (c rhs : user_credentials) : bool :=
  String.eqb (username c) (username rhs) && String.eqb (password c) (password rhs).

Lemma credentials_null_iff c : credentials_null c = true ↔ c = no_credentials.
Proof.
  destruct c as [u p]. unfold credentials_null; simpl.
  rewrite andb_true_iff, !String.eqb_eq. split; [by intros [-> ->]|by intros [=]].
Qed.

(** ** Bookkeeping records of the connection operations *)
(** detail::connection::heartbeat_info; the timestamp (a duration) is a count of ticks. *)
Record heartbeat_info := mk_heartbeat_info {
  last_package_no : Z;          (* int *)
  heartbeat_timestamp : Z;
  is_interval_stage : bool
}.
(** detail::connection::identity_info and authentication_info *)
Record identity_info := mk_identity_info {
  identity_correlation_id : guid_type;
  identity_timestamp : Z
}.
Record authentication_info := mk_authentication_info {
  authentication_correlation_id : guid_type;
  authentication_timestamp : Z
}.
