(* ===== verification/Logger.v ===== *)
(** The logger (include/logger.hpp): one global object around an asynchronous
    spdlog logger, with its levels.  spdlog is used through its interface; the
    client's other files do not depend on what is logged. *)
From S2P Require Import Prelude.

(** spdlog::level::level_enum *)
Inductive spd_level : Type :=
| spd_trace | spd_debug | spd_info | spd_warn | spd_err | spd_critical | spd_off | spd_n_levels.

#[global] Instance spd_level_eq_dec : EqDecision spd_level.
Proof. solve_decision. Defined.

(** What the client uses of spdlog: making the asynchronous logger (which may
    throw spdlog_ex, [None]), its level, writing a message at a level (of that
    logger, or of spdlog's default logger), flushing and dropping loggers.
    [L] is the state of spdlog. *)
Class Spdlog (L : Type) := {
  spd_create_async : string → L → option L;
  spd_level_of : L → spd_level;
  spd_set_level : spd_level → L → L;
  spd_log : spd_level → string → L → L;
  spd_log_default : spd_level → string → L → L;
  spd_flush : L → L;
  spd_drop_all : L → L
}.
Class SpdlogLaws (L : Type) `{!Spdlog L} := {
  spd_level_set l s : spd_level_of (spd_set_level l s) = l;
  (* writing and flushing leave the logger's level *)
  spd_level_log l m s : spd_level_of (spd_log l m s) = spd_level_of s;
  spd_level_log_default l m s : spd_level_of (spd_log_default l m s) = spd_level_of s;
  spd_level_flush s : spd_level_of (spd_flush s) = spd_level_of s
}.

(** logger::level *)
Inductive level : Type := trace | debug | info | warn | error | critical | off.

#[global] Instance level_eq_dec : EqDecision level.
Proof. solve_decision. Defined.

Section logger.
Context {L : Type} {SP : Spdlog L}.

(** The logger object: [stdout_logger_] is a null pointer when making the
    asynchronous logger threw. *)
Record logger := mk_logger {
  stdout_logger_ : bool; (* not null *)
  spdlog_state : L
}.

(** logger(): the exception is caught and reported on std::cerr. *)
Definition make_logger (s : L) : logger :=
  match spd_create_async "stdout" s with
  | Some s => mk_logger true (spd_set_level spd_err s)
  | None => mk_logger false s
  end.

(** [stdout_logger_->] *)
Definition through_stdout_logger (f : L → L) (l : logger) : outcome logger :=
  if stdout_logger_ l then Ret (mk_logger true (f (spdlog_state l))) else Undef null_dereference.

Definition get_level (l : logger) : outcome level :=
  if stdout_logger_ l then
    Ret match spd_level_of (spdlog_state l) with
        | spd_trace => trace
        | spd_debug => debug
        | spd_info => info
        | spd_warn => warn
        | spd_err => error
        | spd_critical => critical
        | spd_off => off
        | spd_n_levels => error
        end
  else Undef null_dereference.

Definition set_level (lvl : level) (l : logger) : outcome logger :=
  match lvl with
  | trace => through_stdout_logger (spd_set_level spd_trace) l
  | debug => through_stdout_logger (spd_set_level spd_debug) l
  | info => through_stdout_logger (spd_set_level spd_info) l
  | warn => through_stdout_logger (spd_set_level spd_warn) l
  | error => through_stdout_logger (spd_set_level spd_err) l
  | critical => through_stdout_logger (spd_set_level spd_critical) l
  | off => through_stdout_logger (spd_set_level spd_off) l
  end.

(** The overload for names; a name of no level does nothing. *)
Definition set_level_name (lvl : string) (l : logger) : outcome logger :=
  if String.eqb lvl "trace" then through_stdout_logger (spd_set_level spd_trace) l
  else if String.eqb lvl "debug" then through_stdout_logger (spd_set_level spd_debug) l
  else if String.eqb lvl "info" then through_stdout_logger (spd_set_level spd_info) l
  else if String.eqb lvl "warn" then through_stdout_logger (spd_set_level spd_warn) l
  else if String.eqb lvl "error" then through_stdout_logger (spd_set_level spd_err) l
  else if String.eqb lvl "critical" then through_stdout_logger (spd_set_level spd_critical) l
  else if String.eqb lvl "off" then through_stdout_logger (spd_set_level spd_off) l
  else Ret l.

(** The six asynchronous functions write to the logger's own spdlog logger,
    the six synchronous ones to spdlog's default logger; [message] is the
    format string, whose arguments are spdlog's business. *)
Definition log_trace (message : string) := through_stdout_logger (spd_log spd_trace message).
Definition log_debug (message : string) := through_stdout_logger (spd_log spd_debug message).
Definition log_info (message : string) := through_stdout_logger (spd_log spd_info message).
Definition log_warn (message : string) := through_stdout_logger (spd_log spd_warn message).
Definition log_error (message : string) := through_stdout_logger (spd_log spd_err message).
Definition log_critical (message : string) := through_stdout_logger (spd_log spd_critical message).

Definition through_default_logger (f : L → L) (l : logger) : logger :=
  mk_logger (stdout_logger_ l) (f (spdlog_state l)).
Definition trace_sync (message : string) := through_default_logger (spd_log_default spd_trace message).
Definition debug_sync (message : string) := through_default_logger (spd_log_default spd_debug message).
Definition info_sync (message : string) := through_default_logger (spd_log_default spd_info message).
Definition warn_sync (message : string) := through_default_logger (spd_log_default spd_warn message).
Definition error_sync (message : string) := through_default_logger (spd_log_default spd_err message).
Definition critical_sync (message : string) := through_default_logger (spd_log_default spd_critical message).

Definition flush : logger → outcome logger := through_stdout_logger spd_flush.
Definition destroy_logger (l : logger) : L := spd_drop_all (spdlog_state l).

(** The functions of the logger that write a message, with their levels. *)
Definition async_functions : list (spd_level * (string → logger → outcome logger)) :=
  [(spd_trace, log_trace); (spd_debug, log_debug); (spd_info, log_info); (spd_warn, log_warn);
   (spd_err, log_error); (spd_critical, log_critical)].
Definition sync_functions : list (spd_level * (string → logger → logger)) :=
  [(spd_trace, trace_sync); (spd_debug, debug_sync); (spd_info, info_sync); (spd_warn, warn_sync);
   (spd_err, error_sync); (spd_critical, critical_sync)].

Lemma async_function l p message :
  p ∈ async_functions → p.2 message l = through_stdout_logger (spd_log p.1 message) l.
Proof.
  unfold async_functions. intros Hp. repeat (apply elem_of_cons in Hp as [->|Hp]; [done|]).
  by apply elem_of_nil in Hp.
Qed.
Lemma sync_function l p message :
  p ∈ sync_functions → p.2 message l = through_default_logger (spd_log_default p.1 message) l.
Proof.
  unfold sync_functions. intros Hp. repeat (apply elem_of_cons in Hp as [->|Hp]; [done|]).
  by apply elem_of_nil in Hp.
Qed.

Lemma get_level_same (l l' : logger) :
  stdout_logger_ l' = stdout_logger_ l → spd_level_of (spdlog_state l') = spd_level_of (spdlog_state l) →
  get_level l' = get_level l.
Proof. intros H1 H2. unfold get_level. by rewrite H1, H2. Qed.
End logger.
Arguments logger L : clear implicits.

(** The level of spdlog that set_level sets. *)
Definition spd_level_of_level (l : level) : spd_level :=
  match l with
  | trace => spd_trace | debug => spd_debug | info => spd_info | warn => spd_warn
  | error => spd_err | critical => spd_critical | off => spd_off
  end.

(** The name of a level that set_level understands. *)
Definition level_name (l : level) : string :=
  match l with
  | trace => "trace" | debug => "debug" | info => "info" | warn => "warn"
  | error => "error" | critical => "critical" | off => "off"
  end.

(** spdlog with its level and the messages written, for examples. *)
Definition listing_spdlog : Spdlog (spd_level * list (spd_level * string)) := {|
  spd_create_async _ s := Some s;
  spd_level_of s := s.1;
  spd_set_level l s := (l, s.2);
  spd_log l m s := (s.1, s.2 ++ [(l, m)]);
  spd_log_default l m s := (s.1, s.2 ++ [(l, m)]);
  spd_flush s := s;
  spd_drop_all s := s
|}.
#[global] Instance listing_spdlog_laws : @SpdlogLaws _ listing_spdlog.
Proof. by split. Defined.

(** C40: The level round trips: once the logger has been made, setting a level,
    or the name of a level, is what get_level then answers, also after any of
    the twelve functions that write a message and after a flush; a text that
    names no level leaves the logger as it is; a new logger is at level error.
    Each of the six asynchronous functions writes its message, at its own
    level, to the logger's own spdlog logger, each of the six synchronous ones
    to spdlog's default logger. When making the logger failed, getting or
    setting a level, flushing and the asynchronous functions dereference a null
    pointer, while the synchronous functions write as before. *)
Theorem level_roundtrip {L : Type} {SP : Spdlog L} {SL : SpdlogLaws L} (l : logger L) (lvl : level) :
  (stdout_logger_ l = true →
    (∃ l1, set_level lvl l = Ret l1 ∧ get_level l1 = Ret lvl ∧
      (∀ p message, p ∈ async_functions → (l2 ← p.2 message l1; get_level l2) = Ret lvl) ∧
      (∀ p message, p ∈ sync_functions → get_level (p.2 message l1) = Ret lvl) ∧
      (l2 ← flush l1; get_level l2) = Ret lvl) ∧
    set_level_name (level_name lvl) l = set_level lvl l) ∧
  (∀ text, (∀ lvl', text ≠ level_name lvl') → set_level_name text l = Ret l) ∧
  (∀ s s', spd_create_async "stdout" s = Some s' → get_level (make_logger s) = Ret error) ∧
  (∀ p message, p ∈ async_functions → p.2 message l =
    if stdout_logger_ l then Ret (mk_logger true (spd_log p.1 message (spdlog_state l)))
    else Undef null_dereference) ∧
  (∀ p message, p ∈ sync_functions → p.2 message l =
    mk_logger (stdout_logger_ l) (spd_log_default p.1 message (spdlog_state l))) ∧
  (stdout_logger_ l = false →
    get_level l = Undef null_dereference ∧ set_level lvl l = Undef null_dereference ∧
    flush l = Undef null_dereference).
Proof.
  split_and!.
  - intros Hl. split.
    + exists (mk_logger true (spd_set_level (spd_level_of_level lvl) (spdlog_state l))).
      assert (get_level (mk_logger true (spd_set_level (spd_level_of_level lvl) (spdlog_state l))) = Ret lvl) as Hlvl
        by (unfold get_level; cbn [stdout_logger_ spdlog_state]; rewrite spd_level_set; by destruct lvl).
      split_and!; [destruct lvl; unfold set_level, through_stdout_logger; by rewrite Hl|done|..].
      * intros p message Hp. rewrite (async_function _ _ _ Hp), <- Hlvl. apply get_level_same, spd_level_log. done.
      * intros p message Hp. rewrite (sync_function _ _ _ Hp), <- Hlvl. apply get_level_same, spd_level_log_default. done.
      * rewrite <- Hlvl. apply get_level_same, spd_level_flush. done.
    + destruct lvl; unfold set_level, set_level_name; done.
  - intros text Hn. unfold set_level_name.
    rewrite !(proj2 (String.eqb_neq _ _)); [done|..];
      [apply (Hn off)|apply (Hn critical)|apply (Hn error)|apply (Hn warn)|apply (Hn info)|
       apply (Hn debug)|apply (Hn trace)].
  - intros s s' Hs. unfold make_logger, get_level. rewrite Hs. simpl. by rewrite spd_level_set.
  - intros p message Hp. by rewrite (async_function _ _ _ Hp).
  - intros p message Hp. by rewrite (sync_function _ _ _ Hp).
  - intros Hl. unfold get_level, flush, through_stdout_logger. rewrite Hl. split_and!; try done.
    destruct lvl; unfold set_level, through_stdout_logger; by rewrite Hl.
Qed.

Lemma level_roundtrip_witness :
  let l := make_logger (SP := listing_spdlog) (spd_off, []) in
  stdout_logger_ l = true ∧
  set_level_name (SP := listing_spdlog) "warn" l = set_level (SP := listing_spdlog) warn l.
Proof.
  intros l. split; [reflexivity|].
  exact (proj2 (proj1 (level_roundtrip (SP := listing_spdlog) l warn) eq_refl)).
Defined.
