(* ===== verification/BufferQueue.v ===== *)
(** The chunked queue of buffered events (include/buffer/buffer_queue.hpp) and
    its refinement of a plain FIFO queue.  [QueueOps] with [QueueLaws] is the
    interface the catch-up subscriptions use; buffer_queue implements it. *)
From S2P Require Import Prelude.

(** ** The interface: a queue of T *)
Class QueueOps (T Q : Type) := {
  q_new : Q;
  q_empty : Q → bool;
  q_size : Q → Z;
  q_clear : Q → Q;
  q_front : Q → outcome T;
  q_pop_front : Q → outcome Q;
  q_emplace_back : T → Q → outcome Q
}.

(** [q_rel q l]: the queue holds the elements of [l], front first. *)
Class QueueLaws (T Q : Type) `{!QueueOps T Q} := {
  q_rel : Q → list T → Prop;
  q_bound : Z; (* the sizes below which q_size is exact *)
  q_bound_pos : 0 < q_bound;
  q_new_rel : q_rel q_new [];
  q_empty_rel q l : q_rel q l → q_empty q = bool_decide (l = []);
  q_size_rel q l : q_rel q l → Z.of_nat (length l) < q_bound → q_size q = Z.of_nat (length l);
  q_clear_rel q l : q_rel q l → q_rel (q_clear q) [];
  q_front_rel q x l : q_rel q (x :: l) → q_front q = Ret x;
  q_pop_front_rel q x l : q_rel q (x :: l) → ∃ q', q_pop_front q = Ret q' ∧ q_rel q' l;
  q_emplace_back_rel q l x : q_rel q l → ∃ q', q_emplace_back x q = Ret q' ∧ q_rel q' (l ++ [x])
}.

(** ** The implementation *)
Module BufferQueue.
Section buffer_queue.
Context {T : Type} (ChunkSize : nat).

(** A chunk is [std::array<char, sizeof(T) * ChunkSize>]; slot [i] is the
  bytes from [i * sizeof(T)], [None] before a T has been constructed there. *)
Abbreviation chunk := (list (option T)).

Record buffer_queue := mk_buffer_queue {
deque_ : list chunk;
front_chunk_idx_ : Z; (* unsigned int *)
back_chunk_idx_ : Z   (* unsigned int *)
}.

Definition new : buffer_queue := mk_buffer_queue [] 0 (wrap_u32 (-1)).

Definition empty (q : buffer_queue) : bool :=
match deque_ q with [] => true | _ => false end.

Definition size (q : buffer_queue) : Z :=
if empty q then 0
else if decide (length (deque_ q) = 1%nat)
then wrap_u32 (wrap_u32 (back_chunk_idx_ q - front_chunk_idx_ q) + 1)
else wrap_u64 ((Z.of_nat (length (deque_ q)) - 2) * Z.of_nat ChunkSize
               + wrap_u32 (back_chunk_idx_ q + 1)
               + wrap_u32 (Z.of_nat ChunkSize - front_chunk_idx_ q)).

Definition clear (q : buffer_queue) : buffer_queue := mk_buffer_queue [] 0 (wrap_u32 (-1)).

Definition swap (q other : buffer_queue) : buffer_queue * buffer_queue := (other, q).

(** front(): the T constructed in the front slot of the first chunk. *)
Definition front (q : buffer_queue) : outcome T :=
match deque_ q with
| [] => Undef empty_container
| c :: _ =>
    match c !! Z.to_nat (front_chunk_idx_ q) with
    | Some (Some v) => Ret v
    | Some None | None => Undef out_of_bounds
    end
end.

Definition pop_front (q : buffer_queue) : outcome buffer_queue :=
let front := wrap_u32 (front_chunk_idx_ q + 1) in
if decide (length (deque_ q) = 1%nat) then
  if front =? wrap_u32 (back_chunk_idx_ q + 1)
  then Ret (mk_buffer_queue (tail (deque_ q)) 0 (wrap_u32 (-1)))
  else Ret (mk_buffer_queue (deque_ q) front (back_chunk_idx_ q))
else
  if front =? Z.of_nat ChunkSize
  then match deque_ q with
       | [] => Undef empty_container
       | _ :: d => Ret (mk_buffer_queue d 0 (back_chunk_idx_ q))
       end
  else Ret (mk_buffer_queue (deque_ q) front (back_chunk_idx_ q)).

(** deque_.emplace_back(): a chunk with nothing constructed in it. *)
Definition fresh_chunk : chunk := replicate ChunkSize None.

(** Placement new of a T in slot [i] of the last chunk. *)
Definition construct_back (d : list chunk) (i : Z) (v : T) : outcome (list chunk) :=
match last d with
| None => Undef empty_container
| Some c =>
    if decide (Z.to_nat i < length c)%nat
    then Ret (take (length d - 1) d ++ [<[Z.to_nat i := Some v]> c])
    else Undef out_of_bounds
end.

(** push_back(T const&), push_back(T&&) and emplace_back run the same code. *)
Definition emplace_back (v : T) (q : buffer_queue) : outcome buffer_queue :=
let d := if empty q then deque_ q ++ [fresh_chunk] else deque_ q in
let back := wrap_u32 (back_chunk_idx_ q + 1) in
let '(d, back) :=
  if back =? Z.of_nat ChunkSize then (d ++ [fresh_chunk], 0) else (d, back) in
d ← construct_back d back v;
Ret (mk_buffer_queue d (front_chunk_idx_ q) back).
End buffer_queue.
Arguments buffer_queue : clear implicits.

(** ** Refinement of a FIFO list *)
Section refinement.
Context {T : Type} (ChunkSize : nat).
Hypothesis ChunkSize_pos : (0 < ChunkSize)%nat.
Hypothesis ChunkSize_u32 : Z.of_nat ChunkSize < 2 ^ 32.

Implicit Types (q : buffer_queue T) (l : list T) (d : list (list (option T))).

Abbreviation C := (Z.of_nat ChunkSize).

(** The slots of all chunks in order are: the [front_chunk_idx_] slots
  already popped, the elements, and the slots not yet constructed. *)
Record holds q l : Prop := {
holds_chunks : Forall (λ c, length c = ChunkSize) (deque_ q);
holds_back : 0 ≤ back_chunk_idx_ q < C;
holds_front : 0 ≤ front_chunk_idx_ q < C;
holds_slots : ∃ pre post, concat (deque_ q) = pre ++ (Some <$> l) ++ post ∧
  Z.of_nat (length pre) = front_chunk_idx_ q;
holds_count : front_chunk_idx_ q + Z.of_nat (length l) =
  (Z.of_nat (length (deque_ q)) - 1) * C + back_chunk_idx_ q + 1
}.

Definition rep q l : Prop :=
match l with [] => q = new | _ => deque_ q ≠ [] ∧ holds q l end.

Lemma length_concat_chunks d :
Forall (λ c, length c = ChunkSize) d → length (concat d) = (length d * ChunkSize)%nat.
Proof. induction 1 as [|c d Hc _ IH]; simpl; [done|]. rewrite length_app. lia. Qed.

Lemma rep_empty q l : rep q l → empty q = bool_decide (l = []).
Proof.
destruct l; simpl.
- by intros ->.
- intros [Hd _]. unfold empty. by destruct (deque_ q).
Qed.

Lemma rep_size q l : rep q l → Z.of_nat (length l) < 2 ^ 32 → size ChunkSize q = Z.of_nat (length l).
Proof.
intros Hr Hlen. destruct l as [|x l].
{ simpl in Hr. by subst. }
pose proof (rep_empty _ _ Hr) as He. unfold size. rewrite He.
destruct Hr as [Hd H]. destruct (holds_back _ _ H), (holds_front _ _ H).
pose proof (holds_count _ _ H) as Hc. cbn [length] in *.
rewrite bool_decide_eq_false_2 by done.
case_decide as Hd1.
- rewrite Hd1 in Hc. assert (back_chunk_idx_ q - front_chunk_idx_ q = Z.of_nat (length l)) as -> by lia.
  rewrite (wrap_u32_small (Z.of_nat (length l))), wrap_u32_small by lia. lia.
- rewrite (wrap_u32_small (_ + 1)), (wrap_u32_small (C - _)), wrap_u64_small by lia. lia.
Qed.

Lemma rep_front q x l : rep q (x :: l) → front q = Ret x.
Proof.
intros [Hd H]. destruct (holds_slots _ _ H) as (pre & post & Hs & Hp).
pose proof (holds_chunks _ _ H) as Hch. destruct (holds_front _ _ H) as [_ Hf].
unfold front. destruct (deque_ q) as [|c d]; [done|].
apply Forall_cons in Hch as [Hc _]. simpl in Hs.
assert (Hl : c !! Z.to_nat (front_chunk_idx_ q) = Some (Some x)).
{ rewrite <- (lookup_app_l c (concat d)) by lia. rewrite Hs, <- Hp, Nat2Z.id.
  by rewrite lookup_app_r, Nat.sub_diag by lia. }
by rewrite Hl.
Qed.

Lemma rep_pop_front q x l : rep q (x :: l) → ∃ q', pop_front ChunkSize q = Ret q' ∧ rep q' l.
Proof.
intros [Hd H]. destruct (holds_slots _ _ H) as (pre & post & Hs & Hp).
pose proof (holds_chunks _ _ H) as Hch. pose proof (holds_count _ _ H) as Hct.
destruct (holds_front _ _ H) as [? Hf], (holds_back _ _ H) as [? Hb].
assert (Hs' : concat (deque_ q) = (pre ++ [Some x]) ++ (Some <$> l) ++ post)
  by by rewrite Hs, <- app_assoc.
unfold pop_front. rewrite (wrap_u32_small (front_chunk_idx_ q + 1)) by lia.
simpl in Hct.
destruct (deque_ q) as [|c d] eqn:Hq; [done|]. simpl in Hct.
apply Forall_cons in Hch as [Hc Hch].
case_decide as Hd1.
- simpl in Hd1. rewrite (wrap_u32_small (back_chunk_idx_ q + 1)) by lia.
  destruct (Z.eqb_spec (front_chunk_idx_ q + 1) (back_chunk_idx_ q + 1)) as [E|E].
  + assert (l = []) as -> by (apply length_zero_iff_nil; lia).
    destruct d; [|done]. eexists; by split.
  + destruct l as [|y l]; [simpl in Hct; lia|].
    eexists; split; [done|]. split; [done|]. split; simpl in *; try lia.
    * by constructor.
    * eexists _, _; split; [exact Hs'|]. rewrite length_app; simpl; lia.
- destruct (Z.eqb_spec (front_chunk_idx_ q + 1) C) as [E|E].
  + eexists; split; [done|]. destruct d as [|c' d]; [done|].
    assert (Hl : l ≠ []) by (intros ->; simpl in Hct; lia).
    destruct l as [|y l]; [done|]. split; [done|].
    split; simpl in *; try lia; try done.
    exists [], post. split; [|done].
    apply (f_equal (drop ChunkSize)) in Hs'.
    rewrite drop_app_length' in Hs' by lia.
    rewrite drop_app_length' in Hs'; [done|]. rewrite length_app; simpl; lia.
  + destruct l as [|y l].
    { simpl in *. assert (length d ≠ 0%nat) by (destruct d; done). nia. }
    eexists; split; [done|]. split; [done|]. split; simpl in *; try lia.
    * by constructor.
    * eexists _, _; split; [exact Hs'|]. rewrite length_app; simpl; lia.
Qed.

Lemma construct_back_app d c i v :
0 ≤ i < Z.of_nat (length c) →
construct_back (d ++ [c]) i v = Ret (d ++ [<[Z.to_nat i := Some v]> c]).
Proof.
intros. unfold construct_back. rewrite last_snoc, decide_True by lia.
rewrite length_app; simpl. replace (length d + 1 - 1)%nat with (length d) by lia.
by rewrite take_app_length.
Qed.

(** Constructing in the first free slot appends to the contents. *)
Lemma construct_rep d c i v q l :
Forall (λ c, length c = ChunkSize) (d ++ [c]) → 0 ≤ i < C → 0 ≤ front_chunk_idx_ q < C →
(∃ pre post, concat (d ++ [c]) = pre ++ (Some <$> l) ++ post ∧
   Z.of_nat (length pre) = front_chunk_idx_ q) →
front_chunk_idx_ q + Z.of_nat (length l) = Z.of_nat (length d) * C + i →
∃ d', construct_back (d ++ [c]) i v = Ret d' ∧
  rep (mk_buffer_queue d' (front_chunk_idx_ q) i) (l ++ [v]).
Proof.
intros Hch Hi Hf (pre & post & Hs & Hp) Hct.
apply Forall_app in Hch as [Hd Hc]. rewrite Forall_singleton in Hc.
rewrite construct_back_app by lia. eexists; split; [done|].
unfold rep. destruct (l ++ [v]) eqn:El; [by destruct l|]. rewrite <- El; clear El.
split; [by destruct d|]. split; cbn [deque_ front_chunk_idx_ back_chunk_idx_]; try lia.
- apply Forall_app; split; [done|]. constructor; [by rewrite length_insert|done].
- pose proof (length_concat_chunks _ Hd) as Hlc.
  assert (Hpost : post ≠ []).
  { intros ->. apply (f_equal length) in Hs.
    rewrite concat_app, !length_app, length_fmap in Hs. simpl in Hs.
    rewrite length_app in Hs; simpl in Hs. lia. }
  destruct post as [|y post]; [done|]. exists pre, post. split; [|done].
  rewrite !concat_app in *; simpl in *; rewrite app_nil_r in *.
  assert (Hins : concat d ++ <[Z.to_nat i := Some v]> c =
    <[length (pre ++ (Some <$> l)) := Some v]> (concat d ++ c)).
  { rewrite insert_app_r_alt; [|rewrite length_app, length_fmap; lia].
    do 2 f_equal. rewrite length_app, length_fmap. lia. }
  rewrite Hins, Hs, app_assoc. rewrite insert_app_r_alt by lia.
  rewrite Nat.sub_diag. simpl. rewrite fmap_app, <- !app_assoc. done.
- rewrite !length_app; simpl. lia.
Qed.

Lemma rep_emplace_back q l v :
rep q l → ∃ q', emplace_back ChunkSize v q = Ret q' ∧ rep q' (l ++ [v]).
Proof.
intros Hr. pose proof (rep_empty _ _ Hr) as He. unfold emplace_back. rewrite He.
destruct l as [|x l].
- simpl in Hr. subst q. rewrite bool_decide_eq_true_2 by done.
  cbn [deque_ new app back_chunk_idx_ front_chunk_idx_].
  change (wrap_u32 (wrap_u32 (-1) + 1)) with 0.
  destruct (Z.eqb_spec 0 C); [lia|].
  destruct (construct_rep [] (fresh_chunk ChunkSize) 0 v new []) as (d' & Hd' & Hrep);
    simpl; try lia.
  + constructor; [apply length_replicate|done].
  + by exists [], (fresh_chunk ChunkSize ++ []).
  + simpl in Hd'. rewrite Hd'. simpl. eauto.
- rewrite bool_decide_eq_false_2 by done. destruct Hr as [Hd H].
  destruct (holds_front _ _ H) as [? Hf], (holds_back _ _ H) as [? Hb].
  pose proof (holds_count _ _ H) as Hct. pose proof (holds_chunks _ _ H) as Hch.
  destruct (holds_slots _ _ H) as (pre & post & Hs & Hp).
  rewrite (wrap_u32_small (back_chunk_idx_ q + 1)) by lia.
  destruct (Z.eqb_spec (back_chunk_idx_ q + 1) C) as [E|E].
  + destruct (construct_rep (deque_ q) (fresh_chunk ChunkSize) 0 v q (x :: l))
      as (d' & Hd' & Hrep); try lia.
    * apply Forall_app; split; [done|]. constructor; [apply length_replicate|done].
    * exists pre, (post ++ fresh_chunk ChunkSize). split; [|done].
      rewrite concat_app, Hs. simpl concat. by simplify_list_eq.
    * rewrite Hd'. simpl. eauto.
  + destruct (deque_ q) as [|c d] using rev_ind; [done|]. clear IHd.
    rewrite length_app in Hct; simpl in Hct.
    destruct (construct_rep d c (back_chunk_idx_ q + 1) v q (x :: l))
      as (d' & -> & Hrep); simpl; try lia; eauto.
    by exists pre, post.
Qed.

#[global] Instance buffer_queue_ops : QueueOps T (buffer_queue T) := {
q_new := new;
q_empty := empty;
q_size := size ChunkSize;
q_clear := clear;
q_front := front;
q_pop_front := pop_front ChunkSize;
q_emplace_back := emplace_back ChunkSize
}.

#[global] Instance buffer_queue_laws : QueueLaws T (buffer_queue T).
Proof.
refine {| q_rel := rep; q_bound := 2 ^ 32 |}; intros; simpl.
- lia.
- done.
- by apply rep_empty.
- by apply rep_size.
- done.
- by eapply rep_front.
- by eapply rep_pop_front.
- by apply rep_emplace_back.
Defined.
End refinement.
End BufferQueue.

(** ** Running a sequence of queue operations *)
Section trace.
Context {T : Type}.

Inductive queue_op : Type := op_push (v : T) | op_pop | op_clear.

(** Any implementation, and the reference FIFO list: a pop of an empty
    queue is not an operation of a correct client. *)
Fixpoint run_queue `{QueueOps T Q} (q : Q) (ops : list queue_op) : outcome (list T * Q) :=
  match ops with
  | [] => Ret ([], q)
  | op_push v :: ops => q ← q_emplace_back v q; run_queue q ops
  | op_pop :: ops =>
      x ← q_front q; q ← q_pop_front q;
      '(out, q) ← run_queue q ops; Ret (x :: out, q)
  | op_clear :: ops => run_queue (q_clear q) ops
  end.

Fixpoint run_list (l : list T) (ops : list queue_op) : option (list T * list T) :=
  match ops with
  | [] => Some ([], l)
  | op_push v :: ops => run_list (l ++ [v]) ops
  | op_pop :: ops =>
      match l with
      | [] => None
      | x :: l => '(out, l) ← run_list l ops; Some (x :: out, l)
      end
  | op_clear :: ops => run_list [] ops
  end.

Lemma run_queue_refines `{QueueLaws T Q} ops q l out l' :
  q_rel q l → run_list l ops = Some (out, l') →
  ∃ q', run_queue q ops = Ret (out, q') ∧ q_rel q' l'.
Proof.
  revert q l out. induction ops as [|[v| |] ops IH]; intros q l out Hq; simpl.
  - intros [= <- <-]. eauto.
  - intros Hr. destruct (q_emplace_back_rel q l v Hq) as (q' & -> & Hq'). simpl. eauto.
  - destruct l as [|x l]; [done|]. intros Hr.
    destruct (run_list l ops) as [[out0 l0]|] eqn:E; [|done]. simpl in Hr. simplify_eq.
    rewrite (q_front_rel _ _ _ Hq); simpl.
    destruct (q_pop_front_rel _ _ _ Hq) as (q' & -> & Hq'); simpl.
    destruct (IH _ _ _ Hq' E) as (q'' & -> & ?). simpl. eauto.
  - intros Hr. eapply IH; [|done]. eapply q_clear_rel, Hq.
Qed.
End trace.
Arguments queue_op : clear implicits.

(** C21: A buffer_queue behaves as a FIFO queue: any sequence of pushes, pops and
    clears that the reference list can run (no pop of an empty queue) runs on
    the chunked representation without undefined behaviour, pops the same
    elements in the same order, and leaves a queue whose empty() and size()
    are those of the reference list. *)
Theorem buffer_queue_fifo {T} (ChunkSize : nat) (ops : list (queue_op T)) out l
    (Hpos : (0 < ChunkSize)%nat) (Hu32 : Z.of_nat ChunkSize < 2 ^ 32)
    (Hrun : run_list [] ops = Some (out, l)) (Hlen : Z.of_nat (length l) < 2 ^ 32) :
  ∃ q, run_queue (H := BufferQueue.buffer_queue_ops ChunkSize) BufferQueue.new ops = Ret (out, q) ∧
    BufferQueue.empty q = bool_decide (l = []) ∧
    BufferQueue.size ChunkSize q = Z.of_nat (length l).
Proof.
  destruct (run_queue_refines (QueueOps0 := BufferQueue.buffer_queue_ops ChunkSize)
    (H := BufferQueue.buffer_queue_laws ChunkSize Hpos Hu32)
    ops BufferQueue.new [] out l) as (q & Hq & Hrel); [done|done|].
  exists q. split_and!; [done| |].
  - eapply BufferQueue.rep_empty, Hrel.
  - by eapply BufferQueue.rep_size.
Qed.

Lemma buffer_queue_fifo_witness :
  ∃ q, run_queue (H := BufferQueue.buffer_queue_ops 2) BufferQueue.new
      [op_push 1; op_push 2; op_push 3; op_pop; op_pop; op_push 4] = Ret ([1; 2], q) ∧
    BufferQueue.empty q = bool_decide ([3; 4] = []) ∧
    BufferQueue.size 2 q = Z.of_nat (length [3; 4]).
Proof. apply (buffer_queue_fifo 2 _ [1; 2] [3; 4]); [lia|lia|reflexivity|cbn; lia]. Defined.
