(* ===== verification/TcpPackage.v ===== *)
(** Tcp packages: commands (tcp/tcp_commands.hpp), flags (tcp/tcp_flags.hpp),
    the owning tcp_package and the non-owning tcp_package_view
    (tcp/tcp_package.hpp), with the layout and the round trips. *)
From S2P Require Import Prelude Basics.

(** ** Commands

    [enum class tcp_command : std::uint8_t]: any byte is a value of the type,
    the enumerators name some of them. *)
Module Command.
Abbreviation tcp_command := byte.

Definition heartbeat_request_command : tcp_command := x01.
Definition heartbeat_response_command : tcp_command := x02.
Definition ping : tcp_command := x03.
Definition pong : tcp_command := x04.
Definition prepare_ack : tcp_command := x05.
Definition commit_ack : tcp_command := x06.
Definition slave_assignment : tcp_command := x07.
Definition clone_assignment : tcp_command := x08.
Definition subscribe_replica : tcp_command := x10.
Definition replica_log_position_ack : tcp_command := x11.
Definition create_chunk : tcp_command := x12.
Definition raw_chunk_bulk : tcp_command := x13.
Definition data_chunk_bulk : tcp_command := x14.
Definition replica_subscription_retry : tcp_command := x15.
Definition replica_subscribed : tcp_command := x16.
Definition write_events : tcp_command := x82.
Definition write_events_completed : tcp_command := x83.
Definition transaction_start : tcp_command := x84.
Definition transaction_start_completed : tcp_command := x85.
Definition transaction_write : tcp_command := x86.
Definition transaction_write_completed : tcp_command := x87.
Definition transaction_commit : tcp_command := x88.
Definition transaction_commit_completed : tcp_command := x89.
Definition delete_stream : tcp_command := x8a.
Definition delete_stream_completed : tcp_command := x8b.
Definition read_event : tcp_command := xb0.
Definition read_event_completed : tcp_command := xb1.
Definition read_stream_events_forward : tcp_command := xb2.
Definition read_stream_events_forward_completed : tcp_command := xb3.
Definition read_stream_events_backward : tcp_command := xb4.
Definition read_stream_events_backward_completed : tcp_command := xb5.
Definition read_all_events_forward : tcp_command := xb6.
Definition read_all_events_forward_completed : tcp_command := xb7.
Definition read_all_events_backward : tcp_command := xb8.
Definition read_all_events_backward_completed : tcp_command := xb9.
Definition subscribe_to_stream : tcp_command := xc0.
Definition subscription_confirmation : tcp_command := xc1.
Definition stream_event_appeared : tcp_command := xc2.
Definition unsubscribe_from_stream : tcp_command := xc3.
Definition subscription_dropped : tcp_command := xc4.
Definition connect_to_persistent_subscription : tcp_command := xc5.
Definition persistent_subscription_confirmation : tcp_command := xc6.
Definition persistent_subscription_stream_event_appeared : tcp_command := xc7.
Definition create_persistent_subscription : tcp_command := xc8.
Definition create_persistent_subscription_completed : tcp_command := xc9.
Definition delete_persistent_subscription : tcp_command := xca.
Definition delete_persistent_subscription_completed : tcp_command := xcb.
Definition persistent_subscription_ack_events : tcp_command := xcc.
Definition persistent_subscription_nak_events : tcp_command := xcd.
Definition update_persistent_subscription : tcp_command := xce.
Definition update_persistent_subscription_completed : tcp_command := xcf.
Definition scavenge_database : tcp_command := xd0.
Definition scavenge_database_completed : tcp_command := xd1.
Definition bad_request : tcp_command := xf0.
Definition not_handled : tcp_command := xf1.
Definition authenticate : tcp_command := xf2.
Definition authenticated : tcp_command := xf3.
Definition not_authenticated : tcp_command := xf4.
Definition identify_client : tcp_command := xf5.
Definition client_identified : tcp_command := xf6.

(** The enumerators in order, with the case labels of to_string's switch. *)
Definition names : list (tcp_command * string) := [
  (heartbeat_request_command, "heartbeat request");
  (heartbeat_response_command, "heartbeat response");
  (ping, "ping");
  (pong, "pong");
  (prepare_ack, "prepare ack");
  (commit_ack, "commit ack");
  (slave_assignment, "slave assignment");
  (clone_assignment, "clone assignment");
  (subscribe_replica, "subscribe replica");
  (replica_log_position_ack, "replica log position ack");
  (create_chunk, "create chunk");
  (raw_chunk_bulk, "raw chunk bulk");
  (data_chunk_bulk, "data chunk bulk");
  (replica_subscription_retry, "replica subscription retry");
  (replica_subscribed, "replica subscribed");
  (write_events, "write events");
  (write_events_completed, "write events completed");
  (transaction_start, "transaction start");
  (transaction_start_completed, "transaction start completed");
  (transaction_write, "transaction write");
  (transaction_write_completed, "transaction write completed");
  (transaction_commit, "transaction commit");
  (transaction_commit_completed, "transaction commit completed");
  (delete_stream, "delete stream");
  (delete_stream_completed, "delete stream completed");
  (read_event, "read event");
  (read_event_completed, "read event completed");
  (read_stream_events_forward, "read stream events forward");
  (read_stream_events_forward_completed, "read stream events forward completed");
  (read_stream_events_backward, "read stream events backward");
  (read_stream_events_backward_completed, "read stream events backward completed");
  (read_all_events_forward, "read all events forward");
  (read_all_events_forward_completed, "read all events forward completed");
  (read_all_events_backward, "read all events backward");
  (read_all_events_backward_completed, "read all events backward completed");
  (subscribe_to_stream, "subscribe to stream");
  (subscription_confirmation, "subscription confirmation");
  (stream_event_appeared, "stream event appeared");
  (unsubscribe_from_stream, "unsubscribe from stream");
  (subscription_dropped, "subscription dropped");
  (connect_to_persistent_subscription, "connect to persistent subscription");
  (persistent_subscription_confirmation, "persistent subscription confirmation");
  (persistent_subscription_stream_event_appeared, "persistent subscription stream event appeared");
  (create_persistent_subscription, "create persistent subscription");
  (create_persistent_subscription_completed, "create persistent subscription completed");
  (delete_persistent_subscription, "delete persistent subscription");
  (delete_persistent_subscription_completed, "delete persistent subscription completed");
  (persistent_subscription_ack_events, "persistent subscription ack events");
  (persistent_subscription_nak_events, "persistent subscription nak events");
  (update_persistent_subscription, "update persistent subscription");
  (update_persistent_subscription_completed, "update persistent subscription completed");
  (scavenge_database, "scavenge database");
  (scavenge_database_completed, "scavenge database completed");
  (bad_request, "bad request");
  (not_handled, "not handled");
  (authenticate, "authenticate");
  (authenticated, "authenticated");
  (not_authenticated, "not authenticated");
  (identify_client, "identify client");
  (client_identified, "client identified")]%string.

Definition to_string (cmd : tcp_command) : string :=
  match list_find (λ p, p.1 = cmd) names with
  | Some (_, (_, s)) => s
  | None => "unknown"
  end.
End Command.
Export Command (tcp_command).

(** [enum class tcp_flags : std::uint8_t] *)
Abbreviation tcp_flags := byte.
Definition flags_none : tcp_flags := x00.
Definition flags_authenticated : tcp_flags := x01.

(** [(char)flags & (char)tcp_flags::authenticated], as a condition *)
Definition has_authenticated (flags : tcp_flags) : bool :=
  negb (Z.land (u8 flags) (u8 flags_authenticated) =? 0).

(** ** Layout constants *)
Definition kLengthOffset : nat := 0.
Definition kCommandOffset : nat := (kLengthOffset + 4)%nat.
Definition kFlagsOffset : nat := (kCommandOffset + 1)%nat.
Definition kCorrelationOffset : nat := (kFlagsOffset + 1)%nat.
Definition kAuthOffset : nat := (kCorrelationOffset + 16)%nat.
Definition kMandatorySize : nat := kAuthOffset.
Definition kMaxPackageSize : Z := 64 * 1024 * 1024.

(** ** The allocator template parameter: a block of the requested size whose
    contents are not specified. *)
Class Allocator := {
  allocate : nat → bytes;
  length_allocate n : length (allocate n) = n
}.
#[export] Hint Rewrite @length_allocate : es.

Definition zero_allocator : Allocator :=
  {| allocate n := replicate n x00; length_allocate n := length_replicate n x00 |}.

(** ** The owning package *)
Record tcp_package := mk_tcp_package {
  package_ : option bytes; (* None: nullptr *)
  length_ : Z              (* std::size_t *)
}.

#[global] Instance tcp_package_eq_dec : EqDecision tcp_package.
Proof. solve_decision. Defined.

Definition null_package : tcp_package := mk_tcp_package None 0.

Section constructors.
Context {AL : Allocator}.

(** The unauthenticated constructor; [message] is the bytes of the pointer
    and length arguments. *)
Definition tcp_package_plain (command : tcp_command) (flags : tcp_flags)
    (correlation_id message : bytes) : outcome tcp_package :=
  if has_authenticated flags then Ret null_package
  else
    let len := wrap_u64 (18 + Z.of_nat (length message)) in
    let mem := allocate (Z.to_nat (len + 4)) in
    mem ← write_at kLengthOffset (le_encode 4 (wrap_u32 len)) mem;
    mem ← write_at kCommandOffset [command] mem;
    mem ← write_at kFlagsOffset [flags] mem;
    mem ← write_at kCorrelationOffset correlation_id mem;
    mem ← write_at kMandatorySize message mem;
    Ret (mk_tcp_package (Some mem) len).

(** The authenticated constructor. *)
Definition tcp_package_auth (command : tcp_command) (flags : tcp_flags)
    (correlation_id : bytes) (login password : string) (message : bytes) : outcome tcp_package :=
  if negb (has_authenticated flags) then Ret null_package
  else
    let login_len := string_size login in
    let password_len := string_size password in
    let len := wrap_u64 (18 + 1 + Z.of_nat login_len + 1 + Z.of_nat password_len
                         + Z.of_nat (length message)) in
    let mem := allocate (Z.to_nat (len + 4)) in
    mem ← write_at kLengthOffset (le_encode 4 (wrap_u32 len)) mem;
    mem ← write_at kCommandOffset [command] mem;
    mem ← write_at kFlagsOffset [flags] mem;
    mem ← write_at kCorrelationOffset correlation_id mem;
    mem ← write_at kAuthOffset [byte_of_Z (Z.of_nat login_len)] mem;
    mem ← write_at (kAuthOffset + 1) (string_bytes login) mem;
    let password_size_offset := (kAuthOffset + 1 + login_len)%nat in
    mem ← write_at password_size_offset [byte_of_Z (Z.of_nat password_len)] mem;
    mem ← write_at (password_size_offset + 1) (string_bytes password) mem;
    let message_offset := (password_size_offset + 1 + password_len)%nat in
    mem ← write_at message_offset message mem;
    Ret (mk_tcp_package (Some mem) len).
End constructors.

(** The move constructor: the new package, and the moved-from one. *)
Definition package_move (other : tcp_package) : tcp_package * tcp_package :=
  (other, mk_tcp_package None (length_ other)).

Definition change_length_endianness (p : tcp_package) : outcome tcp_package :=
  match package_ p with
  | None => Undef null_dereference
  | Some (b0 :: b1 :: b2 :: b3 :: rest) =>
      Ret (mk_tcp_package (Some (b3 :: b2 :: b1 :: b0 :: rest)) (length_ p))
  | Some _ => Undef out_of_bounds
  end.

(** [*reinterpret_cast<int *>(&package_[kLengthOffset]) == static_cast<int>(length_)] *)
Definition is_header_valid (p : tcp_package) : outcome bool :=
  match package_ p with
  | None => Undef null_dereference
  | Some mem =>
      bs ← read_at kLengthOffset 4 mem;
      Ret (wrap_i32 (le_decode bs) =? wrap_i32 (length_ p))
  end.

Definition package_is_valid (p : tcp_package) : outcome bool :=
  match package_ p with
  | None => Ret false
  | Some _ => if length_ p >=? 18 then is_header_valid p else Ret false
  end.

Definition package_size (p : tcp_package) : Z := wrap_u64 (length_ p + 4).

(** ** The view *)
Record tcp_package_view := mk_view {
  v_package : option bytes; (* the memory the pointer designates; None: nullptr *)
  v_length : Z              (* std::size_t *)
}.

(** [tcp_package_view{}]: value-initialised. *)
Definition null_view : tcp_package_view := mk_view None 0.

Definition view_byte (v : tcp_package_view) (i : nat) : outcome byte :=
  match v_package v with
  | None => Undef null_dereference
  | Some mem => match mem !! i with Some b => Ret b | None => Undef out_of_bounds end
  end.

Definition view_range (v : tcp_package_view) (off n : nat) : outcome bytes :=
  match v_package v with
  | None => Undef null_dereference
  | Some mem => read_at off n mem
  end.

Definition command (v : tcp_package_view) : outcome tcp_command := view_byte v kCommandOffset.
Definition flags (v : tcp_package_view) : outcome tcp_flags := view_byte v kFlagsOffset.
Definition correlation_id (v : tcp_package_view) : outcome bytes :=
  view_range v kCorrelationOffset 16.
Definition is_valid (v : tcp_package_view) : bool :=
  match v_package v with Some _ => true | None => false end.
Definition is_authenticated (v : tcp_package_view) : outcome bool :=
  f ← flags v; Ret (bool_decide (f = flags_authenticated)).
Definition login_size (v : tcp_package_view) : outcome nat :=
  b ← view_byte v kAuthOffset; Ret (Z.to_nat (u8 b)).
Definition login_offset : nat := (kAuthOffset + 1)%nat.
Definition password_offset (v : tcp_package_view) : outcome nat :=
  n ← login_size v; Ret (login_offset + n + 1)%nat.
Definition password_size (v : tcp_package_view) : outcome nat :=
  n ← login_size v;
  b ← view_byte v (login_offset + n);
  Ret (Z.to_nat (u8 b)).
Definition login (v : tcp_package_view) : outcome bytes :=
  n ← login_size v; view_range v login_offset n.
Definition view_password (v : tcp_package_view) : outcome bytes :=
  off ← password_offset v; n ← password_size v; view_range v off n.
Definition message_offset (v : tcp_package_view) : outcome nat :=
  a ← is_authenticated v;
  if (a : bool) then off ← password_offset v; n ← password_size v; Ret (off + n)%nat
  else Ret kMandatorySize.
Definition message_size (v : tcp_package_view) : outcome Z :=
  off ← message_offset v;
  Ret (wrap_u32 (wrap_u64 (v_length v + 4 - Z.of_nat off))).
Definition view_size (v : tcp_package_view) : Z := wrap_u64 (v_length v + 4).

(** The bytes handed to ParseFromArray: [view.data() + view.message_offset()]
    for [view.message_size()] bytes. *)
Definition message_bytes (v : tcp_package_view) : outcome bytes :=
  off ← message_offset v; n ← message_size v; view_range v off (Z.to_nat n).

(** The view constructor over the memory [package] with [len] bytes. *)
Definition make_view (package : option bytes) (len : Z) : outcome tcp_package_view :=
  let v := mk_view (if len <? Z.of_nat kMandatorySize then None else package)
                   (wrap_u64 (len - 4)) in
  match v_package v with
  | None => Ret v
  | Some _ =>
      a ← is_authenticated v;
      if (a : bool) then
        login_size ← view_byte v kAuthOffset;
        let password_offset := (kAuthOffset + 1 + Z.to_nat (u8 login_size))%nat in
        password_size ← view_byte v password_offset;
        if len <? Z.of_nat kMandatorySize + 1 + u8 login_size + 1 + u8 password_size
        then Ret (mk_view None (v_length v))
        else Ret v
      else Ret v
  end.

(** [explicit operator tcp_package_view() const] *)
Definition to_view (p : tcp_package) : outcome tcp_package_view :=
  make_view (package_ p) (wrap_u64 (length_ p + 4)).

(** ** The correlation id of a built package

    Whatever the sizes of the message and of the credentials are, a view of a
    package that was built reads back the correlation id it was built with. *)
Definition carries (corr : bytes) (p : tcp_package) : Prop :=
  ∀ mem, package_ p = Some mem → slice kCorrelationOffset (length corr) mem = corr.

(** Undo the writes after the one that wrote what is read. *)
Ltac read_back :=
  repeat match goal with
  | H : write_at _ _ _ = Ret ?mem |- slice _ _ ?mem = _ => exact (write_at_slice _ _ _ _ H)
  | H : write_at _ _ _ = Ret ?mem |- slice _ _ ?mem = _ =>
      rewrite (write_at_slice_before _ _ _ _ _ _ H)
        by (unfold kMandatorySize, kAuthOffset, kCorrelationOffset, kFlagsOffset, kCommandOffset, kLengthOffset; lia)
  end.

Lemma tcp_package_plain_carries {AL : Allocator} cmd flags corr msg p :
  tcp_package_plain cmd flags corr msg = Ret p → length corr = 16%nat → carries corr p.
Proof.
  unfold tcp_package_plain. intros Hp Hc mem Hmem. destruct (has_authenticated flags); inv_ret.
  simplify_eq/=.
  read_back.
Qed.

Lemma tcp_package_auth_carries {AL : Allocator} cmd flags corr login password msg p :
  tcp_package_auth cmd flags corr login password msg = Ret p → length corr = 16%nat → carries corr p.
Proof.
  unfold tcp_package_auth. intros Hp Hc mem Hmem. destruct (has_authenticated flags); cbn [negb] in Hp; inv_ret.
  simplify_eq/=.
  read_back.
Qed.

Lemma make_view_package package len v mem :
  make_view package len = Ret v → v_package v = Some mem → package = Some mem.
Proof.
  unfold make_view. intros Hv Hmem. destruct (len <? _); simpl in Hv; [by simplify_eq/=|].
  destruct package as [m|]; [|by simplify_eq/=]. inv_ret.
  destruct x; [|by simplify_eq/=]. inv_ret. destruct (len <? _); by simplify_eq/=.
Qed.

Lemma built_correlation_id corr p v c :
  carries corr p → length corr = 16%nat → to_view p = Ret v → correlation_id v = Ret c → c = corr.
Proof.
  unfold correlation_id, view_range. intros Hp Hc Hv Hread.
  destruct (v_package v) as [mem|] eqn:Hmem; [|done].
  unfold read_at in Hread. case_decide; simplify_eq. rewrite <- Hc. apply Hp.
  by eapply make_view_package.
Qed.

(** ** Layout *)

(** The bytes of an unauthenticated and of an authenticated package. *)
Definition plain_frame (cmd : tcp_command) (flags : tcp_flags) (corr msg : bytes) : bytes :=
  le_encode 4 (18 + Z.of_nat (length msg)) ++ [cmd] ++ [flags] ++ corr ++ msg.

Definition auth_body (login password : string) (msg : bytes) : bytes :=
  [byte_of_Z (Z.of_nat (string_size login))] ++ string_bytes login ++
  [byte_of_Z (Z.of_nat (string_size password))] ++ string_bytes password ++ msg.

Definition auth_frame (cmd : tcp_command) (flags : tcp_flags) (corr : bytes)
    (login password : string) (msg : bytes) : bytes :=
  plain_frame cmd flags corr (auth_body login password msg).

Lemma length_auth_body l p msg :
  length (auth_body l p msg) = (2 + string_size l + string_size p + length msg)%nat.
Proof. unfold auth_body, string_size. rewrite !length_app. simpl. lia. Qed.

Lemma length_plain_frame cmd fl corr msg :
  length corr = 16%nat → length (plain_frame cmd fl corr msg) = (22 + length msg)%nat.
Proof. intros H. unfold plain_frame. rewrite !length_app, length_le_encode, H. simpl. lia. Qed.

(** Sizes a package can have: they fit the 32-bit length field. *)
Abbreviation fits32 n := (Z.of_nat n < 2 ^ 31 - 22).

Ltac unfold_offsets :=
  unfold kMandatorySize, kAuthOffset, kCorrelationOffset, kFlagsOffset, kCommandOffset, kLengthOffset in *.

Ltac write_step :=
  rewrite write_at_extend;
  [ cbn [mbind outcome_bind]
  | unfold_offsets; rewrite ?length_app, ?length_le_encode; simpl; unfold string_size in *; lia
  | rewrite ?length_drop, ?length_le_encode; simpl; unfold string_size in *; lia ].

(** After the last write nothing is left of the allocated block. *)
Ltac write_finish :=
  unfold plain_frame; rewrite !drop_drop, drop_ge by
    (rewrite ?length_le_encode; simpl; unfold string_size in *; lia);
  rewrite ?app_nil_r, ?app_nil_l; rewrite <- ?app_assoc; reflexivity.

Section layout.
Context {AL : Allocator}.

(** The unauthenticated constructor fills the whole allocated block: what
    the allocator left in it does not show. *)
Lemma tcp_package_plain_layout cmd fl corr msg :
  has_authenticated fl = false → length corr = 16%nat → fits32 (length msg) →
  tcp_package_plain cmd fl corr msg =
    Ret (mk_tcp_package (Some (plain_frame cmd fl corr msg)) (18 + Z.of_nat (length msg))).
Proof.
  intros Hfl Hc Hm. unfold tcp_package_plain. rewrite Hfl. cbv zeta.
  rewrite wrap_u64_small, wrap_u32_small by lia.
  set (n := Z.to_nat _). pose proof (length_allocate n) as Hn. revert Hn.
  generalize (allocate n) as raw. intros raw Hn. subst n.
  rewrite <- (app_nil_l raw). do 5 write_step.
  write_finish.
Qed.

(** The authenticated constructor: sizes are stored modulo 256, the strings
    are copied whole. *)
Lemma tcp_package_auth_layout cmd fl corr l p msg :
  has_authenticated fl = true → length corr = 16%nat →
  fits32 (length (auth_body l p msg)) →
  tcp_package_auth cmd fl corr l p msg =
    Ret (mk_tcp_package (Some (auth_frame cmd fl corr l p msg))
           (18 + Z.of_nat (length (auth_body l p msg)))).
Proof.
  intros Hfl Hc Hm. pose proof (length_auth_body l p msg) as Hb.
  unfold tcp_package_auth, auth_frame, plain_frame.
  rewrite Hfl. cbn [negb]. cbv zeta.
  replace (18 + 1 + Z.of_nat (string_size l) + 1 + Z.of_nat (string_size p) + Z.of_nat (length msg))
    with (18 + Z.of_nat (length (auth_body l p msg))) by lia.
  rewrite wrap_u64_small, wrap_u32_small by lia.
  set (n := Z.to_nat _). pose proof (length_allocate n) as Hn. revert Hn.
  generalize (allocate n) as raw. intros raw Hn. subst n. rewrite Hb in *.
  rewrite <- (app_nil_l raw). do 9 write_step. unfold auth_body. write_finish.
Qed.
End layout.

(** ** Reading a frame back *)

Section reading.
Context (cmd : tcp_command) (fl : tcp_flags) (corr body : bytes) (len : Z).
Context (Hcorr : length corr = 16%nat).

Abbreviation frame := (plain_frame cmd fl corr body).
Abbreviation v := (mk_view (Some frame) len).

Lemma frame_header_length : length (le_encode 4 (18 + Z.of_nat (length body)) ++ [cmd] ++ [fl] ++ corr) = 22%nat.
Proof. rewrite !length_app, length_le_encode, Hcorr. done. Qed.

Lemma frame_split :
  frame = (le_encode 4 (18 + Z.of_nat (length body)) ++ [cmd] ++ [fl] ++ corr) ++ body.
Proof. unfold plain_frame. by rewrite <- !app_assoc. Qed.

Lemma frame_command : command v = Ret cmd.
Proof.
  unfold command, view_byte; cbn [v_package]. unfold plain_frame.
  by rewrite lookup_app_r by (rewrite length_le_encode; unfold_offsets; lia).
Qed.

Lemma frame_flags : flags v = Ret fl.
Proof.
  unfold flags, view_byte; cbn [v_package]. unfold plain_frame.
  by rewrite lookup_app_r by (rewrite length_le_encode; unfold_offsets; lia).
Qed.

Lemma frame_correlation_id : correlation_id v = Ret corr.
Proof.
  unfold correlation_id, view_range; cbn [v_package]. unfold plain_frame.
  rewrite app_assoc, app_assoc. apply read_at_app; [|by rewrite Hcorr].
  rewrite !length_app, length_le_encode. done.
Qed.

Lemma frame_byte i : view_byte v (22 + i) =
  match body !! i with Some b => Ret b | None => Undef out_of_bounds end.
Proof.
  unfold view_byte; cbn [v_package]. rewrite frame_split.
  rewrite (lookup_app_r _ _ (22 + i)) by (rewrite frame_header_length; lia).
  rewrite frame_header_length. by replace (22 + i - 22)%nat with i by lia.
Qed.

Lemma frame_range i n : view_range v (22 + i) n = read_at i n body.
Proof.
  unfold view_range, read_at; cbn [v_package]. rewrite frame_split.
  rewrite length_app, frame_header_length. unfold slice.
  rewrite (drop_app_ge _ _ (22 + i)) by (rewrite frame_header_length; lia). rewrite frame_header_length.
  replace (22 + i - 22)%nat with i by lia. repeat case_decide; done || lia.
Qed.

Lemma frame_is_authenticated : is_authenticated v = Ret (bool_decide (fl = flags_authenticated)).
Proof. unfold is_authenticated. by rewrite frame_flags. Qed.
End reading.

(** What the accessors of a view return. *)
Record view_reads (v : tcp_package_view) (cmd : tcp_command) (fl : tcp_flags)
    (auth : option (bytes * bytes)) (corr msg : bytes) : Prop := {
  reads_valid : is_valid v = true;
  reads_command : command v = Ret cmd;
  reads_flags : flags v = Ret fl;
  reads_correlation_id : correlation_id v = Ret corr;
  reads_authenticated : is_authenticated v = Ret (match auth with Some _ => true | None => false end);
  reads_credentials : match auth with
    | Some (l, p) => login v = Ret l ∧ view_password v = Ret p
    | None => True
    end;
  reads_message : message_bytes v = Ret msg
}.

Lemma read_at_all (bs : bytes) : read_at 0 (length bs) bs = Ret bs.
Proof. unfold read_at. rewrite decide_True by lia. unfold slice. by rewrite drop_0, firstn_all. Qed.

Lemma read_at_tail (l k : bytes) off n : off = length l → n = length k → read_at off n (l ++ k) = Ret k.
Proof. intros -> ->. pose proof (read_at_app l k [] _ _ eq_refl eq_refl) as H. by rewrite app_nil_r in H. Qed.

Lemma make_view_plain cmd fl corr msg :
  length corr = 16%nat → fl ≠ flags_authenticated → fits32 (length msg) →
  ∃ v, make_view (Some (plain_frame cmd fl corr msg)) (22 + Z.of_nat (length msg)) = Ret v ∧
    view_reads v cmd fl None corr msg ∧ view_size v = 22 + Z.of_nat (length msg).
Proof.
  intros Hc Hfl Hm. exists (mk_view (Some (plain_frame cmd fl corr msg)) (18 + Z.of_nat (length msg))).
  split_and!.
  - unfold make_view. destruct (Z.ltb_spec (22 + Z.of_nat (length msg)) (Z.of_nat kMandatorySize)) as [H|_].
    { unfold_offsets. lia. }
    cbn [v_package]. rewrite frame_is_authenticated by done.
    rewrite bool_decide_eq_false_2 by done. simpl. rewrite wrap_u64_small by lia. do 2 f_equal. lia.
  - split; rewrite ?frame_command, ?frame_flags, ?frame_correlation_id, ?frame_is_authenticated by done;
      try done.
    + by rewrite bool_decide_eq_false_2.
    + unfold message_bytes, message_size, message_offset. rewrite frame_is_authenticated by done.
      rewrite bool_decide_eq_false_2 by done. simpl.
      rewrite wrap_u64_small, wrap_u32_small by (unfold_offsets; lia).
      change kMandatorySize with (22 + 0)%nat. rewrite frame_range by done.
      replace (Z.to_nat _) with (length msg) by lia. apply read_at_all.
  - unfold view_size. simpl. rewrite wrap_u64_small; lia.
Qed.

Lemma size_byte n : (n < 256)%nat → Z.to_nat (u8 (byte_of_Z (Z.of_nat n))) = n.
Proof. intros. rewrite u8_byte_of_Z, wrap_u8_small; lia. Qed.

Section auth_body.
Context (l p : string) (msg : bytes).
Abbreviation body := (auth_body l p msg).

Lemma auth_body_login_size : body !! 0%nat = Some (byte_of_Z (Z.of_nat (string_size l))).
Proof. done. Qed.
Lemma auth_body_password_size :
  body !! (1 + string_size l)%nat = Some (byte_of_Z (Z.of_nat (string_size p))).
Proof.
  unfold auth_body. rewrite app_assoc. apply list_lookup_middle.
  rewrite length_app. done.
Qed.
Lemma auth_body_login : read_at 1 (string_size l) body = Ret (string_bytes l).
Proof. unfold auth_body. by apply read_at_app. Qed.
Lemma auth_body_password : read_at (2 + string_size l) (string_size p) body = Ret (string_bytes p).
Proof.
  unfold auth_body. rewrite (app_assoc (string_bytes l)), app_assoc.
  apply read_at_app; [|done]. rewrite !length_app. unfold string_size. simpl. lia.
Qed.
Lemma auth_body_message :
  read_at (2 + string_size l + string_size p) (length msg) body = Ret msg.
Proof.
  unfold auth_body. do 3 rewrite app_assoc.
  apply read_at_tail; [|done]. rewrite !length_app. unfold string_size. simpl. lia.
Qed.
End auth_body.

Lemma make_view_auth cmd corr l p msg :
  length corr = 16%nat → (string_size l < 256)%nat → (string_size p < 256)%nat →
  fits32 (length (auth_body l p msg)) →
  let len := 22 + Z.of_nat (length (auth_body l p msg)) in
  ∃ v, make_view (Some (auth_frame cmd flags_authenticated corr l p msg)) len = Ret v ∧
    view_reads v cmd flags_authenticated (Some (string_bytes l, string_bytes p)) corr msg ∧
    view_size v = len.
Proof.
  intros Hc Hl Hp Hm len. pose proof (length_auth_body l p msg) as Hb. unfold auth_frame.
  set (v := mk_view (Some (plain_frame cmd flags_authenticated corr (auth_body l p msg)))
              (wrap_u64 (len - 4))).
  assert (Hia : is_authenticated v = Ret true) by (unfold v; by rewrite frame_is_authenticated).
  assert (Hb0 : view_byte v kAuthOffset = Ret (byte_of_Z (Z.of_nat (string_size l)))).
  { unfold v. change kAuthOffset with (22 + 0)%nat. by rewrite frame_byte, auth_body_login_size by done. }
  assert (Hb1 : view_byte v (kAuthOffset + 1 + string_size l) = Ret (byte_of_Z (Z.of_nat (string_size p)))).
  { unfold v. replace (kAuthOffset + 1 + string_size l)%nat with (22 + (1 + string_size l))%nat
      by (unfold_offsets; lia). by rewrite frame_byte, auth_body_password_size by done. }
  assert (Hls : login_size v = Ret (string_size l)).
  { unfold login_size. rewrite Hb0. cbn [mbind outcome_bind]. by rewrite size_byte. }
  assert (Hps : password_size v = Ret (string_size p)).
  { unfold password_size. rewrite Hls. cbn [mbind outcome_bind]. unfold login_offset.
    rewrite Hb1. cbn [mbind outcome_bind]. by rewrite size_byte. }
  assert (Hpo : password_offset v = Ret (22 + (2 + string_size l))%nat).
  { unfold password_offset. rewrite Hls. cbn [mbind outcome_bind]. f_equal.
    unfold login_offset. unfold_offsets. lia. }
  exists v. split_and!.
  - unfold make_view. destruct (Z.ltb_spec len (Z.of_nat kMandatorySize)) as [H|_].
    { unfold_offsets. lia. }
    cbn [v_package]. fold v. rewrite Hia. cbn [mbind outcome_bind]. rewrite Hb0.
    cbn [mbind outcome_bind]. rewrite size_byte, Hb1 by done. cbn [mbind outcome_bind].
    rewrite !u8_byte_of_Z, !wrap_u8_small by lia.
    destruct (Z.ltb_spec len (Z.of_nat kMandatorySize + 1 + Z.of_nat (string_size l) + 1
                              + Z.of_nat (string_size p))); [|done].
    unfold_offsets. lia.
  - split.
    + done.
    + by apply frame_command.
    + by apply frame_flags.
    + by apply frame_correlation_id.
    + exact Hia.
    + split.
      * unfold login. rewrite Hls. cbn [mbind outcome_bind]. change login_offset with (22 + 1)%nat.
        unfold v. rewrite frame_range by done. by apply auth_body_login.
      * unfold view_password. rewrite Hpo, Hps. cbn [mbind outcome_bind].
        unfold v. rewrite frame_range by done. apply auth_body_password.
    + unfold message_bytes, message_size, message_offset.
      rewrite Hia. cbn [mbind outcome_bind]. rewrite Hpo, Hps. cbn [mbind outcome_bind].
      cbn [v v_length]. rewrite (wrap_u64_small (len - 4)), wrap_u64_small, wrap_u32_small by lia.
      replace (22 + (2 + string_size l) + string_size p)%nat
        with (22 + (2 + string_size l + string_size p))%nat by lia.
      unfold v. rewrite frame_range by done. replace (Z.to_nat _) with (length msg) by lia.
      apply auth_body_message.
  - unfold view_size. cbn [v v_length]. rewrite (wrap_u64_small (len - 4)), wrap_u64_small; lia.
Qed.

(** ** Properties *)

(** C18: Unauthenticated round trip: the unauthenticated constructor, whatever
    memory the allocator returns, builds a valid package of 22 bytes plus the
    message, and the view of it reads back the command, the flags, the
    correlation id and exactly the bytes of the message. *)
Theorem plain_package_roundtrip {AL : Allocator} cmd fl corr msg
    (Hfl : has_authenticated fl = false) (Hcorr : length corr = 16%nat) (Hmsg : fits32 (length msg)) :
  ∃ pkg v, tcp_package_plain cmd fl corr msg = Ret pkg ∧
    package_is_valid pkg = Ret true ∧
    package_size pkg = 22 + Z.of_nat (length msg) ∧
    to_view pkg = Ret v ∧ view_reads v cmd fl None corr msg ∧ view_size v = package_size pkg.
Proof.
  assert (Hne : fl ≠ flags_authenticated) by (by intros ->).
  destruct (make_view_plain cmd fl corr msg Hcorr Hne Hmsg) as (v & Hv & Hr & Hs).
  eexists _, v. rewrite tcp_package_plain_layout by done. split; [done|].
  unfold package_size, to_view; cbn [package_ length_].
  rewrite wrap_u64_small by lia.
  replace (18 + Z.of_nat (length msg) + 4) with (22 + Z.of_nat (length msg)) by lia.
  split_and!; [|done|done|done|done].
  unfold package_is_valid, is_header_valid; cbn [package_ length_].
  destruct (Z.geb_spec (18 + Z.of_nat (length msg)) 18); [|lia].
  unfold read_at. rewrite decide_True by (rewrite length_plain_frame by done; unfold kLengthOffset; lia).
  cbn [mbind outcome_bind]. unfold slice, plain_frame. rewrite drop_0, take_app_length'
    by (by rewrite length_le_encode).
  rewrite le_decode_encode. do 2 f_equal. apply Z.eqb_eq. f_equal. apply Z.mod_small. lia.
Qed.

Lemma plain_package_roundtrip_witness :
  ∃ pkg v, tcp_package_plain (AL := zero_allocator) Command.ping flags_none
      (replicate 16 x2a) [x01; x02] = Ret pkg ∧
    package_is_valid pkg = Ret true ∧ package_size pkg = 22 + Z.of_nat (length [x01; x02]) ∧
    to_view pkg = Ret v ∧ view_reads v Command.ping flags_none None (replicate 16 x2a) [x01; x02] ∧
    view_size v = package_size pkg.
Proof.
  apply (plain_package_roundtrip (AL := zero_allocator)); [reflexivity|reflexivity|cbn; lia].
Defined.

(** C19: Authenticated round trip: with a login and a password of at most 255
    bytes, the view of the package the authenticated constructor builds reads
    back the command, the correlation id, the login, the password and exactly
    the bytes of the message. *)
Theorem auth_package_roundtrip {AL : Allocator} cmd corr (l p : string) msg
    (Hcorr : length corr = 16%nat) (Hl : (string_size l < 256)%nat) (Hp : (string_size p < 256)%nat)
    (Hmsg : fits32 (length (auth_body l p msg))) :
  ∃ pkg v, tcp_package_auth cmd flags_authenticated corr l p msg = Ret pkg ∧
    package_size pkg = 24 + Z.of_nat (string_size l + string_size p + length msg) ∧
    to_view pkg = Ret v ∧
    view_reads v cmd flags_authenticated (Some (string_bytes l, string_bytes p)) corr msg ∧
    view_size v = package_size pkg.
Proof.
  destruct (make_view_auth cmd corr l p msg Hcorr Hl Hp Hmsg) as (v & Hv & Hr & Hs).
  pose proof (length_auth_body l p msg).
  eexists _, v. rewrite tcp_package_auth_layout by done. split; [done|].
  unfold package_size, to_view; cbn [package_ length_].
  rewrite wrap_u64_small by lia.
  replace (18 + Z.of_nat (length (auth_body l p msg)) + 4)
    with (22 + Z.of_nat (length (auth_body l p msg))) by lia.
  split_and!; [lia|done|done|done].
Qed.

Lemma auth_package_roundtrip_witness :
  ∃ pkg v, tcp_package_auth (AL := zero_allocator) Command.authenticate flags_authenticated
      (replicate 16 x2a) "admin" "changeit" [x01] = Ret pkg ∧
    package_size pkg = 24 + Z.of_nat (string_size "admin" + string_size "changeit" + length [x01]) ∧
    to_view pkg = Ret v ∧
    view_reads v Command.authenticate flags_authenticated
      (Some (string_bytes "admin", string_bytes "changeit")) (replicate 16 x2a) [x01] ∧
    view_size v = package_size pkg.
Proof.
  apply (auth_package_roundtrip (AL := zero_allocator)); cbn; first [reflexivity|lia].
Defined.

(** The size of the login is stored in one byte while its characters are
    copied whole: no view of a package built with a login longer than 255
    bytes reads that login back. *)
Theorem long_login_lost {AL : Allocator} cmd corr (l p : string) msg pkg v bs
    (Hl : (256 ≤ string_size l)%nat)
    (Hpkg : tcp_package_auth cmd flags_authenticated corr l p msg = Ret pkg)
    (Hv : to_view pkg = Ret v) (Hlogin : login v = Ret bs) :
  bs ≠ string_bytes l.
Proof.
  intros ->. unfold login, login_size, view_range in Hlogin.
  apply outcome_bind_Ret_inv in Hlogin as (n & Hn & Hbs).
  apply outcome_bind_Ret_inv in Hn as (b & _ & [= <-]).
  destruct (v_package v); [|done]. unfold read_at in Hbs. case_decide; [|done].
  injection Hbs as Hbs. apply (f_equal length) in Hbs. rewrite length_slice in Hbs by done.
  pose proof (u8_range b). unfold string_size in Hl. lia.
Qed.

Lemma long_login_lost_witness :
  let l := bytes_string (replicate 300 x61) in
  ∃ pkg v bs,
    tcp_package_auth (AL := zero_allocator) Command.authenticate flags_authenticated
      (replicate 16 x2a) l "pw" [] = Ret pkg ∧ to_view pkg = Ret v ∧ login v = Ret bs ∧
    bs ≠ string_bytes l.
Proof.
  intros l. eexists _, _, _. split; [|split; [|split]].
  - vm_compute. reflexivity.
  - vm_compute. reflexivity.
  - vm_compute. reflexivity.
  - eapply (long_login_lost (AL := zero_allocator)
      Command.authenticate (replicate 16 x2a) l "pw" []).
    + vm_compute. lia.
    + vm_compute. reflexivity.
    + vm_compute. reflexivity.
    + vm_compute. reflexivity.
Defined.

(** C20: The view constructor on a received frame, by cases on the frame: an
    unauthenticated frame always gives a valid view; an authenticated one
    whose size bytes lie outside the frame is read out of bounds; one whose
    declared sizes exceed the frame gives a null view; otherwise the view is
    valid and its message is exactly the tail of the frame. *)
Theorem make_view_cases (mem : bytes) (Hlen : (22 ≤ length mem)%nat) (Hu32 : Z.of_nat (length mem) < 2 ^ 32) :
  let r := make_view (Some mem) (Z.of_nat (length mem)) in
  if decide (mem !! kFlagsOffset = Some flags_authenticated) then
    match mem !! 22%nat with
    | None => r = Undef out_of_bounds
    | Some n =>
        let l := Z.to_nat (u8 n) in
        match mem !! (23 + l)%nat with
        | None => r = Undef out_of_bounds
        | Some m =>
            let p := Z.to_nat (u8 m) in
            if decide (24 + l + p ≤ length mem)%nat
            then ∃ v, r = Ret v ∧ is_valid v = true ∧ message_bytes v = Ret (drop (24 + l + p) mem)
            else ∃ v, r = Ret v ∧ is_valid v = false
        end
    end
  else ∃ v, r = Ret v ∧ is_valid v = true ∧ message_bytes v = Ret (drop 22 mem).
Proof.
  intros r. subst r. unfold make_view.
  destruct (Z.ltb_spec (Z.of_nat (length mem)) (Z.of_nat kMandatorySize)) as [H|_].
  { unfold_offsets. lia. }
  cbn [v_package]. set (v := mk_view (Some mem) (wrap_u64 (Z.of_nat (length mem) - 4))).
  destruct (lookup_lt_is_Some_2 mem kFlagsOffset) as [f Hf]; [unfold_offsets; lia|].
  assert (Hia : is_authenticated v = Ret (bool_decide (f = flags_authenticated))).
  { unfold is_authenticated, flags, view_byte, v; cbn [v_package]. by rewrite Hf. }
  assert (Htail : ∀ off, (off ≤ length mem)%nat →
    view_range v off (Z.to_nat (wrap_u32 (wrap_u64 (v_length v + 4 - Z.of_nat off)))) = Ret (drop off mem)).
  { intros off Hoff. unfold v, view_range; cbn [v_package v_length].
    rewrite (wrap_u64_small (_ - 4)), wrap_u64_small, wrap_u32_small by lia.
    unfold read_at. rewrite decide_True by lia. unfold slice. f_equal. apply take_ge.
    rewrite length_drop. lia. }
  rewrite Hia. cbn [mbind outcome_bind]. rewrite Hf.
  destruct (decide (Some f = Some flags_authenticated)) as [Hauth|Hauth].
  - assert (f = flags_authenticated) as -> by congruence. rewrite bool_decide_eq_true_2 in Hia |- * by done.
    unfold view_byte, v; cbn [v_package]. change kAuthOffset with 22%nat.
    destruct (mem !! 22%nat) as [n|] eqn:Hn; cbn [mbind outcome_bind]; [|done].
    change (22 + 1 + Z.to_nat (u8 n))%nat with (23 + Z.to_nat (u8 n))%nat.
    destruct (mem !! (23 + Z.to_nat (u8 n))%nat) as [m|] eqn:Hm; cbn [mbind outcome_bind]; [|done].
    pose proof (u8_range n). pose proof (u8_range m).
    destruct (Z.ltb_spec (Z.of_nat (length mem)) (Z.of_nat kMandatorySize + 1 + u8 n + 1 + u8 m)) as [H'|H'];
      change (Z.of_nat kMandatorySize) with 22 in H'; case_decide; try lia.
    + eexists. by split.
    + exists v. split_and!; [done..|].
      assert (Hls : login_size v = Ret (Z.to_nat (u8 n))).
      { unfold login_size, view_byte, v; cbn [v_package]. change kAuthOffset with 22%nat. by rewrite Hn. }
      assert (Hps : password_size v = Ret (Z.to_nat (u8 m))).
      { unfold password_size. rewrite Hls. unfold view_byte, v; cbn [mbind outcome_bind v_package].
        change (login_offset + Z.to_nat (u8 n))%nat with (23 + Z.to_nat (u8 n))%nat. by rewrite Hm. }
      unfold message_bytes, message_size, message_offset, password_offset. rewrite Hia, Hls, Hps.
      cbn [mbind outcome_bind]. change (login_offset + ?a + 1)%nat with (23 + a + 1)%nat.
      rewrite Htail; [do 2 f_equal|]; change login_offset with 23%nat; lia.
  - rewrite bool_decide_eq_false_2 in Hia |- * by congruence.
    exists v. split_and!; [done..|]. unfold message_bytes, message_size, message_offset. rewrite Hia.
    cbn [mbind outcome_bind]. rewrite Htail; [done|]. unfold_offsets; lia.
Qed.

Lemma make_view_cases_witness :
  let mem := replicate 5 x00 ++ [x01] ++ replicate 16 x00 in
  make_view (Some mem) (Z.of_nat (length mem)) = Undef out_of_bounds.
Proof.
  intros mem. exact (make_view_cases mem ltac:(vm_compute; lia) ltac:(vm_compute; reflexivity)).
Defined.
