(* ===== verification/Framing.v ===== *)
(** Reading length-prefixed frames from the socket (tcp/read.hpp): the read
    operation and its two completion handlers, over any dynamic buffer, and
    the receive loop of the connection over a byte stream. *)
From S2P Require Import Prelude Errors Basics TcpPackage.

(** ** The dynamic buffer (the DynamicBuffer template parameter)

    [db_data b] is the memory readable from [b.data().data()]: the readable
    bytes, then the bytes prepared for writing. *)
Class DynamicBuffer (B : Type) := {
  db_size : B → nat;
  db_data : B → bytes;
  db_prepare : nat → B → B;
  db_fill : bytes → B → B; (* a read writes its bytes into the prepared region *)
  db_commit : nat → B → B;
  db_consume : nat → B → B
}.

(** What Boost.Asio documents of a dynamic buffer. *)
Class DynamicBufferLaws (B : Type) `{!DynamicBuffer B} := {
  db_rel : B → bytes → bytes → Prop; (* readable, prepared *)
  db_rel_size b r p : db_rel b r p → db_size b = length r;
  db_rel_data b r p : db_rel b r p → db_data b = r ++ p;
  db_prepare_rel n b r p : db_rel b r p → ∃ p', length p' = n ∧ db_rel (db_prepare n b) r p';
  db_fill_rel bs b r p : db_rel b r p → (length bs ≤ length p)%nat →
    db_rel (db_fill bs b) r (bs ++ drop (length bs) p);
  db_commit_rel n b r p : db_rel b r p → (n ≤ length p)%nat →
    db_rel (db_commit n b) (r ++ take n p) (drop n p);
  db_consume_rel n b r p : db_rel b r p → ∃ p', db_rel (db_consume n b) (drop n r) p'
}.

(** boost::asio::dynamic_vector_buffer as an instance: a vector and the size
    of its readable part. *)
Record vector_buffer := mk_vector_buffer { vb_storage : bytes; vb_size : nat }.

#[global] Instance vector_dynamic_buffer : DynamicBuffer vector_buffer := {
  db_size b := vb_size b;
  db_data b := vb_storage b;
  db_prepare n b := mk_vector_buffer (take (vb_size b) (vb_storage b) ++ replicate n x00) (vb_size b);
  db_fill bs b := mk_vector_buffer
    (take (vb_size b) (vb_storage b) ++ bs ++ drop (vb_size b + length bs) (vb_storage b)) (vb_size b);
  db_commit n b := mk_vector_buffer (vb_storage b) (Nat.min (vb_size b + n) (length (vb_storage b)));
  db_consume n b := mk_vector_buffer (drop (Nat.min n (vb_size b)) (vb_storage b))
                                     (vb_size b - n)
}.

#[global] Instance vector_dynamic_buffer_laws : DynamicBufferLaws vector_buffer.
Proof.
  refine {| db_rel b r p := vb_storage b = r ++ p ∧ vb_size b = length r |}.
  - by intros b r p [_ ?].
  - by intros b r p [? _].
  - intros n b r p [Hs Hn]. exists (replicate n x00). simpl.
    rewrite length_replicate, Hs, Hn, take_app_length. done.
  - intros bs b r p [Hs Hn] Hle. simpl. rewrite Hs, Hn, take_app_length, drop_app_add. done.
  - intros n b r p [Hs Hn] Hle. simpl. rewrite Hs, Hn, <- app_assoc, take_drop. split; [done|].
    rewrite !length_app, length_take. lia.
  - intros n b r p [Hs Hn]. exists p. simpl. rewrite Hs, Hn. split; [|by rewrite length_drop].
    destruct (Nat.le_gt_cases n (length r)).
    + rewrite Nat.min_l by done. by rewrite drop_app_le.
    + rewrite Nat.min_r, drop_app_length, (drop_ge r) by lia. done.
Defined.

(** ** The handlers *)

(** Which completion handler a read is started with. *)
Inductive read_handler := length_check_handler | read_message_handler.

(** What a handler does last: start the next read, call the completion token
    with an error code and a number of bytes, or nothing because the
    connection has been deallocated. *)
Inductive read_action :=
| AsyncRead (n : nat) (h : read_handler)
| CallToken (ec : error_code) (bytes : Z)
| NoAction.

Section handlers.
Context {B : Type} `{!DynamicBuffer B}.

(** read_tcp_package_op::initiate *)
Definition read_initiate (expired : bool) (b : B) : read_action * B :=
  if expired then (NoAction, b)
  else
    let b := db_consume (db_size b) b in
    (AsyncRead 4 length_check_handler, db_prepare 4 b).

(** length_check_handler::operator() *)
Definition length_check (expired : bool) (ec : error_code) (bytes_read : Z) (b : B) :
    outcome (read_action * B) :=
  if expired then Ret (NoAction, b)
  else if negb (failed ec) then
    prefix ← read_at 0 4 (db_data b);
    let length := wrap_i32 (le_decode prefix) in
    if (length <? Z.of_nat (kMandatorySize - kCommandOffset)) || (length >? kMaxPackageSize)
    then Ret (CallToken (make_error_code bad_length_prefix) bytes_read, b)
    else
      let b := db_commit 4 b in
      Ret (AsyncRead (Z.to_nat length) read_message_handler, db_prepare (Z.to_nat length) b)
  else Ret (CallToken ec bytes_read, b).

(** read_message_handler::operator(). When the connection is gone it consumes
    the length prefix from [buffer_], a reference to a member of the
    connection. *)
Definition read_message (expired : bool) (ec : error_code) (bytes_read : Z) (b : B) :
    outcome (read_action * B) :=
  if expired then Undef dangling_reference
  else
    let b := if failed ec then db_consume 4 b else db_commit (Z.to_nat bytes_read) b in
    Ret (CallToken ec (bytes_read + 4), b).

Definition run_read_handler (h : read_handler) (expired : bool) (ec : error_code)
    (bytes_read : Z) (b : B) : outcome (read_action * B) :=
  match h with
  | length_check_handler => length_check expired ec bytes_read b
  | read_message_handler => read_message expired ec bytes_read b
  end.
End handlers.

(** ** Reading from a stream

    boost::asio::async_read completes when it has read all the bytes it was
    asked for, or with an error ([eof] below) after the bytes that were left. *)
Section stream.
Context {B : Type} `{!DynamicBuffer B} (eof : error_code).

Definition async_read (n : nat) (stream : bytes) (b : B) : error_code * Z * bytes * B :=
  if decide (n ≤ length stream)%nat
  then (success, Z.of_nat n, drop n stream, db_fill (take n stream) b)
  else (eof, Z.of_nat (length stream), [], db_fill stream b).

(** One read operation from its initiation to its token: two handlers, so
    two rounds are enough. *)
Fixpoint drive (rounds : nat) (act : read_action) (stream : bytes) (b : B) :
    outcome (option (error_code * Z) * bytes * B) :=
  match act with
  | NoAction => Ret (None, stream, b)
  | CallToken ec n => Ret (Some (ec, n), stream, b)
  | AsyncRead n h =>
      match rounds with
      | O => Ret (None, stream, b)
      | S rounds =>
          let '(ec, n, stream, b) := async_read n stream b in
          '(act, b) ← run_read_handler h false ec n b;
          drive rounds act stream b
      end
  end.

Definition read_frame (stream : bytes) (b : B) : outcome (option (error_code * Z) * bytes * B) :=
  let '(act, b) := read_initiate false b in drive 2 act stream b.

(** basic_tcp_connection::async_start_receive on a stream: the token makes
    a view of the buffer and starts over; an error ends the loop.  The
    result lists the frames viewed and the error that ended it. *)
Fixpoint receive_loop (fuel : nat) (stream : bytes) (b : B) :
    outcome (list (bytes * Z) * option error_code) :=
  match fuel with
  | O => Ret ([], None)
  | S fuel =>
      '(tok, stream, b) ← read_frame stream b;
      match tok with
      | None => Ret ([], None)
      | Some (ec, frame_size) =>
          if failed ec then Ret ([], Some ec)
          else
            '(fs, e) ← receive_loop fuel stream b;
            Ret ((db_data b, frame_size) :: fs, e)
      end
  end.

Lemma receive_loop_S fuel stream (b : B) :
  receive_loop (S fuel) stream b =
    '(tok, stream, b) ← read_frame stream b;
    match tok with
    | None => Ret ([], None)
    | Some (ec, frame_size) =>
        if failed ec then Ret ([], Some ec)
        else
          '(fs, e) ← receive_loop fuel stream b;
          Ret ((db_data b, frame_size) :: fs, e)
    end.
Proof. done. Qed.
End stream.

(** ** Frames *)

(** What one read operation makes of a stream: the next frame and the rest, or
    an error. *)
Definition next_frame (eof : error_code) (stream : bytes) : error_code + bytes * bytes :=
  if decide (length stream < 4)%nat then inl eof
  else
    let n := wrap_i32 (le_decode (take 4 stream)) in
    if (n <? 18) || (n >? kMaxPackageSize) then inl (make_error_code bad_length_prefix)
    else if decide (4 + Z.to_nat n ≤ length stream)%nat
    then inr (take (4 + Z.to_nat n) stream, drop (4 + Z.to_nat n) stream)
    else inl eof.

Lemma next_frame_sound eof stream f rest :
  next_frame eof stream = inr (f, rest) →
  stream = f ++ rest ∧ 22 ≤ Z.of_nat (length f) ≤ 4 + kMaxPackageSize.
Proof.
  unfold next_frame. case_decide; [done|].
  destruct (_ || _) eqn:En; [done|]. apply orb_false_iff in En as [En1%Z.ltb_ge En2].
  rewrite Z.gtb_ltb in En2. apply Z.ltb_ge in En2.
  case_decide; [|done]. intros [= <- <-]. split; [by rewrite take_drop|]. rewrite length_take. lia.
Qed.

(** A frame: a length prefix in range, then as many bytes as it says. *)
Record frame_ok (f : bytes) : Prop := {
  frame_length : (22 ≤ length f)%nat ∧ Z.of_nat (length f) ≤ 4 + kMaxPackageSize;
  frame_prefix : take 4 f = le_encode 4 (Z.of_nat (length f) - 4)
}.

Lemma plain_frame_ok cmd fl corr msg :
  length corr = 16%nat → Z.of_nat (length msg) + 18 ≤ kMaxPackageSize →
  frame_ok (plain_frame cmd fl corr msg).
Proof.
  intros Hc Hm. pose proof (length_plain_frame cmd fl corr msg Hc) as Hl. split.
  - rewrite Hl. lia.
  - rewrite Hl. unfold plain_frame. rewrite take_app_length' by (by rewrite length_le_encode).
    f_equal. lia.
Qed.

Lemma frame_prefix_value n : 0 ≤ n ≤ kMaxPackageSize → wrap_i32 (le_decode (le_encode 4 n)) = n.
Proof.
  intros Hn. unfold kMaxPackageSize in Hn. rewrite le_decode_encode.
  rewrite (Z.mod_small n) by (simpl; lia). apply wrap_i32_small. unfold in_i32. lia.
Qed.

Section receive.
Context {B : Type} `{DynamicBufferLaws B} (eof : error_code) (Heof : failed eof = true).

Lemma async_read_ok n stream (b : B) :
  (n ≤ length stream)%nat →
  async_read eof n stream b = (success, Z.of_nat n, drop n stream, db_fill (take n stream) b).
Proof. intros. unfold async_read. by rewrite decide_True. Qed.

(** Filling a prepared region of the same size. *)
Lemma fill_prepared n bs (b : B) r p :
  db_rel b r p → length bs = n → db_rel (db_fill bs (db_prepare n b)) r bs.
Proof.
  intros Hb Hn. destruct (db_prepare_rel n b r p Hb) as (p' & Hp' & Hb').
  pose proof (db_fill_rel bs _ _ _ Hb') as Hf. rewrite (drop_ge p'), app_nil_r in Hf by lia.
  apply Hf. lia.
Qed.

(** The first read: four bytes, at the start of an emptied buffer. *)
Lemma first_read stream (b : B) r p :
  db_rel b r p → (4 ≤ length stream)%nat →
  ∃ b', db_rel b' [] (take 4 stream) ∧
    read_frame eof stream b =
      ('(act, b'') ← length_check false success 4 b'; drive eof 1 act (drop 4 stream) b'').
Proof.
  intros Hb H4. destruct (db_consume_rel (db_size b) b r p Hb) as [p1 Hb1].
  rewrite (db_rel_size b r p Hb), drop_all in Hb1.
  exists (db_fill (take 4 stream) (db_prepare 4 (db_consume (length r) b))). split.
  - eapply fill_prepared; [done|]. rewrite length_take. lia.
  - unfold read_frame, read_initiate. rewrite (db_rel_size b r p Hb).
    cbn [drive]. by rewrite async_read_ok.
Qed.

Lemma length_check_prefix prefix (b : B) :
  db_rel b [] prefix → length prefix = 4%nat →
  length_check false success 4 b =
    let n := wrap_i32 (le_decode prefix) in
    if (n <? 18) || (n >? kMaxPackageSize)
    then Ret (CallToken (make_error_code bad_length_prefix) 4, b)
    else Ret (AsyncRead (Z.to_nat n) read_message_handler, db_prepare (Z.to_nat n) (db_commit 4 b)).
Proof.
  intros Hb H4. unfold length_check. rewrite failed_success. cbn [negb].
  rewrite (db_rel_data _ _ _ Hb), app_nil_l.
  assert (read_at 0 4 prefix = Ret prefix) as -> by (rewrite <- H4; apply read_at_all). done.
Qed.

Lemma read_frame_ok f rest (b : B) r p :
  db_rel b r p → frame_ok f →
  ∃ b', read_frame eof (f ++ rest) b = Ret (Some (success, Z.of_nat (length f)), rest, b') ∧
    db_rel b' f [].
Proof.
  intros Hb [[Hmin Hmax] Hpre].
  assert (Ht : take 4 (f ++ rest) = take 4 f) by (apply take_app_le; lia).
  destruct (first_read (f ++ rest) b r p Hb) as (b1 & Hb1 & ->); [rewrite length_app; lia|].
  rewrite Ht in Hb1.
  rewrite (length_check_prefix _ _ Hb1) by (rewrite length_take; lia). cbv zeta.
  rewrite Hpre, frame_prefix_value by lia.
  destruct (Z.ltb_spec (Z.of_nat (length f) - 4) 18); [lia|].
  destruct (Z.gtb_spec (Z.of_nat (length f) - 4) kMaxPackageSize); [lia|].
  cbn [orb mbind outcome_bind drive].
  replace (Z.to_nat (Z.of_nat (length f) - 4)) with (length f - 4)%nat by lia.
  assert (Hd : drop 4 (f ++ rest) = drop 4 f ++ rest) by (apply drop_app_le; lia).
  assert (Hdl : length (drop 4 f) = (length f - 4)%nat) by apply length_drop.
  rewrite async_read_ok by (rewrite Hd, length_app; lia).
  rewrite Hd, drop_app_length', take_app_length' by done.
  cbn [run_read_handler mbind outcome_bind]. unfold read_message. rewrite failed_success.
  cbn [mbind outcome_bind drive]. rewrite Nat2Z.id.
  eexists. split; [repeat f_equal; lia|].
  assert (Hc : db_rel (db_commit 4 b1) (take 4 f) []).
  { pose proof (db_commit_rel 4 b1 [] (take 4 f) Hb1) as Hc.
    rewrite (take_ge (take 4 f)), (drop_ge (take 4 f)) in Hc by (rewrite length_take; lia).
    apply Hc. rewrite length_take; lia. }
  pose proof (fill_prepared (length f - 4) (drop 4 f) _ _ _ Hc Hdl) as Hf.
  apply (db_commit_rel (length f - 4)) in Hf; [|by rewrite Hdl].
  rewrite (take_ge (drop 4 f)), (drop_ge (drop 4 f)), take_drop in Hf by lia. done.
Qed.

(** One read operation ends with its token, as the specification of a frame
    says, and on success the buffer holds exactly the frame. *)
Lemma read_frame_next stream (b : B) r p :
  db_rel b r p →
  match next_frame eof stream with
  | inl ec => failed ec = true ∧
      ∃ n stream' b', read_frame eof stream b = Ret (Some (ec, n), stream', b')
  | inr (f, rest) =>
      ∃ b', read_frame eof stream b = Ret (Some (success, Z.of_nat (length f)), rest, b') ∧ db_rel b' f []
  end.
Proof.
  intros Hb. destruct (db_consume_rel (db_size b) b r p Hb) as [p1 Hb1]. unfold next_frame.
  destruct (decide (length stream < 4)%nat) as [H4|H4].
  - split; [done|]. unfold read_frame, read_initiate. cbn [drive]. unfold async_read.
    rewrite decide_False by lia. cbn [run_read_handler]. unfold length_check.
    rewrite Heof. cbn [negb mbind outcome_bind drive]. by eexists _, _, _.
  - destruct (first_read stream b r p Hb) as (b1 & Hb2 & ->); [lia|].
    assert (Hl4 : length (take 4 stream) = 4%nat) by (rewrite length_take; lia).
    rewrite (length_check_prefix _ _ Hb2 Hl4). cbv zeta.
    set (n := wrap_i32 (le_decode (take 4 stream))).
    destruct ((n <? 18) || (n >? kMaxPackageSize)) eqn:En; cbn [mbind outcome_bind drive].
    { split; [apply failed_make_error_code_communication|]. by eexists _, _, _. }
    apply orb_false_iff in En as [En1%Z.ltb_ge En2]. rewrite Z.gtb_ltb in En2. apply Z.ltb_ge in En2.
    pose proof (db_commit_rel 4 b1 _ _ Hb2) as Hc.
    rewrite (take_ge (take 4 stream)), (drop_ge (take 4 stream)) in Hc by lia.
    specialize (Hc ltac:(lia)). cbn [app] in Hc.
    unfold async_read. rewrite length_drop.
    destruct (decide (4 + Z.to_nat n ≤ length stream)%nat) as [Hn|Hn];
      [rewrite decide_True by lia|rewrite decide_False by lia];
      cbn [run_read_handler]; unfold read_message; rewrite ?Heof, ?failed_success;
      cbn [mbind outcome_bind drive]; [|split; [done|]; by eexists _, _, _].
    assert (Hf : length (take (Z.to_nat n) (drop 4 stream)) = Z.to_nat n)
      by (rewrite length_take, length_drop; lia).
    pose proof (fill_prepared (Z.to_nat n) _ _ _ _ Hc Hf) as Hfl.
    apply (db_commit_rel (Z.to_nat n)) in Hfl; [|lia].
    rewrite (take_ge (take (Z.to_nat n) _)), (drop_ge (take (Z.to_nat n) _)) in Hfl by lia.
    rewrite Nat2Z.id, drop_drop, take_take_drop in *. cbn [drive].
    eexists. split; [|exact Hfl]. repeat f_equal. rewrite length_take. lia.
Qed.

(** Every read operation ends with its token, consumes bytes of the stream
    on success, and never leaves the two handlers. *)
Lemma read_frame_total stream (b : B) r p :
  db_rel b r p →
  ∃ ec n stream' b', read_frame eof stream b = Ret (Some (ec, n), stream', b') ∧
    (failed ec = false → 22 ≤ n ≤ 4 + kMaxPackageSize ∧
      ∃ f, stream = f ++ stream' ∧ Z.of_nat (length f) = n ∧ db_rel b' f []).
Proof.
  intros Hb. pose proof (read_frame_next stream b r p Hb) as Hn.
  destruct (next_frame eof stream) as [ec|[f rest]] eqn:E.
  - destruct Hn as (He & n & stream' & b' & Hr). exists ec, n, stream', b'. split; [done|]. congruence.
  - destruct Hn as (b' & Hr & Hb'). eexists _, _, _, _. split; [exact Hr|]. intros _.
    destruct (next_frame_sound _ _ _ _ E) as [-> Hf]. split; [done|]. by exists f.
Qed.
End receive.

(** ** Properties *)

(** The loop on a sequence of whole frames followed by less than a prefix. *)
Lemma receive_loop_frames `{DynamicBufferLaws B} eof (fs : list bytes) rest (b : B) r p
    (Heof : failed eof = true) (Hb : db_rel b r p) (Hfs : Forall frame_ok fs)
    (Hrest : (length rest < 4)%nat) :
  receive_loop eof (S (length fs)) (concat fs ++ rest) b =
    Ret ((λ f, (f, Z.of_nat (length f))) <$> fs, Some eof).
Proof.
  revert b r p Hb. induction Hfs as [|f fs Hf Hfs IH]; intros b r p Hb.
  - cbn [concat app length receive_loop].
    unfold read_frame, read_initiate. cbn [drive]. unfold async_read.
    rewrite decide_False by lia. cbn [run_read_handler]. unfold length_check.
    rewrite Heof. cbn [negb mbind outcome_bind drive]. by rewrite Heof.
  - cbn [concat length]. rewrite <- app_assoc, receive_loop_S.
    destruct (read_frame_ok eof f (concat fs ++ rest) b r p Hb Hf) as (b' & -> & Hb').
    cbn [mbind outcome_bind]. rewrite failed_success.
    rewrite (IH _ _ _ Hb').
    cbn [mbind outcome_bind fmap list_fmap]. by rewrite (db_rel_data _ _ _ Hb'), app_nil_r.
Qed.

(** Framing round trip: whatever the dynamic buffer, a stream that is a
    sequence of well-formed frames followed by less than a length prefix is
    read as exactly those frames, in order and with their sizes, and then the
    loop ends with the socket's error. *)
Theorem framing_roundtrip `{DynamicBufferLaws B} eof (fs : list bytes) rest (b : B) r p
    (Heof : failed eof = true) (Hb : db_rel b r p) (Hfs : Forall frame_ok fs)
    (Hrest : (length rest < 4)%nat) :
  receive_loop eof (S (length fs)) (concat fs ++ rest) b =
    Ret ((λ f, (f, Z.of_nat (length f))) <$> fs, Some eof).
Proof. exact (receive_loop_frames eof fs rest b r p Heof Hb Hfs Hrest). Qed.

Lemma framing_roundtrip_witness :
  let f := plain_frame Command.pong flags_none (replicate 16 x07) [x01; x02; x03] in
  let eof := mk_error_code 2 system_category in
  receive_loop eof 3 (concat [f; f] ++ [x00]) (mk_vector_buffer [] 0) =
    Ret ((λ f, (f, Z.of_nat (length f))) <$> [f; f], Some eof).
Proof.
  intros f eof. apply (framing_roundtrip eof [f; f] [x00] (mk_vector_buffer [] 0) [] []).
  - reflexivity.
  - split; reflexivity.
  - assert (frame_ok f) by (apply plain_frame_ok; [reflexivity|vm_compute; discriminate]).
    exact (Forall_cons_2 _ _ _ H (Forall_cons_2 _ _ _ H (Forall_nil_2 _))).
  - cbn; lia.
Defined.

(** Packages written by the unauthenticated constructor, sent back to back
    on a stream, are received one by one: each delivered frame makes a valid
    view with the command, flags, correlation id and message that were sent. *)
Theorem packages_received {AL : Allocator} `{DynamicBufferLaws B} eof
    (sent : list (tcp_command * tcp_flags * bytes * bytes)) (pkgs : list tcp_package) (b : B) r p
    (Heof : failed eof = true) (Hb : db_rel b r p)
    (Hsent : Forall (λ '(cmd, fl, corr, msg), has_authenticated fl = false ∧ length corr = 16%nat ∧
      Z.of_nat (length msg) + 18 ≤ kMaxPackageSize) sent)
    (Hpkgs : Forall2 (λ '(cmd, fl, corr, msg) pkg, tcp_package_plain cmd fl corr msg = Ret pkg) sent pkgs) :
  ∃ frames, receive_loop eof (S (length sent)) (concat (default [] ∘ package_ <$> pkgs)) b =
      Ret (frames, Some eof) ∧
    Forall2 (λ '(cmd, fl, corr, msg) '(mem, size), ∃ v,
      make_view (Some mem) size = Ret v ∧ view_reads v cmd fl None corr msg) sent frames.
Proof.
  set (frames := (λ '(cmd, fl, corr, msg), plain_frame cmd fl corr msg) <$> sent).
  exists ((λ f, (f, Z.of_nat (length f))) <$> frames). split.
  - assert (default [] ∘ package_ <$> pkgs = frames) as ->.
    { subst frames. induction Hpkgs as [|[[[cmd fl] corr] msg] pkg sent pkgs Hp _ IH]; [done|].
      apply Forall_cons in Hsent as [(Hfl & Hc & Hm) Hsent].
      rewrite tcp_package_plain_layout in Hp by (unfold kMaxPackageSize in Hm; done || lia).
      injection Hp as <-. rewrite !fmap_cons, (IH Hsent). done. }
    rewrite <- (app_nil_r (concat frames)).
    replace (length sent) with (length frames) by apply length_fmap.
    apply (receive_loop_frames eof frames [] b r p); [done|done| |simpl; lia].
    apply Forall_fmap. eapply Forall_impl; [exact Hsent|].
    intros [[[cmd fl] corr] msg] (Hfl & Hc & Hm). simpl. by apply plain_frame_ok.
  - subst frames. clear Hpkgs. induction Hsent as [|[[[cmd fl] corr] msg] sent (Hfl & Hc & Hm) _ IH];
      constructor; [|exact IH].
    assert (Hm' : fits32 (length msg)) by (unfold kMaxPackageSize in Hm; lia).
    destruct (make_view_plain cmd fl corr msg Hc ltac:(by intros ->) Hm') as (v & Hv & Hr & _).
    exists v. split; [|done].
    assert (Z.of_nat (length (plain_frame cmd fl corr msg)) = 22 + Z.of_nat (length msg)) as ->
      by (rewrite length_plain_frame by done; lia).
    done.
Qed.

Lemma packages_received_witness :
  let sent := [(Command.ping, flags_none, replicate 16 x07, [x01]);
               (Command.pong, flags_none, replicate 16 x08, [])] in
  let eof := mk_error_code 2 system_category in
  ∃ pkgs frames,
    receive_loop eof 3 (concat (default [] ∘ package_ <$> pkgs)) (mk_vector_buffer [] 0) =
      Ret (frames, Some eof) ∧
    Forall2 (λ '(cmd, fl, corr, msg) '(mem, size), ∃ v,
      make_view (Some mem) size = Ret v ∧ view_reads v cmd fl None corr msg) sent frames.
Proof.
  intros sent eof.
  exists [mk_tcp_package (Some (plain_frame Command.ping flags_none (replicate 16 x07) [x01])) 19;
          mk_tcp_package (Some (plain_frame Command.pong flags_none (replicate 16 x08) [])) 18].
  apply (packages_received (AL := zero_allocator) eof sent _ (mk_vector_buffer [] 0) [] []).
  - reflexivity.
  - split; reflexivity.
  - repeat constructor; vm_compute; discriminate.
  - repeat constructor.
Defined.

(** A length prefix below 18 or above 64 MiB is rejected: the operation
    ends with bad_length_prefix after the four bytes of the prefix, and the
    rest of the stream is left unread. *)
Theorem bad_length_rejected `{DynamicBufferLaws B} eof stream (b : B) r p
    (Hb : db_rel b r p) (H4 : (4 ≤ length stream)%nat)
    (Hbad : let n := wrap_i32 (le_decode (take 4 stream)) in n < 18 ∨ kMaxPackageSize < n) :
  ∃ b', read_frame eof stream b =
    Ret (Some (make_error_code bad_length_prefix, 4), drop 4 stream, b').
Proof.
  destruct (first_read eof stream b r p Hb H4) as (b' & Hb' & ->). exists b'.
  rewrite (length_check_prefix _ _ Hb') by (rewrite length_take; lia). cbv zeta in *.
  set (n := wrap_i32 _) in *.
  assert ((n <? 18) || (n >? kMaxPackageSize) = true) as ->.
  { rewrite Z.gtb_ltb. destruct (Z.ltb_spec n 18), (Z.ltb_spec kMaxPackageSize n); simpl; lia || done. }
  done.
Qed.

Lemma bad_length_rejected_witness :
  let eof := mk_error_code 2 system_category in
  ∃ b', read_frame eof ([x11; x00; x00; x00] ++ replicate 30 x00) (mk_vector_buffer [] 0) =
    Ret (Some (make_error_code bad_length_prefix, 4), replicate 30 x00, b').
Proof.
  intros eof.
  apply (bad_length_rejected eof ([x11; x00; x00; x00] ++ replicate 30 x00) (mk_vector_buffer [] 0) [] []).
  - split; reflexivity.
  - vm_compute. lia.
  - left. vm_compute. reflexivity.
Defined.

(** The receive loop ends on every finite stream, with an error and no
    undefined behaviour: as many rounds as the stream has bytes are enough,
    and the frames it delivered are between 22 bytes and 4 bytes plus 64 MiB
    and are, in order, a prefix of the stream. *)
Theorem receive_loop_total `{DynamicBufferLaws B} eof stream (b : B) r p fuel
    (Heof : failed eof = true) (Hb : db_rel b r p) (Hfuel : (length stream < fuel)%nat) :
  ∃ frames e rest, receive_loop eof fuel stream b = Ret (frames, Some e) ∧ failed e = true ∧
    stream = concat (frames.*1) ++ rest ∧
    Forall (λ '(mem, size), Z.of_nat (length mem) = size ∧ 22 ≤ size ≤ 4 + kMaxPackageSize) frames.
Proof.
  revert stream b r p Hb Hfuel. induction fuel as [|fuel IH]; intros stream b r p Hb Hfuel; [lia|].
  rewrite receive_loop_S.
  destruct (read_frame_total eof Heof stream b r p Hb) as (ec & n & stream' & b' & -> & Hok).
  cbn [mbind outcome_bind]. destruct (failed ec) eqn:E.
  - exists [], ec, stream. split_and!; done.
  - destruct (Hok eq_refl) as (Hn & f & -> & Hf & Hb').
    rewrite length_app in Hfuel.
    destruct (IH stream' b' _ _ Hb') as (frames & e & rest & -> & He & -> & Hall); [lia|].
    cbn [mbind outcome_bind]. rewrite (db_rel_data _ _ _ Hb'), app_nil_r.
    eexists _, e, rest. split; [done|]. split; [done|].
    split; [by rewrite fmap_cons; cbn [concat fst]; rewrite app_assoc|].
    constructor; [split; [done|lia]|done].
Qed.

Lemma receive_loop_total_witness :
  ∃ frames e rest, receive_loop (mk_error_code 2 system_category) 40 (replicate 30 x12) (mk_vector_buffer [] 0)
      = Ret (frames, Some e) ∧ failed e = true ∧
    replicate 30 x12 = concat (frames.*1) ++ rest ∧
    Forall (λ '(mem, size), Z.of_nat (length mem) = size ∧ 22 ≤ size ≤ 4 + kMaxPackageSize) frames.
Proof.
  apply (receive_loop_total _ _ (mk_vector_buffer [] 0) [] []).
  - reflexivity.
  - split; reflexivity.
  - vm_compute. lia.
Defined.
