(* ===== verification/FramingSpec.v ===== *)
(** The receive loop of Framing.v against its specification: cutting a stream
    into frames, defined by well-founded recursion on the bytes that are left. *)
From Equations Require Import Equations.
From S2P Require Import Prelude Errors Basics TcpPackage Framing.

(** A value with a name for it, for the recursion. *)
Definition inspected {A} (x : A) : { y : A | x = y } := exist _ x eq_refl.

(** The frames of a stream, and the error that ends them. *)
Equations? frames_of (eof : error_code) (stream : bytes) : list bytes * error_code
    by wf (length stream) lt :=
  frames_of eof stream with inspected (next_frame eof stream) := {
    | exist _ (inl e) _ => ([], e);
    | exist _ (inr (f, rest)) Hf => (f :: (frames_of eof rest).1, (frames_of eof rest).2) }.
Proof.
  all: destruct (next_frame_sound _ _ _ _ Hf) as [-> Hl]; rewrite length_app; lia.
Qed.

(** Its equation, without the proofs. *)
Lemma frames_of_step eof stream :
  frames_of eof stream =
    match next_frame eof stream with
    | inl e => ([], e)
    | inr (f, rest) => (f :: (frames_of eof rest).1, (frames_of eof rest).2)
    end.
Proof.
  funelim (frames_of eof stream).
  - by match goal with E : next_frame _ _ = _ |- _ => rewrite E end.
  - by match goal with E : next_frame _ _ = _ |- _ => rewrite E end.
Qed.

(** C17: The receive loop is the specification: on every stream, whatever the
    dynamic buffer holds, it ends without undefined behaviour, and it delivers
    exactly the frames into which the stream is cut by its length prefixes, in
    order and with their sizes, and then the error that ends them: a prefix
    out of range, or the socket's error when the next frame is incomplete.  As
    many rounds as the stream has bytes are enough, the frames are between 22
    bytes and 4 bytes plus 64 MiB, and they are a prefix of the stream. *)
Theorem receive_loop_reference `{DynamicBufferLaws B} eof stream (b : B) r p fuel
    (Heof : failed eof = true) (Hb : db_rel b r p) (Hfuel : (length stream < fuel)%nat) :
  let '(fs, e) := frames_of eof stream in
  receive_loop eof fuel stream b = Ret ((λ f, (f, Z.of_nat (length f))) <$> fs, Some e) ∧
  failed e = true ∧ concat fs `prefix_of` stream ∧
  Forall (λ f, 22 ≤ Z.of_nat (length f) ≤ 4 + kMaxPackageSize) fs.
Proof.
  revert stream b r p Hb Hfuel. induction fuel as [|fuel IH]; intros stream b r p Hb Hfuel; [lia|].
  rewrite receive_loop_S, frames_of_step. pose proof (read_frame_next eof Heof stream b r p Hb) as Hn.
  destruct (next_frame eof stream) as [e|[f rest]] eqn:E.
  - destruct Hn as (He & n & stream' & b' & ->). cbn [mbind outcome_bind]. rewrite He.
    split_and!; [done|done|apply prefix_nil|done].
  - destruct Hn as (b' & -> & Hb'). destruct (next_frame_sound _ _ _ _ E) as [-> Hf].
    cbn [mbind outcome_bind]. rewrite failed_success. rewrite length_app in Hfuel.
    specialize (IH rest b' _ _ Hb' ltac:(lia)). destruct (frames_of eof rest) as [fs e].
    destruct IH as (-> & He & Hp & Hall). cbn [mbind outcome_bind].
    rewrite (db_rel_data _ _ _ Hb'), app_nil_r. split_and!; [done|done|by apply prefix_app|by constructor].
Qed.

Lemma receive_loop_reference_witness :
  let stream := plain_frame Command.pong flags_none (replicate 16 x07) [x01] ++ [x12; x00; x00; x00; xff] in
  let eof := mk_error_code 2 system_category in
  let '(fs, e) := frames_of eof stream in
  receive_loop eof 40 stream (mk_vector_buffer [x09] 1) = Ret ((λ f, (f, Z.of_nat (length f))) <$> fs, Some e) ∧
  failed e = true ∧ concat fs `prefix_of` stream ∧
  Forall (λ f, 22 ≤ Z.of_nat (length f) ≤ 4 + kMaxPackageSize) fs.
Proof.
  intros stream eof. apply (receive_loop_reference eof stream (mk_vector_buffer [x09] 1) [x09] []).
  - reflexivity.
  - split; reflexivity.
  - vm_compute. lia.
Defined.
