(* ===== verification/Messages.v ===== *)
(** The protocol messages the client exchanges (proto/messages.proto) as
    records, and the interface of their serialization.  The code protoc
    generates for them (src/messages.pb.cc, include/message/messages.pb.h) is
    used through that interface only. *)
From S2P Require Import Prelude Basics.

(** ** Message types

    An optional field is an option; a required sub-message is one too, since
    a parsed object may lack it. *)

Record NewEvent := mk_NewEvent {
  ne_event_id : bytes;
  ne_event_type : string;
  ne_data_content_type : Z;
  ne_metadata_content_type : Z;
  ne_data : string;
  ne_metadata : option string
}.

Record EventRecord := mk_EventRecord {
  er_event_stream_id : string;
  er_event_number : Z;
  er_event_id : bytes;
  er_event_type : string;
  er_data_content_type : Z;
  er_metadata_content_type : Z;
  er_data : string;
  er_metadata : option string;
  er_created : option Z;
  er_created_epoch : option Z
}.

Record ResolvedIndexedEvent := mk_ResolvedIndexedEvent {
  rie_event : option EventRecord;
  rie_link : option EventRecord
}.

Record ResolvedEvent := mk_ResolvedEvent {
  re_event : option EventRecord;
  re_link : option EventRecord;
  re_commit_position : Z;
  re_prepare_position : Z
}.

Inductive OperationResult : Type :=
| Success | PrepareTimeout | CommitTimeout | ForwardTimeout
| WrongExpectedVersion | StreamDeleted | InvalidTransaction | AccessDenied.
#[global] Instance OperationResult_eq_dec : EqDecision OperationResult.
Proof. solve_decision. Defined.

Record WriteEvents := mk_WriteEvents {
  we_event_stream_id : string;
  we_expected_version : Z;
  we_events : list NewEvent;
  we_require_master : bool
}.

Record WriteEventsCompleted := mk_WriteEventsCompleted {
  wec_result : OperationResult;
  wec_message : option string;
  wec_first_event_number : Z;
  wec_last_event_number : Z;
  wec_prepare_position : option Z;
  wec_commit_position : option Z;
  wec_current_version : option Z
}.

Record DeleteStream := mk_DeleteStream {
  ds_event_stream_id : string;
  ds_expected_version : Z;
  ds_require_master : bool;
  ds_hard_delete : option bool
}.

Record DeleteStreamCompleted := mk_DeleteStreamCompleted {
  dsc_result : OperationResult;
  dsc_message : option string;
  dsc_prepare_position : option Z;
  dsc_commit_position : option Z
}.

Record TransactionStart := mk_TransactionStart {
  ts_event_stream_id : string;
  ts_expected_version : Z;
  ts_require_master : bool
}.

Record TransactionStartCompleted := mk_TransactionStartCompleted {
  tsc_transaction_id : Z;
  tsc_result : OperationResult;
  tsc_message : option string
}.

Record TransactionWrite := mk_TransactionWrite {
  tw_transaction_id : Z;
  tw_events : list NewEvent;
  tw_require_master : bool
}.

Record TransactionWriteCompleted := mk_TransactionWriteCompleted {
  twc_transaction_id : Z;
  twc_result : OperationResult;
  twc_message : option string
}.

Record TransactionCommit := mk_TransactionCommit {
  tc_transaction_id : Z;
  tc_require_master : bool
}.

Record TransactionCommitCompleted := mk_TransactionCommitCompleted {
  tcc_transaction_id : Z;
  tcc_result : OperationResult;
  tcc_message : option string;
  tcc_first_event_number : Z;
  tcc_last_event_number : Z;
  tcc_prepare_position : option Z;
  tcc_commit_position : option Z
}.

Record ReadEvent := mk_ReadEvent {
  rev_event_stream_id : string;
  rev_event_number : Z;
  rev_resolve_link_tos : bool;
  rev_require_master : bool
}.

Inductive ReadEventResult : Type :=
| ReadEvent_Success | ReadEvent_NotFound | ReadEvent_NoStream | ReadEvent_StreamDeleted
| ReadEvent_Error | ReadEvent_AccessDenied.

Record ReadEventCompleted := mk_ReadEventCompleted {
  rec_result : ReadEventResult;
  rec_event : ResolvedIndexedEvent;
  rec_error : option string
}.

Record ReadStreamEvents := mk_ReadStreamEvents {
  rse_event_stream_id : string;
  rse_from_event_number : Z;
  rse_max_count : Z;
  rse_resolve_link_tos : bool;
  rse_require_master : bool
}.

Inductive ReadStreamResult : Type :=
| ReadStream_Success | ReadStream_NoStream | ReadStream_StreamDeleted
| ReadStream_NotModified | ReadStream_Error | ReadStream_AccessDenied.

Record ReadStreamEventsCompleted := mk_ReadStreamEventsCompleted {
  rsec_events : list ResolvedIndexedEvent;
  rsec_result : ReadStreamResult;
  rsec_next_event_number : Z;
  rsec_last_event_number : Z;
  rsec_is_end_of_stream : bool;
  rsec_last_commit_position : Z;
  rsec_error : option string
}.

Record ReadAllEvents := mk_ReadAllEvents {
  rae_commit_position : Z;
  rae_prepare_position : Z;
  rae_max_count : Z;
  rae_resolve_link_tos : bool;
  rae_require_master : bool
}.

Inductive ReadAllResult : Type :=
| ReadAll_Success | ReadAll_NotModified | ReadAll_Error | ReadAll_AccessDenied.

Record ReadAllEventsCompleted := mk_ReadAllEventsCompleted {
  raec_commit_position : Z;
  raec_prepare_position : Z;
  raec_events : list ResolvedEvent;
  raec_next_commit_position : Z;
  raec_next_prepare_position : Z;
  raec_result : option ReadAllResult;
  raec_error : option string
}.

(** CreatePersistentSubscription and UpdatePersistentSubscription have the
    same fields. *)
Record PersistentSubscriptionConfig := mk_PersistentSubscriptionConfig {
  psc_subscription_group_name : string;
  psc_event_stream_id : string;
  psc_resolve_link_tos : bool;
  psc_start_from : Z;
  psc_message_timeout_milliseconds : Z;
  psc_record_statistics : bool;
  psc_live_buffer_size : Z;
  psc_read_batch_size : Z;
  psc_buffer_size : Z;
  psc_max_retry_count : Z;
  psc_prefer_round_robin : bool;
  psc_checkpoint_after_time : Z;
  psc_checkpoint_max_count : Z;
  psc_checkpoint_min_count : Z;
  psc_subscriber_max_count : Z;
  psc_named_consumer_strategy : option string
}.

Inductive CreatePersistentSubscription := mk_CreatePersistentSubscription (c : PersistentSubscriptionConfig).
Inductive UpdatePersistentSubscription := mk_UpdatePersistentSubscription (c : PersistentSubscriptionConfig).

Record DeletePersistentSubscription := mk_DeletePersistentSubscription {
  dps_subscription_group_name : string;
  dps_event_stream_id : string
}.

Inductive CreatePersistentSubscriptionResult : Type :=
| CreatePS_Success | CreatePS_AlreadyExists | CreatePS_Fail | CreatePS_AccessDenied.
Inductive UpdatePersistentSubscriptionResult : Type :=
| UpdatePS_Success | UpdatePS_DoesNotExist | UpdatePS_Fail | UpdatePS_AccessDenied.
Inductive DeletePersistentSubscriptionResult : Type :=
| DeletePS_Success | DeletePS_DoesNotExist | DeletePS_Fail | DeletePS_AccessDenied.

Record CreatePersistentSubscriptionCompleted := mk_CreatePersistentSubscriptionCompleted {
  cpsc_result : CreatePersistentSubscriptionResult;
  cpsc_reason : option string
}.
Record UpdatePersistentSubscriptionCompleted := mk_UpdatePersistentSubscriptionCompleted {
  upsc_result : UpdatePersistentSubscriptionResult;
  upsc_reason : option string
}.
Record DeletePersistentSubscriptionCompleted := mk_DeletePersistentSubscriptionCompleted {
  dpsc_result : DeletePersistentSubscriptionResult;
  dpsc_reason : option string
}.

Record ConnectToPersistentSubscription := mk_ConnectToPersistentSubscription {
  ctps_subscription_id : string;
  ctps_event_stream_id : string;
  ctps_allowed_in_flight_messages : Z
}.

Record PersistentSubscriptionAckEvents := mk_PersistentSubscriptionAckEvents {
  ack_subscription_id : string;
  ack_processed_event_ids : list bytes
}.

Inductive NakAction : Type := Nak_Unknown | Nak_Park | Nak_Retry | Nak_Skip | Nak_Stop.

Record PersistentSubscriptionNakEvents := mk_PersistentSubscriptionNakEvents {
  nak_subscription_id : string;
  nak_processed_event_ids : list bytes;
  nak_message : option string;
  nak_action : NakAction
}.

Record PersistentSubscriptionConfirmation := mk_PersistentSubscriptionConfirmation {
  pconf_last_commit_position : Z;
  pconf_subscription_id : string;
  pconf_last_event_number : option Z
}.

Record PersistentSubscriptionStreamEventAppeared := mk_PersistentSubscriptionStreamEventAppeared {
  psea_event : ResolvedIndexedEvent;
  psea_retryCount : option Z
}.

Record SubscribeToStream := mk_SubscribeToStream {
  sts_event_stream_id : string;
  sts_resolve_link_tos : bool
}.

Record SubscriptionConfirmation := mk_SubscriptionConfirmation {
  conf_last_commit_position : Z;
  conf_last_event_number : option Z
}.

Record StreamEventAppeared := mk_StreamEventAppeared { sea_event : ResolvedEvent }.

Inductive UnsubscribeFromStream := mk_UnsubscribeFromStream.

Inductive SubscriptionDropReason : Type :=
| Drop_Unsubscribed | Drop_AccessDenied | Drop_NotFound
| Drop_PersistentSubscriptionDeleted | Drop_SubscriberMaxCountReached.

(** An absent optional enum reads as its first value. *)
Record SubscriptionDropped := mk_SubscriptionDropped { sd_reason_opt : option SubscriptionDropReason }.
Definition sd_reason (m : SubscriptionDropped) : SubscriptionDropReason :=
  default Drop_Unsubscribed (sd_reason_opt m).

Inductive NotHandledReason : Type := NotReady | TooBusy | NotMaster.
Record NotHandled := mk_NotHandled {
  nh_reason : NotHandledReason;
  nh_additional_info : option string
}.

Record IdentifyClient := mk_IdentifyClient {
  ic_version : Z;
  ic_connection_name : option string
}.

(** ** Serialization

    [ParseFromArray bs] is the state of a message object after parsing [bs]
    into it; the client ignores whether parsing succeeded. *)
Class Message (M : Type) := {
  SerializeAsString : M → bytes;
  ParseFromArray : bytes → M
}.

(** The generated code: an implementation for every message type. *)
Class Protobuf := {
  pb_WriteEvents :: Message WriteEvents;
  pb_WriteEventsCompleted :: Message WriteEventsCompleted;
  pb_DeleteStream :: Message DeleteStream;
  pb_DeleteStreamCompleted :: Message DeleteStreamCompleted;
  pb_TransactionStart :: Message TransactionStart;
  pb_TransactionStartCompleted :: Message TransactionStartCompleted;
  pb_TransactionWrite :: Message TransactionWrite;
  pb_TransactionWriteCompleted :: Message TransactionWriteCompleted;
  pb_TransactionCommit :: Message TransactionCommit;
  pb_TransactionCommitCompleted :: Message TransactionCommitCompleted;
  pb_ReadEvent :: Message ReadEvent;
  pb_ReadEventCompleted :: Message ReadEventCompleted;
  pb_ReadStreamEvents :: Message ReadStreamEvents;
  pb_ReadStreamEventsCompleted :: Message ReadStreamEventsCompleted;
  pb_ReadAllEvents :: Message ReadAllEvents;
  pb_ReadAllEventsCompleted :: Message ReadAllEventsCompleted;
  pb_CreatePS :: Message CreatePersistentSubscription;
  pb_CreatePSCompleted :: Message CreatePersistentSubscriptionCompleted;
  pb_UpdatePS :: Message UpdatePersistentSubscription;
  pb_UpdatePSCompleted :: Message UpdatePersistentSubscriptionCompleted;
  pb_DeletePS :: Message DeletePersistentSubscription;
  pb_DeletePSCompleted :: Message DeletePersistentSubscriptionCompleted;
  pb_ConnectToPS :: Message ConnectToPersistentSubscription;
  pb_PSAckEvents :: Message PersistentSubscriptionAckEvents;
  pb_PSNakEvents :: Message PersistentSubscriptionNakEvents;
  pb_PSConfirmation :: Message PersistentSubscriptionConfirmation;
  pb_PSStreamEventAppeared :: Message PersistentSubscriptionStreamEventAppeared;
  pb_SubscribeToStream :: Message SubscribeToStream;
  pb_SubscriptionConfirmation :: Message SubscriptionConfirmation;
  pb_StreamEventAppeared :: Message StreamEventAppeared;
  pb_UnsubscribeFromStream :: Message UnsubscribeFromStream;
  pb_SubscriptionDropped :: Message SubscriptionDropped;
  pb_NotHandled :: Message NotHandled;
  pb_IdentifyClient :: Message IdentifyClient
}.

(** A codec for examples: a message is one byte, an index into a fixed list
    of sample objects (the last one for any other byte string). *)
Fixpoint sample_nth {M} (d : M) (samples : list M) (i : nat) : M :=
  match samples, i with
  | m :: _, O => m
  | _ :: samples, S i => sample_nth d samples i
  | [], _ => d
  end.

Definition sample_message {M} (d : M) (samples : list M) : Message M := {|
  SerializeAsString _ := [];
  ParseFromArray bs :=
    match bs with b :: _ => sample_nth d samples (Z.to_nat (u8 b)) | [] => d end
|}.

(** Concrete serialization of every message type: the response types list
    samples with different results, the byte being their index. *)
Definition sample_record (n : Z) : EventRecord :=
  mk_EventRecord "stream" n (replicate 16 x07) "type" 1 0 "data" None None None.
Definition sample_indexed (n : Z) : ResolvedIndexedEvent :=
  mk_ResolvedIndexedEvent (Some (sample_record n)) None.
Definition sample_resolved (n : Z) : ResolvedEvent :=
  mk_ResolvedEvent (Some (sample_record n)) None n n.
Definition sample_results : list OperationResult :=
  [Success; PrepareTimeout; CommitTimeout; ForwardTimeout; WrongExpectedVersion; StreamDeleted;
   InvalidTransaction; AccessDenied].
Definition sample_config : PersistentSubscriptionConfig :=
  mk_PersistentSubscriptionConfig "group" "stream" false 0 0 false 0 0 0 0 false 0 0 0 0 None.
Definition sample_stream_slice (next last : Z) (eos : bool) (ns : list Z) : ReadStreamEventsCompleted :=
  mk_ReadStreamEventsCompleted (sample_indexed <$> ns) ReadStream_Success next last eos 0 None.
Definition sample_all_slice (next : Z) (ns : list Z) : ReadAllEventsCompleted :=
  mk_ReadAllEventsCompleted 0 0 (sample_resolved <$> ns) next next None None.

Definition sample_of {M N} (f : M → N) (samples : list M) (d : M) : Message N :=
  sample_message (f d) (f <$> samples).

Definition sample_protobuf : Protobuf := {|
  pb_WriteEvents := sample_message (mk_WriteEvents "stream" 0 [] false) [];
  pb_WriteEventsCompleted := sample_of (λ r, mk_WriteEventsCompleted r None 3 4 (Some 10) (Some 20) None)
    sample_results Success;
  pb_DeleteStream := sample_message (mk_DeleteStream "stream" 0 false None) [];
  pb_DeleteStreamCompleted := sample_of (λ r, mk_DeleteStreamCompleted r None (Some 10) (Some 20))
    sample_results Success;
  pb_TransactionStart := sample_message (mk_TransactionStart "stream" 0 false) [];
  pb_TransactionStartCompleted := sample_of (λ r, mk_TransactionStartCompleted 7 r None) sample_results Success;
  pb_TransactionWrite := sample_message (mk_TransactionWrite 7 [] false) [];
  pb_TransactionWriteCompleted := sample_of (λ r, mk_TransactionWriteCompleted 7 r None) sample_results Success;
  pb_TransactionCommit := sample_message (mk_TransactionCommit 7 false) [];
  pb_TransactionCommitCompleted :=
    sample_of (λ r, mk_TransactionCommitCompleted 7 r None 3 4 None None) sample_results Success;
  pb_ReadEvent := sample_message (mk_ReadEvent "stream" 0 false false) [];
  pb_ReadEventCompleted := sample_of (λ r, mk_ReadEventCompleted r (sample_indexed 0) None)
    [ReadEvent_Success; ReadEvent_NotFound] ReadEvent_Error;
  pb_ReadStreamEvents := sample_message (mk_ReadStreamEvents "stream" 0 0 false false) [];
  pb_ReadStreamEventsCompleted := sample_of (λ n, sample_stream_slice (n + 1) n true [n]) [0; 1; 2; 3; 4; 5; 6] 7;
  pb_ReadAllEvents := sample_message (mk_ReadAllEvents 0 0 0 false false) [];
  pb_ReadAllEventsCompleted := sample_message (sample_all_slice 9 [])
    [sample_all_slice 1 [0]; sample_all_slice 1 []; sample_all_slice 3 [1; 2]; sample_all_slice 4 [2; 3];
     sample_all_slice 6 [3; 4; 5]];
  pb_CreatePS := sample_message (mk_CreatePersistentSubscription sample_config) [];
  pb_CreatePSCompleted :=
    sample_message (mk_CreatePersistentSubscriptionCompleted CreatePS_Success None) [];
  pb_UpdatePS := sample_message (mk_UpdatePersistentSubscription sample_config) [];
  pb_UpdatePSCompleted :=
    sample_message (mk_UpdatePersistentSubscriptionCompleted UpdatePS_Success None) [];
  pb_DeletePS := sample_message (mk_DeletePersistentSubscription "group" "stream") [];
  pb_DeletePSCompleted :=
    sample_message (mk_DeletePersistentSubscriptionCompleted DeletePS_Success None) [];
  pb_ConnectToPS := sample_message (mk_ConnectToPersistentSubscription "id" "stream" 10) [];
  pb_PSAckEvents := sample_message (mk_PersistentSubscriptionAckEvents "id" []) [];
  pb_PSNakEvents := sample_message (mk_PersistentSubscriptionNakEvents "id" [] None Nak_Unknown) [];
  pb_PSConfirmation := sample_message (mk_PersistentSubscriptionConfirmation 0 "id" None) [];
  pb_PSStreamEventAppeared :=
    sample_of (λ n, mk_PersistentSubscriptionStreamEventAppeared (sample_indexed n) None) [0; 1; 2] 0;
  pb_SubscribeToStream := sample_message (mk_SubscribeToStream "stream" false) [];
  pb_SubscriptionConfirmation := sample_message (mk_SubscriptionConfirmation 5 (Some 5)) [];
  pb_StreamEventAppeared := sample_of (λ n, mk_StreamEventAppeared (sample_resolved n)) [0; 1; 2; 3; 4; 5; 6] 7;
  pb_UnsubscribeFromStream := sample_message mk_UnsubscribeFromStream [];
  pb_SubscriptionDropped := sample_of (λ r, mk_SubscriptionDropped (Some r))
    [Drop_Unsubscribed; Drop_AccessDenied; Drop_NotFound; Drop_PersistentSubscriptionDeleted]
    Drop_SubscriberMaxCountReached;
  pb_NotHandled := sample_message (mk_NotHandled NotReady None) [];
  pb_IdentifyClient := sample_message (mk_IdentifyClient 1 None) []
|}.
