(* ===== verification/Gossip.v ===== *)
(** The gossip of a cluster's nodes (include/message/cluster_messages.hpp):
    node states with their names, and members with their JSON form. *)
From S2P Require Import Prelude Basics.

(** ** virtual_node_state

    [other_state z] is a value of the enumeration's underlying type that is
    no enumerator; from_string casts -1. *)
Inductive virtual_node_state : Type :=
| initializing | unknown | pre_replica | catching_up | clone | slave | pre_master | master | manager
| shutting_down | shutdown
| other_state (z : Z).

#[global] Instance virtual_node_state_eq_dec : EqDecision virtual_node_state.
Proof. solve_decision. Defined.

Definition state_value (s : virtual_node_state) : Z :=
  match s with
  | initializing => 0 | unknown => 1 | pre_replica => 2 | catching_up => 3 | clone => 4 | slave => 5
  | pre_master => 6 | master => 7 | manager => 8 | shutting_down => 9 | shutdown => 10
  | other_state z => z
  end.

Definition state_to_string (s : virtual_node_state) : string :=
  match s with
  | initializing => "Initializing"
  | unknown => "Unknown"
  | pre_replica => "PreReplica"
  | catching_up => "CatchingUp"
  | clone => "Clone"
  | slave => "Slave"
  | pre_master => "PreMaster"
  | master => "Master"
  | manager => "Manager"
  | shutting_down => "ShuttingDown"
  | shutdown => "Shutdown"
  | other_state _ => EmptyString
  end.

Definition state_from_string (str : string) : virtual_node_state :=
  if String.eqb str "Initializing" then initializing
  else if String.eqb str "Unknown" then unknown
  else if String.eqb str "PreReplica" then pre_replica
  else if String.eqb str "CatchingUp" then catching_up
  else if String.eqb str "Clone" then clone
  else if String.eqb str "Slave" then slave
  else if String.eqb str "PreMaster" then pre_master
  else if String.eqb str "Master" then master
  else if String.eqb str "Manager" then manager
  else if String.eqb str "ShuttingDown" then shutting_down
  else if String.eqb str "Shutdown" then shutdown
  else other_state (-1).

(** ** member_info *)
Record member_info := mk_member_info {
  instance_id_ : guid_type;
  date_time_ : string;
  state_ : virtual_node_state;
  is_alive_ : bool;
  internal_tcp_ip_ : string;
  internal_tcp_port_ : Z;
  internal_secure_tcp_port_ : Z;
  external_tcp_ip_ : string;
  external_tcp_port_ : Z;
  external_secure_tcp_port_ : Z;
  internal_http_ip_ : string;
  internal_http_port_ : Z;
  external_http_ip_ : string;
  external_http_port_ : Z;
  last_commit_position_ : Z;
  writer_checkpoint_ : Z;
  chaser_checkpoint_ : Z;
  epoch_position_ : Z;
  epoch_number_ : Z;
  epoch_id_ : guid_type;
  node_priority_ : Z
}.

(** member_info(): its default constructor is defaulted, so the object is
    value-initialised: zeros and empty strings. *)
Definition null_member : member_info :=
  mk_member_info (replicate 16 x00) EmptyString initializing false EmptyString 0 0 EmptyString 0 0
    EmptyString 0 EmptyString 0 0 0 0 0 0 (replicate 16 x00) 0.

Definition member_eqb (m other : member_info) : bool :=
  bool_decide (instance_id_ m = instance_id_ other) &&
  String.eqb (date_time_ m) (date_time_ other) &&
  bool_decide (state_ m = state_ other) &&
  Bool.eqb (is_alive_ m) (is_alive_ other) &&
  String.eqb (internal_tcp_ip_ m) (internal_tcp_ip_ other) &&
  (internal_tcp_port_ m =? internal_tcp_port_ other) &&
  (internal_secure_tcp_port_ m =? internal_secure_tcp_port_ other) &&
  String.eqb (external_tcp_ip_ m) (external_tcp_ip_ other) &&
  (external_tcp_port_ m =? external_tcp_port_ other) &&
  (external_secure_tcp_port_ m =? external_secure_tcp_port_ other) &&
  String.eqb (internal_http_ip_ m) (internal_http_ip_ other) &&
  (internal_http_port_ m =? internal_http_port_ other) &&
  String.eqb (external_http_ip_ m) (external_http_ip_ other) &&
  (external_http_port_ m =? external_http_port_ other) &&
  (last_commit_position_ m =? last_commit_position_ other) &&
  (writer_checkpoint_ m =? writer_checkpoint_ other) &&
  (chaser_checkpoint_ m =? chaser_checkpoint_ other) &&
  (epoch_position_ m =? epoch_position_ other) &&
  (epoch_number_ m =? epoch_number_ other) &&
  bool_decide (epoch_id_ m = epoch_id_ other) &&
  (node_priority_ m =? node_priority_ other).

Lemma member_eqb_true m other : member_eqb m other = true ↔ m = other.
Proof.
  unfold member_eqb. rewrite !andb_true_iff, !bool_decide_eq_true, !String.eqb_eq, !Z.eqb_eq, eqb_true_iff.
  destruct m, other; cbn. split; [intros; destruct_and?; by subst|by intros [=]; subst].
Qed.

(** ** JSON

    The JSON library's interface: objects with scalar members. Both guid
    texts are Boost's. *)
Inductive json_scalar : Type := js_string (s : string) | js_bool (b : bool) | js_number (z : Z).

Class Json (J : Type) := {
  json_object : list (string * json_scalar) → J;
  json_empty : J → bool;
  json_at : string → J → option json_scalar;
  (* get<T>() and get_to<T>() of a value *)
  json_string : json_scalar → outcome string;
  json_bool : json_scalar → outcome bool;
  json_int : json_scalar → outcome Z;
  json_int64 : json_scalar → outcome Z
}.
Class JsonLaws (J : Type) `{!Json J} := {
  json_empty_object l : json_empty (json_object l) = match l with [] => true | _ => false end;
  json_at_object k l :
    json_at k (json_object l) = snd <$> find (λ p, String.eqb p.1 k) l;
  json_string_js s : json_string (js_string s) = Ret s;
  json_bool_js b : json_bool (js_bool b) = Ret b;
  json_int_js z : in_i32 z → json_int (js_number z) = Ret z;
  json_int64_js z : in_i64 z → json_int64 (js_number z) = Ret z
}.
(** Objects with one member, an array: making one, and [at(k)] with the
    conversion to a vector, which throws when there is no such array. *)
Class JsonArrays (J : Type) := {
  json_with_array : string → list J → J;
  json_array_at : string → J → outcome (list J)
}.
Class JsonArraysLaws (J : Type) `{!JsonArrays J} := {
  json_array_at_with k l : json_array_at k (json_with_array k l) = Ret l
}.
(** Boost's text of a guid; reading a text that is none throws. *)
Class GuidText := {
  guid_to_string : guid_type → string;
  guid_of_string : string → outcome guid_type
}.
Class GuidTextLaws {GT : GuidText} := {
  guid_text_roundtrip g : Guid.wf g → guid_of_string (guid_to_string g) = Ret g
}.

Section json.
Context {J : Type} {JS : Json J} {GT : GuidText}.

(** [j.at(k).get<T>()]: [at] throws when there is no such member. *)
Definition get_member {T} (get : json_scalar → outcome T) (k : string) (j : J) : outcome T :=
  match json_at k j with Some v => get v | None => Throw json_exception end.

Definition to_json (m : member_info) : J := json_object [
  ("instanceId", js_string (guid_to_string (instance_id_ m)));
  ("timeStamp", js_string (date_time_ m));
  ("state", js_string (state_to_string (state_ m)));
  ("isAlive", js_bool (is_alive_ m));
  ("internalTcpIp", js_string (internal_tcp_ip_ m));
  ("internalTcpPort", js_number (internal_tcp_port_ m));
  ("internalSecureTcpPort", js_number (internal_secure_tcp_port_ m));
  ("externalTcpIp", js_string (external_tcp_ip_ m));
  ("externalTcpPort", js_number (external_tcp_port_ m));
  ("externalSecureTcpPort", js_number (external_secure_tcp_port_ m));
  ("internalHttpIp", js_string (internal_http_ip_ m));
  ("internalHttpPort", js_number (internal_http_port_ m));
  ("externalHttpIp", js_string (external_http_ip_ m));
  ("externalHttpPort", js_number (external_http_port_ m));
  ("lastCommitPosition", js_number (last_commit_position_ m));
  ("writerCheckpoint", js_number (writer_checkpoint_ m));
  ("chaserCheckpoint", js_number (chaser_checkpoint_ m));
  ("epochPosition", js_number (epoch_position_ m));
  ("epochNumber", js_number (epoch_number_ m));
  ("epochId", js_string (guid_to_string (epoch_id_ m)));
  ("nodePriority", js_number (node_priority_ m))]%string.

(** from_json assigns the members of [m] in this order; it returns early on
    an empty object and on an unknown state. *)
Definition from_json (j : J) (m : member_info) : outcome member_info :=
  if json_empty j then Ret m
  else
    text ← get_member json_string "instanceId" j;
    id ← guid_of_string text;
    text ← get_member json_string "epochId" j;
    eid ← guid_of_string text;
    state ← get_member json_string "state" j;
    if state_value (state_from_string state) =? -1 then
      Ret (mk_member_info id (date_time_ m) (state_ m) (is_alive_ m)
        (internal_tcp_ip_ m) (internal_tcp_port_ m) (internal_secure_tcp_port_ m)
        (external_tcp_ip_ m) (external_tcp_port_ m) (external_secure_tcp_port_ m)
        (internal_http_ip_ m) (internal_http_port_ m) (external_http_ip_ m) (external_http_port_ m)
        (last_commit_position_ m) (writer_checkpoint_ m) (chaser_checkpoint_ m) (epoch_position_ m)
        (epoch_number_ m) eid (node_priority_ m))
    else
      time ← get_member json_string "timeStamp" j;
      alive ← get_member json_bool "isAlive" j;
      iip ← get_member json_string "internalTcpIp" j;
      ip ← get_member json_int "internalTcpPort" j;
      isp ← get_member json_int "internalSecureTcpPort" j;
      eip ← get_member json_string "externalTcpIp" j;
      ep ← get_member json_int "externalTcpPort" j;
      esp ← get_member json_int "externalSecureTcpPort" j;
      ihip ← get_member json_string "internalHttpIp" j;
      ihp ← get_member json_int "internalHttpPort" j;
      ehip ← get_member json_string "externalHttpIp" j;
      ehp ← get_member json_int "externalHttpPort" j;
      commit ← get_member json_int64 "lastCommitPosition" j;
      writer ← get_member json_int64 "writerCheckpoint" j;
      chaser ← get_member json_int64 "chaserCheckpoint" j;
      epos ← get_member json_int64 "epochPosition" j;
      enum ← get_member json_int "epochNumber" j;
      priority ← get_member json_int "nodePriority" j;
      Ret (mk_member_info id time (state_from_string state) alive iip ip isp eip ep esp
        ihip ihp ehip ehp commit writer chaser epos enum eid priority).

(** ** cluster_info

    The members of a cluster, as the array [members] of a JSON object.  Each
    element is read into a new member_info, [fresh_member]. *)
Context {JA : JsonArrays J} (fresh_member : member_info).

Definition cluster_info : Type := list member_info.

Definition cluster_to_json (c : cluster_info) : J := json_with_array "members" (to_json <$> c).

Fixpoint members_from_json (l : list J) : outcome (list member_info) :=
  match l with
  | [] => Ret []
  | j :: l => m ← from_json j fresh_member; ms ← members_from_json l; Ret (m :: ms)
  end.

Definition cluster_from_json (j : J) : outcome cluster_info :=
  elements ← json_array_at "members" j; members_from_json elements.
End json.

(** ** Facts *)
Lemma state_roundtrip s : (∀ z, s ≠ other_state z) → state_from_string (state_to_string s) = s.
Proof. intros Hs. destruct s; try reflexivity. by destruct (Hs z). Qed.

(** Association lists as JSON objects, and guids as their own text. *)
Definition list_json : Json (list (string * json_scalar)) := {|
  json_object l := l;
  json_empty l := match l with [] => true | _ => false end;
  json_at k l := snd <$> find (λ p, String.eqb p.1 k) l;
  json_string v := match v with js_string s => Ret s | _ => Throw json_exception end;
  json_bool v := match v with js_bool b => Ret b | _ => Throw json_exception end;
  json_int v := match v with js_number z => Ret (wrap_i32 z) | _ => Throw json_exception end;
  json_int64 v := match v with js_number z => Ret (wrap_i64 z) | _ => Throw json_exception end
|}.
#[global] Instance list_json_laws : @JsonLaws _ list_json.
Proof.
  split; try done.
  - intros z Hz. simpl. by rewrite wrap_i32_small.
  - intros z Hz. simpl. by rewrite wrap_i64_small.
Defined.
Definition raw_guid_text : GuidText := {|
  guid_to_string := bytes_string;
  guid_of_string s :=
    if decide (Guid.wf (string_bytes s)) then Ret (string_bytes s) else Throw invalid_guid
|}.
#[global] Instance raw_guid_text_laws : @GuidTextLaws raw_guid_text.
Proof. split. intros g Hg. simpl. rewrite string_bytes_string. by rewrite decide_True. Defined.

(** What the types of its members make true of every member_info whose state
    is an enumerator. *)
Record member_ok (m : member_info) : Prop := {
  member_state : ∀ z, state_ m ≠ other_state z;
  member_instance_id : Guid.wf (instance_id_ m);
  member_epoch_id : Guid.wf (epoch_id_ m);
  member_ints : Forall in_i32 [internal_tcp_port_ m; internal_secure_tcp_port_ m; external_tcp_port_ m;
    external_secure_tcp_port_ m; internal_http_port_ m; external_http_port_ m; epoch_number_ m; node_priority_ m];
  member_int64s : Forall in_i64 [last_commit_position_ m; writer_checkpoint_ m; chaser_checkpoint_ m;
    epoch_position_ m]
}.

(** A JSON value that describes a member: it has the 21 members that are
    read, with the member's values, and perhaps others. *)
Definition describes {J : Type} {JS : Json J} {GT : GuidText} (j : J) (m : member_info) : Prop :=
  json_empty j = false ∧
  get_member json_string "instanceId" j = Ret (guid_to_string (instance_id_ m)) ∧
  get_member json_string "epochId" j = Ret (guid_to_string (epoch_id_ m)) ∧
  get_member json_string "state" j = Ret (state_to_string (state_ m)) ∧
  get_member json_string "timeStamp" j = Ret (date_time_ m) ∧
  get_member json_bool "isAlive" j = Ret (is_alive_ m) ∧
  get_member json_string "internalTcpIp" j = Ret (internal_tcp_ip_ m) ∧
  get_member json_int "internalTcpPort" j = Ret (internal_tcp_port_ m) ∧
  get_member json_int "internalSecureTcpPort" j = Ret (internal_secure_tcp_port_ m) ∧
  get_member json_string "externalTcpIp" j = Ret (external_tcp_ip_ m) ∧
  get_member json_int "externalTcpPort" j = Ret (external_tcp_port_ m) ∧
  get_member json_int "externalSecureTcpPort" j = Ret (external_secure_tcp_port_ m) ∧
  get_member json_string "internalHttpIp" j = Ret (internal_http_ip_ m) ∧
  get_member json_int "internalHttpPort" j = Ret (internal_http_port_ m) ∧
  get_member json_string "externalHttpIp" j = Ret (external_http_ip_ m) ∧
  get_member json_int "externalHttpPort" j = Ret (external_http_port_ m) ∧
  get_member json_int64 "lastCommitPosition" j = Ret (last_commit_position_ m) ∧
  get_member json_int64 "writerCheckpoint" j = Ret (writer_checkpoint_ m) ∧
  get_member json_int64 "chaserCheckpoint" j = Ret (chaser_checkpoint_ m) ∧
  get_member json_int64 "epochPosition" j = Ret (epoch_position_ m) ∧
  get_member json_int "epochNumber" j = Ret (epoch_number_ m) ∧
  get_member json_int "nodePriority" j = Ret (node_priority_ m).

(** What its own types make true of a member whose state is an enumerator. *)
Definition member_wf (m : member_info) : Prop :=
  (∀ z, state_ m ≠ other_state z) ∧ Guid.wf (instance_id_ m) ∧ Guid.wf (epoch_id_ m).

(** Read one described member. *)
Ltac read_described :=
  match goal with H : _ = _ |- _ => rewrite H; clear H; cbn [mbind outcome_bind] end.

Lemma from_described {J : Type} {JS : Json J} {GT : GuidText} {GL : GuidTextLaws} (j : J) m m0 :
  member_wf m → describes j m → from_json j m0 = Ret m.
Proof.
  intros (Hstate & Hid & Heid) Hd. unfold describes in Hd. destruct_and! Hd. unfold from_json.
  repeat first [rewrite guid_text_roundtrip by done; cbn [mbind outcome_bind] | read_described].
  rewrite state_roundtrip by done.
  assert ((state_value (state_ m) =? -1) = false) as -> by (by destruct (state_ m); try destruct (Hstate z)).
  repeat read_described.
  by destruct m.
Qed.

Lemma to_json_describes {J : Type} {JS : Json J} {GT : GuidText} {JL : JsonLaws J} m :
  member_ok m → describes (to_json (J := J) m) m.
Proof.
  intros [Hstate Hid Heid H32 H64]. repeat setoid_rewrite Forall_cons in H32.
  repeat setoid_rewrite Forall_cons in H64. destruct_and!. unfold describes, to_json, get_member.
  rewrite json_empty_object, !json_at_object. simpl.
  rewrite !json_string_js, json_bool_js, !json_int_js, !json_int64_js by done. by split_and!.
Qed.

Lemma member_ok_wf m : member_ok m → member_wf m.
Proof. by intros []. Qed.

Lemma from_to_json {J : Type} {JS : Json J} {GT : GuidText} {JL : JsonLaws J} {GL : GuidTextLaws} m m0 :
  member_ok m → from_json (to_json (J := J) m) m0 = Ret m.
Proof. intros Hm. apply from_described; [by apply member_ok_wf|by apply to_json_describes]. Qed.

Lemma members_described {J : Type} {JS : Json J} {GT : GuidText} {GL : GuidTextLaws} m0 (js : list J) ms :
  Forall member_wf ms → Forall2 describes js ms → members_from_json m0 js = Ret ms.
Proof.
  intros Hwf Hd. induction Hd as [|j m js ms Hj _ IH]; [done|]. apply Forall_cons in Hwf as [Hm Hwf].
  cbn [members_from_json]. rewrite (from_described _ _ _ Hm Hj). cbn [mbind outcome_bind]. by rewrite IH.
Qed.

Lemma cluster_from_to_json {J : Type} {JS : Json J} {GT : GuidText} {JA : JsonArrays J} {JL : JsonLaws J}
    {GL : GuidTextLaws} {JAL : JsonArraysLaws J} m0 (c : cluster_info) :
  Forall member_ok c → cluster_from_json (J := J) m0 (cluster_to_json c) = Ret c.
Proof.
  intros Hc. unfold cluster_from_json, cluster_to_json. rewrite json_array_at_with. cbn [mbind outcome_bind].
  apply members_described; [by eapply Forall_impl; [|apply member_ok_wf]|].
  induction Hc; constructor; [by apply to_json_describes|done].
Qed.

(** A text that is the name of no node state. *)
Definition no_state_name (text : string) : Prop :=
  ∀ st, (∀ z, st ≠ other_state z) → text ≠ state_to_string st.

Lemma state_from_other_name text : no_state_name text → state_from_string text = other_state (-1).
Proof.
  intros Hn. unfold state_from_string.
  rewrite !(proj2 (String.eqb_neq _ _)); [done|..];
    [apply (Hn shutdown)|apply (Hn shutting_down)|apply (Hn manager)|apply (Hn master)|apply (Hn pre_master)|
     apply (Hn slave)|apply (Hn clone)|apply (Hn catching_up)|apply (Hn pre_replica)|apply (Hn unknown)|
     apply (Hn initializing)]; done.
Qed.

(** A member with other ids. *)
Definition with_ids (id eid : guid_type) (m : member_info) : member_info :=
  mk_member_info id (date_time_ m) (state_ m) (is_alive_ m)
    (internal_tcp_ip_ m) (internal_tcp_port_ m) (internal_secure_tcp_port_ m)
    (external_tcp_ip_ m) (external_tcp_port_ m) (external_secure_tcp_port_ m)
    (internal_http_ip_ m) (internal_http_port_ m) (external_http_ip_ m) (external_http_port_ m)
    (last_commit_position_ m) (writer_checkpoint_ m) (chaser_checkpoint_ m) (epoch_position_ m)
    (epoch_number_ m) eid (node_priority_ m).

(** JSON objects with scalar and array members as trees. *)
Inductive json_tree : Type :=
| tree_object (scalars : list (string * json_scalar)) (arrays : list (string * list json_tree)).

Definition tree_json : Json json_tree := {|
  json_object l := tree_object l [];
  json_empty j := match j with tree_object [] [] => true | _ => false end;
  json_at k j := match j with tree_object l _ => snd <$> find (λ p, String.eqb p.1 k) l end;
  json_string := json_string (Json := list_json);
  json_bool := json_bool (Json := list_json);
  json_int := json_int (Json := list_json);
  json_int64 := json_int64 (Json := list_json)
|}.
#[global] Instance tree_json_laws : @JsonLaws _ tree_json.
Proof. split; try done; [apply (json_int_js (JsonLaws := list_json_laws))|apply (json_int64_js (JsonLaws := list_json_laws))]. Defined.

Definition tree_arrays : JsonArrays json_tree := {|
  json_with_array k l := tree_object [] [(k, l)];
  json_array_at k j :=
    match j with
    | tree_object _ arrays =>
        match find (λ p, String.eqb p.1 k) arrays with Some (_, l) => Ret l | None => Throw json_exception end
    end
|}.
#[global] Instance tree_arrays_laws : @JsonArraysLaws _ tree_arrays.
Proof. split. intros k l. simpl. by rewrite String.eqb_refl. Defined.

(** C39: The names of the node states, the JSON form of a member and that of a
    whole cluster round trip: reading what was written gives the same back,
    whatever objects it is read into. A text that names no node state reads as
    the value -1 of the enumeration, and reading a member with such a state
    gives exactly the object it is read into with its two ids replaced,
    whatever the other members of the JSON object are. Reading an empty JSON
    object changes nothing, and reading one that is not empty leaves by an
    exception when it has no instanceId. *)
Theorem gossip_roundtrip {J : Type} {JS : Json J} {GT : GuidText} {JA : JsonArrays J} {JL : JsonLaws J}
    {GL : GuidTextLaws} {JAL : JsonArraysLaws J}
    (m m0 : member_info) (c : cluster_info) (Hm : member_ok m) (Hc : Forall member_ok c) :
  from_json (to_json (J := J) m) m0 = Ret m ∧
  cluster_from_json (J := J) m0 (cluster_to_json c) = Ret c ∧
  state_from_string (state_to_string (state_ m)) = state_ m ∧
  (∀ text, no_state_name text → state_from_string text = other_state (-1)) ∧
  (∀ j text, json_empty j = false → no_state_name text →
    get_member json_string "instanceId" j = Ret (guid_to_string (instance_id_ m)) →
    get_member json_string "epochId" j = Ret (guid_to_string (epoch_id_ m)) →
    get_member json_string "state" j = Ret text →
    from_json (J := J) j m0 = Ret (with_ids (instance_id_ m) (epoch_id_ m) m0)) ∧
  (∀ j, json_empty j = true → from_json (J := J) j m0 = Ret m0) ∧
  (∀ j, json_empty j = false → json_at "instanceId" j = None → from_json (J := J) j m0 = Throw json_exception).
Proof.
  pose proof Hm as [Hstate Hid Heid _ _]. split_and!.
  - by apply from_to_json.
  - by apply cluster_from_to_json.
  - by apply state_roundtrip.
  - apply state_from_other_name.
  - intros j text He Hn Hi Hie Hst. unfold from_json. rewrite He, Hi. cbn [mbind outcome_bind].
    rewrite guid_text_roundtrip by done. cbn [mbind outcome_bind]. rewrite Hie. cbn [mbind outcome_bind].
    rewrite guid_text_roundtrip by done. cbn [mbind outcome_bind]. rewrite Hst. cbn [mbind outcome_bind].
    by rewrite (state_from_other_name _ Hn).
  - intros j He. unfold from_json. by rewrite He.
  - intros j He Hi. unfold from_json, get_member. by rewrite He, Hi.
Qed.

Lemma gossip_roundtrip_witness :
  let m := mk_member_info (replicate 16 x01) "2019-09-05T19:12:37Z" master true "127.0.0.1" 4111 0
    "127.0.0.1" 4112 0 "127.0.0.1" 4113 "127.0.0.1" 4114 85117 101017 101017 1963 1 (replicate 16 x02) 0 in
  Guid.wf (instance_id_ m) ∧
  from_json (JS := tree_json) (GT := raw_guid_text) (to_json (JS := tree_json) (GT := raw_guid_text) m)
    null_member = Ret m.
Proof.
  intros m. split; [reflexivity|].
  refine (proj1 (gossip_roundtrip (JS := tree_json) (GT := raw_guid_text) (JA := tree_arrays) m null_member []
    _ (Forall_nil_2 _))).
  split; [discriminate|reflexivity|reflexivity|..];
    repeat constructor; vm_compute; try discriminate; reflexivity.
Defined.
