(* ===== verification/Events.v ===== *)
(** Events and results handed to the user: recorded_event.hpp,
    resolved_event.hpp, event_data.hpp, event_read_result.hpp, the two slices,
    and the small result classes. *)
From S2P Require Import Prelude Basics Messages.

Record recorded_event := mk_recorded_event {
  event_stream_id_ : string;
  event_id_ : guid_type;
  event_number_ : Z;
  event_type_ : string;
  content_ : string;
  metadata_ : string;
  is_json_ : bool;
  created_ : Z;
  created_epoch_ : Z
}.

(** The constructor: the id is copied from the characters of event_id (a
    std::string is followed by a null character); strings are swapped out of
    the record, an absent one being empty. *)
Definition make_recorded_event (record : EventRecord) : outcome recorded_event :=
  id ← Guid.guid_from_chars (er_event_id record ++ [x00]);
  Ret {| event_stream_id_ := er_event_stream_id record;
         event_id_ := id;
         event_number_ := er_event_number record;
         event_type_ := er_event_type record;
         content_ := er_data record;
         metadata_ := default EmptyString (er_metadata record);
         is_json_ := er_data_content_type record =? 1;
         created_ := default 0 (er_created record);
         created_epoch_ := default 0 (er_created_epoch record) |}.

Record resolved_event := mk_resolved_event {
  event_ : option recorded_event;
  link_ : option recorded_event;
  original_position_ : option position
}.

(** [opt.emplace( *mutable_event())] when the field is present. *)
Definition make_optional_event (r : option EventRecord) : outcome (option recorded_event) :=
  match r with
  | None => Ret None
  | Some r => e ← make_recorded_event r; Ret (Some e)
  end.

Definition resolved_of_ResolvedEvent (event : ResolvedEvent) : outcome resolved_event :=
  e ← make_optional_event (re_event event);
  l ← make_optional_event (re_link event);
  Ret (mk_resolved_event e l (Some (mk_position (re_commit_position event) (re_prepare_position event)))).

Definition resolved_of_ResolvedIndexedEvent (event : ResolvedIndexedEvent) : outcome resolved_event :=
  e ← make_optional_event (rie_event event);
  l ← make_optional_event (rie_link event);
  Ret (mk_resolved_event e l None).

Definition original_event (e : resolved_event) : option recorded_event :=
  match link_ e with Some l => Some l | None => event_ e end.
Definition is_resolved (e : resolved_event) : bool :=
  match link_ e, event_ e with Some _, Some _ => true | _, _ => false end.
Definition original_stream_id (e : resolved_event) : outcome string :=
  o ← opt_value (original_event e); Ret (event_stream_id_ o).
Definition original_event_number (e : resolved_event) : outcome Z :=
  o ← opt_value (original_event e); Ret (event_number_ o).

(** std::transform over a container of events. *)
Fixpoint transform_events {M} (f : M → outcome resolved_event) (l : list M) : outcome (list resolved_event) :=
  match l with
  | [] => Ret []
  | m :: l => e ← f m; es ← transform_events f l; Ret (e :: es)
  end.

Record stream_events_slice := mk_stream_events_slice {
  ses_from_event_number : Z;
  ses_next_event_number : Z;
  ses_last_event_number : Z;
  ses_stream : string;
  ses_direction : read_direction;
  ses_is_end_of_stream : bool;
  ses_events : list resolved_event
}.

Definition make_stream_events_slice (stream : string) (from_event_number : Z)
    (direction : read_direction) (response : ReadStreamEventsCompleted) : outcome stream_events_slice :=
  events ← transform_events resolved_of_ResolvedIndexedEvent (rsec_events response);
  Ret {| ses_from_event_number := from_event_number;
         ses_next_event_number := rsec_next_event_number response;
         ses_last_event_number := rsec_last_event_number response;
         ses_stream := stream;
         ses_direction := direction;
         ses_is_end_of_stream := rsec_is_end_of_stream response;
         ses_events := events |}.

Record all_events_slice := mk_all_events_slice {
  aes_from_position : position;
  aes_next_position : position;
  aes_direction : read_direction;
  aes_is_end_of_stream : bool;
  aes_events : list resolved_event
}.

Definition make_all_events_slice (direction : read_direction) (response : ReadAllEventsCompleted) :
    outcome all_events_slice :=
  events ← transform_events resolved_of_ResolvedEvent (raec_events response);
  Ret {| aes_from_position := mk_position (raec_commit_position response) (raec_prepare_position response);
         aes_next_position := mk_position (raec_next_commit_position response)
                                          (raec_next_prepare_position response);
         aes_direction := direction;
         aes_is_end_of_stream := Nat.eqb (length (raec_events response)) 0;
         aes_events := events |}.

Inductive event_read_status : Type :=
| read_success | read_not_found | read_no_stream | read_stream_deleted.

Record event_read_result := mk_event_read_result {
  err_status : event_read_status;
  err_stream : string;
  err_event_number : Z;
  err_event : option resolved_event
}.

Definition make_event_read_result (status : event_read_status) (stream : string) (event_number : Z)
    (event : ResolvedIndexedEvent) : outcome event_read_result :=
  match status with
  | read_success =>
      e ← resolved_of_ResolvedIndexedEvent event;
      Ret (mk_event_read_result status stream event_number (Some e))
  | _ => Ret (mk_event_read_result status stream event_number None)
  end.

Record event_data := mk_event_data {
  ed_event_id : guid_type;
  ed_type : string;
  ed_is_json : bool;
  ed_content : string;
  ed_metadata : option string
}.

Record write_result := mk_write_result {
  next_expected_version : Z;
  log_position : position
}.

Record delete_stream_result := mk_delete_stream_result { delete_log_position : position }.

Record connection_result := mk_connection_result { connection_id : guid_type }.

Record stream_metadata_result_raw := mk_stream_metadata_result_raw {
  smr_stream : string;
  smr_is_stream_deleted : bool;
  smr_meta_stream_version : Z;
  smr_stream_metadata : string
}.

(** ** Facts *)

Definition record_ok (r : EventRecord) : Prop := length (er_event_id r) = Guid.guid_size.

Lemma make_recorded_event_ok r :
  record_ok r → ∃ e, make_recorded_event r = Ret e ∧ event_id_ e = er_event_id r ∧
    event_number_ e = er_event_number r.
Proof.
  intros Hr. unfold make_recorded_event, Guid.guid_from_chars.
  replace (read_at 0 Guid.guid_size (er_event_id r ++ [x00])) with (Ret (er_event_id r)).
  - eexists. split; [reflexivity|]. done.
  - symmetry. apply (read_at_app [] _ [x00]); [done|by rewrite Hr].
Qed.

Lemma length_transform_events {M} (f : M → outcome resolved_event) l es :
  transform_events f l = Ret es → length es = length l.
Proof.
  revert es. induction l as [|m l IH]; simpl; intros es H; inv_ret; [done|].
  f_equal. by apply IH.
Qed.
