(* ===== verification/Settings.v ===== *)
(** Settings and their builders: connection_settings.hpp,
    cluster_settings.hpp, catchup_subscription_settings.hpp,
    persistent_subscription_settings.hpp, with the default constants of
    connection/constants.hpp. A member the class gives no initial value is
    [None] until a builder function sets it (the builder object being declared
    without an initialiser; [T{}] would zero it). *)
From S2P Require Import Prelude Basics.

(** ** Constants; durations are counts of the unit of their type *)
Module Constants.
Definition kDefaultMaxQueueSize : Z := 5000.
Definition kDefaultMaxConcurrentItems : Z := 5000.
Definition kDefaultMaxOperationRetries : Z := 10.
Definition kDefaultMaxReconnections : Z := 10.
Definition kDefaultRequireMaster : bool := true.
Definition kDefaultReconnectionDelay : Z := 100.         (* milliseconds *)
Definition kDefaultQueueTimeout : Z := 0.                (* milliseconds *)
Definition kDefaultOperationTimeout : Z := 7.            (* seconds *)
Definition kDefaultOperationTimeoutCheckPeriod : Z := 1. (* seconds *)
Definition kDefaultMaxClusterDiscoverAttempts : Z := 10.
Definition kDefaultClusterManagerExternalHttpPort : Z := 30778.
Definition kDefaultHeartbeatInterval : Z := 750.         (* milliseconds *)
Definition kDefaultHeartbeatTimeout : Z := 1500.         (* milliseconds *)
Definition kDefaultClientConnectionTimeout : Z := 1000.  (* milliseconds *)
Definition kDefaultGossipTimeout : Z := 1.               (* seconds *)
End Constants.

(** duration_conversions.hpp: duration_cast truncates towards zero. *)
Definition nanoseconds_of_seconds (s : Z) : Z := s * 1000000000.
Definition ES_MILLISECONDS_of_nanoseconds (ns : Z) : Z := Z.quot ns 1000000.

(** Reading a member that may not have been given a value. *)
Definition read_member {A} (m : option A) : outcome A :=
  match m with Some a => Ret a | None => Undef indeterminate_value end.

(** ** tcp::gossip_seed *)
Record endpoint := mk_endpoint { address : string; port : Z }.
#[global] Instance endpoint_eq_dec : EqDecision endpoint.
Proof. solve_decision. Defined.
(** The constructor's port is an unsigned short; the code passes it an int. *)
Definition make_endpoint (ip : string) (port : Z) : endpoint := mk_endpoint ip (wrap_u16 port).
Record gossip_seed := mk_gossip_seed { seed_endpoint : endpoint; host_header : string }.
#[global] Instance gossip_seed_eq_dec : EqDecision gossip_seed.
Proof. solve_decision. Defined.
Definition make_gossip_seed (e : endpoint) : gossip_seed := mk_gossip_seed e EmptyString.

(** ** connection_settings *)
Record connection_settings := mk_connection_settings {
  max_queue_size_ : Z;
  max_concurrent_items_ : Z;
  max_retries_ : Z;
  max_reconnections_ : Z;
  require_master_ : bool;
  reconnection_delay_ : Z;
  queue_timeout_ : Z;
  operation_timeout_ : Z;
  operation_timeout_check_period_ : Z;
  heartbeat_interval_ : Z;
  heartbeat_timeout_ : Z;
  client_connection_timeout_ : Z;
  max_discover_attempts_ : Z;
  gossip_external_http_port_ : Z;
  gossip_timeout_ : Z;
  node_preference_ : node_preference;
  default_user_credentials_ : user_credentials;
  use_ssl_ : option bool;
  target_host_ : string;
  validate_server_ : option bool;
  fail_on_no_server_response_ : option bool;
  cluster_dns_ : string;
  gossip_seeds_ : list gossip_seed
}.

(** The private default constructor, with the member initialisers. *)
Definition default_connection_settings : connection_settings := {|
  max_queue_size_ := Constants.kDefaultMaxQueueSize;
  max_concurrent_items_ := Constants.kDefaultMaxConcurrentItems;
  max_retries_ := Constants.kDefaultMaxOperationRetries;
  max_reconnections_ := Constants.kDefaultMaxReconnections;
  require_master_ := Constants.kDefaultRequireMaster;
  reconnection_delay_ := Constants.kDefaultReconnectionDelay;
  queue_timeout_ := Constants.kDefaultQueueTimeout;
  operation_timeout_ := Constants.kDefaultOperationTimeout;
  operation_timeout_check_period_ := Constants.kDefaultOperationTimeoutCheckPeriod;
  heartbeat_interval_ := Constants.kDefaultHeartbeatInterval;
  heartbeat_timeout_ := Constants.kDefaultHeartbeatTimeout;
  client_connection_timeout_ := Constants.kDefaultClientConnectionTimeout;
  max_discover_attempts_ := Constants.kDefaultMaxClusterDiscoverAttempts;
  gossip_external_http_port_ := Constants.kDefaultClusterManagerExternalHttpPort;
  gossip_timeout_ := Constants.kDefaultGossipTimeout;
  node_preference_ := prefer_master;
  default_user_credentials_ := no_credentials;
  use_ssl_ := None;
  target_host_ := EmptyString;
  validate_server_ := None;
  fail_on_no_server_response_ := None;
  cluster_dns_ := EmptyString;
  gossip_seeds_ := []
|}.

(** One call of a builder function. *)
Inductive connection_builder_call : Type :=
| with_max_queue_size (n : Z) | with_max_concurrent_items (n : Z) | with_max_retries (n : Z)
| with_max_reconnections (n : Z) | require_master (b : bool) | with_reconnection_delay (ms : Z)
| with_queue_timeout (ms : Z) | with_operation_timeout (s : Z)
| with_operation_timeout_check_period (s : Z) | with_heartbeat_interval (ms : Z)
| with_heartbeat_timeout (ms : Z) | with_client_connection_timeout (ms : Z)
| with_max_discover_attempts (n : Z) | with_gossip_external_http_port (p : Z)
| with_gossip_timeout (s : Z) | prefer_random_node | prefer_slave_node
| with_default_user_credentials (c : user_credentials) | use_ssl (b : bool)
| with_target_host (h : string) | validate_server (b : bool) | fail_on_no_server_response (b : bool)
| with_cluster_dns (d : string) | with_gossip_seeds (seeds : list gossip_seed)
| with_gossip_endpoints (seeds : list endpoint).

Definition connection_builder_step (s : connection_settings) (c : connection_builder_call) :
    connection_settings :=
  let '(mk_connection_settings a1 a2 a3 a4 a5 a6 a7 a8 a9 a10 a11 a12 a13 a14 a15 a16 a17 a18 a19
          a20 a21 a22 a23) := s in
  match c with
  | with_max_queue_size n => mk_connection_settings n a2 a3 a4 a5 a6 a7 a8 a9 a10 a11 a12 a13 a14 a15 a16 a17 a18 a19 a20 a21 a22 a23
  | with_max_concurrent_items n => mk_connection_settings a1 n a3 a4 a5 a6 a7 a8 a9 a10 a11 a12 a13 a14 a15 a16 a17 a18 a19 a20 a21 a22 a23
  | with_max_retries n => mk_connection_settings a1 a2 n a4 a5 a6 a7 a8 a9 a10 a11 a12 a13 a14 a15 a16 a17 a18 a19 a20 a21 a22 a23
  | with_max_reconnections n => mk_connection_settings a1 a2 a3 n a5 a6 a7 a8 a9 a10 a11 a12 a13 a14 a15 a16 a17 a18 a19 a20 a21 a22 a23
  | require_master b => mk_connection_settings a1 a2 a3 a4 b a6 a7 a8 a9 a10 a11 a12 a13 a14 a15 a16 a17 a18 a19 a20 a21 a22 a23
  | with_reconnection_delay ms => mk_connection_settings a1 a2 a3 a4 a5 ms a7 a8 a9 a10 a11 a12 a13 a14 a15 a16 a17 a18 a19 a20 a21 a22 a23
  | with_queue_timeout ms => mk_connection_settings a1 a2 a3 a4 a5 a6 ms a8 a9 a10 a11 a12 a13 a14 a15 a16 a17 a18 a19 a20 a21 a22 a23
  | with_operation_timeout t => mk_connection_settings a1 a2 a3 a4 a5 a6 a7 t a9 a10 a11 a12 a13 a14 a15 a16 a17 a18 a19 a20 a21 a22 a23
  | with_operation_timeout_check_period t => mk_connection_settings a1 a2 a3 a4 a5 a6 a7 a8 t a10 a11 a12 a13 a14 a15 a16 a17 a18 a19 a20 a21 a22 a23
  | with_heartbeat_interval ms => mk_connection_settings a1 a2 a3 a4 a5 a6 a7 a8 a9 ms a11 a12 a13 a14 a15 a16 a17 a18 a19 a20 a21 a22 a23
  | with_heartbeat_timeout ms => mk_connection_settings a1 a2 a3 a4 a5 a6 a7 a8 a9 a10 ms a12 a13 a14 a15 a16 a17 a18 a19 a20 a21 a22 a23
  | with_client_connection_timeout ms => mk_connection_settings a1 a2 a3 a4 a5 a6 a7 a8 a9 a10 a11 ms a13 a14 a15 a16 a17 a18 a19 a20 a21 a22 a23
  | with_max_discover_attempts n => mk_connection_settings a1 a2 a3 a4 a5 a6 a7 a8 a9 a10 a11 a12 n a14 a15 a16 a17 a18 a19 a20 a21 a22 a23
  | with_gossip_external_http_port p => mk_connection_settings a1 a2 a3 a4 a5 a6 a7 a8 a9 a10 a11 a12 a13 p a15 a16 a17 a18 a19 a20 a21 a22 a23
  | with_gossip_timeout t => mk_connection_settings a1 a2 a3 a4 a5 a6 a7 a8 a9 a10 a11 a12 a13 a14 t a16 a17 a18 a19 a20 a21 a22 a23
  | prefer_random_node => mk_connection_settings a1 a2 a3 a4 a5 a6 a7 a8 a9 a10 a11 a12 a13 a14 a15 prefer_random a17 a18 a19 a20 a21 a22 a23
  | prefer_slave_node => mk_connection_settings a1 a2 a3 a4 a5 a6 a7 a8 a9 a10 a11 a12 a13 a14 a15 prefer_slave a17 a18 a19 a20 a21 a22 a23
  | with_default_user_credentials c => mk_connection_settings a1 a2 a3 a4 a5 a6 a7 a8 a9 a10 a11 a12 a13 a14 a15 a16 c a18 a19 a20 a21 a22 a23
  | use_ssl b => mk_connection_settings a1 a2 a3 a4 a5 a6 a7 a8 a9 a10 a11 a12 a13 a14 a15 a16 a17 (Some b) a19 a20 a21 a22 a23
  | with_target_host h => mk_connection_settings a1 a2 a3 a4 a5 a6 a7 a8 a9 a10 a11 a12 a13 a14 a15 a16 a17 a18 h a20 a21 a22 a23
  | validate_server b => mk_connection_settings a1 a2 a3 a4 a5 a6 a7 a8 a9 a10 a11 a12 a13 a14 a15 a16 a17 a18 a19 (Some b) a21 a22 a23
  | fail_on_no_server_response b => mk_connection_settings a1 a2 a3 a4 a5 a6 a7 a8 a9 a10 a11 a12 a13 a14 a15 a16 a17 a18 a19 a20 (Some b) a22 a23
  | with_cluster_dns d => mk_connection_settings a1 a2 a3 a4 a5 a6 a7 a8 a9 a10 a11 a12 a13 a14 a15 a16 a17 a18 a19 a20 a21 d a23
  | with_gossip_seeds l => mk_connection_settings a1 a2 a3 a4 a5 a6 a7 a8 a9 a10 a11 a12 a13 a14 a15 a16 a17 a18 a19 a20 a21 a22 l
  | with_gossip_endpoints l => mk_connection_settings a1 a2 a3 a4 a5 a6 a7 a8 a9 a10 a11 a12 a13 a14 a15 a16 a17 a18 a19 a20 a21 a22 (make_gossip_seed <$> l)
  end.

Definition build_connection_settings (calls : list connection_builder_call) : connection_settings :=
  foldl connection_builder_step default_connection_settings calls.

(** ** cluster_settings *)
Record cluster_settings := mk_cluster_settings {
  cs_cluster_dns : string;
  cs_max_discover_attempts : option Z;     (* std::int32_t *)
  cs_external_gossip_port : option Z;      (* std::int32_t *)
  cs_gossip_seeds : list gossip_seed;
  cs_gossip_timeout : option Z;            (* nanoseconds *)
  cs_node_preference : option node_preference
}.

Definition default_cluster_settings : cluster_settings := mk_cluster_settings EmptyString None None [] None None.

Definition with_gossip_seed_endpoints (l : list (gossip_seed + endpoint)) (s : cluster_settings) : cluster_settings :=
  mk_cluster_settings (cs_cluster_dns s) (cs_max_discover_attempts s) (cs_external_gossip_port s)
    ((λ x, match x with inl seed => seed | inr ep => make_gossip_seed ep end) <$> l)
    (cs_gossip_timeout s) (cs_node_preference s).
Definition cluster_with_max_discover_attempts (n : Z) (s : cluster_settings) : cluster_settings :=
  mk_cluster_settings (cs_cluster_dns s) (Some n) (cs_external_gossip_port s) (cs_gossip_seeds s)
    (cs_gossip_timeout s) (cs_node_preference s).
Definition keep_discovering (s : cluster_settings) : cluster_settings :=
  cluster_with_max_discover_attempts INT32_MAX s.
Definition cluster_with_gossip_timeout (ns : Z) (s : cluster_settings) : cluster_settings :=
  mk_cluster_settings (cs_cluster_dns s) (cs_max_discover_attempts s) (cs_external_gossip_port s)
    (cs_gossip_seeds s) (Some ns) (cs_node_preference s).
Definition cluster_prefer (p : node_preference) (s : cluster_settings) : cluster_settings :=
  mk_cluster_settings (cs_cluster_dns s) (cs_max_discover_attempts s) (cs_external_gossip_port s)
    (cs_gossip_seeds s) (cs_gossip_timeout s) (Some p).
Definition cluster_prefer_random_node : cluster_settings → cluster_settings := cluster_prefer prefer_random.
Definition cluster_prefer_slave_node : cluster_settings → cluster_settings := cluster_prefer prefer_slave.

(** ** catchup_subscription_settings *)
Record catchup_subscription_settings := mk_catchup_subscription_settings {
  max_live_queue_size : Z;
  read_batch_size : Z;
  catchup_resolve_link_tos : bool;
  subscription_name : string
}.
Definition default_catchup_subscription_settings : catchup_subscription_settings :=
  mk_catchup_subscription_settings 500 10 true EmptyString.
Definition with_max_live_queue_size (n : Z) (s : catchup_subscription_settings) :=
  mk_catchup_subscription_settings n (read_batch_size s) (catchup_resolve_link_tos s) (subscription_name s).
Definition with_read_batch_size (n : Z) (s : catchup_subscription_settings) :=
  mk_catchup_subscription_settings (max_live_queue_size s) n (catchup_resolve_link_tos s) (subscription_name s).
Definition with_resolve_link_tos (b : bool) (s : catchup_subscription_settings) :=
  mk_catchup_subscription_settings (max_live_queue_size s) (read_batch_size s) b (subscription_name s).
Definition with_subscription_name (n : string) (s : catchup_subscription_settings) :=
  mk_catchup_subscription_settings (max_live_queue_size s) (read_batch_size s) (catchup_resolve_link_tos s) n.

(** ** persistent_subscription_settings *)
Record persistent_subscription_settings := mk_persistent_subscription_settings {
  ps_resolve_link_tos : bool;
  ps_start_from : option Z;
  ps_extra_statistics : bool;
  ps_message_timeout : Z;        (* nanoseconds *)
  ps_max_retry_count : Z;
  ps_live_buffer_size : Z;
  ps_history_buffer_size : Z;
  ps_read_batch_size : Z;
  ps_checkpoint_after : Z;       (* nanoseconds *)
  ps_min_checkpoint_count : Z;
  ps_max_checkpoint_count : Z;
  ps_max_subscriber_count : Z;
  ps_named_consumer_strategy : string
}.

Definition default_persistent_subscription_settings : persistent_subscription_settings := {|
  ps_resolve_link_tos := false;
  ps_start_from := None;
  ps_extra_statistics := false;
  ps_message_timeout := nanoseconds_of_seconds 30;
  ps_max_retry_count := 10;
  ps_live_buffer_size := 500;
  ps_history_buffer_size := 500;
  ps_read_batch_size := 20;
  ps_checkpoint_after := nanoseconds_of_seconds 2;
  ps_min_checkpoint_count := 10;
  ps_max_checkpoint_count := 1000;
  ps_max_subscriber_count := 0;
  ps_named_consumer_strategy := System.round_robin
|}.

Inductive persistent_builder_call : Type :=
| pb_resolve_link_tos | pb_do_not_resolve_link_tos | pb_with_extra_statistics
| pb_prefer_round_robin | pb_prefer_dispatch_to_single | pb_start_from_beginning
| pb_start_from (p : Z) | pb_with_message_timeout (ns : Z) | pb_dont_timeout_messages
| pb_checkpoint_after (ns : Z) | pb_minimum_checkpoint_count_of (n : Z)
| pb_maximum_checkpoint_count_of (n : Z) | pb_with_max_retries_of (n : Z)
| pb_with_live_buffer_size_of (n : Z) | pb_with_read_batch_size_of (n : Z)
| pb_with_history_buffer_size_of (n : Z) | pb_start_from_current
| pb_with_max_subscriber_count_of (n : Z) | pb_with_named_consumer_strategy (s : string).

Definition persistent_builder_step (s : persistent_subscription_settings) (c : persistent_builder_call) :
    persistent_subscription_settings :=
  let '(mk_persistent_subscription_settings a1 a2 a3 a4 a5 a6 a7 a8 a9 a10 a11 a12 a13) := s in
  match c with
  | pb_resolve_link_tos => mk_persistent_subscription_settings true a2 a3 a4 a5 a6 a7 a8 a9 a10 a11 a12 a13
  | pb_do_not_resolve_link_tos => mk_persistent_subscription_settings false a2 a3 a4 a5 a6 a7 a8 a9 a10 a11 a12 a13
  | pb_with_extra_statistics => mk_persistent_subscription_settings a1 a2 true a4 a5 a6 a7 a8 a9 a10 a11 a12 a13
  | pb_prefer_round_robin => mk_persistent_subscription_settings a1 a2 a3 a4 a5 a6 a7 a8 a9 a10 a11 a12 System.round_robin
  | pb_prefer_dispatch_to_single => mk_persistent_subscription_settings a1 a2 a3 a4 a5 a6 a7 a8 a9 a10 a11 a12 System.dispatch_to_single
  | pb_start_from_beginning => mk_persistent_subscription_settings a1 (Some 0) a3 a4 a5 a6 a7 a8 a9 a10 a11 a12 a13
  | pb_start_from p => mk_persistent_subscription_settings a1 (Some p) a3 a4 a5 a6 a7 a8 a9 a10 a11 a12 a13
  | pb_with_message_timeout ns => mk_persistent_subscription_settings a1 a2 a3 ns a5 a6 a7 a8 a9 a10 a11 a12 a13
  | pb_dont_timeout_messages => mk_persistent_subscription_settings a1 a2 a3 0 a5 a6 a7 a8 a9 a10 a11 a12 a13
  | pb_checkpoint_after ns => mk_persistent_subscription_settings a1 a2 a3 a4 a5 a6 a7 a8 ns a10 a11 a12 a13
  | pb_minimum_checkpoint_count_of n => mk_persistent_subscription_settings a1 a2 a3 a4 a5 a6 a7 a8 a9 n a11 a12 a13
  | pb_maximum_checkpoint_count_of n => mk_persistent_subscription_settings a1 a2 a3 a4 a5 a6 a7 a8 a9 a10 n a12 a13
  | pb_with_max_retries_of n => mk_persistent_subscription_settings a1 a2 a3 a4 n a6 a7 a8 a9 a10 a11 a12 a13
  | pb_with_live_buffer_size_of n => mk_persistent_subscription_settings a1 a2 a3 a4 a5 n a7 a8 a9 a10 a11 a12 a13
  | pb_with_read_batch_size_of n => mk_persistent_subscription_settings a1 a2 a3 a4 a5 a6 a7 n a9 a10 a11 a12 a13
  | pb_with_history_buffer_size_of n => mk_persistent_subscription_settings a1 a2 a3 a4 a5 a6 n a8 a9 a10 a11 a12 a13
  | pb_start_from_current => mk_persistent_subscription_settings a1 (Some (-1)) a3 a4 a5 a6 a7 a8 a9 a10 a11 a12 a13
  | pb_with_max_subscriber_count_of n => mk_persistent_subscription_settings a1 a2 a3 a4 a5 a6 a7 a8 a9 a10 a11 n a13
  | pb_with_named_consumer_strategy n => mk_persistent_subscription_settings a1 a2 a3 a4 a5 a6 a7 a8 a9 a10 a11 a12 n
  end.

Definition build_persistent_settings (calls : list persistent_builder_call) : persistent_subscription_settings :=
  foldl persistent_builder_step default_persistent_subscription_settings calls.

(** The calls of the persistent builder that give [start_from_] a value. *)
Definition sets_start_from (c : persistent_builder_call) : bool :=
  match c with pb_start_from_beginning | pb_start_from _ | pb_start_from_current => true | _ => false end.

(** A persistent-subscription builder declared without an initialiser leaves
    the position to start from without a value exactly when none of its three
    start_from functions was called: reading it, as the create and update
    requests do, is then undefined. *)
Theorem start_from_needs_a_call calls :
  read_member (ps_start_from (build_persistent_settings calls)) = Undef indeterminate_value ↔
  existsb sets_start_from calls = false.
Proof.
  unfold build_persistent_settings.
  enough (∀ s, read_member (ps_start_from (foldl persistent_builder_step s calls)) =
    Undef indeterminate_value ↔ ps_start_from s = None ∧ existsb sets_start_from calls = false) as H.
  { rewrite H. simpl. tauto. }
  induction calls as [|c calls IH]; intros s; cbn [foldl existsb].
  - destruct (ps_start_from s); simpl; split; intros; tauto || (destruct_and?; discriminate) || done.
  - rewrite IH. destruct s, c; cbn; try tauto; split; intros [? ?]; discriminate || done.
Qed.
