(* ===== verification/Cluster.v ===== *)
(** Discovery of the node to connect to: the single-node service
    (include/tcp/discovery_service.hpp) and the cluster service
    (include/tcp/cluster_discovery_service.hpp), which asks the nodes of a
    cluster for their gossip and chooses the best one. *)
From S2P Require Import Prelude Errors Basics Settings Gossip.

(** ** The algorithms of the standard library the choice uses

    std::sort (any order of equivalent elements), std::shuffle (the [n]-th
    call of the random engine's seed), and the elements std::remove_if leaves
    behind the kept ones, whose values are unspecified. *)
Class Algorithms := {
  std_sort {A} : (A → A → bool) → list A → list A;
  std_shuffle {A} : nat → list A → list A;
  removed_tail {A} : list A → list A → list A;
  std_sort_permutation {A} (comp : A → A → bool) l : std_sort comp l ≡ₚ l;
  std_sort_sorted {A} (comp : A → A → bool) l :
    (∀ x, comp x x = false) → (∀ x y z, comp x y = true → comp y z = true → comp x z = true) →
    (∀ x y z, comp x y = false → comp y z = false → comp x z = false) →
    ∀ i j x y, (i < j)%nat → std_sort comp l !! i = Some x → std_sort comp l !! j = Some y → comp y x = false;
  std_shuffle_permutation {A} n (l : list A) : std_shuffle n l ≡ₚ l;
  removed_tail_length {A} (kept l : list A) : (length kept ≤ length l)%nat →
    length (removed_tail kept l) = (length l - length kept)%nat
}.

Section cluster.
Context {AL : Algorithms}.

(** std::shuffle of the [k] first elements, from index [i]. *)
Definition shuffle_range {A} (n : nat) (i k : nat) (l : list A) : list A :=
  take i l ++ std_shuffle n (take k (drop i l)) ++ drop (i + k) l.

Definition stable_partition {A} (p : A → bool) (l : list A) : list A :=
  List.filter p l ++ List.filter (λ x, negb (p x)) l.

(** ** try_determine_best_node

    The code reads the preference from the settings and ignores its
    parameter; its only caller passes the settings' preference. *)
Definition unallowed_states : list virtual_node_state := [manager; shutting_down; shutdown].

Definition is_removed (info : member_info) : bool :=
  negb (is_alive_ info) || existsb (λ s, bool_decide (state_ info = s)) unallowed_states.

Definition node_preferred (info1 info2 : member_info) : bool :=
  state_value (state_ info1) >? state_value (state_ info2).

Definition is_slave (info : member_info) : bool := bool_decide (state_ info = slave).

(** remove_if and then [erase(it)], which erases one element. *)
Definition remove_nodes (members : list member_info) : list member_info :=
  let kept := List.filter (λ info, negb (is_removed info)) members in
  let tail := removed_tail kept members in
  kept ++ match tail with [] => [] | _ :: rest => rest end.

Definition arrange_nodes (n : nat) (preference : node_preference) (nodes : list member_info) : list member_info :=
  let nodes := std_sort node_preferred nodes in
  match preference with
  | prefer_random => std_shuffle n nodes
  | prefer_slave =>
      let nodes := stable_partition (λ info, negb (is_slave info)) nodes in
      shuffle_range n 0 (length (List.filter is_slave nodes)) nodes
  | prefer_master => nodes
  end.

(** boost::asio::ip::make_address_v4: [valid] is the texts it accepts. *)
Definition make_address_v4 (valid : string → bool) (ip : string) : outcome string :=
  if valid ip then Ret ip else Throw invalid_address.

Definition try_determine_best_node (valid : string → bool) (n : nat) (members : list member_info)
    (preference : node_preference) : outcome (option (endpoint * endpoint)) :=
  match arrange_nodes n preference (remove_nodes members) with
  | [] => Undef empty_container (* *nodes.begin() *)
  | best_node :: _ =>
      if member_eqb best_node null_member then Ret None
      else
        ip ← make_address_v4 valid (external_tcp_ip_ best_node);
        Ret (Some (make_endpoint ip (external_tcp_port_ best_node),
                   make_endpoint ip (external_secure_tcp_port_ best_node)))
  end.

(** ** arrange_gossip_candidates

    Managers are placed from the end of the buffer, the others from its
    start; then the buffer is copied to the begin() of an empty vector. *)
Definition gossip_endpoint (valid : string → bool) (m : member_info) : outcome gossip_seed :=
  ip ← make_address_v4 valid (external_http_ip_ m);
  Ret (make_gossip_seed (make_endpoint ip (external_http_port_ m))).

Fixpoint place_candidates (valid : string → bool) (members : list member_info)
    (front back : list gossip_seed) : outcome (list gossip_seed * list gossip_seed) :=
  match members with
  | [] => Ret (front, back)
  | m :: members =>
      seed ← gossip_endpoint valid m;
      if bool_decide (state_ m = manager)
      then place_candidates valid members front (seed :: back)
      else place_candidates valid members (front ++ [seed]) back
  end.

(** std::copy to an iterator with [room] elements behind it. *)
Definition std_copy {A} (src : list A) (room : list A) : outcome (list A) :=
  if decide (length src ≤ length room)%nat then Ret (src ++ drop (length src) room)
  else Undef out_of_bounds.

Definition arrange_gossip_candidates (valid : string → bool) (n : nat) (members : list member_info) :
    outcome (list gossip_seed) :=
  '(front, back) ← place_candidates valid members [] [];
  result ← std_copy (front ++ back) [];
  (* result.begin() + i, with i the index of the last non-manager *)
  match length front with
  | O => Undef out_of_bounds
  | S i =>
      let result := shuffle_range n 0 i result in
      Ret (shuffle_range (S n) (length front) (length back) result)
  end.

(** ** The service *)
Record cluster_discovery_service := mk_cluster_discovery_service {
  service_settings : cluster_settings;
  old_gossip_ : list member_info
}.

(** What the network answers during one call of discover_endpoints: the
    resolution of the cluster's DNS name ([None]: an error) and the gossip
    of a node ([None]: no answer). *)
Record network := mk_network {
  resolve : string → option (list endpoint);
  try_get_gossip_from : gossip_seed → outcome (option (list member_info))
}.

Definition get_dns_candidates (net : network) (n : nat) (settings : cluster_settings) : list gossip_seed :=
  match cs_gossip_seeds settings with
  | [] =>
      match resolve net (cs_cluster_dns settings) with
      | None => []
      | Some results => std_shuffle n (make_gossip_seed <$> results)
      end
  | seeds => std_shuffle n seeds
  end.

Fixpoint ask_candidates (valid : string → bool) (net : network) (n : nat) (settings : cluster_settings)
    (candidates : list gossip_seed) : outcome (option ((endpoint * endpoint) * list member_info)) :=
  match candidates with
  | [] => Ret None
  | candidate :: candidates =>
      gossip ← try_get_gossip_from net candidate;
      match gossip with
      | None | Some [] => ask_candidates valid net n settings candidates
      | Some members =>
          preference ← read_member (cs_node_preference settings);
          best_node ← try_determine_best_node valid n members preference;
          match best_node with
          | Some best => Ret (Some (best, members))
          | None => ask_candidates valid net n settings candidates
          end
      end
  end.

Definition discover_endpoints (valid : string → bool) (net : network) (n : nat)
    (service : cluster_discovery_service) :
    outcome (option (endpoint * endpoint) * cluster_discovery_service) :=
  candidates ← (match old_gossip_ service with
                | [] => Ret (get_dns_candidates net n (service_settings service))
                | gossip => arrange_gossip_candidates valid n gossip
                end);
  r ← ask_candidates valid net n (service_settings service) candidates;
  match r with
  | Some (best, members) => Ret (Some best, mk_cluster_discovery_service (service_settings service) members)
  | None => Ret (None, service)
  end.

(** ** The discovery cycle *)

(** do_discover_node_endpoints: the arguments of the call of the handler,
    or nothing, to try again. *)
Definition do_discover_node_endpoints (valid : string → bool) (net : network) (attempt : Z)
    (service : cluster_discovery_service) :
    outcome (option (error_code * endpoint) * cluster_discovery_service) :=
  max ← read_member (cs_max_discover_attempts (service_settings service));
  if attempt <=? max then
    '(endpoints, service) ← discover_endpoints valid net (Z.to_nat attempt) service;
    match endpoints with
    | Some best => Ret (Some (success, best.1), service)
    | None => Ret (None, service)
    end
  else Ret (Some (make_error_code endpoint_discovery, mk_endpoint "0.0.0.0" 0), service).

(** perform_discovery from attempt [attempt]: a job that tries, and on
    failure a wait of 500 ms and the next attempt ([attempt + 1] is an int).
    [nets] is what the network answers in each attempt.  The result is the
    calls of the handler and the number of attempts made. *)
Fixpoint perform_discovery (fuel : nat) (valid : string → bool) (nets : Z → network) (attempt : Z)
    (service : cluster_discovery_service) :
    outcome (list (error_code * endpoint) * nat * cluster_discovery_service) :=
  match fuel with
  | O => Ret ([], O, service)
  | S fuel =>
      '(r, service) ← do_discover_node_endpoints valid (nets attempt) attempt service;
      match r with
      | Some call => Ret ([call], 1%nat, service)
      | None =>
          attempt ← i32_checked (attempt + 1);
          '(calls, k, service) ← perform_discovery fuel valid nets attempt service;
          Ret (calls, S k, service)
      end
  end.

Definition async_discover_node_endpoints (fuel : nat) (valid : string → bool) (nets : Z → network)
    (service : cluster_discovery_service) :=
  perform_discovery fuel valid nets 1 service.
End cluster.

(** ** discovery_service: the endpoint it was given *)
Record discovery_service := mk_discovery_service {
  endpoint_ : endpoint;
  secure_endpoint_ : endpoint;
  ssl_ : bool
}.
Definition discover_single_node (s : discovery_service) : error_code * endpoint :=
  (success, if ssl_ s then secure_endpoint_ s else endpoint_ s).

(** ** Facts *)
Section facts.
Context {AL : Algorithms}.

Lemma node_preferred_irreflexive x : node_preferred x x = false.
Proof. unfold node_preferred. rewrite Z.gtb_ltb. apply Z.ltb_irrefl. Qed.
Lemma node_preferred_trans x y z :
  node_preferred x y = true → node_preferred y z = true → node_preferred x z = true.
Proof. unfold node_preferred. rewrite !Z.gtb_lt. lia. Qed.
Lemma node_preferred_negative_trans x y z :
  node_preferred x y = false → node_preferred y z = false → node_preferred x z = false.
Proof. unfold node_preferred. rewrite !Z.gtb_ltb, !Z.ltb_ge. lia. Qed.

(** The first of the sorted nodes has the greatest state. *)
Lemma sorted_head_maximal m rest l :
  std_sort node_preferred l = m :: rest → ∀ m', m' ∈ l → state_value (state_ m') ≤ state_value (state_ m).
Proof.
  intros Hs m' Hm'. rewrite <- (std_sort_permutation node_preferred l), Hs in Hm'.
  apply list_elem_of_lookup in Hm' as [[|j] Hj]; [by simplify_eq/=|].
  pose proof (std_sort_sorted node_preferred l node_preferred_irreflexive node_preferred_trans
    node_preferred_negative_trans 0 (S j) m m') as Hsorted.
  rewrite Hs in Hsorted. specialize (Hsorted ltac:(lia) eq_refl Hj).
  unfold node_preferred in Hsorted. rewrite Z.gtb_ltb, Z.ltb_ge in Hsorted. done.
Qed.

Lemma shuffle_range_permutation {A} n i k (l : list A) : shuffle_range n i k l ≡ₚ l.
Proof.
  unfold shuffle_range. rewrite std_shuffle_permutation, <- drop_drop, take_drop. by rewrite take_drop.
Qed.

Lemma stable_partition_permutation {A} (p : A → bool) (l : list A) : stable_partition p l ≡ₚ l.
Proof.
  unfold stable_partition. induction l as [|x l IH]; [done|]. simpl. destruct (p x); simpl.
  - by rewrite IH.
  - by rewrite <- Permutation_middle, IH.
Qed.

Lemma arrange_nodes_permutation n preference nodes : arrange_nodes n preference nodes ≡ₚ nodes.
Proof.
  unfold arrange_nodes. destruct preference.
  - apply std_sort_permutation.
  - rewrite shuffle_range_permutation, stable_partition_permutation. apply std_sort_permutation.
  - rewrite std_shuffle_permutation. apply std_sort_permutation.
Qed.

Lemma remove_nodes_one members :
  (length (List.filter is_removed members) ≤ 1)%nat →
  remove_nodes members = List.filter (λ info, negb (is_removed info)) members.
Proof.
  intros Hle. unfold remove_nodes. set (kept := List.filter _ _).
  assert (length kept + length (List.filter is_removed members) = length members)%nat as Hlen.
  { unfold kept. clear. induction members as [|m l IH]; [done|]. simpl.
    destruct (is_removed m); simpl; lia. }
  pose proof (removed_tail_length kept members ltac:(lia)) as Ht.
  destruct (removed_tail kept members) as [|x [|y l]]; [by rewrite app_nil_r..|simpl in Ht; lia].
Qed.
End facts.

(** C35: When the external addresses of the gossip are IPv4 addresses that boost
    accepts, at most one of its nodes is dead or in a disallowed state and
    at least one is neither, the node chosen, under any preference, is alive
    and in an allowed state, and its endpoints are the ones returned; when the
    master is preferred it has the greatest state among such nodes. *)
Theorem best_node_sound {AL : Algorithms} valid n members preference
    (Hone : (length (List.filter is_removed members) ≤ 1)%nat)
    (Hvalid : ∀ m, m ∈ members → valid (external_tcp_ip_ m) = true)
    (Hsome : ∃ m, m ∈ members ∧ is_removed m = false) :
  ∃ m, m ∈ members ∧ is_removed m = false ∧
    (preference = prefer_master → ∀ m', m' ∈ members → is_removed m' = false →
      state_value (state_ m') ≤ state_value (state_ m)) ∧
    try_determine_best_node valid n members preference =
      Ret (Some (make_endpoint (external_tcp_ip_ m) (external_tcp_port_ m),
                 make_endpoint (external_tcp_ip_ m) (external_secure_tcp_port_ m))).
Proof.
  set (nodes := List.filter (λ info, negb (is_removed info)) members).
  assert (∀ m, m ∈ nodes ↔ m ∈ members ∧ is_removed m = false) as Hnodes.
  { intros m. unfold nodes. rewrite elem_of_filter_bool, negb_true_iff. done. }
  unfold try_determine_best_node. rewrite remove_nodes_one by done. fold nodes.
  pose proof (arrange_nodes_permutation n preference nodes) as Hperm.
  destruct (arrange_nodes n preference nodes) as [|m rest] eqn:Hs.
  - destruct Hsome as (m & Hm). apply Hnodes in Hm. rewrite <- Hperm in Hm. by apply not_elem_of_nil in Hm.
  - assert (m ∈ nodes) as Hm by (rewrite <- Hperm; apply list_elem_of_here).
    pose proof (proj1 (Hnodes m) Hm) as [Hin Hrem].
    exists m. split_and!; [done|done| |].
    + intros -> m' Hin' Hrem'. eapply sorted_head_maximal; [exact Hs|]. by apply Hnodes.
    + assert (member_eqb m null_member = false) as ->.
      { apply not_true_iff_false. rewrite member_eqb_true. intros ->. done. }
      unfold make_address_v4. by rewrite Hvalid.
Qed.

(** The slave preference prefers the other nodes: whenever there are at
    least as many other nodes as slaves among the candidates, the node chosen
    is not a slave. *)
Theorem slave_preference_avoids_slaves {AL : Algorithms} n nodes m rest
    (Hcount : (length (List.filter is_slave nodes) ≤ length (List.filter (λ i, negb (is_slave i)) nodes))%nat)
    (Hfirst : arrange_nodes n prefer_slave nodes = m :: rest) :
  is_slave m = false.
Proof.
  unfold arrange_nodes, shuffle_range, stable_partition in Hfirst.
  pose proof (std_sort_permutation node_preferred nodes) as Hperm.
  pose proof (Permutation_length (filter_permutation is_slave _ _ Hperm)) as Hslaves.
  pose proof (Permutation_length (filter_permutation (λ i, negb (is_slave i)) _ _ Hperm)) as Hothers.
  set (sorted := std_sort node_preferred nodes) in *. clearbody sorted. clear Hperm.
  set (others := List.filter (λ info, negb (is_slave info)) sorted) in *.
  set (slaves := List.filter (λ x, negb (negb (is_slave x))) sorted) in *.
  assert (length (List.filter is_slave (others ++ slaves)) = length slaves) as Hk.
  { rewrite List.filter_app. unfold others, slaves. clear. induction sorted as [|x l IH]; [done|].
    simpl. destruct (is_slave x) eqn:E; simpl; rewrite ?E; simpl; [|done].
    rewrite length_app in *. simpl. lia. }
  assert (length slaves = length (List.filter is_slave sorted)) as Hs.
  { unfold slaves. clear. induction sorted as [|x l IH]; [done|]. simpl.
    destruct (is_slave x); simpl; lia. }
  rewrite Hk, take_0, drop_0 in Hfirst. cbn [app] in Hfirst.
  rewrite take_app_le in Hfirst by lia.
  assert (m ∈ others) as Hm.
  { pose proof (std_shuffle_permutation n (take (length slaves) others)) as Hsh.
    set (first := std_shuffle n (take (length slaves) others)) in *. clearbody first.
    destruct first as [|m' l'].
    - apply Permutation_nil in Hsh. rewrite Nat.add_0_l in Hfirst.
      destruct others as [|o others']; [|destruct slaves; [|done]; simpl in Hfirst; simplify_eq; apply list_elem_of_here].
      destruct slaves; simpl in *; [done|lia].
    - simplify_eq/=. assert (m ∈ take (length slaves) others) as Hin by (rewrite <- Hsh; left).
      rewrite <- (take_drop (length slaves) others). apply elem_of_app. by left. }
  unfold others in Hm. apply elem_of_filter_bool in Hm as [_ Hm]. by apply negb_true_iff in Hm.
Qed.

(** ** An instance of the algorithms

    Insertion sort, a shuffle that draws the identity, and a remove_if that
    leaves the elements behind the kept ones as they were. *)
Section simple_algorithms.
Context {A : Type}.

Fixpoint insert_sorted (comp : A → A → bool) (x : A) (l : list A) : list A :=
  match l with
  | [] => [x]
  | y :: l' => if comp y x then y :: insert_sorted comp x l' else x :: l
  end.
Fixpoint insertion_sort (comp : A → A → bool) (l : list A) : list A :=
  match l with
  | [] => []
  | x :: l => insert_sorted comp x (insertion_sort comp l)
  end.

Lemma insert_sorted_permutation comp x l : insert_sorted comp x l ≡ₚ x :: l.
Proof.
  induction l as [|y l IH]; simpl; [done|]. destruct (comp y x); [|done].
  rewrite IH. constructor.
Qed.
Lemma insertion_sort_permutation comp l : insertion_sort comp l ≡ₚ l.
Proof. induction l as [|x l IH]; simpl; [done|]. by rewrite insert_sorted_permutation, IH. Qed.

Context (comp : A → A → bool) (irreflexive : ∀ x, comp x x = false)
        (trans : ∀ x y z, comp x y = true → comp y z = true → comp x z = true)
        (negative_trans : ∀ x y z, comp x y = false → comp y z = false → comp x z = false).

Inductive no_inversion : list A → Prop :=
| no_inversion_nil : no_inversion []
| no_inversion_cons x l : Forall (λ y, comp y x = false) l → no_inversion l → no_inversion (x :: l).

Lemma insert_no_inversion x l : no_inversion l → no_inversion (insert_sorted comp x l).
Proof.
  induction 1 as [|y l Hy Hl IH]; simpl; [by repeat constructor|].
  destruct (comp y x) eqn:E.
  - constructor; [|done]. rewrite insert_sorted_permutation. constructor; [|done].
    apply not_true_iff_false. intros Hxy. pose proof (trans _ _ _ E Hxy) as H. by rewrite irreflexive in H.
  - constructor; [|by constructor]. constructor; [done|].
    eapply Forall_impl; [exact Hy|]. intros z Hz. exact (negative_trans z y x Hz E).
Qed.
Lemma sort_no_inversion l : no_inversion (insertion_sort comp l).
Proof. induction l; simpl; [constructor|by apply insert_no_inversion]. Qed.

Lemma no_inversion_lookup l : no_inversion l → ∀ i j x y, (i < j)%nat →
  l !! i = Some x → l !! j = Some y → comp y x = false.
Proof.
  induction 1 as [|z l Hz _ IH]; intros i j x y Hij Hx Hy; [done|].
  destruct j as [|j]; [lia|]. destruct i as [|i]; simplify_eq/=.
  - by eapply Forall_lookup in Hz.
  - eapply (IH i j); [lia|done..].
Qed.
End simple_algorithms.

Definition simple_algorithms : Algorithms.
Proof.
  refine {| std_sort A := @insertion_sort A; std_shuffle A n l := l;
            removed_tail A kept l := drop (length kept) l |}.
  - intros. apply insertion_sort_permutation.
  - intros A comp l H1 H2 H3. by apply no_inversion_lookup, sort_no_inversion.
  - done.
  - intros. by rewrite length_drop.
Defined.

Definition sample_member (state : virtual_node_state) (alive : bool) (port : Z) : member_info :=
  mk_member_info (replicate 16 x01) EmptyString state alive EmptyString 0 0 "127.0.0.1" port 0
    EmptyString 0 "127.0.0.1" port 0 0 0 0 0 (replicate 16 x02) 0.

Lemma best_node_sound_witness :
  let members := [sample_member slave true 1; sample_member master true 2; sample_member manager true 3] in
  (length (List.filter is_removed members) ≤ 1)%nat ∧
  ∃ m, m ∈ members ∧ is_removed m = false ∧
    try_determine_best_node (AL := simple_algorithms) (λ _, true) 0 members prefer_slave =
      Ret (Some (make_endpoint (external_tcp_ip_ m) (external_tcp_port_ m),
                 make_endpoint (external_tcp_ip_ m) (external_secure_tcp_port_ m))).
Proof.
  intros members. split; [vm_compute; lia|].
  destruct (best_node_sound (AL := simple_algorithms) (λ _, true) 0 members prefer_slave ltac:(vm_compute; lia)
    ltac:(done) ltac:(exists (sample_member slave true 1); split; [left|reflexivity])) as (m & H1 & H2 & _ & H3).
  exists m. split; [exact H1|]. split; [exact H2|exact H3].
Defined.

Lemma slave_preference_avoids_slaves_witness :
  let nodes := [sample_member slave true 1; sample_member master true 2] in
  let m := sample_member master true 2 in
  arrange_nodes (AL := simple_algorithms) 0 prefer_slave nodes = [m; sample_member slave true 1] ∧
  is_slave m = false.
Proof.
  intros nodes m. split; [reflexivity|].
  exact (slave_preference_avoids_slaves (AL := simple_algorithms) 0 nodes m [sample_member slave true 1]
    ltac:(vm_compute; lia) eq_refl).
Defined.

(** With two nodes to remove only one is erased, so a dead node can be
    chosen: there is a standard library (remove_if leaving the elements behind
    the kept ones alone, as is usual) with which the gossip of one alive slave
    and two dead masters yields the endpoint of a dead master.  And with no
    allowed node at all, the first element of an empty vector is used. *)
Theorem dead_node_chosen :
  (∃ AL : Algorithms, ∃ alive dead1 dead2,
    is_removed alive = false ∧ is_removed dead1 = true ∧ is_removed dead2 = true ∧
    external_tcp_port_ dead2 ≠ external_tcp_port_ alive ∧
    ∃ secure, try_determine_best_node (λ _, true) 0 [alive; dead1; dead2] prefer_master =
      Ret (Some (make_endpoint (external_tcp_ip_ dead2) (external_tcp_port_ dead2), secure))) ∧
  (∀ (AL : Algorithms) valid n m preference, is_removed m = true →
    try_determine_best_node valid n [m] preference = Undef empty_container).
Proof.
  split.
  - exists simple_algorithms, (sample_member slave true 1), (sample_member master false 2),
      (sample_member master false 3).
    do 4 (split; [done|]). eexists. reflexivity.
  - intros AL valid n m preference Hm. unfold try_determine_best_node.
    assert (remove_nodes [m] = []) as ->.
    { rewrite remove_nodes_one; simpl; rewrite Hm; [done|simpl; lia]. }
    assert (std_sort node_preferred [] = []) as Hs
      by (apply Permutation_nil; symmetry; apply std_sort_permutation).
    assert (∀ k, std_shuffle k ([] : list member_info) = []) as Hk
      by (intros; apply Permutation_nil; symmetry; apply std_shuffle_permutation).
    unfold arrange_nodes, shuffle_range. rewrite Hs. destruct preference; cbn; by rewrite ?Hk.
Qed.

(** ** Discovering again *)

Lemma place_candidates_ok valid members : ∀ front back,
  (∀ m, m ∈ members → valid (external_http_ip_ m) = true) →
  ∃ front' back', place_candidates valid members front back = Ret (front', back') ∧
    (length front' + length back' = length members + length front + length back)%nat.
Proof.
  induction members as [|m members IH]; intros front back Hv; simpl; [by eexists _, _|].
  unfold gossip_endpoint, make_address_v4. rewrite Hv by left. simpl.
  case_bool_decide;
    match goal with |- context [place_candidates valid members ?f ?b] =>
      destruct (IH f b) as (f' & b' & -> & Hl); [intros; apply Hv; by right|] end;
    exists f', b'; (split; [done|]); rewrite ?length_app in Hl; simpl in *; lia.
Qed.

(** C36: A cluster service works once: after a discovery has found a node, in a
    gossip whose addresses are IPv4 addresses that boost accepts, it
    remembers the gossip it used, and every later discovery copies that many
    candidates to the begin() of an empty vector, out of its bounds. *)
Theorem second_discovery_out_of_bounds {AL : Algorithms} valid net n service best service'
    (Hvalid : ∀ m, m ∈ old_gossip_ service' → valid (external_http_ip_ m) = true)
    (Hempty : old_gossip_ service = [])
    (Hfirst : discover_endpoints valid net n service = Ret (Some best, service')) :
  old_gossip_ service' ≠ [] ∧
  ∀ net' n', discover_endpoints valid net' n' service' = Undef out_of_bounds.
Proof.
  assert (old_gossip_ service' ≠ []) as Hne.
  { unfold discover_endpoints in Hfirst. rewrite Hempty in Hfirst. cbn [mbind outcome_bind] in Hfirst.
    revert Hfirst. generalize (get_dns_candidates net n (service_settings service)) as cs.
    induction cs as [|c cs IH]; cbn [ask_candidates mbind outcome_bind]; [by intros [=]|].
    destruct (try_get_gossip_from net c) as [[[|m ms]|]| |]; cbn [mbind outcome_bind]; try done.
    destruct (read_member _) as [p| |]; cbn [mbind outcome_bind]; try done.
    destruct (try_determine_best_node valid n (m :: ms) p) as [[b|]| |]; cbn [mbind outcome_bind]; try done.
    by intros [= <- <-]. }
  split; [done|]. intros net' n'. unfold discover_endpoints.
  destruct (old_gossip_ service') as [|m ms] eqn:Hold; [done|].
  unfold arrange_gossip_candidates.
  destruct (place_candidates_ok valid (m :: ms) [] []) as (f & b & -> & Hl); [done|].
  cbn [mbind outcome_bind]. unfold std_copy. rewrite decide_False; [done|].
  rewrite length_app. simpl in *. lia.
Qed.

(** A service with one seed, and a network in which a seed answers with one
    alive master from attempt [k] on. *)
Definition sample_service : cluster_discovery_service :=
  mk_cluster_discovery_service
    (cluster_prefer_slave_node (cluster_with_max_discover_attempts 3
      (with_gossip_seed_endpoints [inr (mk_endpoint "127.0.0.1" 2113)] default_cluster_settings))) [].
Definition sample_network (k a : Z) : network := {|
  resolve _ := None;
  try_get_gossip_from _ := Ret (if k <=? a then Some [sample_member master true 1113] else None)
|}.

Lemma second_discovery_out_of_bounds_witness :
  let service' := mk_cluster_discovery_service (service_settings sample_service) [sample_member master true 1113] in
  discover_endpoints (AL := simple_algorithms) (λ _, true) (sample_network 1 1) 1 sample_service =
    Ret (Some (mk_endpoint "127.0.0.1" 1113, mk_endpoint "127.0.0.1" 0), service') ∧
  discover_endpoints (AL := simple_algorithms) (λ _, true) (sample_network 1 2) 2 service' = Undef out_of_bounds.
Proof.
  intros service'. split; [reflexivity|].
  exact (proj2 (second_discovery_out_of_bounds (AL := simple_algorithms) (λ _, true) (sample_network 1 1) 1
    sample_service (mk_endpoint "127.0.0.1" 1113, mk_endpoint "127.0.0.1" 0) service' ltac:(done) eq_refl eq_refl)
    (sample_network 1 2) 2%nat).
Defined.

(** C34: The discovery cycle calls its handler exactly once: with the endpoint of
    the first attempt that finds one, when that attempt's number is at most
    the maximum; and with endpoint_discovery, in attempt [max + 1], when none
    of the first [max] does.  As many rounds as attempts are enough. *)
Theorem discovery_cycle {AL : Algorithms} valid nets service max
    (Hmax : cs_max_discover_attempts (service_settings service) = Some max)
    (Hrange : 0 ≤ max < INT32_MAX) :
  let discover a := discover_endpoints valid (nets a) (Z.to_nat a) service in
  (∀ k best service', 1 ≤ k ≤ max → (∀ a, 1 ≤ a < k → discover a = Ret (None, service)) →
    discover k = Ret (Some best, service') →
    ∀ fuel, (Z.to_nat k ≤ fuel)%nat →
      async_discover_node_endpoints fuel valid nets service =
        Ret ([(success, best.1)], Z.to_nat k, service')) ∧
  ((∀ a, 1 ≤ a ≤ max → discover a = Ret (None, service)) →
    ∀ fuel, (Z.to_nat max < fuel)%nat →
      async_discover_node_endpoints fuel valid nets service =
        Ret ([(make_error_code endpoint_discovery, mk_endpoint "0.0.0.0" 0)], S (Z.to_nat max), service)).
Proof.
  intros discover. unfold async_discover_node_endpoints, INT32_MAX in *.
  (* failing attempts before number [k] *)
  assert (∀ d a fuel, 1 ≤ a → a + Z.of_nat d ≤ max + 1 → (∀ b, a ≤ b < a + Z.of_nat d → discover b = Ret (None, service)) →
    perform_discovery (d + fuel) valid nets a service =
      ('(calls, n, s) ← perform_discovery fuel valid nets (a + Z.of_nat d) service; Ret (calls, (d + n)%nat, s)))
    as Hskip.
  { induction d as [|d IH]; intros a fuel Ha Hle Hfail.
    - rewrite Z.add_0_r. simpl. by destruct (perform_discovery fuel valid nets a service) as [[[] ]| |].
    - cbn [Nat.add perform_discovery]. unfold do_discover_node_endpoints. rewrite Hmax. cbn [read_member mbind outcome_bind].
      rewrite (proj2 (Z.leb_le a max)) by lia.
      specialize (Hfail a ltac:(lia)) as Hfa. unfold discover in Hfa. rewrite Hfa. cbn [mbind outcome_bind].
      rewrite i32_checked_ok by (unfold in_i32; lia). cbn [mbind outcome_bind].
      rewrite IH by (try lia; intros; apply Hfail; lia).
      replace (a + 1 + Z.of_nat d) with (a + Z.of_nat (S d)) by lia.
      by destruct (perform_discovery fuel valid nets (a + Z.of_nat (S d)) service) as [[[] ]| |]. }
  split.
  - intros k best service' Hk Hfail Hok fuel Hfuel.
    replace fuel with (Z.to_nat (k - 1) + S (fuel - Z.to_nat k))%nat by lia.
    rewrite Hskip by (try lia; intros; apply Hfail; lia).
    replace (1 + Z.of_nat (Z.to_nat (k - 1))) with k by lia.
    cbn [perform_discovery]. unfold do_discover_node_endpoints. rewrite Hmax. cbn [read_member mbind outcome_bind].
    rewrite (proj2 (Z.leb_le k max)) by lia. unfold discover in Hok. rewrite Hok. cbn [mbind outcome_bind].
    do 3 f_equal. lia.
  - intros Hfail fuel Hfuel.
    replace fuel with (Z.to_nat max + S (fuel - S (Z.to_nat max)))%nat by lia.
    rewrite Hskip by (try lia; intros; apply Hfail; lia).
    replace (1 + Z.of_nat (Z.to_nat max)) with (max + 1) by lia.
    cbn [perform_discovery]. unfold do_discover_node_endpoints. rewrite Hmax. cbn [read_member mbind outcome_bind].
    rewrite (proj2 (Z.leb_gt (max + 1) max)) by lia. cbn [mbind outcome_bind].
    do 3 f_equal. lia.
Qed.

Lemma discovery_cycle_witness :
  cs_max_discover_attempts (service_settings sample_service) = Some 3 ∧
  async_discover_node_endpoints (AL := simple_algorithms) 5 (λ _, true) (sample_network 9) sample_service =
    Ret ([(make_error_code endpoint_discovery, mk_endpoint "0.0.0.0" 0)], 4%nat, sample_service).
Proof.
  split; [reflexivity|].
  refine (proj2 (discovery_cycle (AL := simple_algorithms) (λ _, true) (sample_network 9) sample_service 3
    eq_refl ltac:(vm_compute; split; [discriminate|reflexivity])) _ 5%nat ltac:(vm_compute; lia)).
  intros a Ha. assert (a = 1 ∨ a = 2 ∨ a = 3) as [-> | [-> | ->]] by lia; reflexivity.
Defined.
