(* ===== verification/GossipHttp.v ===== *)
(** How the cluster service gets the gossip of a node: one HTTP exchange
    (try_get_gossip_from of include/tcp/cluster_discovery_service.hpp), and the
    network of Cluster.v made of it. *)
From S2P Require Import Prelude Errors Basics Settings Gossip Cluster.

(** ** Boost.Beast and the JSON parser, as the code uses them

    Each call of the exchange with one node either succeeds or sets the error
    code; [http_shutdown] tells not_connected from the other errors. *)
Record http_request := mk_http_request { http_target : string; http_version : Z; http_host : string }.
Record http_response := mk_http_response { status_is_ok : bool; body : string }.
Inductive shutdown_result : Type := shutdown_ok | shutdown_not_connected | shutdown_failed.

Record http_client := mk_http_client {
  http_connect : endpoint → bool;
  http_write : endpoint → http_request → bool;
  http_read : endpoint → option http_response;
  http_shutdown : endpoint → shutdown_result
}.

(** nlohmann::json::parse throws on a text that is not JSON. *)
Class JsonText (J : Type) := json_parse : string → outcome J.

Section exchange.
Context {J : Type} {JS : Json J} {GT : GuidText} {JA : JsonArrays J} {JT : JsonText J}.
Context (fresh_member : member_info).

Definition gossip_request (seed : gossip_seed) : http_request :=
  mk_http_request "/gossip?format=json" 11 (address (seed_endpoint seed)).

Definition try_get_gossip (c : http_client) (seed : gossip_seed) : outcome (option cluster_info) :=
  let e := seed_endpoint seed in
  if negb (http_connect c e) then Ret None
  else if negb (http_write c e (gossip_request seed)) then Ret None
  else
    match http_read c e with
    | None => Ret None
    | Some res =>
        match http_shutdown c e with
        | shutdown_failed => Ret None
        | shutdown_ok | shutdown_not_connected =>
            if negb (status_is_ok res) then Ret None
            else
              json ← json_parse (body res);
              info ← cluster_from_json (J := J) fresh_member json;
              Ret (Some info)
        end
    end.

(** The network of the discovery service. *)
Definition http_network (dns : string → option (list endpoint)) (c : http_client) : network :=
  mk_network dns (try_get_gossip c).

(** A node that is up and answers with the text [text]. *)
Definition answers_with (c : http_client) (seed : gossip_seed) (text : string) : Prop :=
  let e := seed_endpoint seed in
  http_connect c e = true ∧ http_write c e (gossip_request seed) = true ∧
  http_read c e = Some (mk_http_response true text) ∧ http_shutdown c e ≠ shutdown_failed.

Lemma try_get_gossip_answer c seed text :
  answers_with c seed text →
  try_get_gossip c seed = (json ← json_parse text; info ← cluster_from_json (J := J) fresh_member json; Ret (Some info)).
Proof.
  intros (Hc & Hw & Hr & Hs). unfold try_get_gossip. rewrite Hc, Hw, Hr. simpl. by destruct (http_shutdown _ _).
Qed.

(** A node that is down, or breaks off the exchange, or refuses. *)
Definition gives_no_gossip (c : http_client) (seed : gossip_seed) : Prop :=
  let e := seed_endpoint seed in
  http_connect c e = false ∨ http_write c e (gossip_request seed) = false ∨ http_read c e = None ∨
  http_shutdown c e = shutdown_failed ∨ (∃ text, http_read c e = Some (mk_http_response false text)).

Lemma try_get_gossip_none c seed : gives_no_gossip c seed → try_get_gossip c seed = Ret None.
Proof.
  unfold try_get_gossip. intros Hn. destruct (http_connect _ _) eqn:Hc; simpl; [|done].
  destruct (http_write _ _ _) eqn:Hw; simpl; [|done]. destruct (http_read _ _) as [[ok text]|] eqn:Hr; simpl; [|done].
  destruct (http_shutdown _ _) eqn:Hs; try done; destruct ok; try done; simpl;
    destruct Hn as [?|[?|[?|[?|[? ?]]]]]; congruence.
Qed.
End exchange.

Section discovery.
Context {AL : Algorithms}.
Context {J : Type} {JS : Json J} {GT : GuidText} {JA : JsonArrays J} {JT : JsonText J}.

(** Nodes that give no gossip are passed over. *)
Lemma ask_candidates_skip valid dns c m0 n settings seeds rest :
  Forall (gives_no_gossip c) seeds →
  ask_candidates valid (http_network m0 dns c) n settings (seeds ++ rest) =
    ask_candidates valid (http_network m0 dns c) n settings rest.
Proof.
  induction 1 as [|seed seeds Hs _ IH]; [done|]. simpl. by rewrite (try_get_gossip_none m0 _ _ Hs).
Qed.
End discovery.


(** ** An example: two nodes, of which the first is down *)
Lemma sample_member_ok state alive port :
  (∀ z, state ≠ other_state z) → 0 ≤ port < 65536 → member_ok (sample_member state alive port).
Proof.
  intros Hs Hp. split; [done|done|done|..]; repeat (apply Forall_cons; split); try apply Forall_nil;
    unfold in_i32, in_i64; simpl; lia.
Qed.

Definition example_members : list member_info := [sample_member slave true 1112; sample_member master true 2112].

(** What a node writes: its members, and its own address. *)
Definition example_gossip : json_tree :=
  tree_object [("serverIp", js_string "127.0.0.1"); ("serverPort", js_number 2113)]%string
    [("members"%string, to_json (JS := tree_json) (GT := raw_guid_text) <$> example_members)].

Definition example_text : JsonText json_tree := λ s,
  if String.eqb s "gossip" then Ret example_gossip else Throw json_exception.

Definition example_http : http_client :=
  let up e := port e =? 2113 in
  mk_http_client up (λ e _, up e) (λ e, if up e then Some (mk_http_response true "gossip") else None)
    (λ _, shutdown_not_connected).

Definition example_settings : cluster_settings :=
  mk_cluster_settings (cs_cluster_dns (service_settings sample_service)) (cs_max_discover_attempts (service_settings sample_service))
    (cs_external_gossip_port (service_settings sample_service))
    [make_gossip_seed (mk_endpoint "127.0.0.1" 1113); make_gossip_seed (mk_endpoint "127.0.0.1" 2113)]
    (cs_gossip_timeout (service_settings sample_service)) (Some prefer_master).

