(* ===== verification/Operations.v ===== *)
(** The request/response operations on streams, transactions, metadata and
    persistent subscriptions: for each, the package it sends and the lambda
    that turns the response into a call of the user's handler
    (append_to_stream.hpp, conditional_append_to_stream.hpp,
    delete_stream.hpp, read_stream_event.hpp, read_stream_events.hpp,
    read_all_events.hpp, start_transaction.hpp, transactional_write.hpp,
    commit_transaction.hpp, get_stream_metadata.hpp, set_stream_metadata.hpp,
    create/update/delete_persistent_subscription.hpp). *)
From S2P Require Import Prelude Errors Basics TcpPackage Messages Events Settings.

(** What a response lambda does with the user's handler: [Ret None] returns
    without calling it, [Ret (Some c)] calls it with the arguments [c]. *)
Abbreviation call R := (outcome (option R)).

Section operations.
Context {AL : Allocator} {PB : Protobuf}.

(** ** Building the package

    Every operation builds its package this way: with the default
    credentials of the connection when there are some. *)
Definition make_request (settings : connection_settings) (cmd : tcp_command) (corr_id : guid_type)
    (serialized : bytes) : outcome tcp_package :=
  let creds := default_user_credentials_ settings in
  if credentials_null creds
  then tcp_package_plain cmd flags_none corr_id serialized
  else tcp_package_auth cmd flags_authenticated corr_id (username creds) (password creds) serialized.

(** [if (!ec && view.command() != expected) ec = unexpected_response;] *)
Definition check_command (expected : tcp_command) (ec : error_code) (view : tcp_package_view) :
    outcome error_code :=
  if negb (failed ec) then
    c ← command view;
    Ret (if bool_decide (c = expected) then ec else make_error_code unexpected_response)
  else Ret ec.

Definition parse_view {M} `{!Message M} (view : tcp_package_view) : outcome M :=
  bs ← message_bytes view; Ret (ParseFromArray bs).

(** new_event->set_... for one event of the sequence *)
Definition make_new_event (e : event_data) : NewEvent := {|
  ne_event_id := ed_event_id e;
  ne_event_type := ed_type e;
  ne_data_content_type := if ed_is_json e then 1 else 0;
  ne_metadata_content_type := 0;
  ne_data := ed_content e;
  ne_metadata := ed_metadata e
|}.

(** The position put into write results: the prepare position is the first
    argument of the constructor, the commit position the second. *)
Definition result_position (prepare commit : option Z) : position :=
  let prepare_position := default (-1) prepare in
  let commit_position := default (-1) commit in
  mk_position prepare_position commit_position.

(** ** async_append_to_stream *)
Definition append_request (settings : connection_settings) (corr_id : guid_type) (stream : string)
    (events : list event_data) (expected_version : Z) : outcome tcp_package :=
  make_request settings Command.write_events corr_id (SerializeAsString {|
    we_event_stream_id := stream;
    we_expected_version := expected_version;
    we_events := make_new_event <$> events;
    we_require_master := require_master_ settings |}).

Definition append_handler (ec : error_code) (view : tcp_package_view) :
    call (error_code * option write_result) :=
  ec ← check_command Command.write_events_completed ec view;
  if failed ec then Ret (Some (ec, None))
  else
    response ← parse_view (M := WriteEventsCompleted) view;
    let succeed :=
      Ret (Some (ec, Some (mk_write_result (wec_last_event_number response)
        (result_position (wec_prepare_position response) (wec_commit_position response))))) in
    let fail e := Ret (Some (e, None)) in
    match wec_result response with
    | Success => succeed
    | PrepareTimeout | ForwardTimeout | CommitTimeout => Ret None
    | WrongExpectedVersion => fail (make_error_code wrong_expected_version)
    | StreamDeleted => fail (make_error_code stream_deleted)
    | InvalidTransaction => fail (make_error_code invalid_transaction)
    | AccessDenied => fail (make_error_code stream_access_denied)
    end.

(** ** async_conditional_append_to_stream *)
Definition conditional_append_request := append_request.

Definition conditional_append_handler (ec : error_code) (view : tcp_package_view) :
    call (error_code * option write_result) :=
  ec ← check_command Command.write_events_completed ec view;
  if failed ec then Ret (Some (ec, None))
  else
    response ← parse_view (M := WriteEventsCompleted) view;
    let succeed :=
      Ret (Some (ec, Some (mk_write_result (wec_last_event_number response)
        (result_position (wec_prepare_position response) (wec_commit_position response))))) in
    let fail e := Ret (Some (e, None)) in
    match wec_result response with
    | Success => succeed
    | PrepareTimeout | ForwardTimeout | CommitTimeout => Ret None
    | WrongExpectedVersion => fail (make_error_code version_mismatch)
    | StreamDeleted => fail (make_error_code stream_deleted)
    | InvalidTransaction => fail (make_error_code invalid_transaction)
    | AccessDenied => fail (make_error_code stream_access_denied)
    end.

(** ** async_delete_stream *)
Definition delete_request (settings : connection_settings) (corr_id : guid_type) (stream : string)
    (expected_version : Z) (hard_delete : bool) : outcome tcp_package :=
  make_request settings Command.delete_stream corr_id (SerializeAsString {|
    ds_event_stream_id := stream;
    ds_expected_version := expected_version;
    ds_require_master := require_master_ settings;
    ds_hard_delete := Some hard_delete |}).

(** The result codes that set an error here; the timeouts break out of the
    switch with no error. *)
Definition operation_result_error (r : OperationResult) (ec : error_code) : error_code :=
  match r with
  | Success | PrepareTimeout | CommitTimeout | ForwardTimeout => ec
  | WrongExpectedVersion => make_error_code wrong_expected_version
  | StreamDeleted => make_error_code stream_deleted
  | InvalidTransaction => make_error_code invalid_transaction
  | AccessDenied => make_error_code stream_access_denied
  end.

Definition delete_handler (ec : error_code) (view : tcp_package_view) :
    call (error_code * option delete_stream_result) :=
  ec ← check_command Command.delete_stream_completed ec view;
  if failed ec then Ret (Some (ec, None))
  else
    response ← parse_view (M := DeleteStreamCompleted) view;
    let ec := operation_result_error (dsc_result response) ec in
    if negb (failed ec)
    then Ret (Some (ec, Some (mk_delete_stream_result
           (result_position (dsc_prepare_position response) (dsc_commit_position response)))))
    else Ret (Some (ec, None)).

(** ** async_start_transaction; the result is the id of the transaction *)
Definition start_transaction_request (settings : connection_settings) (corr_id : guid_type)
    (stream : string) (expected_version : Z) : outcome tcp_package :=
  make_request settings Command.transaction_start corr_id (SerializeAsString {|
    ts_event_stream_id := stream;
    ts_expected_version := expected_version;
    ts_require_master := require_master_ settings |}).

Definition start_transaction_handler (ec : error_code) (view : tcp_package_view) :
    call (error_code * option Z) :=
  ec ← check_command Command.transaction_start_completed ec view;
  if failed ec then Ret (Some (ec, None))
  else
    response ← parse_view (M := TransactionStartCompleted) view;
    let ec := operation_result_error (tsc_result response) ec in
    if negb (failed ec) then Ret (Some (ec, Some (tsc_transaction_id response)))
    else Ret (Some (ec, None)).

(** ** async_transactional_write *)
Definition transactional_write_request (settings : connection_settings) (corr_id : guid_type)
    (transaction_id : Z) (events : list event_data) : outcome tcp_package :=
  make_request settings Command.transaction_write corr_id (SerializeAsString {|
    tw_transaction_id := transaction_id;
    tw_events := make_new_event <$> events;
    tw_require_master := require_master_ settings |}).

Definition transactional_write_handler (ec : error_code) (view : tcp_package_view) : call error_code :=
  ec ← check_command Command.transaction_write_completed ec view;
  if failed ec then Ret (Some ec)
  else
    response ← parse_view (M := TransactionWriteCompleted) view;
    Ret (Some match twc_result response with
              | Success | PrepareTimeout | CommitTimeout | ForwardTimeout => ec
              | AccessDenied => make_error_code stream_access_denied
              | _ => make_error_code unexpected_response
              end).

(** ** async_commit_transaction *)
Definition commit_transaction_request (settings : connection_settings) (corr_id : guid_type)
    (transaction_id : Z) : outcome tcp_package :=
  make_request settings Command.transaction_commit corr_id (SerializeAsString {|
    tc_transaction_id := transaction_id;
    tc_require_master := require_master_ settings |}).

Definition commit_transaction_handler (ec : error_code) (view : tcp_package_view) :
    call (error_code * option write_result) :=
  ec ← check_command Command.transaction_commit_completed ec view;
  if failed ec then Ret (Some (ec, None))
  else
    response ← parse_view (M := TransactionCommitCompleted) view;
    let succeed :=
      Ret (Some (ec, Some (mk_write_result (tcc_last_event_number response)
        (result_position (tcc_prepare_position response) (tcc_commit_position response))))) in
    let fail e := Ret (Some (e, None)) in
    match tcc_result response with
    | Success => succeed
    | PrepareTimeout | ForwardTimeout | CommitTimeout => Ret None
    | WrongExpectedVersion => fail (make_error_code wrong_expected_version)
    | StreamDeleted => fail (make_error_code stream_deleted)
    | InvalidTransaction => fail (make_error_code invalid_transaction)
    | AccessDenied => fail (make_error_code stream_access_denied)
    end.

(** ** async_read_stream_event *)
Definition read_stream_event_request (settings : connection_settings) (corr_id : guid_type)
    (stream : string) (event_number : Z) (resolveLinkTos : bool) : outcome tcp_package :=
  make_request settings Command.read_event corr_id (SerializeAsString {|
    rev_event_stream_id := stream;
    rev_event_number := event_number;
    rev_resolve_link_tos := resolveLinkTos;
    rev_require_master := require_master_ settings |}).

Definition read_stream_event_handler (stream : string) (event_number : Z) (ec : error_code)
    (view : tcp_package_view) : call (error_code * option event_read_result) :=
  ec ← check_command Command.read_event_completed ec view;
  if failed ec then Ret (Some (ec, None))
  else
    response ← parse_view (M := ReadEventCompleted) view;
    let succeed status :=
      result ← make_event_read_result status stream event_number (rec_event response);
      Ret (Some (ec, Some result)) in
    let fail e := Ret (Some (e, None)) in
    match rec_result response with
    | ReadEvent_Success => succeed read_success
    | ReadEvent_NotFound => succeed read_not_found
    | ReadEvent_NoStream => succeed read_no_stream
    | ReadEvent_StreamDeleted => succeed read_stream_deleted
    | ReadEvent_Error => fail (make_error_code server_error)
    | ReadEvent_AccessDenied => fail (make_error_code stream_access_denied)
    end.

(** ** async_read_stream_events and its forward and backward versions *)
Definition read_stream_command (direction : read_direction) : tcp_command :=
  match direction with
  | forward => Command.read_stream_events_forward
  | backward => Command.read_stream_events_backward
  end.

Definition read_stream_events_request (settings : connection_settings) (corr_id : guid_type)
    (stream : string) (direction : read_direction) (from_event_number max_count : Z)
    (resolve_link_tos : bool) : outcome tcp_package :=
  make_request settings (read_stream_command direction) corr_id (SerializeAsString {|
    rse_event_stream_id := stream;
    rse_from_event_number := from_event_number;
    rse_max_count := max_count;
    rse_resolve_link_tos := resolve_link_tos;
    rse_require_master := require_master_ settings |}).

Definition read_stream_events_forward_request s c stream from n r :=
  read_stream_events_request s c stream forward from n r.
Definition read_stream_events_backward_request s c stream from n r :=
  read_stream_events_request s c stream backward from n r.

Definition read_stream_events_handler (stream : string) (from_event_number : Z)
    (direction : read_direction) (ec : error_code) (view : tcp_package_view) :
    call (error_code * option stream_events_slice) :=
  ec ← check_command (match direction with
    | forward => Command.read_stream_events_forward_completed
    | backward => Command.read_stream_events_backward_completed end) ec view;
  if failed ec then Ret (Some (ec, None))
  else
    response ← parse_view (M := ReadStreamEventsCompleted) view;
    let fail e := Ret (Some (e, None)) in
    match rsec_result response with
    | ReadStream_Success =>
        slice ← make_stream_events_slice stream from_event_number direction response;
        Ret (Some (ec, Some slice))
    | ReadStream_StreamDeleted => fail (make_error_code stream_deleted)
    | ReadStream_NoStream => fail (make_error_code stream_not_found)
    | ReadStream_Error => fail (make_error_code server_error)
    | ReadStream_AccessDenied => fail (make_error_code stream_access_denied)
    | ReadStream_NotModified => fail (make_error_code unexpected_response)
    end.

(** ** async_read_all_events and its forward and backward versions *)
Definition read_all_command (direction : read_direction) : tcp_command :=
  match direction with
  | forward => Command.read_all_events_forward
  | backward => Command.read_all_events_backward
  end.

Definition read_all_events_request (settings : connection_settings) (corr_id : guid_type)
    (direction : read_direction) (from_position : position) (max_count : Z)
    (resolve_link_tos : bool) : outcome tcp_package :=
  make_request settings (read_all_command direction) corr_id (SerializeAsString {|
    rae_commit_position := commit_position from_position;
    rae_prepare_position := prepare_position from_position;
    rae_max_count := max_count;
    rae_resolve_link_tos := resolve_link_tos;
    rae_require_master := require_master_ settings |}).

Definition read_all_events_forward_request s c from n r :=
  read_all_events_request s c forward from n r.
Definition read_all_events_backward_request s c from n r :=
  read_all_events_request s c backward from n r.

Definition read_all_events_handler (direction : read_direction) (ec : error_code)
    (view : tcp_package_view) : call (error_code * option all_events_slice) :=
  ec ← check_command (match direction with
    | backward => Command.read_all_events_backward_completed
    | forward => Command.read_all_events_forward_completed end) ec view;
  if failed ec then Ret (Some (ec, None))
  else
    response ← parse_view (M := ReadAllEventsCompleted) view;
    let fail e := Ret (Some (e, None)) in
    match default ReadAll_Success (raec_result response) with
    | ReadAll_Success =>
        slice ← make_all_events_slice direction response;
        Ret (Some (ec, Some slice))
    | ReadAll_Error => fail (make_error_code server_error)
    | ReadAll_AccessDenied => fail (make_error_code stream_access_denied)
    | ReadAll_NotModified => fail (make_error_code unexpected_response)
    end.

(** ** async_get_stream_metadata: reads the last event of the metadata
    stream and hands what async_read_stream_event calls it with to this
    lambda *)
Definition get_stream_metadata_request (settings : connection_settings) (corr_id : guid_type)
    (stream : string) : outcome tcp_package :=
  read_stream_event_request settings corr_id (System.meta_stream_of stream) (-1) false.

Definition stream_metadata_lambda (stream : string) (ec : error_code)
    (result : option event_read_result) : call (error_code * option stream_metadata_result_raw) :=
  if negb (failed ec) then
    value ← opt_value result;
    match err_status value with
    | read_success =>
        match err_event value with
        | None => Ret (Some (make_error_code unexpected_response, None))
        | Some event =>
            match original_event event with
            | None => Ret (Some (ec, Some (mk_stream_metadata_result_raw stream false (-1) EmptyString)))
            | Some event =>
                Ret (Some (ec, Some (mk_stream_metadata_result_raw stream false
                  (event_number_ event) (content_ event))))
            end
        end
    | read_not_found | read_no_stream =>
        Ret (Some (ec, Some (mk_stream_metadata_result_raw stream false (-1) EmptyString)))
    | read_stream_deleted =>
        Ret (Some (ec, Some (mk_stream_metadata_result_raw stream true INT64_MAX EmptyString)))
    end
  else Ret (Some (ec, None)).

Definition get_stream_metadata_handler (stream : string) (ec : error_code) (view : tcp_package_view) :
    call (error_code * option stream_metadata_result_raw) :=
  c ← read_stream_event_handler (System.meta_stream_of stream) (-1) ec view;
  match c with
  | None => Ret None
  | Some (ec, result) => stream_metadata_lambda stream ec result
  end.

(** ** async_set_stream_metadata: appends one event to the metadata stream *)
Definition set_stream_metadata_request (settings : connection_settings) (corr_id event_id : guid_type)
    (stream : string) (expected_metastream_version : Z) (metadata : string) : outcome tcp_package :=
  append_request settings corr_id (System.meta_stream_of stream)
    [mk_event_data event_id System.event_type_stream_metadata true metadata None]
    expected_metastream_version.

(** ** Persistent subscription management *)
Definition persistent_config (stream group : string) (settings : persistent_subscription_settings) :
    outcome PersistentSubscriptionConfig :=
  start_from ← read_member (ps_start_from settings);
  Ret {| psc_event_stream_id := stream;
         psc_buffer_size := ps_history_buffer_size settings;
         psc_checkpoint_after_time := wrap_i32 (ES_MILLISECONDS_of_nanoseconds (ps_checkpoint_after settings));
         psc_checkpoint_max_count := ps_max_checkpoint_count settings;
         psc_checkpoint_min_count := ps_min_checkpoint_count settings;
         psc_live_buffer_size := ps_live_buffer_size settings;
         psc_max_retry_count := ps_max_retry_count settings;
         psc_message_timeout_milliseconds := wrap_i32 (ES_MILLISECONDS_of_nanoseconds (ps_message_timeout settings));
         psc_named_consumer_strategy := Some (ps_named_consumer_strategy settings);
         psc_prefer_round_robin := String.eqb (ps_named_consumer_strategy settings) System.round_robin;
         psc_read_batch_size := ps_read_batch_size settings;
         psc_record_statistics := ps_extra_statistics settings;
         psc_resolve_link_tos := ps_resolve_link_tos settings;
         psc_start_from := start_from;
         psc_subscriber_max_count := ps_max_subscriber_count settings;
         psc_subscription_group_name := group |}.

Definition create_persistent_subscription_request (conn : connection_settings) (corr_id : guid_type)
    (stream group : string) (settings : persistent_subscription_settings) : outcome tcp_package :=
  c ← persistent_config stream group settings;
  make_request conn Command.create_persistent_subscription corr_id
    (SerializeAsString (mk_CreatePersistentSubscription c)).

Definition create_persistent_subscription_handler (ec : error_code) (view : tcp_package_view) :
    call (error_code * string) :=
  ec ← check_command Command.create_persistent_subscription_completed ec view;
  if failed ec then Ret (Some (ec, EmptyString))
  else
    response ← parse_view (M := CreatePersistentSubscriptionCompleted) view;
    let ec := match cpsc_result response with
      | CreatePS_Success => ec
      | CreatePS_Fail => make_error_code persistent_subscription_fail
      | CreatePS_AccessDenied => make_error_code sub_access_denied
      | CreatePS_AlreadyExists => make_error_code persistent_subscription_already_exists
      end in
    Ret (Some (ec, default EmptyString (cpsc_reason response))).

Definition update_persistent_subscription_request (conn : connection_settings) (corr_id : guid_type)
    (stream group : string) (settings : persistent_subscription_settings) : outcome tcp_package :=
  c ← persistent_config stream group settings;
  make_request conn Command.update_persistent_subscription corr_id
    (SerializeAsString (mk_UpdatePersistentSubscription c)).

Definition update_persistent_subscription_handler (ec : error_code) (view : tcp_package_view) :
    call (error_code * string) :=
  ec ← check_command Command.update_persistent_subscription_completed ec view;
  if failed ec then Ret (Some (ec, EmptyString))
  else
    response ← parse_view (M := UpdatePersistentSubscriptionCompleted) view;
    let ec := match upsc_result response with
      | UpdatePS_Success => ec
      | UpdatePS_Fail => make_error_code persistent_subscription_fail
      | UpdatePS_AccessDenied => make_error_code sub_access_denied
      | UpdatePS_DoesNotExist => make_error_code persistent_subscription_does_not_exist
      end in
    Ret (Some (ec, default EmptyString (upsc_reason response))).

Definition delete_persistent_subscription_request (conn : connection_settings) (corr_id : guid_type)
    (stream group : string) : outcome tcp_package :=
  make_request conn Command.delete_persistent_subscription corr_id (SerializeAsString {|
    dps_event_stream_id := stream;
    dps_subscription_group_name := group |}).

Definition delete_persistent_subscription_handler (ec : error_code) (view : tcp_package_view) :
    call (error_code * string) :=
  ec ← check_command Command.delete_persistent_subscription_completed ec view;
  if failed ec then Ret (Some (ec, EmptyString))
  else
    response ← parse_view (M := DeletePersistentSubscriptionCompleted) view;
    let ec := match dpsc_result response with
      | DeletePS_Success => ec
      | DeletePS_Fail => make_error_code persistent_subscription_fail
      | DeletePS_AccessDenied => make_error_code sub_access_denied
      | DeletePS_DoesNotExist => make_error_code persistent_subscription_does_not_exist
      end in
    Ret (Some (ec, default EmptyString (dpsc_reason response))).
End operations.

(** ** Facts about the shared parts *)
Section facts.
Context {AL : Allocator} {PB : Protobuf}.

Lemma check_command_failed c ec v : failed ec = true → check_command c ec v = Ret ec.
Proof. unfold check_command. by intros ->. Qed.

Lemma check_command_expected c v : command v = Ret c → check_command c success v = Ret success.
Proof. unfold check_command. intros ->. simpl. by rewrite bool_decide_eq_true_2. Qed.

Lemma check_command_other c c' v :
  command v = Ret c' → c' ≠ c →
  check_command c success v = Ret (make_error_code unexpected_response).
Proof. unfold check_command. intros -> ?. simpl. by rewrite bool_decide_eq_false_2. Qed.

(** An error code that passed the check is success. *)
Lemma check_command_success c ec v ec' :
  check_command c ec v = Ret ec' → failed ec' = false → failed ec = false ∧ ec' = ec ∧ command v = Ret c.
Proof.
  unfold check_command. destruct (failed ec) eqn:E; simpl.
  - intros [= <-]. congruence.
  - intros Hc Hf. inv_ret. case_bool_decide; simplify_eq; auto.
Qed.

Lemma parse_view_ok `{!Message M} v bs : message_bytes v = Ret bs → parse_view (M := M) v = Ret (ParseFromArray bs).
Proof. unfold parse_view. by intros ->. Qed.
End facts.
#[export] Hint Rewrite @check_command_failed using done : es.

(** The package of a request carries its correlation id, whatever its size. *)
Lemma make_request_carries {AL : Allocator} settings cmd corr serialized p :
  make_request settings cmd corr serialized = Ret p → length corr = 16%nat → carries corr p.
Proof.
  unfold make_request. destruct (credentials_null _);
    [apply tcp_package_plain_carries|apply tcp_package_auth_carries].
Qed.

(** The package of a request. *)
Lemma make_request_reads {AL : Allocator} settings cmd corr serialized
    (Hcorr : length corr = 16%nat)
    (Hu : (string_size (username (default_user_credentials_ settings)) < 256)%nat)
    (Hp : (string_size (password (default_user_credentials_ settings)) < 256)%nat)
    (Hm : Z.of_nat (length serialized) < 2 ^ 30) :
  let creds := default_user_credentials_ settings in
  ∃ pkg v, make_request settings cmd corr serialized = Ret pkg ∧ to_view pkg = Ret v ∧
    view_reads v cmd
      (if decide (creds = no_credentials) then flags_none else flags_authenticated)
      (if decide (creds = no_credentials) then None
       else Some (string_bytes (username creds), string_bytes (password creds)))
      corr serialized.
Proof.
  intros creds. unfold make_request. fold creds.
  pose proof (credentials_null_iff creds) as Hn.
  destruct (credentials_null creds).
  - rewrite !decide_True by tauto.
    rewrite tcp_package_plain_layout by (done || lia).
    destruct (make_view_plain cmd flags_none corr serialized Hcorr) as (v & Hv & Hr & _); [done|lia|].
    eexists _, v. split; [done|]. split; [|done]. unfold to_view; cbn [package_ length_].
    rewrite wrap_u64_small by lia. rewrite <- Hv. f_equal. lia.
  - rewrite !decide_False by (intros E; apply Hn in E; done).
    pose proof (length_auth_body (username creds) (password creds) serialized) as Hl.
    fold creds in Hu, Hp.
    destruct (make_view_auth cmd corr (username creds) (password creds) serialized Hcorr Hu Hp)
      as (v & Hv & Hr & _); [lia|].
    rewrite tcp_package_auth_layout by (done || lia).
    eexists _, v. split; [done|]. split; [|done]. unfold to_view; cbn [package_ length_].
    rewrite wrap_u64_small by lia. rewrite <- Hv. f_equal. lia.
Qed.

(** C24: Every package of a request operation is readable by the server: with
    credentials of at most 255 bytes each, the request carries its command,
    its correlation id and exactly the serialized message, unauthenticated
    when the connection has no default credentials and with the user name and
    password otherwise. *)
Theorem request_readable {AL : Allocator} settings cmd corr serialized
    (Hcorr : length corr = 16%nat)
    (Hu : (string_size (username (default_user_credentials_ settings)) < 256)%nat)
    (Hp : (string_size (password (default_user_credentials_ settings)) < 256)%nat)
    (Hm : Z.of_nat (length serialized) < 2 ^ 30) :
  let creds := default_user_credentials_ settings in
  ∃ pkg v, make_request settings cmd corr serialized = Ret pkg ∧ to_view pkg = Ret v ∧
    view_reads v cmd
      (if decide (creds = no_credentials) then flags_none else flags_authenticated)
      (if decide (creds = no_credentials) then None
       else Some (string_bytes (username creds), string_bytes (password creds)))
      corr serialized.
Proof. by apply make_request_reads. Qed.

Lemma request_readable_witness :
  let settings := build_connection_settings
    [with_default_user_credentials (mk_user_credentials "admin" "changeit")] in
  ∃ pkg v, make_request (AL := zero_allocator) settings Command.read_event (replicate 16 x05) [x01; x02]
      = Ret pkg ∧ to_view pkg = Ret v ∧
    view_reads v Command.read_event flags_authenticated
      (Some (string_bytes "admin", string_bytes "changeit")) (replicate 16 x05) [x01; x02].
Proof.
  intros settings.
  exact (request_readable (AL := zero_allocator) settings Command.read_event (replicate 16 x05) [x01; x02]
    eq_refl ltac:(vm_compute; first [reflexivity | lia]) ltac:(vm_compute; first [reflexivity | lia]) ltac:(vm_compute; first [reflexivity | lia])).
Defined.

(** An error the connection reports (a timeout, a closed connection) is
    passed to the user's handler unchanged, with no result and without
    touching the view, which is null in that case; this holds for every
    operation. *)
Theorem errors_passed_through {PB : Protobuf} ec view (Hec : failed ec = true) :
  append_handler ec view = Ret (Some (ec, None)) ∧
  conditional_append_handler ec view = Ret (Some (ec, None)) ∧
  delete_handler ec view = Ret (Some (ec, None)) ∧
  start_transaction_handler ec view = Ret (Some (ec, None)) ∧
  transactional_write_handler ec view = Ret (Some ec) ∧
  commit_transaction_handler ec view = Ret (Some (ec, None)) ∧
  (∀ stream n, read_stream_event_handler stream n ec view = Ret (Some (ec, None))) ∧
  (∀ stream from dir, read_stream_events_handler stream from dir ec view = Ret (Some (ec, None))) ∧
  (∀ dir, read_all_events_handler dir ec view = Ret (Some (ec, None))) ∧
  (∀ stream, get_stream_metadata_handler stream ec view = Ret (Some (ec, None))) ∧
  create_persistent_subscription_handler ec view = Ret (Some (ec, EmptyString)) ∧
  update_persistent_subscription_handler ec view = Ret (Some (ec, EmptyString)) ∧
  delete_persistent_subscription_handler ec view = Ret (Some (ec, EmptyString)).
Proof.
  split_and!; intros;
    unfold append_handler, conditional_append_handler, delete_handler, start_transaction_handler,
      transactional_write_handler, commit_transaction_handler, get_stream_metadata_handler,
      read_stream_event_handler, read_stream_events_handler, read_all_events_handler,
      create_persistent_subscription_handler, update_persistent_subscription_handler,
      delete_persistent_subscription_handler;
    rewrite check_command_failed by done; cbn [mbind outcome_bind]; rewrite Hec; try done.
  cbn [mbind outcome_bind]. unfold stream_metadata_lambda. by rewrite Hec.
Qed.

Lemma errors_passed_through_witness :
  failed (make_error_code operation_timeout) = true ∧
  append_handler (PB := sample_protobuf) (make_error_code operation_timeout) null_view =
    Ret (Some (make_error_code operation_timeout, None)).
Proof.
  split; [reflexivity|].
  exact (proj1 (errors_passed_through (PB := sample_protobuf) (make_error_code operation_timeout) null_view
    eq_refl)).
Defined.

(** The contract of a handler with an optional result: no result with an
    error, a result without one. *)
Definition result_iff_success {R} (c : call (error_code * option R)) : Prop :=
  ∀ ec res, c = Ret (Some (ec, res)) → (is_Some res ↔ failed ec = false).

(** The contract is compositional over the body of a handler. *)
Lemma result_iff_success_silent {R} : result_iff_success (R := R) (Ret None).
Proof. by intros ? ?. Qed.
Lemma result_iff_success_some {R} ec (r : R) :
  failed ec = false → result_iff_success (Ret (Some (ec, Some r))).
Proof. intros Hf ? ? [= <- <-]. rewrite Hf. split; eauto. Qed.
Lemma result_iff_success_none {R} ec :
  failed ec = true → result_iff_success (R := R) (Ret (Some (ec, None))).
Proof. intros Hf ? ? [= <- <-]. rewrite Hf. by split; [intros []|]. Qed.
Lemma result_iff_success_bind {A R} (m : outcome A) (f : A → call (error_code * option R)) :
  (∀ a, m = Ret a → result_iff_success (f a)) → result_iff_success (m ≫= f).
Proof. intros Hf ? ? H. inv_ret. eapply Hf; eauto. Qed.
Lemma result_iff_success_undef {R} u : result_iff_success (R := R) (Undef u).
Proof. by intros ? ?. Qed.
Lemma result_iff_success_throw {R} e : result_iff_success (R := R) (Throw e).
Proof. by intros ? ?. Qed.
#[export] Hint Resolve result_iff_success_silent result_iff_success_some result_iff_success_none
  result_iff_success_undef result_iff_success_throw : es.

(** Walk through the body of a handler. *)
Ltac walk_handler :=
  repeat match goal with
  | |- result_iff_success (_ ≫= _) => apply result_iff_success_bind; intros ? ?
  | |- result_iff_success (match ?x with _ => _ end) => destruct x eqn:?
  | H : negb _ = true |- _ => apply negb_true_iff in H
  | H : negb _ = false |- _ => apply negb_false_iff in H
  | |- result_iff_success _ => progress cbn beta zeta
  end; auto with es.

Section results.
Context {PB : Protobuf} (ec : error_code) (view : tcp_package_view).

Lemma append_result : result_iff_success (append_handler ec view).
Proof. unfold append_handler. walk_handler. Qed.
Lemma conditional_append_result : result_iff_success (conditional_append_handler ec view).
Proof. unfold conditional_append_handler. walk_handler. Qed.
Lemma delete_result : result_iff_success (delete_handler ec view).
Proof. unfold delete_handler. walk_handler. Qed.
Lemma start_transaction_result : result_iff_success (start_transaction_handler ec view).
Proof. unfold start_transaction_handler. walk_handler. Qed.
Lemma commit_transaction_result : result_iff_success (commit_transaction_handler ec view).
Proof. unfold commit_transaction_handler. walk_handler. Qed.
Lemma read_stream_event_result stream n : result_iff_success (read_stream_event_handler stream n ec view).
Proof. unfold read_stream_event_handler. walk_handler. Qed.
Lemma read_stream_events_result stream from dir : result_iff_success (read_stream_events_handler stream from dir ec view).
Proof. unfold read_stream_events_handler. walk_handler. Qed.
Lemma read_all_events_result dir : result_iff_success (read_all_events_handler dir ec view).
Proof. unfold read_all_events_handler. walk_handler. Qed.
Lemma get_stream_metadata_result stream : result_iff_success (get_stream_metadata_handler stream ec view).
Proof.
  unfold get_stream_metadata_handler, stream_metadata_lambda.
  apply result_iff_success_bind. intros [[ec' res]|] Hc; [|auto with es].
  apply read_stream_event_result in Hc. destruct (failed ec') eqn:Hf; simpl negb; walk_handler; congruence.
Qed.
End results.
#[export] Hint Resolve append_result conditional_append_result delete_result start_transaction_result
  commit_transaction_result read_stream_event_result read_stream_events_result read_all_events_result
  get_stream_metadata_result : es.

(** C26: Whenever an operation calls the user's handler, it gives it a result
    exactly when the error code is success, for every operation with a
    result. *)
Theorem handlers_result_iff_success {PB : Protobuf} ec view :
  result_iff_success (append_handler ec view) ∧
  result_iff_success (conditional_append_handler ec view) ∧
  result_iff_success (delete_handler ec view) ∧
  result_iff_success (start_transaction_handler ec view) ∧
  result_iff_success (commit_transaction_handler ec view) ∧
  (∀ stream n, result_iff_success (read_stream_event_handler stream n ec view)) ∧
  (∀ stream from dir, result_iff_success (read_stream_events_handler stream from dir ec view)) ∧
  (∀ dir, result_iff_success (read_all_events_handler dir ec view)) ∧
  (∀ stream, result_iff_success (get_stream_metadata_handler stream ec view)).
Proof. split_and!; auto with es. Qed.

(** What the write operations do with each result code of the server. *)
Inductive write_verdict : Type := verdict_success | verdict_silent | verdict_error (ec : error_code).

Definition write_verdict_of (on_wrong_version : error_code) (r : OperationResult) : write_verdict :=
  match r with
  | Success => verdict_success
  | PrepareTimeout | ForwardTimeout | CommitTimeout => verdict_silent
  | WrongExpectedVersion => verdict_error on_wrong_version
  | StreamDeleted => verdict_error (make_error_code stream_deleted)
  | InvalidTransaction => verdict_error (make_error_code invalid_transaction)
  | AccessDenied => verdict_error (make_error_code stream_access_denied)
  end.

Definition write_call (v : write_verdict) (last : Z) (prepare commit : option Z) :
    option (error_code * option write_result) :=
  match v with
  | verdict_success => Some (success, Some (mk_write_result last (result_position prepare commit)))
  | verdict_silent => None
  | verdict_error ec => Some (ec, None)
  end.

(** C25: A completed write (append, conditional append, transaction commit): on
    Success the handler gets the last event number, and a log position whose
    commit component is the prepare position of the response and conversely
    (-1 when absent); the three timeout codes return without calling the
    handler at all; every other code gives its own error, the conditional
    append differing only in reporting version_mismatch. *)
Theorem write_completed_cases {PB : Protobuf} view bs (Hbs : message_bytes view = Ret bs) :
  (command view = Ret Command.write_events_completed →
   let m : WriteEventsCompleted := ParseFromArray bs in
   append_handler success view =
     Ret (write_call (write_verdict_of (make_error_code wrong_expected_version) (wec_result m))
       (wec_last_event_number m) (wec_prepare_position m) (wec_commit_position m)) ∧
   conditional_append_handler success view =
     Ret (write_call (write_verdict_of (make_error_code version_mismatch) (wec_result m))
       (wec_last_event_number m) (wec_prepare_position m) (wec_commit_position m))) ∧
  (command view = Ret Command.transaction_commit_completed →
   let m : TransactionCommitCompleted := ParseFromArray bs in
   commit_transaction_handler success view =
     Ret (write_call (write_verdict_of (make_error_code wrong_expected_version) (tcc_result m))
       (tcc_last_event_number m) (tcc_prepare_position m) (tcc_commit_position m))) ∧
  (∀ last prepare commit r, write_call verdict_success last prepare commit = Some (success, Some r) →
     commit_position (log_position r) = default (-1) prepare ∧
     prepare_position (log_position r) = default (-1) commit).
Proof.
  split_and!.
  - intros Hc m. unfold append_handler, conditional_append_handler.
    rewrite check_command_expected by done. cbn [mbind outcome_bind]. rewrite failed_success.
    rewrite (parse_view_ok _ _ Hbs). cbn [mbind outcome_bind]. fold m.
    destruct (wec_result m); done.
  - intros Hc m. unfold commit_transaction_handler.
    rewrite check_command_expected by done. cbn [mbind outcome_bind]. rewrite failed_success.
    rewrite (parse_view_ok _ _ Hbs). cbn [mbind outcome_bind]. fold m.
    destruct (tcc_result m); done.
  - intros last prepare commit r. cbn. by intros [= <-].
Qed.

(** A response package with command [cmd] and a one-byte message. *)
Definition sample_response (cmd : tcp_command) (b : byte) : tcp_package_view :=
  mk_view (Some (plain_frame cmd flags_none (replicate 16 x05) [b])) 19.

Lemma write_completed_cases_witness :
  let view := sample_response Command.write_events_completed x00 in
  message_bytes view = Ret [x00] ∧
  append_handler (PB := sample_protobuf) success view =
    Ret (Some (success, Some (mk_write_result 4 (mk_position 10 20)))).
Proof.
  intros view. split; [reflexivity|].
  exact (proj1 (proj1 (write_completed_cases (PB := sample_protobuf) view [x00] eq_refl) eq_refl)).
Defined.

(** The same timeout codes are reported as success by the other writes:
    deleting a stream, starting a transaction and a transactional write call
    the handler with no error (and a result) when the server answered that the
    prepare, commit or forward phase timed out. *)
Theorem timeouts_reported_as_success {PB : Protobuf} view bs r (Hbs : message_bytes view = Ret bs)
    (Hr : r = PrepareTimeout ∨ r = CommitTimeout ∨ r = ForwardTimeout) :
  (command view = Ret Command.delete_stream_completed →
   dsc_result (ParseFromArray bs) = r →
   ∃ res, delete_handler success view = Ret (Some (success, Some res))) ∧
  (command view = Ret Command.transaction_start_completed →
   tsc_result (ParseFromArray bs) = r →
   start_transaction_handler success view =
     Ret (Some (success, Some (tsc_transaction_id (ParseFromArray bs))))) ∧
  (command view = Ret Command.transaction_write_completed →
   twc_result (ParseFromArray bs) = r →
   transactional_write_handler success view = Ret (Some success)).
Proof.
  split_and!; intros Hc Hres;
    unfold delete_handler, start_transaction_handler, transactional_write_handler;
    rewrite check_command_expected by done; cbn [mbind outcome_bind]; rewrite failed_success;
    rewrite (parse_view_ok _ _ Hbs); cbn [mbind outcome_bind]; rewrite Hres;
    destruct Hr as [-> | [-> | ->]]; simpl; eauto.
Qed.

Lemma timeouts_reported_as_success_witness :
  let view := sample_response Command.transaction_write_completed x01 in
  message_bytes view = Ret [x01] ∧
  transactional_write_handler (PB := sample_protobuf) success view = Ret (Some success).
Proof.
  intros view. split; [reflexivity|].
  exact (proj2 (proj2 (timeouts_reported_as_success (PB := sample_protobuf) view [x01] PrepareTimeout eq_refl
    (or_introl eq_refl))) eq_refl eq_refl).
Defined.
