(* ===== verification/OperationsMap.v ===== *)
(** The map from correlation ids to type-erased operations
    (include/operations_map.hpp), used for the pending requests and for the
    subscriptions of a connection. *)
From S2P Require Import Prelude Basics.

(** [Operation] is the closure stored; the hash map's order is never used. *)
Abbreviation operations_map Operation := (gmap guid_type Operation).

Section operations_map.
Context {Operation : Type}.
Implicit Types (m : operations_map Operation) (key : guid_type) (op : Operation).

(** [operations_.emplace(...)]: does nothing when the key is present. *)
Definition register_op key op m : operations_map Operation :=
  match m !! key with Some _ => m | None => <[key := op]> m end.

Definition contains m key : bool :=
  match m !! key with Some _ => true | None => false end.

(** [operations_.at(key)] *)
Definition at_key m key : outcome Operation :=
  match m !! key with Some op => Ret op | None => Throw std_out_of_range end.

Definition erase key m : operations_map Operation := delete key m.

Lemma contains_true m key : contains m key = true ↔ is_Some (m !! key).
Proof. unfold contains. destruct (m !! key); split; done. Qed.
Lemma contains_false m key : contains m key = false ↔ m !! key = None.
Proof. unfold contains. destruct (m !! key); split; done. Qed.

Lemma register_op_absent m key op : m !! key = None → register_op key op m = <[key := op]> m.
Proof. unfold register_op. by intros ->. Qed.
Lemma register_op_present m key op op' : m !! key = Some op' → register_op key op m = m.
Proof. unfold register_op. by intros ->. Qed.
Lemma lookup_register_op m key op :
  register_op key op m !! key = Some (default op (m !! key)).
Proof. unfold register_op. destruct (m !! key) eqn:E; [done|by rewrite lookup_insert_eq]. Qed.
Lemma lookup_register_op_ne m key key' op :
  key ≠ key' → register_op key op m !! key' = m !! key'.
Proof. intros. unfold register_op. destruct (m !! key); [done|by rewrite lookup_insert_ne]. Qed.
Lemma erase_register_op m key op : m !! key = None → erase key (register_op key op m) = m.
Proof. intros H. rewrite register_op_absent by done. by apply delete_insert_id. Qed.
End operations_map.

(** The map behaves as a map whose registration never replaces: after
    registering an operation under a key, the key gives the operation that was
    there before if there was one and the new one otherwise, every other key
    is unaffected; after erasing, at() on the key throws and on every other
    key is unaffected. *)
Theorem operations_map_laws {Operation} (m : operations_map Operation) (key key' : guid_type) (op : Operation) :
  at_key (register_op key op m) key = Ret (default op (m !! key)) ∧
  (key ≠ key' → at_key (register_op key op m) key' = at_key m key') ∧
  (contains m key = true ↔ ∃ op', at_key m key = Ret op') ∧
  at_key (erase key m) key = Throw std_out_of_range ∧
  (key ≠ key' → at_key (erase key m) key' = at_key m key').
Proof.
  unfold at_key, erase. split_and!.
  - by rewrite lookup_register_op.
  - intros. by rewrite lookup_register_op_ne.
  - rewrite contains_true. destruct (m !! key); split; eauto; [by intros []|by intros [? [=]]].
  - by rewrite lookup_delete_eq.
  - intros. by rewrite lookup_delete_ne.
Qed.
