(* ===== verification/ErasedOperations.v ===== *)
(** The type-erased operation (class operation, include/operations_map.hpp):
    a pointer to a closure in memory of its own, and the map of such
    operations over that memory.  The map of closures of OperationsMap is its
    abstract specification. *)
From S2P Require Import Prelude Basics OperationsMap.

(** ** The allocator: an address that is not in use *)
Class Malloc := {
  malloc : gset nat → nat;
  malloc_fresh X : malloc X ∉ X
}.

Definition fresh_malloc : Malloc := {| malloc := fresh; malloc_fresh := is_fresh |}.

(** The size of the object [op<CompletionHandler>] of a closure. *)
Class OpSize (Handler : Type) := sizeof_op : Handler → nat.

(** ** operation: the pointer [op_], [None] when it is null *)
Abbreviation operation := (option nat).

Section operation.
Context {Handler : Type} {OS : OpSize Handler} {MA : Malloc}.

(** ** Memory

    Each block has the size it was allocated with and the closure constructed
    in it; [never_destroyed] are the closures whose block was released: the
    memory goes, and the closure's destructor does not run. *)
Record heap := mk_heap {
  blocks : gmap nat (nat * Handler);
  never_destroyed : list Handler
}.

(** operation(CompletionHandler&&) *)
Definition make_operation (token : Handler) (hp : heap) : operation * heap :=
  let a := malloc (dom (blocks hp)) in
  (Some a, mk_heap (<[a := (sizeof_op token, token)]> (blocks hp)) (never_destroyed hp)).

(** operation(operation&&): the new operation, and what is left of the other. *)
Definition move_operation (other : operation) : operation * operation := (other, None).

(** operator(): the closure that runs. *)
Definition call_operation (op : operation) (hp : heap) : outcome Handler :=
  match op with
  | None => Undef null_dereference
  | Some a => match blocks hp !! a with Some (_, token) => Ret token | None => Undef dangling_reference end
  end.

(** ~operation(): the block is given back with the size of its object, which
    the allocator requires to be the size it was allocated with. *)
Definition destroy_operation (op : operation) (hp : heap) : outcome heap :=
  match op with
  | None => Ret hp
  | Some a =>
      match blocks hp !! a with
      | None => Undef dangling_reference
      | Some (size, token) =>
          if decide (size = sizeof_op token)
          then Ret (mk_heap (delete a (blocks hp)) (never_destroyed hp ++ [token]))
          else Undef bad_deallocation
      end
  end.

(** ** operations_map over this memory *)
Record erased_map := mk_erased_map { operations_ : gmap guid_type operation; memory : heap }.

(** operations_map(...) *)
Definition new_erased_map : erased_map := mk_erased_map ∅ (mk_heap ∅ []).

(** [register_op(key, token)]: the closure is converted to an operation, which
    is moved into a pair, which is moved into a node of the hash map.  Whether
    emplace makes the node before it looks for the key ([eager]) is up to the
    standard library. *)
Definition register_token (eager : bool) (key : guid_type) (token : Handler) (s : erased_map) : outcome erased_map :=
  let '(op, hp) := make_operation token (memory s) in
  let '(entry, op) := move_operation op in
  '(m, entry, hp) ← match operations_ s !! key with
                   | None => let '(node, entry) := move_operation entry in
                             Ret (<[key := node]> (operations_ s), entry, hp)
                   | Some _ =>
                       if eager then
                         let '(node, entry) := move_operation entry in
                         hp ← destroy_operation node hp;
                         Ret (operations_ s, entry, hp)
                       else Ret (operations_ s, entry, hp)
                   end;
  hp ← destroy_operation entry hp;
  hp ← destroy_operation op hp;
  Ret (mk_erased_map m hp).

(** [operations_.find(key) != operations_.cend()] *)
Definition contains_token (s : erased_map) (key : guid_type) : bool :=
  match operations_ s !! key with Some _ => true | None => false end.

(** [map[key](ec, view)]: the closure that runs. *)
Definition call_token (key : guid_type) (s : erased_map) : outcome Handler :=
  match operations_ s !! key with
  | Some op => call_operation op (memory s)
  | None => Throw std_out_of_range
  end.

Definition erase_token (key : guid_type) (s : erased_map) : outcome erased_map :=
  match operations_ s !! key with
  | Some op =>
      hp ← destroy_operation op (memory s);
      Ret (mk_erased_map (delete key (operations_ s)) hp)
  | None => Ret s
  end.

(** ~operations_map(): every node is destroyed. *)
Fixpoint destroy_all (ops : list operation) (hp : heap) : outcome heap :=
  match ops with
  | [] => Ret hp
  | op :: ops => hp ← destroy_operation op hp; destroy_all ops hp
  end.

Definition destroy_map (s : erased_map) : outcome heap :=
  destroy_all (snd <$> map_to_list (operations_ s)) (memory s).
End operation.
Arguments heap : clear implicits.
Arguments erased_map : clear implicits.

(** ** What owns what

    [owns s m]: the nodes of the map hold the closures of [m], each in a
    block of its own, and there is no other block. *)
Section ownership.
Context {Handler : Type} {OS : OpSize Handler} {MA : Malloc}.
Implicit Types (s : erased_map Handler) (m : operations_map Handler) (hp : heap Handler).

Definition node_holds (hp : heap Handler) (node : option operation) (token : option Handler) : Prop :=
  match node, token with
  | None, None => True
  | Some (Some a), Some token => blocks hp !! a = Some (sizeof_op token, token)
  | _, _ => False
  end.

Record owns s m : Prop := {
  own_nodes key : node_holds (memory s) (operations_ s !! key) (m !! key);
  own_once key key' a :
    operations_ s !! key = Some (Some a) → operations_ s !! key' = Some (Some a) → key = key';
  own_blocks a : is_Some (blocks (memory s) !! a) → ∃ key, operations_ s !! key = Some (Some a)
}.

Lemma owns_new : owns new_erased_map ∅.
Proof.
  split; simpl; [|intros ???; by rewrite lookup_empty|intros a; rewrite lookup_empty; by intros []].
  intros key. by rewrite !lookup_empty.
Qed.

Lemma owns_lookup s m key token :
  owns s m → m !! key = Some token →
  ∃ a, operations_ s !! key = Some (Some a) ∧ blocks (memory s) !! a = Some (sizeof_op token, token).
Proof.
  intros Ho Hm. pose proof (own_nodes _ _ Ho key) as Hn. rewrite Hm in Hn.
  destruct (operations_ s !! key) as [[a|]|]; try done. eauto.
Qed.

Lemma owns_lookup_None s m key : owns s m → m !! key = None → operations_ s !! key = None.
Proof.
  intros Ho Hm. pose proof (own_nodes _ _ Ho key) as Hn. rewrite Hm in Hn.
  by destruct (operations_ s !! key) as [[]|].
Qed.

Lemma malloc_lookup hp : blocks hp !! malloc (dom (blocks hp)) = None.
Proof. apply not_elem_of_dom, malloc_fresh. Qed.

Lemma destroy_block hp a token :
  blocks hp !! a = Some (sizeof_op token, token) →
  destroy_operation (Some a) hp = Ret (mk_heap (delete a (blocks hp)) (never_destroyed hp ++ [token])).
Proof. intros Ha. simpl. by rewrite Ha, decide_True. Qed.

(** Registering under a key in use loses the new closure and nothing else. *)
Lemma register_present eager s m key token old :
  owns s m → m !! key = Some old →
  ∃ s', register_token eager key token s = Ret s' ∧ owns s' m ∧
    never_destroyed (memory s') = never_destroyed (memory s) ++ [token].
Proof.
  intros Ho Hm. destruct (owns_lookup _ _ _ _ Ho Hm) as (a & Hop & Ha).
  set (new := malloc (dom (blocks (memory s)))).
  exists (mk_erased_map (operations_ s) (mk_heap (blocks (memory s)) (never_destroyed (memory s) ++ [token]))).
  assert (destroy_operation (Some new)
    (mk_heap (<[new := (sizeof_op token, token)]> (blocks (memory s))) (never_destroyed (memory s))) =
    Ret (mk_heap (blocks (memory s)) (never_destroyed (memory s) ++ [token]))) as Hd.
  { rewrite (destroy_block _ _ token) by apply lookup_insert_eq. simpl. by rewrite delete_insert_id by apply malloc_lookup. }
  split; [|split; [|done]].
  - unfold register_token, make_operation, move_operation. fold new. rewrite Hop.
    destruct eager; cbn [mbind outcome_bind]; rewrite Hd; by cbn.
  - split; apply Ho.
Qed.

Lemma register_absent eager s m key token :
  owns s m → m !! key = None →
  ∃ s', register_token eager key token s = Ret s' ∧ owns s' (<[key := token]> m) ∧
    never_destroyed (memory s') = never_destroyed (memory s).
Proof.
  intros Ho Hm. pose proof (owns_lookup_None _ _ _ Ho Hm) as Hop.
  pose proof (malloc_lookup (memory s)) as Hnew. set (new := malloc (dom (blocks (memory s)))) in *.
  exists (mk_erased_map (<[key := Some new]> (operations_ s))
    (mk_heap (<[new := (sizeof_op token, token)]> (blocks (memory s))) (never_destroyed (memory s)))).
  assert (∀ k a, operations_ s !! k = Some (Some a) → a ≠ new) as Hne.
  { intros k a Hk ->. pose proof (own_nodes _ _ Ho k) as Hn. rewrite Hk in Hn. simpl in Hn.
    destruct (m !! k); [congruence|done]. }
  split; [|split; [split|done]]; simpl.
  - unfold register_token, make_operation, move_operation. fold new. by rewrite Hop.
  - intros k. destruct (decide (k = key)) as [->|Hk]; [rewrite !lookup_insert_eq; apply lookup_insert_eq|].
    rewrite !lookup_insert_ne by done. pose proof (own_nodes _ _ Ho k) as Hn.
    destruct (operations_ s !! k) as [[a|]|] eqn:E; simpl in *; try done.
    destruct (m !! k); [|done]. rewrite lookup_insert_ne; [done|]. by apply not_eq_sym, (Hne k).
  - intros k k' a. rewrite !lookup_insert_Some. intros [[<- [= <-]]|[? Hk]] [[<- E]|[? Hk']]; try done.
    + by apply Hne in Hk'.
    + injection E as ->. by apply Hne in Hk.
    + by eapply (own_once _ _ Ho).
  - intros a. rewrite lookup_insert_is_Some. intros [<-|[? Ha]].
    + exists key. apply lookup_insert_eq.
    + destruct (own_blocks _ _ Ho a Ha) as [k Hk]. exists k. rewrite lookup_insert_ne; [done|]. by intros <-; congruence.
Qed.

Lemma erase_present s m key token :
  owns s m → m !! key = Some token →
  ∃ s', erase_token key s = Ret s' ∧ owns s' (delete key m) ∧
    never_destroyed (memory s') = never_destroyed (memory s) ++ [token].
Proof.
  intros Ho Hm. destruct (owns_lookup _ _ _ _ Ho Hm) as (a & Hop & Ha).
  exists (mk_erased_map (delete key (operations_ s))
    (mk_heap (delete a (blocks (memory s))) (never_destroyed (memory s) ++ [token]))).
  split; [|split; [split|done]]; simpl.
  - unfold erase_token. rewrite Hop, (destroy_block _ _ token) by done. done.
  - intros k. destruct (decide (k = key)) as [->|Hk]; [by rewrite !lookup_delete_eq|].
    rewrite !lookup_delete_ne by done. pose proof (own_nodes _ _ Ho k) as Hn.
    destruct (operations_ s !! k) as [[a'|]|] eqn:E; simpl in *; try done.
    destruct (m !! k); [|done]. rewrite lookup_delete_ne; [done|]. intros <-. apply Hk.
    by eapply (own_once _ _ Ho).
  - intros k k' b. rewrite !lookup_delete_Some. intros [_ ?] [_ ?]. by eapply (own_once _ _ Ho).
  - intros b. rewrite lookup_delete_is_Some. intros [Hb Hs]. destruct (own_blocks _ _ Ho b Hs) as [k Hk].
    exists k. rewrite lookup_delete_ne; [done|]. intros <-. congruence.
Qed.
End ownership.

(** ** Sequences of operations on the map *)
Inductive map_op (Handler : Type) : Type :=
| op_register (key : guid_type) (token : Handler)
| op_contains (key : guid_type)
| op_call (key : guid_type)
| op_erase (key : guid_type).
Arguments op_register {Handler} _ _.
Arguments op_contains {Handler} _.
Arguments op_call {Handler} _.
Arguments op_erase {Handler} _.

(** What an operation on the map shows its caller. *)
Inductive seen (Handler : Type) : Type :=
| done_
| found (b : bool)
| called (token : Handler).
Arguments done_ {Handler}.
Arguments found {Handler} _.
Arguments called {Handler} _.

Section sequences.
Context {Handler : Type} {OS : OpSize Handler} {MA : Malloc} (eager : bool).

Definition erased_step (o : map_op Handler) (s : erased_map Handler) : outcome (seen Handler * erased_map Handler) :=
  match o with
  | op_register key token => s ← register_token eager key token s; Ret (done_, s)
  | op_contains key => Ret (found (contains_token s key), s)
  | op_call key => token ← call_token key s; Ret (called token, s)
  | op_erase key => s ← erase_token key s; Ret (done_, s)
  end.

(** The same on the map of closures, with the closures that it drops. *)
Definition abstract_step (o : map_op Handler) (st : operations_map Handler * list Handler) :
    outcome (seen Handler * (operations_map Handler * list Handler)) :=
  let '(m, dropped) := st in
  match o with
  | op_register key token =>
      Ret (done_, (register_op key token m, if contains m key then dropped ++ [token] else dropped))
  | op_contains key => Ret (found (contains m key), st)
  | op_call key => token ← at_key m key; Ret (called token, st)
  | op_erase key =>
      Ret (done_, (erase key m, dropped ++ match m !! key with Some token => [token] | None => [] end))
  end.

Fixpoint run_ops {S} (step : map_op Handler → S → outcome (seen Handler * S)) (os : list (map_op Handler)) (s : S) :
    outcome (list (seen Handler) * S) :=
  match os with
  | [] => Ret ([], s)
  | o :: os =>
      '(r, s) ← step o s;
      '(rs, s) ← run_ops step os s;
      Ret (r :: rs, s)
  end.

Definition tracks (s : erased_map Handler) (st : operations_map Handler * list Handler) : Prop :=
  owns s st.1 ∧ never_destroyed (memory s) = st.2.

Lemma step_tracks o s st : tracks s st →
  match abstract_step o st with
  | Ret (r, st') => ∃ s', erased_step o s = Ret (r, s') ∧ tracks s' st'
  | Throw e => erased_step o s = Throw e
  | Undef _ => False
  end.
Proof.
  destruct st as [m dropped]. intros [Ho Hd]. simpl in Ho, Hd. subst dropped.
  destruct o as [key token|key|key|key]; simpl; unfold contains, at_key, contains_token, call_token, erase, register_op;
    destruct (m !! key) as [old|] eqn:Hm; simpl.
  - destruct (register_present eager _ _ _ token _ Ho Hm) as (s' & -> & Ho' & Hd'). by exists s'.
  - destruct (register_absent eager _ _ _ token Ho Hm) as (s' & -> & Ho' & Hd'). by exists s'.
  - destruct (owns_lookup _ _ _ _ Ho Hm) as (a & -> & _). by exists s.
  - rewrite (owns_lookup_None _ _ _ Ho Hm). by exists s.
  - destruct (owns_lookup _ _ _ _ Ho Hm) as (a & -> & Ha). simpl. rewrite Ha. by exists s.
  - by rewrite (owns_lookup_None _ _ _ Ho Hm).
  - destruct (erase_present _ _ _ _ Ho Hm) as (s' & -> & Ho' & Hd'). by exists s'.
  - unfold erase_token. rewrite (owns_lookup_None _ _ _ Ho Hm). exists s. split; [done|].
    rewrite app_nil_r, delete_id by done. by split.
Qed.

Lemma run_tracks os s st : tracks s st →
  match run_ops abstract_step os st with
  | Ret (rs, st') => ∃ s', run_ops erased_step os s = Ret (rs, s') ∧ tracks s' st'
  | Throw e => run_ops erased_step os s = Throw e
  | Undef _ => False
  end.
Proof.
  revert s st. induction os as [|o os IH]; intros s st Ht; cbn [run_ops]; [by exists s|].
  pose proof (step_tracks o s st Ht) as Hs. destruct (abstract_step o st) as [[r st']|e|]; [|by rewrite Hs|done].
  destruct Hs as (s' & -> & Ht'). cbn [mbind outcome_bind]. specialize (IH s' st' Ht').
  destruct (run_ops abstract_step os st') as [[rs st'']|e|]; [|by rewrite IH|done].
  destruct IH as (s'' & -> & Ht''). by exists s''.
Qed.

(** *** The end of the map *)
Definition token_at (hp : heap Handler) (op : operation) : option Handler :=
  a ← op; snd <$> blocks hp !! a.

Lemma destroy_all_run ops hp :
  NoDup ops →
  Forall (λ op, ∃ a token, op = Some a ∧ blocks hp !! a = Some (sizeof_op token, token)) ops →
  ∃ hp', destroy_all ops hp = Ret hp' ∧
    never_destroyed hp' = never_destroyed hp ++ omap (token_at hp) ops ∧
    (∀ a, blocks hp' !! a = if decide (Some a ∈ ops) then None else blocks hp !! a).
Proof.
  revert hp. induction ops as [|op ops IH]; intros hp Hnd Hall.
  { exists hp. split_and!; [done|by rewrite app_nil_r|]. intros a. by rewrite decide_False by apply not_elem_of_nil. }
  apply NoDup_cons in Hnd as [Hnot Hnd]. apply Forall_cons in Hall as [(a & token & -> & Ha) Hall].
  cbn [destroy_all]. rewrite (destroy_block _ _ token) by done. cbn [mbind outcome_bind].
  set (hp1 := mk_heap (delete a (blocks hp)) (never_destroyed hp ++ [token])).
  assert (∀ b, Some b ∈ ops → blocks hp1 !! b = blocks hp !! b) as Hsame.
  { intros b Hb. simpl. apply lookup_delete_ne. by intros ->. }
  destruct (IH hp1 Hnd) as (hp' & -> & Hd & Hb).
  { apply Forall_forall. intros op Hop. destruct (proj1 (Forall_forall _ _) Hall op Hop) as (b & t & -> & Hb).
    exists b, t. by rewrite Hsame. }
  exists hp'. split_and!; [done| |].
  - assert (omap (token_at hp1) ops = omap (token_at hp) ops) as Ho.
    { apply omap_same. intros [b|] Hop; [|done]. unfold token_at. simpl. by rewrite Hsame. }
    assert (token_at hp (Some a) = Some token) as Ht by (simpl; by rewrite Ha).
    rewrite Hd, Ho, omap_cons, Ht. unfold hp1. cbn [never_destroyed]. by rewrite <- app_assoc.
  - intros b. rewrite Hb. unfold hp1. cbn [blocks]. destruct (decide (Some b ∈ ops)) as [Hin|Hin].
    + by rewrite decide_True by by right.
    + destruct (decide (b = a)) as [->|Hne]; [by rewrite lookup_delete_eq, decide_True by left|].
      rewrite lookup_delete_ne by done. rewrite decide_False; [done|]. by intros [[= <-]|?]%elem_of_cons.
Qed.

Lemma destroy_map_run s m : owns s m →
  ∃ hp dropped, destroy_map s = Ret hp ∧ blocks hp = ∅ ∧
    never_destroyed hp = never_destroyed (memory s) ++ dropped ∧
    length dropped = size m ∧ (∀ key token, m !! key = Some token → token ∈ dropped).
Proof.
  intros Ho. set (ops := snd <$> map_to_list (operations_ s)).
  assert (∀ op, op ∈ ops → ∃ key, operations_ s !! key = Some op) as Hin.
  { intros op Hop. apply list_elem_of_fmap in Hop as ([key op'] & -> & Hk%elem_of_map_to_list). by exists key. }
  assert (∀ op, op ∈ ops → ∃ a token, op = Some a ∧ blocks (memory s) !! a = Some (sizeof_op token, token)) as Hall.
  { intros op Hop. destruct (Hin op Hop) as [key Hk]. pose proof (own_nodes _ _ Ho key) as Hn. rewrite Hk in Hn.
    destruct op as [a|]; [|done]. simpl in Hn. destruct (m !! key); [eauto|done]. }
  destruct (destroy_all_run ops (memory s)) as (hp & Hrun & Hd & Hb); [|by apply Forall_forall|].
  { apply NoDup_fmap_2_strong; [|apply NoDup_map_to_list].
    intros [k op] [k' op'] Hk%elem_of_map_to_list Hk'%elem_of_map_to_list E. simpl in E. subst op'.
    destruct (Hall op) as (a & _ & -> & _); [|by rewrite (own_once _ _ Ho _ _ _ Hk Hk')].
    apply list_elem_of_fmap. exists (k, op). split; [done|]. by apply elem_of_map_to_list. }
  exists hp, (omap (token_at (memory s)) ops). split_and!; [done| |done| |].
  - apply map_empty. intros a. rewrite Hb. case_decide as Hop; [done|].
    destruct (blocks (memory s) !! a) eqn:E; [|done]. exfalso. apply Hop.
    destruct (own_blocks _ _ Ho a) as [key Hk]; [by eexists|]. apply list_elem_of_fmap. exists (key, Some a).
    split; [done|]. by apply elem_of_map_to_list.
  - rewrite length_omap_all by (intros op (a & token & -> & Ha)%Hall; simpl; rewrite Ha; by eexists).
    unfold ops. rewrite length_fmap, length_map_to_list, <- !size_dom. f_equal. apply set_eq. intros key.
    rewrite !elem_of_dom. pose proof (own_nodes _ _ Ho key) as Hn.
    destruct (operations_ s !! key) as [[]|], (m !! key); simpl in Hn; try done; split; intros [? [=]]; by eexists.
  - intros key token Hm. destruct (owns_lookup _ _ _ _ Ho Hm) as (a & Hk & Ha). apply list_elem_of_omap. exists (Some a).
    split; [|simpl; by rewrite Ha]. apply list_elem_of_fmap. exists (key, Some a). split; [done|].
    by apply elem_of_map_to_list.
Qed.
End sequences.

(** C22: The map of type-erased operations implements the map of closures that
    the rest of the development uses, without an error of memory: for every
    sequence of registrations, look-ups, calls and erasures, whichever way
    the standard library's emplace works, what the callers see is what the map
    of closures shows them, out_of_range for a call under an absent key
    included; each closure of the map is in a block of its own and there are
    no other blocks; and the map's destructor gives every block back, with the
    size it was allocated with, once.  But no closure is ever destroyed: those
    erased, those refused because their key was in use, and those left at the
    end lose their memory without their destructor running, so what they
    captured is never released. *)
Theorem erased_map_refines {Handler : Type} {OS : OpSize Handler} {MA : Malloc} (eager : bool)
    (os : list (map_op Handler)) :
  match run_ops abstract_step os (∅, []) with
  | Ret (rs, (m, dropped)) =>
      ∃ s hp rest, run_ops (erased_step eager) os new_erased_map = Ret (rs, s) ∧ owns s m ∧
        never_destroyed (memory s) = dropped ∧
        destroy_map s = Ret hp ∧ blocks hp = ∅ ∧ never_destroyed hp = dropped ++ rest ∧
        length rest = size m ∧ (∀ key token, m !! key = Some token → token ∈ rest)
  | Throw e => run_ops (erased_step eager) os new_erased_map = Throw e
  | Undef _ => False
  end.
Proof.
  pose proof (run_tracks eager os new_erased_map (∅, []) (conj owns_new eq_refl)) as Hr.
  destruct (run_ops abstract_step os (∅, [])) as [[rs [m dropped]]|e|]; [|done|done].
  destruct Hr as (s & Hs & Ho & Hd). simpl in Ho, Hd.
  destruct (destroy_map_run s m Ho) as (hp & rest & Hm & Hb & Hn & Hl & Hall).
  exists s, hp, rest. rewrite Hn, Hd. by split_and!.
Qed.
