(* ===== verification/World.v ===== *)
(** The state the client keeps at run time and the computations over it.

    A closure of the source (a completion handler, a lambda put in a map or
    posted) is a value of one of the inductive types below: its constructor
    says which lambda it is, its arguments are what the lambda captured.
    User handlers and subscription objects are numbers (their addresses).

    Boost.Asio's part of the state is the queue of posted function objects,
    the operations still running, and the timers; it is only changed the way
    Asio documents: a posted function object runs later, a wait completes
    with success after its expiry or with operation_aborted when it is
    cancelled before its completion was queued. *)
From S2P Require Import Prelude Errors Basics BufferQueue TcpPackage Messages Events Settings.
From S2P Require Import OperationsMap.

(** ** Calls of user handlers *)
Inductive callback : Type :=
| cb_error (ec : error_code)
| cb_reason (r : error_code * string)
| cb_write (r : error_code * option write_result)
| cb_delete (r : error_code * option delete_stream_result)
| cb_transaction (r : error_code * option Z)
| cb_event_read (r : error_code * option event_read_result)
| cb_stream_slice (r : error_code * option stream_events_slice)
| cb_all_slice (r : error_code * option all_events_slice)
| cb_metadata (r : error_code * option stream_metadata_result_raw)
| cb_connection (r : error_code * option connection_result)
| cb_event (e : resolved_event)
| cb_persistent_event (e : resolved_event) (retry_count : Z)
| cb_dropped (ec : error_code) (sub : nat).

(** ** Closures *)

(** Who consumes the result of a slice read: the user, or the lambdas of
    catchup_subscription and catchup_all_subscription. The historical lambda
    owns copies of the handlers; the other refers to the handlers stored in
    the closure of one registration. *)
Inductive slice_reader : Type :=
| slice_to_user (cb : nat)
| slice_to_historical (sub event_appeared dropped : nat)
| slice_to_missed (registration sub event_appeared dropped : nat) (count : Z).

(** The PackageReceivedHandler given to async_send. *)
Inductive response_handler : Type :=
| on_append (cb : nat)
| on_conditional_append (cb : nat)
| on_delete (cb : nat)
| on_start_transaction (cb : nat)
| on_transactional_write (cb : nat)
| on_commit_transaction (cb : nat)
| on_read_stream_event (stream : string) (event_number : Z) (cb : nat)
| on_read_stream_events (stream : string) (from : Z) (dir : read_direction) (reader : slice_reader)
| on_read_all_events (dir : read_direction) (reader : slice_reader)
| on_get_stream_metadata (stream : string) (cb : nat)
| on_create_persistent (cb : nat)
| on_update_persistent (cb : nat)
| on_delete_persistent (cb : nat)
| on_unsubscribe (sub : nat) (ec : error_code) (dropped : nat).

(** A closure in the operations map, with the timer it captured. The handler
    of authentication and identification is the user's connection handler,
    [None] once it has been moved from. *)
Inductive operation_closure : Type :=
| op_response (h : response_handler) (deadline : nat)
| op_authentication (handler : option nat) (deadline : nat)
| op_identification (handler : option nat) (deadline : nat) (authenticated : bool) (corr_id : guid_type).

(** The closure of subscription_base::async_start: [this] and the handlers.
    The number of the registration tells it from the closures registered before
    and after it under the same key. *)
Record subscription_closure : Type := mk_subscription_closure {
  sc_stamp : nat;
  sc_this : nat;
  sc_event_appeared : nat;
  sc_dropped : nat
}.

(** An operation object moved into its timer's wait. *)
Inductive waiter : Type :=
| wait_operation (key : guid_type)
| wait_heartbeat (info : heartbeat_info)
| wait_authenticate (info : authentication_info)
| wait_identify (info : identity_info) (reconnections : Z) (handler : option nat) (authenticated : bool).

(** A function object in the io_context's queue. *)
Inductive job : Type :=
| send_package (p : tcp_package)
| drop_subscription (sub : nat) (ec : error_code) (dropped : nat)
| read_buffered (registration sub event_appeared : nat)
| call_handler (cb : nat) (c : callback)
| wait_completed (w : waiter) (timer : nat) (ec : error_code).

(** An operation the io_context is running (writes are counted apart). *)
Inductive async_op : Type :=
| async_receive
| async_discover (handler : nat)
| async_socket_connect (e : endpoint) (handler : nat).

Record timer : Type := mk_timer {
  expiry : Z;              (* the duration given to expires_after *)
  waiting : option waiter  (* the wait in progress *)
}.

(** ** Subscription objects *)

Definition event_queue : Type := BufferQueue.buffer_queue resolved_event.
#[global] Instance event_queue_ops : QueueOps resolved_event event_queue := BufferQueue.buffer_queue_ops 25.
#[global] Instance event_queue_laws : QueueLaws resolved_event event_queue.
Proof. apply BufferQueue.buffer_queue_laws; lia. Defined.

(** What the derived classes add. *)
Inductive subscription_kind : Type :=
| volatile (resolve_link_tos : bool)
| persistent (group_name subscription_id : string) (allowed_in_flight : Z) (auto_ack : bool)
| catchup (current_event_number : Z) (s : catchup_subscription_settings) (buffer : event_queue)
| catchup_all (current_position : position) (s : catchup_subscription_settings) (buffer : event_queue)
    (position_to_catch_up_to : position).

Record subscription : Type := mk_subscription {
  key_ : guid_type;
  stream_ : string;
  last_event_number_ : option Z;
  last_commit_position_ : option Z;
  subscribed_ : bool;
  handle_guard_ : bool;
  kind_ : subscription_kind
}.

Definition set_last_event_number (n : Z) (s : subscription) : subscription :=
  mk_subscription (key_ s) (stream_ s) (Some n) (last_commit_position_ s) (subscribed_ s) (handle_guard_ s) (kind_ s).
Definition set_last_commit_position (n : Z) (s : subscription) : subscription :=
  mk_subscription (key_ s) (stream_ s) (last_event_number_ s) (Some n) (subscribed_ s) (handle_guard_ s) (kind_ s).
Definition set_is_subscribed (b : bool) (s : subscription) : subscription :=
  mk_subscription (key_ s) (stream_ s) (last_event_number_ s) (last_commit_position_ s) b (handle_guard_ s) (kind_ s).
Definition set_handle_guard (b : bool) (s : subscription) : subscription :=
  mk_subscription (key_ s) (stream_ s) (last_event_number_ s) (last_commit_position_ s) (subscribed_ s) b (kind_ s).
Definition set_kind (k : subscription_kind) (s : subscription) : subscription :=
  mk_subscription (key_ s) (stream_ s) (last_event_number_ s) (last_commit_position_ s) (subscribed_ s) (handle_guard_ s) k.

(** ** The world: the members of one basic_tcp_connection, and around it the
    io_context, the subscription objects, and what the environment sees *)
Record world : Type := mk_world {
  alive : bool;  (* the connection object has not been destroyed *)
  settings_ : connection_settings;
  connection_name_ : string;
  elapsed : Z;  (* clock_type::now() - start_ *)
  socket_open : bool;  (* socket_.is_open() *)
  message_queue_ : list tcp_package;
  package_no_ : Z;  (* unsigned int *)
  operations_map_ : operations_map operation_closure;
  subscriptions_map_ : operations_map subscription_closure;
  posted : list job;  (* the io_context's queue, oldest first *)
  pending : list async_op;  (* operations of the io_context still running *)
  writes : nat;  (* calls of async_write still running *)
  timers : list timer;  (* waitable timers, by the order of their creation *)
  objects : gmap nat subscription;  (* subscription objects, by address *)
  guids : nat;  (* how many guids es::guid() has generated *)
  wire : list tcp_package;  (* packages whose write was started, in order *)
  calls : list (nat * callback);  (* calls of the user's handlers, in order *)
  registrations : nat  (* how many registrations of subscriptions there have been *)
}.

Definition set_alive (x : bool) (w : world) : world :=
  mk_world x (settings_ w) (connection_name_ w) (elapsed w) (socket_open w) (message_queue_ w)
    (package_no_ w) (operations_map_ w) (subscriptions_map_ w) (posted w) (pending w) (writes w)
    (timers w) (objects w) (guids w) (wire w) (calls w) (registrations w).
Definition set_elapsed (x : Z) (w : world) : world :=
  mk_world (alive w) (settings_ w) (connection_name_ w) x (socket_open w) (message_queue_ w)
    (package_no_ w) (operations_map_ w) (subscriptions_map_ w) (posted w) (pending w) (writes w)
    (timers w) (objects w) (guids w) (wire w) (calls w) (registrations w).
Definition set_socket_open (x : bool) (w : world) : world :=
  mk_world (alive w) (settings_ w) (connection_name_ w) (elapsed w) x (message_queue_ w) (package_no_ w)
    (operations_map_ w) (subscriptions_map_ w) (posted w) (pending w) (writes w) (timers w) (objects w)
    (guids w) (wire w) (calls w) (registrations w).
Definition set_message_queue (x : list tcp_package) (w : world) : world :=
  mk_world (alive w) (settings_ w) (connection_name_ w) (elapsed w) (socket_open w) x (package_no_ w)
    (operations_map_ w) (subscriptions_map_ w) (posted w) (pending w) (writes w) (timers w) (objects w)
    (guids w) (wire w) (calls w) (registrations w).
Definition set_package_no (x : Z) (w : world) : world :=
  mk_world (alive w) (settings_ w) (connection_name_ w) (elapsed w) (socket_open w) (message_queue_ w) x
    (operations_map_ w) (subscriptions_map_ w) (posted w) (pending w) (writes w) (timers w) (objects w)
    (guids w) (wire w) (calls w) (registrations w).
Definition set_operations_map (x : operations_map operation_closure) (w : world) : world :=
  mk_world (alive w) (settings_ w) (connection_name_ w) (elapsed w) (socket_open w) (message_queue_ w)
    (package_no_ w) x (subscriptions_map_ w) (posted w) (pending w) (writes w) (timers w) (objects w)
    (guids w) (wire w) (calls w) (registrations w).
Definition set_subscriptions_map (x : operations_map subscription_closure) (w : world) : world :=
  mk_world (alive w) (settings_ w) (connection_name_ w) (elapsed w) (socket_open w) (message_queue_ w)
    (package_no_ w) (operations_map_ w) x (posted w) (pending w) (writes w) (timers w) (objects w)
    (guids w) (wire w) (calls w) (registrations w).
Definition set_posted (x : list job) (w : world) : world :=
  mk_world (alive w) (settings_ w) (connection_name_ w) (elapsed w) (socket_open w) (message_queue_ w)
    (package_no_ w) (operations_map_ w) (subscriptions_map_ w) x (pending w) (writes w) (timers w)
    (objects w) (guids w) (wire w) (calls w) (registrations w).
Definition set_pending (x : list async_op) (w : world) : world :=
  mk_world (alive w) (settings_ w) (connection_name_ w) (elapsed w) (socket_open w) (message_queue_ w)
    (package_no_ w) (operations_map_ w) (subscriptions_map_ w) (posted w) x (writes w) (timers w)
    (objects w) (guids w) (wire w) (calls w) (registrations w).
Definition set_writes (x : nat) (w : world) : world :=
  mk_world (alive w) (settings_ w) (connection_name_ w) (elapsed w) (socket_open w) (message_queue_ w)
    (package_no_ w) (operations_map_ w) (subscriptions_map_ w) (posted w) (pending w) x (timers w)
    (objects w) (guids w) (wire w) (calls w) (registrations w).
Definition set_timers (x : list timer) (w : world) : world :=
  mk_world (alive w) (settings_ w) (connection_name_ w) (elapsed w) (socket_open w) (message_queue_ w)
    (package_no_ w) (operations_map_ w) (subscriptions_map_ w) (posted w) (pending w) (writes w) x
    (objects w) (guids w) (wire w) (calls w) (registrations w).
Definition set_objects (x : gmap nat subscription) (w : world) : world :=
  mk_world (alive w) (settings_ w) (connection_name_ w) (elapsed w) (socket_open w) (message_queue_ w)
    (package_no_ w) (operations_map_ w) (subscriptions_map_ w) (posted w) (pending w) (writes w)
    (timers w) x (guids w) (wire w) (calls w) (registrations w).
Definition set_guids (x : nat) (w : world) : world :=
  mk_world (alive w) (settings_ w) (connection_name_ w) (elapsed w) (socket_open w) (message_queue_ w)
    (package_no_ w) (operations_map_ w) (subscriptions_map_ w) (posted w) (pending w) (writes w)
    (timers w) (objects w) x (wire w) (calls w) (registrations w).
Definition set_wire (x : list tcp_package) (w : world) : world :=
  mk_world (alive w) (settings_ w) (connection_name_ w) (elapsed w) (socket_open w) (message_queue_ w)
    (package_no_ w) (operations_map_ w) (subscriptions_map_ w) (posted w) (pending w) (writes w)
    (timers w) (objects w) (guids w) x (calls w) (registrations w).
Definition set_calls (x : list (nat * callback)) (w : world) : world :=
  mk_world (alive w) (settings_ w) (connection_name_ w) (elapsed w) (socket_open w) (message_queue_ w)
    (package_no_ w) (operations_map_ w) (subscriptions_map_ w) (posted w) (pending w) (writes w)
    (timers w) (objects w) (guids w) (wire w) x (registrations w).
Definition set_registrations (x : nat) (w : world) : world :=
  mk_world (alive w) (settings_ w) (connection_name_ w) (elapsed w) (socket_open w) (message_queue_ w)
    (package_no_ w) (operations_map_ w) (subscriptions_map_ w) (posted w) (pending w) (writes w)
    (timers w) (objects w) (guids w) (wire w) (calls w) x.

(** es::guid() generates random guids; [fresh_guid n] is the n-th one. *)
Class GuidSource := {
  fresh_guid : nat → guid_type;
  fresh_guid_wf n : Guid.wf (fresh_guid n)
}.

(** Counting guids, for examples. *)
Definition counting_guids : GuidSource :=
  {| fresh_guid n := le_encode 16 (Z.of_nat n); fresh_guid_wf n := length_le_encode 16 (Z.of_nat n) |}.

(** They differ from each other as long as a guid can count them. *)
Lemma counting_guids_inj i j :
  Z.of_nat i < 2 ^ 128 → Z.of_nat j < 2 ^ 128 →
  @fresh_guid counting_guids i = @fresh_guid counting_guids j → i = j.
Proof.
  cbn [fresh_guid counting_guids]. intros Hi Hj Heq%(f_equal le_decode). rewrite !le_decode_encode in Heq.
  replace (8 * Z.of_nat 16) with 128 in Heq by lia. rewrite !Z.mod_small in Heq by lia. lia.
Qed.

(** The constructor of basic_tcp_connection: the name is "ES-" and a guid. *)
Definition new_connection (settings : connection_settings) (name : string) : world := {|
  alive := true;
  settings_ := settings;
  connection_name_ := name;
  elapsed := 0;
  socket_open := false;
  message_queue_ := [];
  package_no_ := 0;
  operations_map_ := ∅;
  subscriptions_map_ := ∅;
  posted := [];
  pending := [];
  writes := 0;
  timers := [];
  objects := ∅;
  guids := 0;
  wire := [];
  calls := [];
  registrations := 0
|}.

(** ** Computations

    The code of a handler or of an API function is a program over the
    commands below, written with the do-notation. *)
Inductive cmd : Type → Type :=
| Do_get_world : cmd world
| Do_lift {A} (o : outcome A) : cmd A
| Do_post (j : job) : cmd unit                                   (* boost::asio::post *)
| Do_call_user (cb : nat) (c : callback) : cmd unit
| Do_put_operation (key : guid_type) (op : operation_closure) : cmd unit     (* operations_map_.register_op *)
| Do_update_operation (key : guid_type) (op : operation_closure) : cmd unit  (* a closure changed its captures *)
| Do_erase_operation (key : guid_type) : cmd unit
| Do_put_subscription (key : guid_type) (s : subscription_closure) : cmd unit
| Do_erase_subscription (key : guid_type) : cmd unit
| Do_set_object (sub : nat) (s : subscription) : cmd unit
| Do_make_timer : cmd nat
| Do_expires_after (t : nat) (d : Z) : cmd unit
| Do_async_wait (t : nat) (w : waiter) : cmd unit
| Do_cancel_timer (t : nat) : cmd unit
| Do_start (o : async_op) : cmd unit
| Do_make_guid : cmd guid_type
| Do_next_package_no : cmd unit                                  (* ++package_no_ *)
| Do_close_socket : cmd unit.

Inductive prog (A : Type) : Type :=
| done_with (a : A)
| command_then {X : Type} (c : cmd X) (k : X → prog A).
Arguments done_with {A} a.
Arguments command_then {A X} c k.

Fixpoint prog_bind {A B} (f : A → prog B) (p : prog A) : prog B :=
  match p with
  | done_with a => f a
  | command_then c k => command_then c (λ x, prog_bind f (k x))
  end.
#[global] Instance prog_mret : MRet prog := @done_with.
#[global] Instance prog_mbind : MBind prog := @prog_bind.

(** A command as a program. *)
Definition perform {X} (c : cmd X) : prog X := command_then c done_with.
Abbreviation get_world := (perform Do_get_world).
Abbreviation lift a := (perform (Do_lift a)).
Abbreviation post a := (perform (Do_post a)).
Abbreviation call_user a b := (perform (Do_call_user a b)).
Abbreviation put_operation a b := (perform (Do_put_operation a b)).
Abbreviation update_operation a b := (perform (Do_update_operation a b)).
Abbreviation erase_operation a := (perform (Do_erase_operation a)).
Abbreviation put_subscription a b := (perform (Do_put_subscription a b)).
Abbreviation erase_subscription a := (perform (Do_erase_subscription a)).
Abbreviation set_object a b := (perform (Do_set_object a b)).
Abbreviation make_timer := (perform Do_make_timer).
Abbreviation expires_after a b := (perform (Do_expires_after a b)).
Abbreviation async_wait a b := (perform (Do_async_wait a b)).
Abbreviation cancel_timer a := (perform (Do_cancel_timer a)).
Abbreviation start a := (perform (Do_start a)).
Abbreviation make_guid := (perform Do_make_guid).
Abbreviation next_package_no := (perform Do_next_package_no).
Abbreviation close_socket := (perform Do_close_socket).

Definition skip : prog unit := done_with tt.

Fixpoint for_each {A} (l : list A) (f : A → prog unit) : prog unit :=
  match l with
  | [] => skip
  | x :: l => prog_bind (λ _, for_each l f) (f x)
  end.

Section semantics.
Context {AE : AsioErrors} {GS : GuidSource}.

(** Cancelling a timer queues the completion of its wait. *)
Definition abort_wait (t : nat) (w : world) : world :=
  match timers w !! t with
  | Some (mk_timer d (Some waiter)) =>
      set_posted (posted w ++ [wait_completed waiter t operation_aborted])
        (set_timers (<[t := mk_timer d None]> (timers w)) w)
  | _ => w
  end.

Definition run_cmd {X} (c : cmd X) (w : world) : outcome (X * world) :=
  match c in cmd X return outcome (X * world) with
  | Do_get_world => Ret (w, w)
  | Do_lift o => a ← o; Ret (a, w)
  | Do_post j => Ret (tt, set_posted (posted w ++ [j]) w)
  | Do_call_user cb c => Ret (tt, set_calls (calls w ++ [(cb, c)]) w)
  | Do_put_operation key op => Ret (tt, set_operations_map (register_op key op (operations_map_ w)) w)
  | Do_update_operation key op =>
      Ret (tt, set_operations_map
        (if contains (operations_map_ w) key then <[key := op]> (operations_map_ w) else operations_map_ w) w)
  | Do_erase_operation key => Ret (tt, set_operations_map (erase key (operations_map_ w)) w)
  | Do_put_subscription key s =>
      Ret (tt, set_registrations (S (registrations w))
        (set_subscriptions_map (register_op key s (subscriptions_map_ w)) w))
  | Do_erase_subscription key => Ret (tt, set_subscriptions_map (erase key (subscriptions_map_ w)) w)
  | Do_set_object sub s => Ret (tt, set_objects (<[sub := s]> (objects w)) w)
  | Do_make_timer => Ret (length (timers w), set_timers (timers w ++ [mk_timer 0 None]) w)
  | Do_expires_after t d =>
      let w := abort_wait t w in Ret (tt, set_timers (<[t := mk_timer d None]> (timers w)) w)
  | Do_async_wait t waiter =>
      Ret (tt, set_timers (alter (λ r, mk_timer (expiry r) (Some waiter)) t (timers w)) w)
  | Do_cancel_timer t => Ret (tt, abort_wait t w)
  | Do_start o =>
      (* async_connect opens the socket if it is not open *)
      let w := match o with async_socket_connect _ _ => set_socket_open true w | _ => w end in
      Ret (tt, set_pending (pending w ++ [o]) w)
  | Do_make_guid => Ret (fresh_guid (guids w), set_guids (S (guids w)) w)
  | Do_next_package_no => Ret (tt, set_package_no (wrap_u32 (package_no_ w + 1)) w)
  | Do_close_socket => Ret (tt, set_socket_open false w)
  end.

Fixpoint run_prog {A} (p : prog A) (w : world) : outcome (A * world) :=
  match p with
  | done_with a => Ret (a, w)
  | command_then c k => r ← run_cmd c w; run_prog (k r.1) r.2
  end.

(** ** Reasoning about programs *)

Lemma run_bind {A B} (p : prog A) (f : A → prog B) w :
  run_prog (p ≫= f) w = r ← run_prog p w; run_prog (f r.1) r.2.
Proof.
  revert w. induction p as [a|X c k IH]; intros w; [done|].
  cbn [run_prog mbind prog_mbind prog_bind]. destruct (run_cmd c w) as [[x w']| |]; simpl; [|done..].
  apply IH.
Qed.

Lemma run_perform {X} (c : cmd X) w : run_prog (perform c) w = run_cmd c w.
Proof. simpl. by destruct (run_cmd c w) as [[]| |]. Qed.

(** A relation between worlds that is a preorder and that every command
    respects is respected by every program. *)
Lemma run_prog_preserves (R : world → world → Prop) :
  (∀ w, R w w) → (∀ w1 w2 w3, R w1 w2 → R w2 w3 → R w1 w3) →
  (∀ X (c : cmd X) w x w', run_cmd c w = Ret (x, w') → R w w') →
  ∀ A (p : prog A) w a w', run_prog p w = Ret (a, w') → R w w'.
Proof.
  intros Hrefl Htrans Hcmd A p. induction p as [a|X c k IH]; intros w b w' Hr; simpl in Hr.
  - by simplify_eq.
  - destruct (run_cmd c w) as [[x w1]| |] eqn:E; simpl in Hr; [|done..].
    eapply Htrans; [by eapply Hcmd|]. by eapply IH.
Qed.
End semantics.

(** Setting and arming the timer that was just made. *)
Lemma arm_new_timer (f : timer → timer) (ts : list timer) x y :
  alter f (length ts) (<[length ts := x]> (ts ++ [y])) = ts ++ [f x].
Proof.
  rewrite <- (Nat.add_0_r (length ts)) at 1 2.
  by rewrite insert_app_r, alter_app_r.
Qed.

(** Execute the commands at the head of a program. *)
Ltac run_simpl :=
  cbn [run_cmd run_prog mbind outcome_bind opt_value fst snd negb alive settings_ connection_name_ elapsed socket_open
    message_queue_ package_no_ operations_map_ subscriptions_map_ posted pending writes timers objects guids wire calls registrations
    set_alive set_elapsed set_socket_open set_message_queue set_package_no set_operations_map
    set_subscriptions_map set_posted set_pending set_writes set_timers set_objects set_guids set_wire set_calls
    set_registrations].
Ltac run_prog_steps :=
  repeat first [rewrite run_bind | rewrite run_perform | progress run_simpl].

(** Arming a timer whose wait has completed. *)
Lemma run_arm {AE : AsioErrors} {GS : GuidSource} t d0 d x w :
  timers w !! t = Some (mk_timer d0 None) →
  run_prog (expires_after t d;; async_wait t x) w =
    Ret (tt, set_timers (<[t := mk_timer d (Some x)]> (timers w)) w).
Proof.
  intros Ht. run_prog_steps. unfold abort_wait. rewrite Ht. run_simpl.
  replace (alter (λ r, mk_timer (expiry r) (Some x)) t (<[t:=mk_timer d None]> (timers w)))
    with (<[t:=mk_timer d (Some x)]> (timers w)); [done|].
  apply list_eq. intros i. destruct (decide (i = t)) as [->|Hne].
  - apply lookup_lt_Some in Ht.
    rewrite list_lookup_alter_eq, !list_lookup_insert_eq by done. done.
  - rewrite list_lookup_alter_ne, !list_lookup_insert_ne by done. done.
Qed.
