(* ===== verification/Triples.v ===== *)
(** A program logic for the computations of World: what a program preserves,
    and by how much it may increase a measure of the state.

    Partial correctness is all that is claimed: a program that throws or has
    undefined behaviour ends the execution. *)
From S2P Require Import Prelude Errors OperationsMap World.

(** The first command of a program that ends. *)
Lemma run_perform_inv {AE : AsioErrors} {GS : GuidSource} {A B} (c : cmd A) (f : A → prog B) w b w' :
  run_prog (perform c ≫= f) w = Ret (b, w') →
  ∃ a w1, run_cmd c w = Ret (a, w1) ∧ run_prog (f a) w1 = Ret (b, w').
Proof.
  rewrite run_bind, run_perform. destruct (run_cmd c w) as [[a w1]| |]; simpl; [eauto|done..].
Qed.

Lemma run_lift_inv {AE : AsioErrors} {GS : GuidSource} {A B} (o : outcome A) (f : A → prog B) w b w' :
  run_prog (lift o ≫= f) w = Ret (b, w') → ∃ a, o = Ret a ∧ run_prog (f a) w = Ret (b, w').
Proof.
  intros (a & w1 & Ha & Hr)%run_perform_inv. cbn [run_cmd] in Ha. destruct o; simpl in Ha; simplify_eq. eauto.
Qed.

(** Generating guids is the only thing that changes their count. *)
Lemma run_prog_guids {AE : AsioErrors} {GS : GuidSource} {A} (p : prog A) w a w' :
  run_prog p w = Ret (a, w') → (guids w ≤ guids w')%nat.
Proof.
  apply (run_prog_preserves (λ w w', (guids w ≤ guids w')%nat)); [lia..|].
  assert (∀ t u, guids (abort_wait t u) = guids u) as Habort.
  { intros t u. unfold abort_wait. by destruct (timers u !! t) as [[? [?|]]|]. }
  intros X c u x u' Hc. destruct c; cbn [run_cmd] in Hc; inv_ret; rewrite ?Habort; simpl; try lia.
  by destruct o.
Qed.

Section triples.
Context {AE : AsioErrors} {GS : GuidSource}.
Context (bound : nat) (I : world → Prop) (measure : world → nat).

(** From a state with [I], [p] ends in a state with [I] whose measure is at
    most [n] larger, with a result that satisfies [Q], as long as no more than
    [bound] guids have been generated in all. *)
Definition triple {A} (n : nat) (p : prog A) (Q : A → Prop) : Prop :=
  ∀ w a w', I w → run_prog p w = Ret (a, w') → (guids w' ≤ bound)%nat →
    I w' ∧ (measure w' ≤ n + measure w)%nat ∧ Q a.

Definition cmd_triple {A} (n : nat) (c : cmd A) (Q : A → Prop) : Prop :=
  ∀ w a w', I w → run_cmd c w = Ret (a, w') → I w' ∧ (measure w' ≤ n + measure w)%nat ∧ Q a.

Lemma triple_perform {A} n (c : cmd A) (Q : A → Prop) : cmd_triple n c Q → triple n (perform c) Q.
Proof. intros Hc w a w' Hw Hr _. rewrite run_perform in Hr. by apply Hc. Qed.

Lemma triple_ret {A} n (a : A) (Q : A → Prop) : Q a → triple n (mret a) Q.
Proof. intros Ha w b w' Hw Hr _. simpl in Hr. simplify_eq. split_and!; [done|lia|done]. Qed.

Lemma triple_skip n (Q : unit → Prop) : Q tt → triple n skip Q.
Proof. apply (triple_ret n tt). Qed.

Lemma triple_ret_any {A} n (a : A) : triple n (mret a) (λ _, True).
Proof. by apply triple_ret. Qed.
Lemma triple_skip_any n : triple n skip (λ _, True).
Proof. by apply triple_skip. Qed.

Lemma triple_weaken {A} n n' (p : prog A) (Q Q' : A → Prop) :
  triple n' p Q' → (n' ≤ n)%nat → (∀ a, Q' a → Q a) → triple n p Q.
Proof.
  intros Hp Hn HQ w a w' Hw Hr Hg. destruct (Hp _ _ _ Hw Hr Hg) as (? & ? & ?). split_and!; [done|lia|auto].
Qed.

Lemma triple_bind_sum {A B} n m (p : prog A) (f : A → prog B) (R : A → Prop) (Q : B → Prop) :
  triple n p R → (∀ a, R a → triple m (f a) Q) → triple (n + m) (p ≫= f) Q.
Proof.
  intros Hp Hf w b w' Hw Hr Hg. rewrite run_bind in Hr.
  destruct (run_prog p w) as [[a w1]| |] eqn:E; simpl in Hr; [|done..].
  pose proof (run_prog_guids _ _ _ _ Hr).
  destruct (Hp _ _ _ Hw E) as (Hw1 & Hle & Ha); [lia|].
  destruct (Hf a Ha _ _ _ Hw1 Hr Hg) as (? & ? & ?). split_and!; [done|lia|done].
Qed.

(** The first part leaves the measure as it is. *)
Lemma triple_bind {A B} n (p : prog A) (f : A → prog B) (R : A → Prop) (Q : B → Prop) :
  triple 0 p R → (∀ a, R a → triple n (f a) Q) → triple n (p ≫= f) Q.
Proof. apply (triple_bind_sum 0 n). Qed.

(** The first part alone increases the measure. *)
Lemma triple_bind_first {A B} n (p : prog A) (f : A → prog B) (R : A → Prop) (Q : B → Prop) :
  triple n p R → (∀ a, R a → triple 0 (f a) Q) → triple n (p ≫= f) Q.
Proof. rewrite <- (Nat.add_0_r n) at 2. apply triple_bind_sum. Qed.

Lemma triple_get_world n : triple n get_world I.
Proof.
  apply triple_perform. intros w a w' Hw Hr. simpl in Hr. simplify_eq. split_and!; [done|lia|done].
Qed.

(** The program goes on in the state it has read. *)
Lemma triple_get_world_here {A} n (f : world → prog A) Q :
  (∀ w a w', I w → run_prog (f w) w = Ret (a, w') → (guids w' ≤ bound)%nat →
    I w' ∧ (measure w' ≤ n + measure w)%nat ∧ Q a) →
  triple n (get_world ≫= f) Q.
Proof. intros Hf w a w' Hw Hr Hg. rewrite run_bind, run_perform in Hr. simpl in Hr. by apply Hf. Qed.

Lemma triple_lift {A} n (o : outcome A) : triple n (lift o) (λ a, o = Ret a).
Proof.
  apply triple_perform. intros w a w' Hw Hr. simpl in Hr.
  destruct o; simpl in Hr; simplify_eq. split_and!; [done|lia|done].
Qed.

Lemma triple_lift_any {A} n (o : outcome A) : triple n (lift o) (λ _, True).
Proof. eapply triple_weaken; [apply triple_lift|reflexivity|done]. Qed.

Lemma triple_for_each {A} (l : list A) (f : A → prog unit) :
  (∀ x, triple 0 (f x) (λ _, True)) → triple 0 (for_each l f) (λ _, True).
Proof.
  intros Hf. induction l as [|x l IH]; simpl; [by apply triple_skip|].
  apply (triple_bind 0 (f x) (λ _, for_each l f) (λ _, True)); auto.
Qed.

(** Commands that keep the invariant and the measure. *)
Lemma triple_quiet {A} n (c : cmd A) :
  (∀ w a w', I w → run_cmd c w = Ret (a, w') → I w' ∧ measure w' = measure w) →
  triple n (perform c) (λ _, True).
Proof. intros Hc. apply triple_perform. intros w a w' Hw Hr. destruct (Hc _ _ _ Hw Hr) as [? ->]. split_and!; [done|lia|done]. Qed.
End triples.

Create HintDb triples discriminated.
#[export] Hint Constants Opaque : triples.

(** Walk through a program; the hints say what its parts do. *)
Ltac tri_step :=
  match goal with
  | |- triple _ _ _ _ (mret _) _ => apply triple_ret_any
  | |- triple _ _ _ _ skip _ => apply triple_skip_any
  | |- triple _ _ _ _ get_world _ => apply triple_get_world
  | |- triple _ _ _ _ (lift _) (λ _, True) => apply triple_lift_any
  | |- triple _ _ _ _ (lift _) _ => apply triple_lift
  | |- triple _ _ _ _ (for_each _ _) _ => apply triple_for_each; intros
  | |- triple _ _ _ _ (_ ≫= _) _ => eapply triple_bind; [|intros ??]
  | |- triple _ _ _ _ (match ?x with _ => _ end) _ => destruct x eqn:?
  | |- triple _ _ _ _ _ _ => by eauto with triples
  end.
Ltac tri_walk := repeat (cbv beta in *; tri_step); cbv beta in *.
