(* ===== verification/Connection.v ===== *)
(** The TCP connection (include/connection/basic_tcp_connection.hpp) and the
    request operation with its timeout (include/tcp/operation.hpp): sending,
    the write chain, receiving, and the dispatch of a received package. *)
From S2P Require Import Prelude Errors Basics TcpPackage Messages Events Settings OperationsMap World.

(** What the connection needs of the closures stored in its two maps; the
    files of the operations and of the subscriptions implement it. *)
Class Dispatch := {
  invoke_operation : guid_type → operation_closure → error_code → tcp_package_view → prog unit;
  invoke_subscription : subscription_closure → error_code → tcp_package_view → prog unit
}.

Section connection.
Context {AL : Allocator} {AE : AsioErrors} {GS : GuidSource}.

(** ** Sending

    async_send posts a lambda that appends the package to the queue and
    starts a write when the queue was empty. *)
Definition async_send (p : tcp_package) : prog unit := post (send_package p).

Definition do_async_send (w : world) : outcome world :=
  match message_queue_ w with
  | [] => Undef empty_container
  | front :: _ => Ret (set_writes (S (writes w)) (set_wire (wire w ++ [front]) w))
  end.

(** The lambda posted by async_send. *)
Definition run_send (p : tcp_package) (w : world) : outcome world :=
  if negb (alive w) then Undef dangling_reference
  else
    let write_in_progress := match message_queue_ w with [] => false | _ => true end in
    let w := set_message_queue (message_queue_ w ++ [p]) w in
    if negb write_in_progress then do_async_send w else Ret w.

(** The completion of async_write. *)
Definition write_completed (ec : error_code) (w : world) : outcome world :=
  if negb (alive w) then Undef dangling_reference
  else if negb (failed ec) then
    match message_queue_ w with
    | [] => Undef empty_container
    | _ :: q =>
        let w := set_message_queue q w in
        match q with [] => Ret w | _ => do_async_send w end
    end
  else Ret (set_socket_open false w).

Definition close : prog unit := close_socket.

(** ** A request and its timeout: operation_op

    The timer is made by the constructor; initiate registers the closure
    and starts the wait. *)
Definition operation_op (key : guid_type) (h : response_handler) : prog unit :=
  deadline ← make_timer;
  w ← get_world;
  if negb (alive w) then skip
  else
    put_operation key (op_response h deadline);;
    expires_after deadline (operation_timeout_ (settings_ w));;
    async_wait deadline (wait_operation key).

(** async_send with a handler for the response. *)
Definition async_send_with (p : tcp_package) (h : response_handler) : prog unit :=
  view ← lift (to_view p);
  corr ← lift (correlation_id view);
  guid ← lift (Guid.guid_from_chars corr);
  async_send p;;
  operation_op guid h.

Definition async_start_receive : prog unit := start async_receive.

Section dispatch.
Context {DI : Dispatch}.

(** operation_op::operator(): the completion of the wait. *)
Definition operation_wait_completed (key : guid_type) (ec : error_code) : prog unit :=
  w ← get_world;
  if negb (alive w) then skip
  else if negb (failed ec) then
    op ← lift (at_key (operations_map_ w) key);
    invoke_operation key op (make_error_code operation_timeout) null_view;;
    erase_operation key
  else if bool_decide (ec = operation_aborted) then skip
  else if contains (operations_map_ w) key then
    op ← lift (at_key (operations_map_ w) key);
    invoke_operation key op ec null_view;;
    erase_operation key
  else skip.

(** ** Receiving *)
Definition on_package_received (ec : error_code) (view : tcp_package_view) : prog unit :=
  next_package_no;;
  data ← lift (correlation_id view);
  corr_id ← lift (Guid.guid_from_chars data);
  w ← get_world;
  if contains (operations_map_ w) corr_id then
    op ← lift (at_key (operations_map_ w) corr_id);
    invoke_operation corr_id op ec view;;
    erase_operation corr_id
  else if contains (subscriptions_map_ w) corr_id then
    sub ← lift (at_key (subscriptions_map_ w) corr_id);
    invoke_subscription sub ec view
  else
    cmd ← lift (command view);
    if bool_decide (cmd = Command.heartbeat_request_command) then
      guid ← make_guid;
      p ← lift (tcp_package_plain Command.heartbeat_response_command flags_none guid []);
      async_send p
    else skip. (* heartbeat response, bad request and any other command are only logged *)

(** The token async_start_receive gives to the read operation: [memory]
    is the contents of the buffer. *)
Definition receive_token (ec : error_code) (memory : bytes) (frame_size : Z) : prog unit :=
  if negb (failed ec) then
    view ← lift (make_view (Some memory) frame_size);
    on_package_received ec view;;
    async_start_receive
  else close.

(** Whether a read operation that has transferred [n] bytes ends in
    read_message_handler or still in length_check_handler: the latter gets the
    four bytes of the prefix, or fewer and an error. *)
Definition ends_in_message (ec : error_code) (n : Z) : bool :=
  if failed ec then 4 <=? n else 4 <? n.

(** The completion of the read. When the connection is gone,
    length_check_handler does nothing; read_message_handler uses the buffer,
    which is gone as well. *)
Definition receive_completed (ec : error_code) (memory : bytes) (frame_size : Z) : prog unit :=
  w ← get_world;
  if negb (alive w) then
    if ends_in_message ec frame_size then lift (Undef dangling_reference) else skip
  else receive_token ec memory frame_size.
End dispatch.
End connection.

Section facts.
Context {AL : Allocator} {AE : AsioErrors} {GS : GuidSource}.

Lemma correlation_id_length v corr : correlation_id v = Ret corr → length corr = 16%nat.
Proof.
  unfold correlation_id, view_range. destruct (v_package v); [|done].
  unfold read_at. case_decide; [|done]. intros [= <-]. by apply length_slice.
Qed.

Lemma run_lift_ret {A} (a : A) w : run_prog (lift (Ret a)) w = Ret (a, w).
Proof. done. Qed.
End facts.

(** A package built by either constructor carries what it was built from. *)
Lemma plain_package_reads_message {AL : Allocator} cmd corr msg :
  length corr = 16%nat → Z.of_nat (length msg) < 2 ^ 30 →
  ∃ p v, tcp_package_plain cmd flags_none corr msg = Ret p ∧ to_view p = Ret v ∧
    view_reads v cmd flags_none None corr msg.
Proof.
  intros Hc Hm. rewrite tcp_package_plain_layout by (done || lia).
  destruct (make_view_plain cmd flags_none corr msg Hc) as (v & Hv & Hr & _); [done|lia|].
  eexists _, v. split; [done|]. split; [|done]. unfold to_view; cbn [package_ length_].
  rewrite wrap_u64_small by lia. rewrite <- Hv. f_equal. lia.
Qed.

Lemma plain_package_reads {AL : Allocator} cmd corr :
  length corr = 16%nat →
  ∃ p v, tcp_package_plain cmd flags_none corr [] = Ret p ∧ to_view p = Ret v ∧
    view_reads v cmd flags_none None corr [].
Proof. intros. apply plain_package_reads_message; [done|simpl; lia]. Qed.

Lemma auth_package_reads {AL : Allocator} cmd corr u p msg :
  length corr = 16%nat → (string_size u < 256)%nat → (string_size p < 256)%nat →
  Z.of_nat (length msg) < 2 ^ 30 →
  ∃ pkg v, tcp_package_auth cmd flags_authenticated corr u p msg = Ret pkg ∧ to_view pkg = Ret v ∧
    view_reads v cmd flags_authenticated (Some (string_bytes u, string_bytes p)) corr msg.
Proof.
  intros Hc Hu Hp Hm. pose proof (length_auth_body u p msg) as Hl.
  destruct (make_view_auth cmd corr u p msg Hc Hu Hp) as (v & Hv & Hr & _); [lia|].
  rewrite tcp_package_auth_layout by (done || lia).
  eexists _, v. split; [done|]. split; [|done]. unfold to_view; cbn [package_ length_].
  rewrite wrap_u64_small by lia. rewrite <- Hv. f_equal. lia.
Qed.

(** What sending a package with a handler for its response does. *)
Section send_with.
Context {AL : Allocator} {AE : AsioErrors} {GS : GuidSource}.

Definition sent_with (p : tcp_package) (key : guid_type) (h : response_handler) (w : world) : world :=
  set_timers (timers w ++ [mk_timer (operation_timeout_ (settings_ w)) (Some (wait_operation key))])
    (set_operations_map (register_op key (op_response h (length (timers w))) (operations_map_ w))
      (set_posted (posted w ++ [send_package p]) w)).

Lemma run_async_send_with p h w v key :
  alive w = true → to_view p = Ret v → correlation_id v = Ret key →
  run_prog (async_send_with p h) w = Ret (tt, sent_with p key h w).
Proof.
  intros Halive Hv Hc. unfold async_send_with, async_send, operation_op.
  run_prog_steps. rewrite Hv. run_prog_steps. rewrite Hc. run_prog_steps.
  rewrite Guid.guid_from_chars_self by (by eapply correlation_id_length). run_prog_steps.
  rewrite Halive. run_prog_steps. unfold sent_with, abort_wait.
  cbn [timers set_operations_map set_timers set_posted set_guids].
  rewrite list_lookup_middle by done. run_simpl. by rewrite arm_new_timer.
Qed.
End send_with.

(** A package for a pending request. *)
Lemma on_package_operation {AL : Allocator} {AE : AsioErrors} {GS : GuidSource} {DI : Dispatch} ec v corr op w :
  correlation_id v = Ret corr → operations_map_ w !! corr = Some op →
  run_prog (on_package_received ec v) w =
    (r ← run_prog (invoke_operation corr op ec v) (set_package_no (wrap_u32 (package_no_ w + 1)) w);
     Ret (tt, set_operations_map (erase corr (operations_map_ r.2)) r.2)).
Proof.
  intros Hcorr Hop. unfold on_package_received. run_prog_steps. rewrite Hcorr; run_prog_steps.
  rewrite (Guid.guid_from_chars_self corr) by (by eapply correlation_id_length). run_prog_steps.
  unfold contains, at_key. rewrite Hop. run_prog_steps. by destruct (run_prog _ _) as [[]| |].
Qed.

(** A package for a subscription, when no operation has its key. *)
Lemma on_package_subscription {AL : Allocator} {AE : AsioErrors} {GS : GuidSource} {DI : Dispatch} ec v corr sub w :
  correlation_id v = Ret corr → operations_map_ w !! corr = None → subscriptions_map_ w !! corr = Some sub →
  run_prog (on_package_received ec v) w =
    run_prog (invoke_subscription sub ec v) (set_package_no (wrap_u32 (package_no_ w + 1)) w).
Proof.
  intros Hcorr Hop Hsub. unfold on_package_received. run_prog_steps. rewrite Hcorr; run_prog_steps.
  rewrite (Guid.guid_from_chars_self corr) by (by eapply correlation_id_length). run_prog_steps.
  unfold contains, at_key. rewrite Hop, Hsub. by run_prog_steps.
Qed.

(** A heartbeat request is answered, under a new id. *)
Lemma on_package_heartbeat {AL : Allocator} {AE : AsioErrors} {GS : GuidSource} {DI : Dispatch} ec v corr w :
  correlation_id v = Ret corr → operations_map_ w !! corr = None → subscriptions_map_ w !! corr = None →
  command v = Ret Command.heartbeat_request_command →
  ∃ p pv, to_view p = Ret pv ∧
    view_reads pv Command.heartbeat_response_command flags_none None (fresh_guid (guids w)) [] ∧
    run_prog (on_package_received ec v) w = Ret (tt, set_posted (posted w ++ [send_package p])
      (set_guids (S (guids w)) (set_package_no (wrap_u32 (package_no_ w + 1)) w))).
Proof.
  intros Hcorr Hop Hsub Hcmd.
  destruct (plain_package_reads Command.heartbeat_response_command (fresh_guid (guids w)))
    as (p & pv & Hp & Hv & Hr); [apply fresh_guid_wf|].
  exists p, pv. split_and!; [done..|]. unfold on_package_received.
  run_prog_steps. rewrite Hcorr; run_prog_steps.
  rewrite (Guid.guid_from_chars_self corr) by (by eapply correlation_id_length). run_prog_steps.
  unfold contains. rewrite Hop, Hsub. run_prog_steps. rewrite Hcmd; run_simpl.
  rewrite bool_decide_eq_true_2 by done. run_prog_steps. rewrite Hp. by run_simpl.
Qed.

(** A package nobody waits for. *)
Lemma on_package_ignored {AL : Allocator} {AE : AsioErrors} {GS : GuidSource} {DI : Dispatch} ec v corr cmd w :
  correlation_id v = Ret corr → operations_map_ w !! corr = None → subscriptions_map_ w !! corr = None →
  command v = Ret cmd → cmd ≠ Command.heartbeat_request_command →
  run_prog (on_package_received ec v) w = Ret (tt, set_package_no (wrap_u32 (package_no_ w + 1)) w).
Proof.
  intros Hcorr Hop Hsub Hcmd Hne. unfold on_package_received.
  run_prog_steps. rewrite Hcorr; run_prog_steps.
  rewrite (Guid.guid_from_chars_self corr) by (by eapply correlation_id_length). run_prog_steps.
  unfold contains. rewrite Hop, Hsub. run_prog_steps. rewrite Hcmd; run_simpl.
  by rewrite bool_decide_eq_false_2.
Qed.

(** C14: What the connection does with a received package, after counting it
    (modulo 2^32): a pending request with its correlation id is called and
    then removed, whatever the call did; else a subscription with that id is
    called and stays; else a heartbeat request is answered by one heartbeat
    response with a new correlation id, and any other command changes nothing
    more.  Nothing at all is done with an invalid (null) view: it is
    dereferenced. *)
Theorem on_package_received_cases {AL : Allocator} {AE : AsioErrors} {GS : GuidSource} {DI : Dispatch} ec v corr w
    (Hcorr : correlation_id v = Ret corr) :
  let w1 := set_package_no (wrap_u32 (package_no_ w + 1)) w in
  let run := run_prog (on_package_received ec v) w in
  (∀ op, operations_map_ w !! corr = Some op →
    run = (r ← run_prog (invoke_operation corr op ec v) w1;
           Ret (tt, set_operations_map (erase corr (operations_map_ r.2)) r.2))) ∧
  (∀ sub, operations_map_ w !! corr = None → subscriptions_map_ w !! corr = Some sub →
    run = run_prog (invoke_subscription sub ec v) w1) ∧
  (operations_map_ w !! corr = None → subscriptions_map_ w !! corr = None →
    (command v = Ret Command.heartbeat_request_command →
      ∃ p pv, to_view p = Ret pv ∧
        view_reads pv Command.heartbeat_response_command flags_none None (fresh_guid (guids w)) [] ∧
        run = Ret (tt, set_posted (posted w ++ [send_package p]) (set_guids (S (guids w)) w1))) ∧
    (∀ cmd, command v = Ret cmd → cmd ≠ Command.heartbeat_request_command → run = Ret (tt, w1))) ∧
  run_prog (on_package_received ec null_view) w = Undef null_dereference.
Proof.
  intros w1 run. subst run w1.
  split_and!; [intros op Hop; by apply on_package_operation|intros sub; by apply on_package_subscription| |].
  - intros Hop Hsub. split; [intros Hcmd; by eapply on_package_heartbeat|].
    intros cmd Hcmd Hne. by eapply on_package_ignored.
  - unfold on_package_received. by run_prog_steps.
Qed.

Lemma on_package_received_cases_witness :
  let w := new_connection default_connection_settings "ES-1" in
  let disp : Dispatch := {| invoke_operation _ _ _ _ := skip; invoke_subscription _ _ _ := skip |} in
  let v := mk_view (Some (plain_frame Command.heartbeat_request_command flags_none (replicate 16 x05) [])) 18 in
  correlation_id v = Ret (replicate 16 x05) ∧
  ∃ p pv, to_view p = Ret pv ∧
    view_reads pv Command.heartbeat_response_command flags_none None (le_encode 16 0) [] ∧
    run_prog (AE := linux_asio_errors) (GS := counting_guids)
      (on_package_received (AL := zero_allocator) (DI := disp) success v) w =
    Ret (tt, set_posted [send_package p] (set_guids 1 (set_package_no 1 w))).
Proof.
  intros w disp v. split; [reflexivity|].
  exact (proj1 (proj1 (proj2 (proj2 (on_package_received_cases (AL := zero_allocator) (AE := linux_asio_errors)
    (GS := counting_guids) (DI := disp) success v (replicate 16 x05) w eq_refl))) eq_refl eq_refl) eq_refl).
Defined.
