(* ===== verification/Requests.v ===== *)
(** The request functions of the client on a connection: each one generates a
    correlation id, builds its package and sends it with a handler for the
    response; and transactions (include/transaction.hpp) on top of them. *)
From S2P Require Import Prelude Errors Basics TcpPackage Messages Events Settings Operations.
From S2P Require Import OperationsMap World Connection.

Section requests.
Context {AL : Allocator} {PB : Protobuf} {AE : AsioErrors} {GS : GuidSource}.

(** What the request functions share: the correlation id, the package built
    from the connection's settings, and async_send. *)
Definition issue (build : connection_settings → guid_type → outcome tcp_package)
    (h : response_handler) : prog unit :=
  w ← get_world;
  corr_id ← make_guid;
  package ← lift (build (settings_ w) corr_id);
  async_send_with package h.

Definition async_append_to_stream (stream : string) (events : list event_data)
    (expected_version : Z) (cb : nat) : prog unit :=
  issue (λ s c, append_request s c stream events expected_version) (on_append cb).

Definition async_conditional_append_to_stream (stream : string) (events : list event_data)
    (expected_version : Z) (cb : nat) : prog unit :=
  issue (λ s c, conditional_append_request s c stream events expected_version) (on_conditional_append cb).

Definition async_delete_stream (stream : string) (expected_version : Z) (hard_delete : bool)
    (cb : nat) : prog unit :=
  issue (λ s c, delete_request s c stream expected_version hard_delete) (on_delete cb).

Definition async_start_transaction (stream : string) (expected_version : Z) (cb : nat) : prog unit :=
  issue (λ s c, start_transaction_request s c stream expected_version) (on_start_transaction cb).

Definition async_transactional_write (transaction_id : Z) (events : list event_data)
    (cb : nat) : prog unit :=
  issue (λ s c, transactional_write_request s c transaction_id events) (on_transactional_write cb).

Definition async_commit_transaction (transaction_id : Z) (cb : nat) : prog unit :=
  issue (λ s c, commit_transaction_request s c transaction_id) (on_commit_transaction cb).

Definition async_read_stream_event (stream : string) (event_number : Z) (resolveLinkTos : bool)
    (cb : nat) : prog unit :=
  issue (λ s c, read_stream_event_request s c stream event_number resolveLinkTos)
    (on_read_stream_event stream event_number cb).

Definition async_read_stream_events (stream : string) (direction : read_direction)
    (from_event_number max_count : Z) (resolve_link_tos : bool) (reader : slice_reader) : prog unit :=
  issue (λ s c, read_stream_events_request s c stream direction from_event_number max_count resolve_link_tos)
    (on_read_stream_events stream from_event_number direction reader).

Definition async_read_stream_events_forward stream from_event_number max_count resolve_link_tos cb :=
  async_read_stream_events stream forward from_event_number max_count resolve_link_tos (slice_to_user cb).
Definition async_read_stream_events_backward stream from_event_number max_count resolve_link_tos cb :=
  async_read_stream_events stream backward from_event_number max_count resolve_link_tos (slice_to_user cb).

Definition async_read_all_events (direction : read_direction) (from_position : position)
    (max_count : Z) (resolve_link_tos : bool) (reader : slice_reader) : prog unit :=
  issue (λ s c, read_all_events_request s c direction from_position max_count resolve_link_tos)
    (on_read_all_events direction reader).

Definition async_read_all_events_forward from_position max_count resolve_link_tos cb :=
  async_read_all_events forward from_position max_count resolve_link_tos (slice_to_user cb).
Definition async_read_all_events_backward from_position max_count resolve_link_tos cb :=
  async_read_all_events backward from_position max_count resolve_link_tos (slice_to_user cb).

Definition async_get_stream_metadata (stream : string) (cb : nat) : prog unit :=
  issue (λ s c, get_stream_metadata_request s c stream) (on_get_stream_metadata stream cb).

(** The event id is generated first, then the append's correlation id. *)
Definition async_set_stream_metadata (stream : string) (expected_metastream_version : Z)
    (metadata : string) (cb : nat) : prog unit :=
  event_id ← make_guid;
  issue (λ s c, set_stream_metadata_request s c event_id stream expected_metastream_version metadata)
    (on_append cb).

Definition async_create_persistent_subscription (stream group : string)
    (settings : persistent_subscription_settings) (cb : nat) : prog unit :=
  issue (λ s c, create_persistent_subscription_request s c stream group settings) (on_create_persistent cb).
Definition async_update_persistent_subscription (stream group : string)
    (settings : persistent_subscription_settings) (cb : nat) : prog unit :=
  issue (λ s c, update_persistent_subscription_request s c stream group settings) (on_update_persistent cb).
Definition async_delete_persistent_subscription (stream group : string) (cb : nat) : prog unit :=
  issue (λ s c, delete_persistent_subscription_request s c stream group) (on_delete_persistent cb).

(** ** transaction *)
Record transaction := mk_transaction {
  transaction_id_ : Z;
  is_rolled_back_ : bool;
  is_committed_ : bool
}.

Definition new_transaction (transaction_id : Z) : transaction := mk_transaction transaction_id false false.

(** The error the calls check for first; the second test overrides. *)
Definition transaction_error (t : transaction) : error_code :=
  let ec := success in
  let ec := if is_rolled_back_ t then make_error_code transaction_rolled_back else ec in
  if is_committed_ t then make_error_code transaction_committed else ec.

Definition async_commit (t : transaction) (cb : nat) : prog transaction :=
  let ec := transaction_error t in
  if failed ec then
    post (call_handler cb (cb_write (ec, None)));; mret t
  else
    async_commit_transaction (transaction_id_ t) cb;;
    mret (mk_transaction (transaction_id_ t) (is_rolled_back_ t) true).

Definition async_write_events (t : transaction) (events : list event_data) (cb : nat) : prog transaction :=
  let ec := transaction_error t in
  if failed ec then
    post (call_handler cb (cb_error ec));; mret t
  else
    async_transactional_write (transaction_id_ t) events cb;; mret t.

Definition rollback (t : transaction) : error_code * transaction :=
  if is_committed_ t then (make_error_code transaction_committed, t)
  else (success, mk_transaction (transaction_id_ t) true (is_committed_ t)).
End requests.

Section facts.
Context {AL : Allocator} {PB : Protobuf} {AE : AsioErrors} {GS : GuidSource}.

(** What a request function does to the world. *)
Definition issued (p : tcp_package) (h : response_handler) (w : world) : world :=
  sent_with p (fresh_guid (guids w)) h (set_guids (S (guids w)) w).

Lemma issue_run build h w p v :
  alive w = true → build (settings_ w) (fresh_guid (guids w)) = Ret p → to_view p = Ret v →
  correlation_id v = Ret (fresh_guid (guids w)) →
  run_prog (issue build h) w = Ret (tt, issued p h w).
Proof.
  intros Halive Hb Hv Hc. unfold issue.
  rewrite run_bind, run_perform. run_simpl. rewrite run_bind, run_perform. run_simpl.
  rewrite run_bind, run_perform, Hb. run_simpl. by eapply run_async_send_with.
Qed.

(** The credentials of the connection fit their length bytes. *)
Definition credentials_fit (w : world) : Prop :=
  (string_size (username (default_user_credentials_ (settings_ w))) < 256)%nat ∧
  (string_size (password (default_user_credentials_ (settings_ w))) < 256)%nat.

(** Sending a request built by [make_request]. *)
Lemma issue_make_request cmd serialized h build w :
  alive w = true → credentials_fit w → Z.of_nat (length serialized) < 2 ^ 30 →
  (∀ c, build (settings_ w) c = make_request (settings_ w) cmd c serialized) →
  ∃ p v fl creds, run_prog (issue build h) w = Ret (tt, issued p h w) ∧ to_view p = Ret v ∧
    view_reads v cmd fl creds (fresh_guid (guids w)) serialized.
Proof.
  intros Halive [Hu Hp] Hm Hb.
  destruct (make_request_reads (settings_ w) cmd (fresh_guid (guids w)) serialized)
    as (p & v & Hpkg & Hv & Hr); [apply fresh_guid_wf|done..|].
  eexists p, v, _, _. split; [|by split].
  eapply issue_run; [done|by rewrite Hb|done|]. apply Hr.
Qed.
End facts.

(** ** The transaction as a state machine *)
Section transactions.
Context {AL : Allocator} {PB : Protobuf} {AE : AsioErrors} {GS : GuidSource}.

Inductive transaction_call : Type :=
| tx_commit (cb : nat) | tx_write (events : list event_data) (cb : nat) | tx_rollback.

Definition run_transaction_call (t : transaction) (c : transaction_call) : prog transaction :=
  match c with
  | tx_commit cb => async_commit t cb
  | tx_write events cb => async_write_events t events cb
  | tx_rollback => mret (rollback t).2
  end.

Fixpoint run_transaction (cs : list transaction_call) (t : transaction) : prog transaction :=
  match cs with
  | [] => mret t
  | c :: cs => t ← run_transaction_call t c; run_transaction cs t
  end.

(** The specification: open until the first commit or rollback, then closed
    for good; what each call posts to the io_context. *)
Inductive tx_state : Type := tx_open | tx_rolled_back | tx_committed.

Definition tx_next (s : tx_state) (c : transaction_call) : tx_state :=
  match s, c with
  | tx_open, tx_commit _ => tx_committed
  | tx_open, tx_rollback => tx_rolled_back
  | _, _ => s
  end.

Definition tx_error (s : tx_state) : error_code :=
  match s with
  | tx_open => success
  | tx_rolled_back => make_error_code transaction_rolled_back
  | tx_committed => make_error_code transaction_committed
  end.

(** The message of a call on the transaction [id]. *)
Definition call_message (id : Z) (require_master : bool) (c : transaction_call) : bytes :=
  match c with
  | tx_commit _ => SerializeAsString (mk_TransactionCommit id require_master)
  | tx_write events _ => SerializeAsString (mk_TransactionWrite id (make_new_event <$> events) require_master)
  | tx_rollback => []
  end.

Inductive tx_job : Type :=
| tx_sends (cmd : tcp_command) (message : bytes)
| tx_rejects (cb : nat) (c : callback).

Definition tx_posts (id : Z) (require_master : bool) (s : tx_state) (c : transaction_call) : list tx_job :=
  match c with
  | tx_commit cb =>
      [match s with tx_open => tx_sends Command.transaction_commit (call_message id require_master c)
       | _ => tx_rejects cb (cb_write (tx_error s, None)) end]
  | tx_write _ cb =>
      [match s with tx_open => tx_sends Command.transaction_write (call_message id require_master c)
       | _ => tx_rejects cb (cb_error (tx_error s)) end]
  | tx_rollback => []
  end.

Fixpoint tx_jobs (id : Z) (require_master : bool) (s : tx_state) (cs : list transaction_call) : list tx_job :=
  match cs with
  | [] => []
  | c :: cs => tx_posts id require_master s c ++ tx_jobs id require_master (tx_next s c) cs
  end.

Definition is_rejection (e : tx_job) : Prop := match e with tx_sends _ _ => False | tx_rejects _ _ => True end.

Definition job_meets (j : job) (e : tx_job) : Prop :=
  match e with
  | tx_sends cmd message => ∃ p v, j = send_package p ∧ to_view p = Ret v ∧ command v = Ret cmd ∧
      message_bytes v = Ret message
  | tx_rejects cb c => j = call_handler cb c
  end.

(** The state an object stands for: committed wins. *)
Definition tx_abs (t : transaction) : tx_state :=
  if is_committed_ t then tx_committed else if is_rolled_back_ t then tx_rolled_back else tx_open.

Lemma transaction_error_abs t : transaction_error t = tx_error (tx_abs t).
Proof. destruct t as [? [] []]; done. Qed.

(** The message of a call is below the limit of Protocol Buffers. *)
Definition call_fits (id : Z) (require_master : bool) (c : transaction_call) : Prop :=
  Z.of_nat (length (call_message id require_master c)) < 2 ^ 30.

Lemma transaction_call_refines t c w :
  alive w = true → credentials_fit w → call_fits (transaction_id_ t) (require_master_ (settings_ w)) c →
  ∃ t' w' jobs, run_prog (run_transaction_call t c) w = Ret (t', w') ∧
    alive w' = true ∧ settings_ w' = settings_ w ∧ posted w' = posted w ++ jobs ∧
    Forall2 job_meets jobs (tx_posts (transaction_id_ t) (require_master_ (settings_ w)) (tx_abs t) c) ∧
    tx_abs t' = tx_next (tx_abs t) c ∧ transaction_id_ t' = transaction_id_ t.
Proof.
  intros Ha Hc Hfits. destruct c as [cb|events cb|]; cbn [run_transaction_call].
  - unfold async_commit. rewrite transaction_error_abs.
    destruct (tx_abs t) eqn:Habs; cbn [tx_error];
      rewrite ?failed_success, ?failed_make_error_code_stream; run_prog_steps.
    + destruct (issue_make_request Command.transaction_commit
        (SerializeAsString (mk_TransactionCommit (transaction_id_ t) (require_master_ (settings_ w))))
        (on_commit_transaction cb)
        (λ s c, commit_transaction_request s c (transaction_id_ t)) w)
        as (p & v & fl & creds & Hrun & Hv & Hr); [done..|].
      unfold async_commit_transaction. rewrite Hrun. run_prog_steps.
      eexists _, _, [send_package p]. split_and!; [done..| | |done].
      * constructor; [|done]. exists p, v. split_and!; [done..|apply Hr|apply Hr].
      * done.
    + eexists _, _, [_]. split_and!; try done. by constructor.
    + eexists _, _, [_]. split_and!; try done. by constructor.
  - unfold async_write_events. rewrite transaction_error_abs.
    destruct (tx_abs t) eqn:Habs; cbn [tx_error];
      rewrite ?failed_success, ?failed_make_error_code_stream; run_prog_steps.
    + destruct (issue_make_request Command.transaction_write
        (SerializeAsString (mk_TransactionWrite (transaction_id_ t) (make_new_event <$> events)
           (require_master_ (settings_ w))))
        (on_transactional_write cb)
        (λ s c, transactional_write_request s c (transaction_id_ t) events) w)
        as (p & v & fl & creds & Hrun & Hv & Hr); [done..|].
      unfold async_transactional_write. rewrite Hrun. run_prog_steps.
      eexists _, _, [send_package p]. split_and!; [done..| | |done].
      * constructor; [|done]. exists p, v. split_and!; [done..|apply Hr|apply Hr].
      * done.
    + eexists _, _, [_]. split_and!; try done. by constructor.
    + eexists _, _, [_]. split_and!; try done. by constructor.
  - exists (rollback t).2, w, []. rewrite app_nil_r.
    destruct t as [? [] []]; by split_and!.
Qed.
End transactions.

Section transaction_spec.
(** Nothing is sent once a transaction is closed. *)
Context {PB : Protobuf} (id : Z) (require_master : bool).

Lemma tx_jobs_closed s cs : s ≠ tx_open → Forall is_rejection (tx_jobs id require_master s cs).
Proof.
  revert s. induction cs as [|c cs IH]; intros s Hs; simpl; [done|].
  apply Forall_app. split.
  - destruct s, c; simpl; repeat constructor; done.
  - apply IH. by destruct s, c.
Qed.

Lemma tx_jobs_after_commit cs : ∀ pre m post,
  tx_jobs id require_master tx_open cs = pre ++ tx_sends Command.transaction_commit m :: post →
  Forall is_rejection post.
Proof.
  induction cs as [|[cb|es cb|] cs IH]; intros pre m post Hpre; simpl in Hpre.
  - by destruct pre.
  - pose proof (tx_jobs_closed tx_committed cs ltac:(done)) as Hall.
    destruct pre as [|j pre]; [injection Hpre as _ Hpre; by rewrite <- Hpre|].
    injection Hpre as Hj Hpre.
    rewrite Hpre in Hall. apply Forall_app in Hall as [_ Hall]. by inversion Hall.
  - destruct pre as [|j pre]; [discriminate|]. injection Hpre as Hj Hpre. by eapply IH.
  - pose proof (tx_jobs_closed tx_rolled_back cs ltac:(done)) as Hall.
    rewrite Hpre in Hall. apply Forall_app in Hall as [_ Hall]. by inversion Hall.
Qed.
End transaction_spec.

(** C23: A transaction object implements a three-state machine: open until the
    first commit or rollback, then committed or rolled back for good.  Any
    sequence of calls on it runs, and posts to the io_context exactly what the
    machine says: while open, one transaction-write (or transaction-commit)
    package per call, with the transaction's id and the call's events; once closed, the call of the user's handler with
    transaction_committed or transaction_rolled_back.  So at most one commit
    is sent, and nothing after it. *)
Theorem transaction_refines {AL : Allocator} {PB : Protobuf} {AE : AsioErrors} {GS : GuidSource} id cs w
    (Hsize : Forall (call_fits id (require_master_ (settings_ w))) cs)
    (Halive : alive w = true) (Hcreds : credentials_fit w) :
  let jobs_of := tx_jobs id (require_master_ (settings_ w)) tx_open in
  (∃ t w' jobs, run_prog (run_transaction cs (new_transaction id)) w = Ret (t, w') ∧
    posted w' = posted w ++ jobs ∧ Forall2 job_meets jobs (jobs_of cs) ∧
    tx_abs t = foldl tx_next tx_open cs) ∧
  (∀ pre m post, jobs_of cs = pre ++ tx_sends Command.transaction_commit m :: post →
    Forall is_rejection post).
Proof.
  split; [|apply tx_jobs_after_commit]. cbv zeta.
  change tx_open with (tx_abs (new_transaction id)).
  assert (transaction_id_ (new_transaction id) = id) as Hid by done. revert Hid.
  generalize (new_transaction id) as t.
  revert w Hsize Halive Hcreds. induction cs as [|c cs IH]; intros w Hsize Ha Hc t Hid.
  - exists t, w, []. rewrite app_nil_r. by split_and!; [..|constructor|].
  - apply Forall_cons in Hsize as [Hfit Hsize]. rewrite <- Hid in Hfit.
    destruct (transaction_call_refines t c w Ha Hc Hfit)
      as (t' & w1 & jobs & Hrun & Ha1 & Hs1 & Hp1 & Hj1 & Hn & Hid1). rewrite Hid in Hj1, Hid1.
    rewrite <- Hs1 in Hsize.
    destruct (IH w1 Hsize Ha1) with (t := t') as (t2 & w2 & jobs2 & Hrun2 & Hp2 & Hj2 & Hn2); [|done|].
    { unfold credentials_fit. by rewrite Hs1. }
    rewrite Hs1 in Hj2.
    exists t2, w2, (jobs ++ jobs2). cbn [run_transaction]. rewrite run_bind, Hrun. run_prog_steps.
    split_and!; [done|by rewrite Hp2, Hp1, app_assoc| |].
    + simpl. rewrite <- Hn. by apply Forall2_app.
    + simpl. by rewrite <- Hn.
Qed.

Lemma transaction_refines_witness :
  let w := new_connection default_connection_settings "ES-1" in
  let cs := [tx_write [] 1; tx_commit 2; tx_rollback; tx_write [] 3] in
  (∃ t w' jobs,
    run_prog (AE := linux_asio_errors) (GS := counting_guids)
      (run_transaction (AL := zero_allocator) (PB := sample_protobuf) cs (new_transaction 7)) w
      = Ret (t, w') ∧
    posted w' = posted w ++ jobs ∧
    Forall2 job_meets jobs (tx_jobs (PB := sample_protobuf) 7 true tx_open cs) ∧ tx_abs t = tx_committed).
Proof.
  intros w cs.
  exact (proj1 (transaction_refines (AL := zero_allocator) (PB := sample_protobuf) (AE := linux_asio_errors)
    (GS := counting_guids) 7 cs w ltac:(repeat constructor) eq_refl
    ltac:(split; vm_compute; lia))).
Defined.

(** A request on a live connection whose credentials fit posts exactly one
    package, readable with its command, a new correlation id and the message;
    registers the handler under that id unless a request is already pending
    under it; and arms one new timer with the operation timeout for it. *)
Theorem request_issued {AL : Allocator} {AE : AsioErrors} {GS : GuidSource} cmd serialized h w
    (Halive : alive w = true) (Hcreds : credentials_fit w)
    (Hsize : Z.of_nat (length serialized) < 2 ^ 30) :
  ∃ p v w', run_prog (issue (λ s c, make_request s cmd c serialized) h) w = Ret (tt, w') ∧
    to_view p = Ret v ∧ command v = Ret cmd ∧ correlation_id v = Ret (fresh_guid (guids w)) ∧
    message_bytes v = Ret serialized ∧
    posted w' = posted w ++ [send_package p] ∧
    operations_map_ w' =
      register_op (fresh_guid (guids w)) (op_response h (length (timers w))) (operations_map_ w) ∧
    timers w' = timers w ++
      [mk_timer (operation_timeout_ (settings_ w)) (Some (wait_operation (fresh_guid (guids w))))] ∧
    guids w' = S (guids w) ∧ calls w' = calls w.
Proof.
  destruct (issue_make_request cmd serialized h (λ s c, make_request s cmd c serialized) w)
    as (p & v & fl & creds & Hrun & Hv & Hr); [done..|].
  eexists p, v, _. split; [done|]. split; [done|]. split_and!; try apply Hr; done.
Qed.

Lemma request_issued_witness :
  let w := new_connection default_connection_settings "ES-1" in
  alive w = true ∧
  ∃ p v w', run_prog (AE := linux_asio_errors) (GS := counting_guids)
      (issue (λ s c, make_request (AL := zero_allocator) s Command.read_event c [x01]) (on_append 1)) w
      = Ret (tt, w') ∧ to_view p = Ret v ∧ command v = Ret Command.read_event ∧
    correlation_id v = Ret (fresh_guid (GuidSource := counting_guids) 0) ∧ posted w' = [send_package p].
Proof.
  intros w. split; [reflexivity|].
  destruct (request_issued (AL := zero_allocator) (AE := linux_asio_errors) (GS := counting_guids)
    Command.read_event [x01] (on_append 1) w eq_refl ltac:(split; vm_compute; lia) ltac:(vm_compute; reflexivity))
    as (p & v & w' & H1 & H2 & H3 & H4 & _ & H5 & _).
  exists p, v, w'. split_and!; assumption.
Defined.
