(* ===== verification/ConnectOps.v ===== *)
(** The operations the connection runs for itself: the connect chain
    (include/tcp/connect.hpp), authentication (tcp/authenticate.hpp),
    identification (tcp/identify.hpp) and heartbeats (tcp/heartbeat.hpp). *)
From S2P Require Import Prelude Errors Basics TcpPackage Messages Events Settings OperationsMap World.
From S2P Require Import Connection.

Section connect.
Context {AL : Allocator} {PB : Protobuf} {AE : AsioErrors} {GS : GuidSource}.

(** ** The lambda of basic_tcp_connection::async_connect around the user's
    handler; a handler that has been moved from must not be called. *)
Definition connection_lambda (handler : option nat) (ec : error_code) (view : tcp_package_view)
    (connection_id : guid_type) : prog unit :=
  match handler with
  | None => lift (Undef moved_from)
  | Some cb =>
      if negb (failed ec) || is_error ec authentication_failed then
        cmd ← lift (command view);
        if negb (bool_decide (cmd = Command.client_identified)) then skip
        else call_user cb (cb_connection (ec, Some (mk_connection_result connection_id)))
      else call_user cb (cb_connection (ec, None))
  end.

(** The default argument [guid_type()]. *)
Definition nil_guid : guid_type := replicate 16 x00.

(** ** identify_op *)

(** The package with the IdentifyClient message. *)
Definition identify_package (settings : connection_settings) (name : string) (corr : guid_type)
    (authenticated : bool) : outcome tcp_package :=
  let serialized := SerializeAsString {|
    ic_version := ES_CLIENT_VERSION;
    ic_connection_name := Some name |} in
  let creds := default_user_credentials_ settings in
  if authenticated
  then tcp_package_auth Command.identify_client flags_authenticated corr
         (username creds) (password creds) serialized
  else tcp_package_plain Command.identify_client flags_none corr serialized.

Definition identify_initiate (deadline : nat) (info : identity_info) (reconnections : Z)
    (handler : option nat) (authenticated : bool) : prog unit :=
  w ← get_world;
  if negb (alive w) then skip
  else
    let corr := identity_correlation_id info in
    package ← lift (identify_package (settings_ w) (connection_name_ w) corr authenticated);
    async_send package;;
    (* the handler is moved into the closure *)
    put_operation corr (op_identification handler deadline authenticated corr);;
    expires_after deadline (operation_timeout_ (settings_ w));;
    async_wait deadline (wait_identify info reconnections None authenticated).

Definition identify_op (handler : option nat) (authenticated : bool) : prog unit :=
  deadline ← make_timer;
  corr ← make_guid;
  w ← get_world;
  identify_initiate deadline (mk_identity_info corr (elapsed w)) 0 handler authenticated.

(** The closure identify_initiate registers. *)
Definition identification_closure (handler : option nat) (deadline : nat) (authenticated : bool)
    (corr_id : guid_type) (ec : error_code) (view : tcp_package_view) : prog unit :=
  cancel_timer deadline;;
  let ec := if negb authenticated && negb (failed ec) then make_error_code authentication_failed else ec in
  if negb (failed ec) || is_error ec authentication_failed
  then connection_lambda handler ec view corr_id
  else connection_lambda handler ec view nil_guid.

(** ** authentication_handler::operator() *)
Definition authentication_handler (key : guid_type) (handler : option nat) (deadline : nat)
    (ec : error_code) (view : tcp_package_view) : prog unit :=
  w ← get_world;
  if negb (alive w) then skip
  else
    (* [None]: a garbage answer, on which the handler returns *)
    authenticated ←
      (if failed ec then mret (Some false)
       else
         cmd ← lift (command view);
         mret (if bool_decide (cmd = Command.authenticated) then Some true
               else if bool_decide (cmd = Command.not_authenticated) then Some false
               else None));
    match authenticated with
    | None => skip
    | Some authenticated =>
        update_operation key (op_authentication None deadline);; (* std::move(handler_) *)
        identify_op handler authenticated
    end.

(** The closure authenticate_op registers. *)
Definition authentication_closure (key : guid_type) (handler : option nat) (deadline : nat)
    (ec : error_code) (view : tcp_package_view) : prog unit :=
  cancel_timer deadline;;
  authentication_handler key handler deadline ec view.

(** ** authenticate_op *)
Definition authenticate_op (handler : nat) : prog unit :=
  deadline ← make_timer;
  corr ← make_guid;
  w ← get_world;
  let info := mk_authentication_info corr (elapsed w) in
  if negb (alive w) then skip
  else
    let creds := default_user_credentials_ (settings_ w) in
    package ← lift (tcp_package_auth Command.authenticate flags_authenticated corr
                      (username creds) (password creds) []);
    async_send package;;
    put_operation corr (op_authentication (Some handler) deadline);;
    expires_after deadline (operation_timeout_ (settings_ w));;
    async_wait deadline (wait_authenticate info).

Section waits.
Context {DI : Dispatch}.

Definition authenticate_wait_completed (info : authentication_info) (ec : error_code) : prog unit :=
  w ← get_world;
  if negb (alive w) then skip
  else
    let key := authentication_correlation_id info in
    if negb (failed ec) then
      op ← lift (at_key (operations_map_ w) key);
      invoke_operation key op (make_error_code authentication_timeout) null_view
    else if negb (bool_decide (ec = operation_aborted)) then
      op ← lift (at_key (operations_map_ w) key);
      invoke_operation key op ec null_view
    else skip.

Definition identify_wait_completed (deadline : nat) (info : identity_info) (reconnections : Z)
    (handler : option nat) (authenticated : bool) (ec : error_code) : prog unit :=
  w ← get_world;
  if negb (alive w) then skip
  else
    let key := identity_correlation_id info in
    if negb (failed ec) then
      let max_reconnections := max_reconnections_ (settings_ w) in
      if (max_reconnections >? 0) && (reconnections <? max_reconnections) then
        identify_initiate deadline info (wrap_u32 (reconnections + 1)) handler authenticated
      else
        op ← lift (at_key (operations_map_ w) key);
        invoke_operation key op (make_error_code operation_timeout) null_view
    else if negb (bool_decide (ec = operation_aborted)) then
      op ← lift (at_key (operations_map_ w) key);
      invoke_operation key op ec null_view
    else skip.
End waits.

(** ** heartbeat_op *)

(** operator() on an error *)
Definition heartbeat_error (ec : error_code) : prog unit :=
  if bool_decide (ec = operation_aborted) then skip
  else if is_error ec connection_closed then skip
  else
    w ← get_world;
    if negb (alive w) then skip else close.

Definition heartbeat_initiate (deadline : nat) (info : heartbeat_info) : prog unit :=
  w ← get_world;
  if negb (alive w) then heartbeat_error (make_error_code connection_closed)
  else if negb (socket_open w) then heartbeat_error (make_error_code connection_closed)
  (* int compared with unsigned int *)
  else if negb (wrap_u32 (last_package_no info) =? package_no_ w) then
    let info := mk_heartbeat_info (wrap_i32 (package_no_ w)) (elapsed w) true in
    expires_after deadline (heartbeat_interval_ (settings_ w));;
    async_wait deadline (wait_heartbeat info)
  else if is_interval_stage info then
    corr ← make_guid;
    package ← lift (tcp_package_plain Command.heartbeat_request_command flags_none corr []);
    async_send package;;
    let info := mk_heartbeat_info (last_package_no info) (elapsed w) false in
    expires_after deadline (heartbeat_timeout_ (settings_ w));;
    async_wait deadline (wait_heartbeat info)
  else heartbeat_error (make_error_code heartbeat_timeout).

Definition heartbeat_op : prog unit :=
  deadline ← make_timer;
  w ← get_world;
  heartbeat_initiate deadline (mk_heartbeat_info (wrap_i32 (package_no_ w)) (elapsed w) true).

(** operator(): the completion of the wait. *)
Definition heartbeat_wait_completed (deadline : nat) (info : heartbeat_info) (ec : error_code) : prog unit :=
  if negb (failed ec) then heartbeat_initiate deadline info else heartbeat_error ec.

(** ** The connect chain *)

(** connect_op::initiate *)
Definition connect_initiate (cb : nat) : prog unit :=
  w ← get_world;
  if negb (alive w) then skip else start (async_discover cb).

(** basic_tcp_connection::async_connect *)
Definition async_connect (cb : nat) : prog unit := connect_initiate cb.

(** discover_node_endpoints_handler and tcp_connect_op *)
Definition endpoint_discovered (cb : nat) (ec : error_code) (e : endpoint) : prog unit :=
  w ← get_world;
  if negb (alive w) then skip
  else if negb (failed ec) then start (async_socket_connect e cb)
  else connection_lambda (Some cb) (make_error_code endpoint_discovery) null_view nil_guid.

(** tcp_connected_handler *)
Definition tcp_connected (cb : nat) (ec : error_code) : prog unit :=
  w ← get_world;
  if negb (alive w) then skip
  else if negb (failed ec) then
    (if credentials_null (default_user_credentials_ (settings_ w))
     then identify_op (Some cb) false
     else authenticate_op cb);;
    async_start_receive;;
    heartbeat_op
  else connection_lambda (Some cb) ec null_view nil_guid.
End connect.

Section heartbeat_facts.
Context {AL : Allocator} {PB : Protobuf} {AE : AsioErrors} {GS : GuidSource}.

(** The state after re-arming the heartbeat's timer. *)
Definition heartbeat_armed (t : nat) (d : Z) (info : heartbeat_info) (w : world) : world :=
  set_timers (<[t := mk_timer d (Some (wait_heartbeat info))]> (timers w)) w.

Lemma heartbeat_initiate_traffic t info d0 w :
  alive w = true → socket_open w = true → timers w !! t = Some (mk_timer d0 None) →
  wrap_u32 (last_package_no info) ≠ package_no_ w →
  run_prog (heartbeat_initiate t info) w =
    Ret (tt, heartbeat_armed t (heartbeat_interval_ (settings_ w))
               (mk_heartbeat_info (wrap_i32 (package_no_ w)) (elapsed w) true) w).
Proof.
  intros Ha Ho Ht Hne. unfold heartbeat_initiate. rewrite run_bind, run_perform. run_simpl.
  rewrite Ha, Ho. run_simpl. rewrite (proj2 (Z.eqb_neq _ _)) by done. run_simpl.
  by erewrite run_arm.
Qed.

Lemma heartbeat_initiate_quiet t info d0 w :
  alive w = true → socket_open w = true → timers w !! t = Some (mk_timer d0 None) →
  wrap_u32 (last_package_no info) = package_no_ w → is_interval_stage info = true →
  ∃ p v, to_view p = Ret v ∧
    view_reads v Command.heartbeat_request_command flags_none None (fresh_guid (guids w)) [] ∧
    run_prog (heartbeat_initiate t info) w =
      Ret (tt, heartbeat_armed t (heartbeat_timeout_ (settings_ w))
                 (mk_heartbeat_info (last_package_no info) (elapsed w) false)
                 (set_posted (posted w ++ [send_package p]) (set_guids (S (guids w)) w))).
Proof.
  intros Ha Ho Ht He Hs.
  destruct (plain_package_reads Command.heartbeat_request_command (fresh_guid (guids w)))
    as (p & v & Hp & Hv & Hr); [apply fresh_guid_wf|].
  exists p, v. split_and!; [done..|]. unfold heartbeat_initiate, async_send.
  rewrite run_bind, run_perform. run_simpl.
  rewrite Ha, Ho. run_simpl. rewrite (proj2 (Z.eqb_eq _ _)) by done. run_simpl. rewrite Hs.
  rewrite run_bind, run_perform. run_simpl. rewrite run_bind, run_perform, Hp. run_simpl.
  rewrite run_bind, run_perform. run_simpl. by erewrite run_arm.
Qed.

Lemma heartbeat_initiate_silent t info w :
  alive w = true → socket_open w = true →
  wrap_u32 (last_package_no info) = package_no_ w → is_interval_stage info = false →
  run_prog (heartbeat_initiate t info) w = Ret (tt, set_socket_open false w).
Proof.
  intros Ha Ho He Hs. unfold heartbeat_initiate. rewrite run_bind, run_perform. run_simpl.
  rewrite Ha, Ho. run_simpl. rewrite (proj2 (Z.eqb_eq _ _)) by done. run_simpl. rewrite Hs.
  unfold heartbeat_error. rewrite bool_decide_eq_false_2 by apply connection_error_not_aborted.
  replace (is_error (make_error_code heartbeat_timeout) connection_closed) with false by done.
  rewrite run_bind, run_perform. run_simpl. by rewrite Ha.
Qed.

Lemma heartbeat_initiate_closed t info w :
  alive w = false ∨ socket_open w = false →
  run_prog (heartbeat_initiate t info) w = Ret (tt, w).
Proof.
  intros Hc. unfold heartbeat_initiate. rewrite run_bind, run_perform. run_simpl.
  assert (run_prog (heartbeat_error (make_error_code connection_closed)) w = Ret (tt, w)) as Herr.
  { unfold heartbeat_error. rewrite bool_decide_eq_false_2 by apply connection_error_not_aborted. done. }
  destruct (alive w), (socket_open w); run_simpl; done || by destruct Hc.
Qed.
End heartbeat_facts.

(** C33: One beat of the heartbeat chain, when its wait completes: packages
    received since the last beat restart the interval and send nothing; with
    none and in the interval stage, exactly one heartbeat request goes out and
    the timer is armed with the heartbeat timeout; with still none after that,
    the socket is closed and the chain ends; on a connection that is closed or
    gone, or when the wait was cancelled, the chain ends without any effect. *)
Theorem heartbeat_beats {AL : Allocator} {AE : AsioErrors} {GS : GuidSource} t info d0 w
    (Ht : timers w !! t = Some (mk_timer d0 None)) :
  (alive w = true → socket_open w = true →
    (wrap_u32 (last_package_no info) ≠ package_no_ w →
      run_prog (heartbeat_wait_completed t info success) w =
        Ret (tt, heartbeat_armed t (heartbeat_interval_ (settings_ w))
          (mk_heartbeat_info (wrap_i32 (package_no_ w)) (elapsed w) true) w)) ∧
    (wrap_u32 (last_package_no info) = package_no_ w → is_interval_stage info = true →
      ∃ p v, to_view p = Ret v ∧
        view_reads v Command.heartbeat_request_command flags_none None (fresh_guid (guids w)) [] ∧
        run_prog (heartbeat_wait_completed t info success) w =
          Ret (tt, heartbeat_armed t (heartbeat_timeout_ (settings_ w))
            (mk_heartbeat_info (last_package_no info) (elapsed w) false)
            (set_posted (posted w ++ [send_package p]) (set_guids (S (guids w)) w)))) ∧
    (wrap_u32 (last_package_no info) = package_no_ w → is_interval_stage info = false →
      run_prog (heartbeat_wait_completed t info success) w = Ret (tt, set_socket_open false w))) ∧
  (alive w = false ∨ socket_open w = false →
    run_prog (heartbeat_wait_completed t info success) w = Ret (tt, w)) ∧
  run_prog (heartbeat_wait_completed t info operation_aborted) w = Ret (tt, w).
Proof.
  unfold heartbeat_wait_completed. rewrite failed_success, operation_aborted_failed. cbn [negb].
  split_and!.
  - intros Ha Ho. split_and!; intros.
    + by eapply heartbeat_initiate_traffic.
    + by eapply heartbeat_initiate_quiet.
    + by apply heartbeat_initiate_silent.
  - apply heartbeat_initiate_closed.
  - unfold heartbeat_error. by rewrite bool_decide_eq_true_2.
Qed.

Lemma heartbeat_beats_witness :
  let w := set_socket_open true (set_timers [mk_timer 5 None]
    (new_connection default_connection_settings "ES-1")) in
  let info := mk_heartbeat_info 0 0 false in
  timers w !! 0%nat = Some (mk_timer 5 None) ∧
  run_prog (AE := linux_asio_errors) (GS := counting_guids)
    (heartbeat_wait_completed (AL := zero_allocator) (AE := linux_asio_errors) 0 info success) w
    = Ret (tt, set_socket_open false w).
Proof.
  intros w info. split; [reflexivity|].
  exact (proj2 (proj2 (proj1 (heartbeat_beats (AL := zero_allocator)
    (AE := linux_asio_errors) (GS := counting_guids) 0 info 5 w eq_refl) eq_refl eq_refl)) eq_refl eq_refl).
Defined.

(** A connection on which nothing is received is closed: heartbeat_op on an
    open connection sends one request at once and waits for the heartbeat
    timeout; if that wait expires while the connection is still open and its
    package counter has not moved, the socket is closed. *)
Theorem silent_connection_closed {AL : Allocator} {AE : AsioErrors} {GS : GuidSource} w
    (Halive : alive w = true) (Hopen : socket_open w = true) (Hno : 0 ≤ package_no_ w < 2 ^ 32) :
  ∃ p w1 info, run_prog heartbeat_op w = Ret (tt, w1) ∧ posted w1 = posted w ++ [send_package p] ∧
    timers w1 = timers w ++ [mk_timer (heartbeat_timeout_ (settings_ w)) (Some (wait_heartbeat info))] ∧
    ∀ w2, alive w2 = true → socket_open w2 = true → package_no_ w2 = package_no_ w →
      run_prog (heartbeat_wait_completed (length (timers w)) info success) w2 =
        Ret (tt, set_socket_open false w2).
Proof.
  assert (wrap_u32 (wrap_i32 (package_no_ w)) = package_no_ w) as Hwrap
    by (rewrite wrap_u32_i32; by apply wrap_u32_small).
  set (w0 := set_timers (timers w ++ [mk_timer 0 None]) w).
  destruct (heartbeat_initiate_quiet (length (timers w))
    (mk_heartbeat_info (wrap_i32 (package_no_ w)) (elapsed w) true) 0 w0)
    as (p & v & _ & _ & Hrun); [done|done| |done|done|].
  { unfold w0; cbn [timers set_timers]. by rewrite list_lookup_middle. }
  eexists p, _, (mk_heartbeat_info (wrap_i32 (package_no_ w)) (elapsed w) false).
  split_and!.
  - unfold heartbeat_op. rewrite run_bind, run_perform. run_simpl.
    rewrite run_bind, run_perform. run_simpl. exact Hrun.
  - done.
  - unfold heartbeat_armed, w0; cbn. rewrite <- (Nat.add_0_r (length (timers w))).
    by rewrite insert_app_r.
  - intros w2 Ha Ho Hp. unfold heartbeat_wait_completed. rewrite failed_success. cbn [negb].
    apply heartbeat_initiate_silent; [done..|by rewrite Hp|done].
Qed.

Lemma silent_connection_closed_witness :
  let w := set_socket_open true (new_connection default_connection_settings "ES-1") in
  alive w = true ∧
  ∃ p w1 info, run_prog (AE := linux_asio_errors) (GS := counting_guids)
      (heartbeat_op (AL := zero_allocator) (AE := linux_asio_errors)) w = Ret (tt, w1) ∧
    posted w1 = [send_package p] ∧
    timers w1 = [mk_timer (heartbeat_timeout_ default_connection_settings) (Some (wait_heartbeat info))].
Proof.
  intros w. split; [reflexivity|].
  destruct (silent_connection_closed (AL := zero_allocator) (AE := linux_asio_errors) (GS := counting_guids) w
    eq_refl eq_refl ltac:(cbn; lia)) as (p & w1 & info & H1 & H2 & H3 & _).
  exists p, w1, info. split_and!; assumption.
Defined.

(** The answer to the identification reaches the user's handler only if it is
    the right one. *)
Lemma identification_answered {AL : Allocator} {AE : AsioErrors} {GS : GuidSource}
    cb deadline authenticated corr view cmd w :
  command view = Ret cmd →
  run_prog (identification_closure (Some cb) deadline authenticated corr success view) w =
    Ret (tt, let w1 := abort_wait deadline w in
      if bool_decide (cmd = Command.client_identified)
      then set_calls (calls w1 ++ [(cb, cb_connection
             (if authenticated then success else make_error_code authentication_failed,
              Some (mk_connection_result corr)))]) w1
      else w1).
Proof.
  intros Hc. unfold identification_closure, connection_lambda. rewrite run_bind, run_perform. run_simpl.
  rewrite failed_success.
  destruct authenticated; cbn [negb andb]; rewrite ?failed_success, ?is_error_refl;
    cbn [negb orb]; rewrite ?orb_true_r, ?is_error_refl, ?failed_success; cbn [negb orb];
    rewrite ?orb_true_r; rewrite run_bind, run_perform; rewrite Hc; run_simpl; by case_bool_decide.
Qed.

(** What the user learns from the answer to the identification: with
    authentication, success and the connection id; without (so for every
    client that has no credentials), the error authentication_failed together
    with a connection id; any other command than client_identified is dropped
    without calling the handler; an error is passed on alone; and a closure
    whose handler has been moved from must not run. *)
Theorem identification_outcomes {AL : Allocator} {AE : AsioErrors} {GS : GuidSource}
    cb deadline authenticated corr view w :
  let w1 := abort_wait deadline w in
  let run h ec v := run_prog (identification_closure h deadline authenticated corr ec v) w in
  let told r := Ret (tt, set_calls (calls w1 ++ [(cb, cb_connection r)]) w1) in
  (command view = Ret Command.client_identified →
    run (Some cb) success view =
      told (if authenticated then success else make_error_code authentication_failed,
            Some (mk_connection_result corr))) ∧
  (∀ cmd, command view = Ret cmd → cmd ≠ Command.client_identified →
    run (Some cb) success view = Ret (tt, w1)) ∧
  (∀ ec v, failed ec = true → ec ≠ make_error_code authentication_failed →
    run (Some cb) ec v = told (ec, None)) ∧
  (∀ ec v, run None ec v = Undef moved_from).
Proof.
  intros w1 run told. subst run told w1. split_and!.
  - intros Hc. rewrite (identification_answered _ _ _ _ _ _ _ Hc). by rewrite bool_decide_eq_true_2.
  - intros cmd Hc Hne. rewrite (identification_answered _ _ _ _ _ _ _ Hc). by rewrite bool_decide_eq_false_2.
  - intros ec v Hf Hne. unfold identification_closure, connection_lambda. rewrite run_bind, run_perform. run_simpl. rewrite Hf.
    rewrite andb_false_r. cbv zeta. rewrite ?Hf. cbn [negb orb].
    assert (is_error ec authentication_failed = false) as -> by (by apply not_true_iff_false; rewrite is_error_iff).
    cbn [orb]. by run_simpl.
  - intros ec v. unfold identification_closure, connection_lambda.
    rewrite run_bind, run_perform. run_simpl. by destruct authenticated, (failed ec); cbn; case_match.
Qed.

Section identify_facts.
Context {AL : Allocator} {PB : Protobuf} {AE : AsioErrors} {GS : GuidSource}.

(** The credentials and the serialized identification have bounded sizes. *)
Record identify_sizes (w : world) : Prop := {
  identify_user_size : (string_size (username (default_user_credentials_ (settings_ w))) < 256)%nat;
  identify_password_size : (string_size (password (default_user_credentials_ (settings_ w))) < 256)%nat;
  identify_message_size : Z.of_nat (length (SerializeAsString
    {| ic_version := ES_CLIENT_VERSION; ic_connection_name := Some (connection_name_ w) |})) < 2 ^ 30
}.

Lemma identify_package_reads w corr authenticated :
  identify_sizes w → length corr = 16%nat →
  ∃ p v, identify_package (settings_ w) (connection_name_ w) corr authenticated = Ret p ∧
    to_view p = Ret v ∧ command v = Ret Command.identify_client ∧ correlation_id v = Ret corr.
Proof.
  intros [Hu Hp Hm] Hc. unfold identify_package. destruct authenticated.
  - edestruct auth_package_reads as (p & v & -> & Hv & Hr); [exact Hc|exact Hu|exact Hp|apply Hm|].
    exists p, v. by split_and!; try apply Hr.
  - edestruct plain_package_reads_message as (p & v & -> & Hv & Hr); [exact Hc|apply Hm|].
    exists p, v. by split_and!; try apply Hr.
Qed.

Lemma identify_initiate_run t info n handler authenticated d0 w :
  alive w = true → timers w !! t = Some (mk_timer d0 None) → identify_sizes w →
  length (identity_correlation_id info) = 16%nat →
  ∃ p v, to_view p = Ret v ∧ command v = Ret Command.identify_client ∧
    correlation_id v = Ret (identity_correlation_id info) ∧
    run_prog (identify_initiate t info n handler authenticated) w =
      Ret (tt, set_timers (<[t := mk_timer (operation_timeout_ (settings_ w))
                                 (Some (wait_identify info n None authenticated))]> (timers w))
        (set_operations_map (register_op (identity_correlation_id info)
           (op_identification handler t authenticated (identity_correlation_id info)) (operations_map_ w))
        (set_posted (posted w ++ [send_package p]) w))).
Proof.
  intros Ha Ht Hs Hc.
  destruct (identify_package_reads w (identity_correlation_id info) authenticated Hs Hc)
    as (p & v & Hp & Hv & Hcmd & Hcorr).
  exists p, v. split_and!; [done..|]. unfold identify_initiate, async_send.
  rewrite run_bind, run_perform. run_simpl. rewrite Ha. run_simpl.
  rewrite run_bind, run_perform, Hp. run_simpl. rewrite run_bind, run_perform. run_simpl.
  rewrite run_bind, run_perform. run_simpl. by erewrite run_arm.
Qed.
End identify_facts.

(** The timeout of an identification: the first max_reconnections() of them
    send the identification again, with the same correlation id and without
    touching the handler that waits for the answer, and re-arm the timer with
    the operation timeout; the next one reports operation_timeout to that
    handler, whose entry stays in the operations map. *)
Theorem identify_retries {AL : Allocator} {PB : Protobuf} {AE : AsioErrors} {GS : GuidSource} {DI : Dispatch}
    t info n authenticated d0 op w
    (Halive : alive w = true) (Ht : timers w !! t = Some (mk_timer d0 None)) (Hsizes : identify_sizes w)
    (Hcorr : length (identity_correlation_id info) = 16%nat)
    (Hop : operations_map_ w !! identity_correlation_id info = Some op)
    (Hn : 0 ≤ n < 2 ^ 32 - 1) (Hmax : 0 ≤ max_reconnections_ (settings_ w) < 2 ^ 32) :
  (n < max_reconnections_ (settings_ w) →
    ∃ p v, to_view p = Ret v ∧ command v = Ret Command.identify_client ∧
      correlation_id v = Ret (identity_correlation_id info) ∧
      run_prog (identify_wait_completed t info n None authenticated success) w =
        Ret (tt, set_timers (<[t := mk_timer (operation_timeout_ (settings_ w))
                                   (Some (wait_identify info (n + 1) None authenticated))]> (timers w))
                   (set_posted (posted w ++ [send_package p]) w))) ∧
  (max_reconnections_ (settings_ w) ≤ n →
    run_prog (identify_wait_completed t info n None authenticated success) w =
      run_prog (invoke_operation (identity_correlation_id info) op (make_error_code operation_timeout)
                  null_view) w).
Proof.
  unfold identify_wait_completed. split.
  - intros Hlt.
    destruct (identify_initiate_run t info (wrap_u32 (n + 1)) None authenticated d0 w)
      as (p & v & Hv & Hcmd & Hcr & Hrun); [done..|].
    exists p, v. split_and!; [done..|]. rewrite run_bind, run_perform. run_simpl.
    rewrite Halive, failed_success. run_simpl. cbv zeta.
    rewrite (proj2 (Z.gtb_lt _ _)), (proj2 (Z.ltb_lt _ _)) by lia. cbn [andb].
    rewrite Hrun. rewrite (register_op_present _ _ _ op) by done. rewrite wrap_u32_small by lia.
    by destruct w.
  - intros Hge. rewrite run_bind, run_perform. run_simpl.
    rewrite Halive, failed_success. run_simpl. cbv zeta.
    rewrite (proj2 (Z.ltb_ge n _)) by lia. rewrite andb_false_r.
    rewrite run_bind, run_perform. unfold at_key. rewrite Hop. by run_simpl.
Qed.

Lemma identify_retries_witness :
  let corr := le_encode 16 0 in
  let w := set_operations_map {[corr := op_identification (Some 1%nat) 0 false corr]}
    (set_timers [mk_timer 5 None] (new_connection default_connection_settings "ES-1")) in
  let info := mk_identity_info corr 0 in
  let disp : Dispatch := {| invoke_operation _ _ _ _ := skip; invoke_subscription _ _ _ := skip |} in
  operations_map_ w !! corr = Some (op_identification (Some 1%nat) 0 false corr) ∧
  ∃ p v, to_view p = Ret v ∧ command v = Ret Command.identify_client ∧ correlation_id v = Ret corr ∧
    run_prog (AE := linux_asio_errors) (GS := counting_guids)
      (identify_wait_completed (AL := zero_allocator) (PB := sample_protobuf) (AE := linux_asio_errors)
        (DI := disp) 0 info 0 None false success) w =
    Ret (tt, set_timers [mk_timer (operation_timeout_ default_connection_settings)
                           (Some (wait_identify info 1 None false))]
               (set_posted [send_package p] w)).
Proof.
  intros corr w info disp. split; [vm_compute; reflexivity|].
  exact (proj1 (identify_retries (AL := zero_allocator) (PB := sample_protobuf) (AE := linux_asio_errors)
    (GS := counting_guids) (DI := disp) 0 info 0 false 5 (op_identification (Some 1%nat) 0 false corr) w
    eq_refl eq_refl ltac:(split; [vm_compute; lia|vm_compute; lia|reflexivity]) eq_refl
    ltac:(vm_compute; reflexivity) ltac:(lia) ltac:(vm_compute; split; [discriminate|reflexivity]))
    ltac:(vm_compute; reflexivity)).
Defined.
