(* ===== verification/Subscription.v ===== *)
(** Subscriptions: subscription_base (include/subscription/subscription_base.hpp)
    with the volatile (volatile_subscription.hpp) and the persistent
    (persistent_subscription.hpp) subscriptions derived from it. *)
From S2P Require Import Prelude Errors Basics BufferQueue TcpPackage Messages Events Settings Operations.
From S2P Require Import OperationsMap World Connection.

Section subscription.
Context {AL : Allocator} {PB : Protobuf} {AE : AsioErrors} {GS : GuidSource}.

(** ** Construction

    The constructor of subscription_base, with the members of the derived
    class; [kind] is what that class's constructor makes of its arguments.
    shared_ptr and the connection are not represented. *)
Definition new_subscription (key : guid_type) (stream : string) (kind : subscription_kind) : subscription := {|
  key_ := key;
  stream_ := stream;
  last_event_number_ := None;
  last_commit_position_ := None;
  subscribed_ := false;
  handle_guard_ := false;
  kind_ := kind
|}.

Definition make_volatile_subscription (key : guid_type) (stream : string) (resolve_link_tos : bool) : subscription :=
  new_subscription key stream (volatile resolve_link_tos).
(** The subscription to the whole log has the empty stream name. *)
Definition make_volatile_all_subscription (key : guid_type) (resolve_link_tos : bool) : subscription :=
  new_subscription key EmptyString (volatile resolve_link_tos).
Definition make_persistent_subscription (key : guid_type) (stream group_name : string)
    (allowed_in_flight_messages : Z) (auto_ack : bool) : subscription :=
  new_subscription key stream (persistent group_name EmptyString (wrap_u32 allowed_in_flight_messages) auto_ack).
Definition make_catchup_subscription (key : guid_type) (stream : string) (from_event_number : Z)
    (settings : catchup_subscription_settings) : subscription :=
  new_subscription key stream (catchup from_event_number settings q_new).
Definition make_catchup_all_subscription (key : guid_type) (from_position : position)
    (settings : catchup_subscription_settings) : subscription :=
  new_subscription key EmptyString (catchup_all from_position settings q_new Position.default_position).

(** Which of them is called, with its arguments. *)
Inductive subscription_args : Type :=
| args_volatile (stream : string) (resolve_link_tos : bool)
| args_volatile_all (resolve_link_tos : bool)
| args_persistent (stream group_name : string) (allowed_in_flight_messages : Z) (auto_ack : bool)
| args_catchup (stream : string) (from_event_number : Z) (settings : catchup_subscription_settings)
| args_catchup_all (from_position : position) (settings : catchup_subscription_settings).

Definition make_subscription (key : guid_type) (a : subscription_args) : subscription :=
  match a with
  | args_volatile stream resolve => make_volatile_subscription key stream resolve
  | args_volatile_all resolve => make_volatile_all_subscription key resolve
  | args_persistent stream group allowed auto_ack => make_persistent_subscription key stream group allowed auto_ack
  | args_catchup stream from settings => make_catchup_subscription key stream from settings
  | args_catchup_all from settings => make_catchup_all_subscription key from settings
  end.

(** ** The object a [this] pointer designates *)
Definition get_object (this : nat) : prog subscription :=
  w ← get_world;
  lift (match objects w !! this with Some s => Ret s | None => Undef dangling_reference end).

Definition update_object (this : nat) (f : subscription → subscription) : prog unit :=
  s ← get_object this;
  set_object this (f s).

(** ** Ending a subscription *)

(** shutdown() of the catch-up subscriptions; the other classes have none. *)
Definition shutdown (s : subscription) : subscription :=
  match kind_ s with
  | catchup n settings buffer => set_kind (catchup n settings (q_clear buffer)) s
  | catchup_all p settings buffer target => set_kind (catchup_all p settings (q_clear buffer) target) s
  | volatile _ | persistent _ _ _ _ => s
  end.

(** unsubscribe(ec, dropped) *)
Definition unsubscribe_dropping (this : nat) (ec : error_code) (dropped : nat) : prog unit :=
  update_object this (λ s, shutdown (set_handle_guard true (set_is_subscribed false s)));;
  if is_error ec unsubscribed then
    s ← get_object this;
    package ← lift (tcp_package_plain Command.unsubscribe_from_stream flags_none (key_ s)
                      (SerializeAsString mk_UnsubscribeFromStream));
    async_send_with package (on_unsubscribe this ec dropped)
  else
    post (drop_subscription this ec dropped).

(** The lambda posted for every error but [unsubscribed]. *)
Definition run_drop (this : nat) (ec : error_code) (dropped : nat) : prog unit :=
  s ← get_object this;
  erase_subscription (key_ s);;
  call_user dropped (cb_dropped ec this).

(** The handler of the response to the unsubscribe package. *)
Definition unsubscribe_response (this : nat) (ec : error_code) (dropped : nat) (err : error_code) : prog unit :=
  if negb (failed err) then run_drop this ec dropped
  else unsubscribe_dropping this err dropped.

(** The registered lambda when it is called with an error. *)
Definition lambda_on_error (c : subscription_closure) (ec : error_code) : prog unit :=
  s ← get_object (sc_this c);
  if handle_guard_ s then skip
  else unsubscribe_dropping (sc_this c) ec (sc_dropped c).

(** unsubscribe(ec) calls the lambda registered under the key; the public
    unsubscribe() does so with the error [unsubscribed]. *)
Definition unsubscribe_with (this : nat) (ec : error_code) : prog unit :=
  s ← get_object this;
  w ← get_world;
  c ← lift (at_key (subscriptions_map_ w) (key_ s));
  lambda_on_error c ec.
Definition unsubscribe (this : nat) : prog unit := unsubscribe_with this (make_error_code unsubscribed).

(** ** Starting *)

(** subscription_base::async_start registers the lambda; each registration has
    a number of its own. *)
Definition base_async_start (this event_appeared dropped : nat) : prog unit :=
  update_object this (set_handle_guard false);;
  s ← get_object this;
  w ← get_world;
  put_subscription (key_ s) (mk_subscription_closure (registrations w) this event_appeared dropped).

(** The package the derived classes start with. *)
Definition subscribe_request (settings : connection_settings) (s : subscription)
    (resolve_link_tos : bool) : outcome tcp_package :=
  make_request settings Command.subscribe_to_stream (key_ s) (SerializeAsString {|
    sts_event_stream_id := stream_ s;
    sts_resolve_link_tos := resolve_link_tos |}).

(** ** The registered lambda

    [child] is the on_package_received of the derived class; it answers
    false to leave the package to the base class. *)
Definition lambda_on_package (child : subscription_closure → tcp_package_view → prog bool)
    (c : subscription_closure) (view : tcp_package_view) : prog unit :=
  let this := sc_this c in
  let drop ec := unsubscribe_dropping this ec (sc_dropped c) in
  handled ← child c view;
  if (handled : bool) then skip
  else
    cmd ← lift (command view);
    if bool_decide (cmd = Command.subscription_dropped) then
      response ← lift (parse_view (M := SubscriptionDropped) view);
      match sd_reason response with
      | Drop_Unsubscribed => drop (make_error_code unsubscribed)
      | Drop_AccessDenied => drop (make_error_code sub_access_denied)
      | Drop_NotFound => drop (make_error_code sub_not_found)
      | _ => skip (* sets the error to unknown and returns *)
      end
    else if bool_decide (cmd = Command.not_authenticated) then
      drop (make_error_code sub_not_authenticated)
    else if bool_decide (cmd = Command.bad_request) then
      drop (make_error_code bad_request_error)
    else if bool_decide (cmd = Command.not_handled) then
      s ← get_object this;
      if subscribed_ s then drop (make_error_code sub_unknown)
      else
        response ← lift (parse_view (M := NotHandled) view);
        drop (make_error_code max_operation_retries)
    else drop (make_error_code server_error).

Definition subscription_lambda (child : subscription_closure → tcp_package_view → prog bool)
    (c : subscription_closure) (ec : error_code) (view : tcp_package_view) : prog unit :=
  s ← get_object (sc_this c);
  if handle_guard_ s then skip
  else if failed ec then unsubscribe_dropping (sc_this c) ec (sc_dropped c)
  else lambda_on_package child c view.

(** ** What every derived class does with a confirmation first *)
Definition confirm (last_commit_position : Z) (s : subscription) : subscription :=
  set_is_subscribed true (set_last_commit_position last_commit_position s).
Definition confirm_event_number (n : option Z) (s : subscription) : subscription :=
  match n with Some n => set_last_event_number n s | None => s end.

(** ** volatile_subscription *)
Definition volatile_async_start (this : nat) (resolve_link_tos : bool)
    (event_appeared dropped : nat) : prog unit :=
  s ← get_object this;
  w ← get_world;
  package ← lift (subscribe_request (settings_ w) s resolve_link_tos);
  base_async_start this event_appeared dropped;;
  async_send package.

Definition volatile_on_package_received (c : subscription_closure) (view : tcp_package_view) : prog bool :=
  cmd ← lift (command view);
  if bool_decide (cmd = Command.subscription_confirmation) then
    response ← lift (parse_view (M := SubscriptionConfirmation) view);
    update_object (sc_this c) (λ s,
      confirm_event_number (conf_last_event_number response)
        (confirm (conf_last_commit_position response) s));;
    mret true
  else if bool_decide (cmd = Command.stream_event_appeared) then
    message ← lift (parse_view (M := StreamEventAppeared) view);
    e ← lift (resolved_of_ResolvedEvent (sea_event message));
    call_user (sc_event_appeared c) (cb_event e);;
    mret true
  else mret false.

(** ** persistent_subscription *)

(** What acknowledge and fail accept: ids, or events whose id they take. *)
Inductive guid_or_event : Type := item_guid (g : guid_type) | item_event (e : resolved_event).

Definition item_id (i : guid_or_event) : outcome bytes :=
  match i with
  | item_guid g => Ret g
  | item_event e => o ← opt_value (original_event e); Ret (event_id_ o)
  end.

Fixpoint item_ids (l : list guid_or_event) : outcome (list bytes) :=
  match l with
  | [] => Ret []
  | i :: l => id ← item_id i; ids ← item_ids l; Ret (id :: ids)
  end.

Definition subscription_id_of (s : subscription) : string :=
  match kind_ s with persistent _ id _ _ => id | _ => EmptyString end.

Definition acknowledge (this : nat) (items : list guid_or_event) : prog unit :=
  s ← get_object this;
  ids ← lift (item_ids items);
  w ← get_world;
  package ← lift (make_request (settings_ w) Command.persistent_subscription_ack_events (key_ s)
    (SerializeAsString {| ack_subscription_id := subscription_id_of s; ack_processed_event_ids := ids |}));
  async_send package.

Inductive nak_event_action : Type := nak_unknown | nak_park | nak_retry | nak_skip | nak_stop.

(** [static_cast<NakAction>(action)]: the numbers of the two enums agree. *)
Definition nak_action_of (action : nak_event_action) : NakAction :=
  match action with
  | nak_unknown => Nak_Unknown | nak_park => Nak_Park | nak_retry => Nak_Retry
  | nak_skip => Nak_Skip | nak_stop => Nak_Stop
  end.

Definition fail (this : nat) (items : list guid_or_event) (action : nak_event_action) : prog unit :=
  s ← get_object this;
  ids ← lift (item_ids items);
  w ← get_world;
  package ← lift (make_request (settings_ w) Command.persistent_subscription_nak_events (key_ s)
    (SerializeAsString {| nak_subscription_id := subscription_id_of s; nak_processed_event_ids := ids;
                          nak_message := None; nak_action := nak_action_of action |}));
  async_send package.

Definition persistent_async_start (this : nat) (group_name : string) (allowed_in_flight_messages : Z)
    (event_appeared dropped : nat) : prog unit :=
  s ← get_object this;
  w ← get_world;
  package ← lift (make_request (settings_ w) Command.connect_to_persistent_subscription (key_ s)
    (SerializeAsString {| ctps_subscription_id := group_name; ctps_event_stream_id := stream_ s;
                          ctps_allowed_in_flight_messages := wrap_i32 allowed_in_flight_messages |}));
  base_async_start this event_appeared dropped;;
  async_send package.

Definition persistent_drop_error (r : SubscriptionDropReason) : error_code :=
  match r with
  | Drop_AccessDenied => make_error_code sub_access_denied
  | Drop_NotFound => make_error_code sub_not_found
  | Drop_PersistentSubscriptionDeleted => make_error_code persistent_subscription_deleted
  | Drop_SubscriberMaxCountReached => make_error_code subscriber_max_count_reached
  | Drop_Unsubscribed => make_error_code unsubscribed
  end.

Definition persistent_on_package_received (group_name : string) (allowed : Z) (auto_ack : bool)
    (c : subscription_closure) (view : tcp_package_view) : prog bool :=
  let this := sc_this c in
  cmd ← lift (command view);
  if bool_decide (cmd = Command.persistent_subscription_confirmation) then
    response ← lift (parse_view (M := PersistentSubscriptionConfirmation) view);
    update_object this (λ s,
      set_kind (persistent group_name (pconf_subscription_id response) allowed auto_ack)
        (confirm_event_number (pconf_last_event_number response)
          (confirm (pconf_last_commit_position response) s)));;
    mret true
  else if bool_decide (cmd = Command.persistent_subscription_stream_event_appeared) then
    message ← lift (parse_view (M := PersistentSubscriptionStreamEventAppeared) view);
    resolved ← lift (resolved_of_ResolvedIndexedEvent (psea_event message));
    call_user (sc_event_appeared c)
      (cb_persistent_event resolved (wrap_i32 (default 0 (psea_retryCount message))));;
    (if auto_ack then acknowledge this [item_event resolved] else skip);;
    mret true
  else if bool_decide (cmd = Command.subscription_dropped) then
    message ← lift (parse_view (M := SubscriptionDropped) view);
    unsubscribe_with this (persistent_drop_error (sd_reason message));;
    mret true
  else mret false.
End subscription.

Section facts.
Context {AL : Allocator} {PB : Protobuf} {AE : AsioErrors} {GS : GuidSource}.
Implicit Types (this dropped : nat) (s : subscription) (c : subscription_closure).

Lemma run_get_object this s w :
  objects w !! this = Some s → run_prog (get_object this) w = Ret (s, w).
Proof. intros Hs. unfold get_object. run_prog_steps. by rewrite Hs. Qed.

Lemma run_update_object this f s w :
  objects w !! this = Some s →
  run_prog (update_object this f) w = Ret (tt, set_objects (<[this := f s]> (objects w)) w).
Proof. intros Hs. unfold update_object. rewrite run_bind, (run_get_object _ _ _ Hs). done. Qed.

(** A subscription object after unsubscribe(ec, dropped). *)
Definition ended (s : subscription) : subscription :=
  shutdown (set_handle_guard true (set_is_subscribed false s)).

Lemma ended_guard s : handle_guard_ (ended s) = true ∧ key_ (ended s) = key_ s ∧ subscribed_ (ended s) = false.
Proof. unfold ended, shutdown. by destruct (kind_ _). Qed.

(** The state after a subscription has ended with an error other than
    unsubscribed: the call of the dropped handler is posted. *)
Definition dropping this ec dropped s (w : world) : world :=
  set_posted (posted w ++ [drop_subscription this ec dropped])
    (set_objects (<[this := ended s]> (objects w)) w).

Lemma unsubscribe_dropping_error this ec dropped s w :
  objects w !! this = Some s → ec ≠ make_error_code unsubscribed →
  run_prog (unsubscribe_dropping this ec dropped) w = Ret (tt, dropping this ec dropped s w).
Proof.
  intros Hs Hec. unfold unsubscribe_dropping. rewrite run_bind, (run_update_object _ _ _ _ Hs). run_simpl.
  assert (is_error ec unsubscribed = false) as -> by (apply not_true_iff_false; by rewrite is_error_iff).
  by run_prog_steps.
Qed.

(** The lambda does nothing once the guard is set. *)
Lemma guarded_lambda child c ec view s w :
  objects w !! sc_this c = Some s → handle_guard_ s = true →
  run_prog (subscription_lambda child c ec view) w = Ret (tt, w).
Proof.
  intros Hs Hg. unfold subscription_lambda. rewrite run_bind, (run_get_object _ _ _ Hs). run_simpl.
  by rewrite Hg.
Qed.

Lemma open_lambda_error child c ec view s w :
  objects w !! sc_this c = Some s → handle_guard_ s = false → failed ec = true →
  run_prog (subscription_lambda child c ec view) w =
    run_prog (unsubscribe_dropping (sc_this c) ec (sc_dropped c)) w.
Proof.
  intros Hs Hg He. unfold subscription_lambda. rewrite run_bind, (run_get_object _ _ _ Hs). run_simpl.
  by rewrite Hg, He.
Qed.

Lemma open_lambda_package child c view s w :
  objects w !! sc_this c = Some s → handle_guard_ s = false →
  run_prog (subscription_lambda child c success view) w = run_prog (lambda_on_package child c view) w.
Proof.
  intros Hs Hg. unfold subscription_lambda. rewrite run_bind, (run_get_object _ _ _ Hs). run_simpl.
  by rewrite Hg, failed_success.
Qed.

Lemma run_drop_run this ec dropped s w :
  objects w !! this = Some s →
  run_prog (run_drop this ec dropped) w =
    Ret (tt, set_calls (calls w ++ [(dropped, cb_dropped ec this)])
               (set_subscriptions_map (erase (key_ s) (subscriptions_map_ w)) w)).
Proof. intros Hs. unfold run_drop. rewrite run_bind, (run_get_object _ _ _ Hs). by run_prog_steps. Qed.

(** The base class on a package its derived class did not take. *)
Lemma base_on_package child c view cmd w :
  run_prog (child c view) w = Ret (false, w) → command view = Ret cmd →
  run_prog (lambda_on_package child c view) w =
    run_prog (lambda_on_package (λ _ _, mret false) c view) w.
Proof. intros Hc Hcmd. unfold lambda_on_package. by rewrite run_bind, Hc. Qed.
End facts.

(** C27: How a subscription ends on an error of the connection other than
    unsubscribed: the registered lambda marks the object as not subscribed,
    sets its guard and posts one job, whatever the error was; its key stays.
    From then on the lambda ignores every package and every error, in every
    state in which the guard of its object is set, whatever else of the object
    has changed (a catch-up read may have advanced its event number or emptied
    its queue); and in every state in which the object still has its key the
    job removes the entry under that key and calls the dropped handler once,
    with the error and the object the lambda was called with. *)
Theorem subscription_ends {AL : Allocator} {PB : Protobuf} {AE : AsioErrors} {GS : GuidSource}
    child c ec view s w
    (Hs : objects w !! sc_this c = Some s) (Hopen : handle_guard_ s = false)
    (Hec : failed ec = true) (Hne : ec ≠ make_error_code unsubscribed) :
  let w1 := dropping (sc_this c) ec (sc_dropped c) s w in
  run_prog (subscription_lambda child c ec view) w = Ret (tt, w1) ∧
  posted w1 = posted w ++ [drop_subscription (sc_this c) ec (sc_dropped c)] ∧
  (∃ s1, objects w1 !! sc_this c = Some s1 ∧
    handle_guard_ s1 = true ∧ subscribed_ s1 = false ∧ key_ s1 = key_ s) ∧
  (∀ ec' view' w2 s2, objects w2 !! sc_this c = Some s2 → handle_guard_ s2 = true →
    run_prog (subscription_lambda child c ec' view') w2 = Ret (tt, w2)) ∧
  (∀ w2 s2, objects w2 !! sc_this c = Some s2 → key_ s2 = key_ s →
    ∃ w3, run_prog (run_drop (sc_this c) ec (sc_dropped c)) w2 = Ret (tt, w3) ∧
      calls w3 = calls w2 ++ [(sc_dropped c, cb_dropped ec (sc_this c))] ∧
      subscriptions_map_ w3 = erase (key_ s) (subscriptions_map_ w2)).
Proof.
  intros w1. destruct (ended_guard s) as (Hg & Hk & Hsub).
  split_and!.
  - rewrite (open_lambda_error _ _ _ _ _ _ Hs Hopen Hec). by apply unsubscribe_dropping_error.
  - done.
  - exists (ended s). split; [apply lookup_insert_eq|done].
  - intros ec' view' w2 s2 H2 Hg2. by eapply guarded_lambda.
  - intros w2 s2 H2 Hk2. eexists. split; [by apply run_drop_run|]. split; [done|]. by rewrite <- Hk2.
Qed.

(** What the base class makes of a package its derived class leaves to it:
    the server's drop for AccessDenied or NotFound, a refusal (not
    authenticated, bad request, not handled) and any other command each end
    the subscription with their own error; but a drop for one of the two other
    reasons is ignored: the subscription stays registered and its dropped
    handler is not told. *)
Theorem base_drop_cases {AL : Allocator} {PB : Protobuf} {AE : AsioErrors} {GS : GuidSource}
    child c view s w cmd bs
    (Hs : objects w !! sc_this c = Some s) (Hopen : handle_guard_ s = false)
    (Hchild : run_prog (child c view) w = Ret (false, w))
    (Hcmd : command view = Ret cmd) (Hbs : message_bytes view = Ret bs) :
  let run := run_prog (subscription_lambda child c success view) w in
  let ends ec := run = Ret (tt, dropping (sc_this c) ec (sc_dropped c) s w) in
  (cmd = Command.subscription_dropped →
    match sd_reason (ParseFromArray bs) with
    | Drop_Unsubscribed => True
    | Drop_AccessDenied => ends (make_error_code sub_access_denied)
    | Drop_NotFound => ends (make_error_code sub_not_found)
    | Drop_PersistentSubscriptionDeleted | Drop_SubscriberMaxCountReached => run = Ret (tt, w)
    end) ∧
  (cmd = Command.not_authenticated → ends (make_error_code sub_not_authenticated)) ∧
  (cmd = Command.bad_request → ends (make_error_code bad_request_error)) ∧
  (cmd = Command.not_handled →
    ends (if subscribed_ s then make_error_code sub_unknown else make_error_code max_operation_retries)) ∧
  (cmd ∉ [Command.subscription_dropped; Command.not_authenticated; Command.bad_request; Command.not_handled] →
    ends (make_error_code server_error)).
Proof.
  intros run ends. subst run ends. cbv beta. rewrite (open_lambda_package _ _ _ _ _ Hs Hopen).
  rewrite (base_on_package _ _ _ _ _ Hchild Hcmd).
  assert (∀ ec, ec ≠ make_error_code unsubscribed →
    run_prog (unsubscribe_dropping (sc_this c) ec (sc_dropped c)) w =
      Ret (tt, dropping (sc_this c) ec (sc_dropped c) s w)) as Hdrop
    by (intros; by apply unsubscribe_dropping_error).
  unfold lambda_on_package. cbn [mbind prog_mbind prog_bind mret prog_mret].
  split_and!; intros Hc; rewrite run_bind, run_perform, Hcmd; run_simpl.
  - subst cmd. rewrite bool_decide_eq_true_2 by done. rewrite run_bind, run_perform.
    rewrite (parse_view_ok _ _ Hbs). run_simpl.
    destruct (sd_reason _); [done|by apply Hdrop|by apply Hdrop|done|done].
  - subst cmd. rewrite bool_decide_eq_false_2, bool_decide_eq_true_2 by done. by apply Hdrop.
  - subst cmd. rewrite !bool_decide_eq_false_2, bool_decide_eq_true_2 by done. by apply Hdrop.
  - subst cmd. rewrite !bool_decide_eq_false_2, bool_decide_eq_true_2 by done.
    rewrite run_bind, (run_get_object _ _ _ Hs). run_simpl. destruct (subscribed_ s); [by apply Hdrop|].
    rewrite run_bind, run_perform, (parse_view_ok _ _ Hbs). run_simpl. by apply Hdrop.
  - rewrite !bool_decide_eq_false_2 by (intros ->; apply Hc; set_solver). by apply Hdrop.
Qed.

(** A connection with one started subscription, for examples. *)
Definition sample_subscription (kind : subscription_kind) : subscription :=
  mk_subscription (replicate 16 x05) "stream" None None true false kind.
Definition sample_closure : subscription_closure := mk_subscription_closure 0 0 1 2.
Definition sample_subscribed (kind : subscription_kind) : world :=
  set_objects {[0%nat := sample_subscription kind]}
    (set_subscriptions_map {[replicate 16 x05 := sample_closure]}
      (new_connection default_connection_settings "ES-1")).

Lemma subscription_ends_witness :
  let w := sample_subscribed (volatile true) in
  let ec := make_error_code operation_timeout in
  failed ec = true ∧
  run_prog (AE := linux_asio_errors) (GS := counting_guids)
    (subscription_lambda (AL := zero_allocator) (PB := sample_protobuf)
      (volatile_on_package_received (PB := sample_protobuf)) sample_closure ec null_view) w
  = Ret (tt, dropping 0 ec 2 (sample_subscription (volatile true)) w).
Proof.
  intros w ec. split; [reflexivity|].
  exact (proj1 (subscription_ends (AL := zero_allocator) (PB := sample_protobuf) (AE := linux_asio_errors)
    (GS := counting_guids) (volatile_on_package_received (PB := sample_protobuf)) sample_closure ec null_view
    (sample_subscription (volatile true)) w ltac:(vm_compute; reflexivity) eq_refl eq_refl ltac:(discriminate))).
Defined.

(** The last sample of a dropped message has the reason SubscriberMaxCountReached. *)
Lemma base_drop_cases_witness :
  let w := sample_subscribed (volatile true) in
  let view := sample_response Command.subscription_dropped x04 in
  command view = Ret Command.subscription_dropped ∧
  run_prog (AE := linux_asio_errors) (GS := counting_guids)
    (subscription_lambda (AL := zero_allocator) (PB := sample_protobuf)
      (volatile_on_package_received (PB := sample_protobuf)) sample_closure success view) w
  = Ret (tt, w).
Proof.
  intros w view. split; [reflexivity|].
  exact (proj1 (base_drop_cases (AL := zero_allocator) (PB := sample_protobuf) (AE := linux_asio_errors)
    (GS := counting_guids) (volatile_on_package_received (PB := sample_protobuf)) sample_closure view
    (sample_subscription (volatile true)) w Command.subscription_dropped [x04]
    ltac:(vm_compute; reflexivity) eq_refl ltac:(vm_compute; reflexivity) eq_refl eq_refl) eq_refl).
Defined.

(** ** Events *)
Section events.
Context {AL : Allocator} {PB : Protobuf} {AE : AsioErrors} {GS : GuidSource}.

(** A package that carries the event [e] of a subscription. *)
Definition carries_event (view : tcp_package_view) (e : resolved_event) : Prop :=
  command view = Ret Command.stream_event_appeared ∧
  ∃ bs, message_bytes view = Ret bs ∧ resolved_of_ResolvedEvent (sea_event (ParseFromArray bs)) = Ret e.

Lemma volatile_event c view e s w :
  objects w !! sc_this c = Some s → handle_guard_ s = false → carries_event view e →
  run_prog (subscription_lambda volatile_on_package_received c success view) w =
    Ret (tt, set_calls (calls w ++ [(sc_event_appeared c, cb_event e)]) w).
Proof.
  intros Hs Hg (Hcmd & bs & Hbs & He). rewrite (open_lambda_package _ _ _ _ _ Hs Hg).
  unfold lambda_on_package, volatile_on_package_received. cbv zeta.
  rewrite run_bind, run_bind, run_perform, Hcmd. run_simpl.
  rewrite bool_decide_eq_false_2, bool_decide_eq_true_2 by done.
  rewrite run_bind, run_perform, (parse_view_ok (M := StreamEventAppeared) _ _ Hbs). run_simpl.
  rewrite run_bind, run_perform, He. by run_prog_steps.
Qed.

Fixpoint run_lambdas (child : subscription_closure → tcp_package_view → prog bool)
    (c : subscription_closure) (views : list tcp_package_view) : prog unit :=
  match views with
  | [] => skip
  | view :: views => subscription_lambda child c success view;; run_lambdas child c views
  end.
End events.

(** C29: A started volatile subscription hands the events it receives to the
    event handler, each exactly once and in the order of the packages, and
    does nothing else. *)
Theorem volatile_events_in_order {AL : Allocator} {PB : Protobuf} {AE : AsioErrors} {GS : GuidSource}
    c s w views events
    (Hs : objects w !! sc_this c = Some s) (Hopen : handle_guard_ s = false)
    (Hviews : Forall2 carries_event views events) :
  run_prog (run_lambdas volatile_on_package_received c views) w =
    Ret (tt, set_calls (calls w ++ ((λ e, (sc_event_appeared c, cb_event e)) <$> events)) w).
Proof.
  revert w Hs. induction Hviews as [|view e views events He _ IH]; intros w Hs; cbn [run_lambdas].
  - simpl. rewrite app_nil_r. by destruct w.
  - rewrite run_bind, (volatile_event _ _ _ _ _ Hs Hopen He). run_simpl. rewrite IH by done.
    cbn [calls set_calls fmap list_fmap]. rewrite <- app_assoc. by destruct w.
Qed.

Lemma volatile_events_in_order_witness :
  let w := sample_subscribed (volatile true) in
  let view b := sample_response Command.stream_event_appeared b in
  let e n : outcome resolved_event := resolved_of_ResolvedEvent (sample_resolved n) in
  ∃ e0 e1, e 0 = Ret e0 ∧ e 1 = Ret e1 ∧
  run_prog (AE := linux_asio_errors) (GS := counting_guids)
    (run_lambdas (AL := zero_allocator) (PB := sample_protobuf)
      (volatile_on_package_received (PB := sample_protobuf)) sample_closure [view x00; view x01]) w
  = Ret (tt, set_calls [(1%nat, cb_event e0); (1%nat, cb_event e1)] w).
Proof.
  intros w view e. eexists _, _. split; [reflexivity|]. split; [reflexivity|].
  refine (volatile_events_in_order (AL := zero_allocator) (PB := sample_protobuf) (AE := linux_asio_errors)
    (GS := counting_guids) sample_closure (sample_subscription (volatile true)) w
    [view x00; view x01] [_; _] _ eq_refl _); [vm_compute; reflexivity|].
  repeat constructor; eexists; (split; [reflexivity|]); reflexivity.
Defined.

(** unsubscribe() of a subscription that is running. *)
Lemma unsubscribe_run {AL : Allocator} {PB : Protobuf} {AE : AsioErrors} {GS : GuidSource} c s w :
  objects w !! sc_this c = Some s → handle_guard_ s = false → alive w = true → Guid.wf (key_ s) →
  Z.of_nat (length (SerializeAsString mk_UnsubscribeFromStream)) < 2 ^ 30 → subscriptions_map_ w !! key_ s = Some c →
  ∃ p v, to_view p = Ret v ∧ command v = Ret Command.unsubscribe_from_stream ∧ correlation_id v = Ret (key_ s) ∧
    run_prog (unsubscribe (sc_this c)) w =
      Ret (tt, sent_with p (key_ s) (on_unsubscribe (sc_this c) (make_error_code unsubscribed) (sc_dropped c))
        (set_objects (<[sc_this c := ended s]> (objects w)) w)).
Proof.
  intros Hs Hopen Halive Hkey Hsize Hc. destruct (ended_guard s) as (_ & Hk & _).
  destruct (plain_package_reads_message Command.unsubscribe_from_stream (key_ s)
    (SerializeAsString mk_UnsubscribeFromStream) Hkey Hsize) as (p & v & Hp & Hv & Hr).
  exists p, v. split_and!; [done|apply Hr|apply Hr|].
  unfold unsubscribe, unsubscribe_with. rewrite run_bind, (run_get_object _ _ _ Hs). run_simpl.
  rewrite run_bind, run_perform. run_simpl. rewrite run_bind, run_perform. unfold at_key. rewrite Hc. run_simpl.
  unfold lambda_on_error. rewrite run_bind, (run_get_object _ _ _ Hs). run_simpl. rewrite Hopen.
  unfold unsubscribe_dropping. rewrite run_bind, (run_update_object _ _ _ _ Hs). run_simpl.
  rewrite is_error_refl. fold (ended s).
  rewrite run_bind, (run_get_object _ (ended s)) by apply lookup_insert_eq. run_simpl.
  rewrite run_bind, run_perform, Hk, Hp. run_simpl.
  by eapply run_async_send_with; [..|apply Hr].
Qed.



(** ** Persistent subscriptions *)
Section persistent_facts.
Context {AL : Allocator} {PB : Protobuf} {AE : AsioErrors} {GS : GuidSource}.

(** A package that carries the event [e], resent [n] times. *)
Definition carries_persistent_event (view : tcp_package_view) (e : resolved_event) (n : Z) : Prop :=
  command view = Ret Command.persistent_subscription_stream_event_appeared ∧
  ∃ bs, message_bytes view = Ret bs ∧
    resolved_of_ResolvedIndexedEvent (psea_event (ParseFromArray bs)) = Ret e ∧
    wrap_i32 (default 0 (psea_retryCount (ParseFromArray bs))) = n.

(** acknowledge on ids and events whose ids can be taken. *)
Lemma acknowledge_run this items ids s w :
  objects w !! this = Some s → item_ids items = Ret ids → Guid.wf (key_ s) →
  (string_size (username (default_user_credentials_ (settings_ w))) < 256)%nat →
  (string_size (password (default_user_credentials_ (settings_ w))) < 256)%nat →
  let m := SerializeAsString {| ack_subscription_id := subscription_id_of s; ack_processed_event_ids := ids |} in
  Z.of_nat (length m) < 2 ^ 30 →
  ∃ p v, to_view p = Ret v ∧ command v = Ret Command.persistent_subscription_ack_events ∧
    correlation_id v = Ret (key_ s) ∧ message_bytes v = Ret m ∧
    run_prog (acknowledge this items) w = Ret (tt, set_posted (posted w ++ [send_package p]) w).
Proof.
  intros Hs Hi Hk Hu Hp m Hm. unfold acknowledge.
  destruct (make_request_reads (settings_ w) Command.persistent_subscription_ack_events (key_ s) m)
    as (p & v & Hpkg & Hv & Hr); [done..|].
  exists p, v. split_and!; [done|apply Hr|apply Hr|apply Hr|].
  rewrite run_bind, (run_get_object _ _ _ Hs). run_simpl. rewrite run_bind, run_perform, Hi. run_simpl.
  rewrite run_bind, run_perform. run_simpl. fold m. rewrite run_bind, run_perform, Hpkg. run_simpl.
  unfold async_send. rewrite run_perform. by run_simpl.
Qed.

Lemma item_event_id e o : original_event e = Some o → item_ids [item_event e] = Ret [event_id_ o].
Proof. intros Ho. simpl. by rewrite Ho. Qed.
End persistent_facts.



(** C32: A persistent subscription the server drops ends with an error of its
    own for each of the five reasons: none is ignored, and only the reason
    Unsubscribed makes the client send an unsubscribe package of its own. *)
Theorem persistent_drop_cases {AL : Allocator} {PB : Protobuf} {AE : AsioErrors} {GS : GuidSource}
    c s w view bs group allowed auto_ack
    (Hs : objects w !! sc_this c = Some s) (Hopen : handle_guard_ s = false)
    (Hreg : subscriptions_map_ w !! key_ s = Some c)
    (Hcmd : command view = Ret Command.subscription_dropped) (Hbs : message_bytes view = Ret bs) :
  let run := run_prog
    (subscription_lambda (persistent_on_package_received group allowed auto_ack) c success view) w in
  let reason := sd_reason (ParseFromArray bs) in
  (reason ≠ Drop_Unsubscribed →
    run = Ret (tt, dropping (sc_this c) (persistent_drop_error reason) (sc_dropped c) s w)) ∧
  (reason = Drop_Unsubscribed → run = run_prog (unsubscribe (sc_this c)) w) ∧
  (∀ r1 r2, persistent_drop_error r1 = persistent_drop_error r2 → r1 = r2).
Proof.
  intros run reason.
  assert (run = run_prog (unsubscribe_with (sc_this c) (persistent_drop_error reason)) w) as Hrun.
  { unfold run. rewrite (open_lambda_package _ _ _ _ _ Hs Hopen).
    unfold lambda_on_package, persistent_on_package_received. cbv zeta.
    rewrite run_bind, run_bind, run_perform, Hcmd. run_simpl.
    rewrite !bool_decide_eq_false_2, bool_decide_eq_true_2 by done.
    rewrite run_bind, run_perform, (parse_view_ok (M := SubscriptionDropped) _ _ Hbs). run_simpl.
    rewrite run_bind. fold reason.
    by destruct (run_prog (unsubscribe_with _ _) w) as [[[]]| |]. }
  split_and!.
  - intros Hr. rewrite Hrun. unfold unsubscribe_with.
    rewrite run_bind, (run_get_object _ _ _ Hs). run_simpl. rewrite run_bind, run_perform. run_simpl.
    rewrite run_bind, run_perform. unfold at_key. rewrite Hreg. run_simpl.
    unfold lambda_on_error. rewrite run_bind, (run_get_object _ _ _ Hs). run_simpl. rewrite Hopen.
    apply unsubscribe_dropping_error; [done|]. by destruct reason.
  - intros Hr. by rewrite Hrun, Hr.
  - by intros [] []; intros [=].
Qed.

(** The last sample of a dropped message has the reason SubscriberMaxCountReached. *)
Lemma persistent_drop_cases_witness :
  let w := sample_subscribed (persistent "group" "id" 10 true) in
  let view := sample_response Command.subscription_dropped x04 in
  subscriptions_map_ w !! replicate 16 x05 = Some sample_closure ∧
  run_prog (AE := linux_asio_errors) (GS := counting_guids)
    (subscription_lambda (AL := zero_allocator) (PB := sample_protobuf)
      (persistent_on_package_received (AL := zero_allocator) (PB := sample_protobuf) "group" 10 true)
      sample_closure success view) w
  = Ret (tt, dropping 0 (make_error_code subscriber_max_count_reached) 2
      (sample_subscription (persistent "group" "id" 10 true)) w).
Proof.
  intros w view. split; [vm_compute; reflexivity|].
  exact (proj1 (persistent_drop_cases (AL := zero_allocator) (PB := sample_protobuf) (AE := linux_asio_errors)
    (GS := counting_guids) sample_closure (sample_subscription (persistent "group" "id" 10 true)) w view [x04]
    "group" 10 true ltac:(vm_compute; reflexivity) eq_refl ltac:(vm_compute; reflexivity) eq_refl eq_refl)
    ltac:(discriminate)).
Defined.

(** ** Starting a volatile subscription, or the live phase of a catch-up one *)
Section starting.
Context {AL : Allocator} {PB : Protobuf} {AE : AsioErrors} {GS : GuidSource}.

(** The state after the lambda has been registered and the package sent. *)
Definition started (this event_appeared dropped : nat) (s : subscription) (p : tcp_package) (w : world) : world :=
  set_posted (posted w ++ [send_package p]) (set_registrations (S (registrations w))
    (set_subscriptions_map
      (register_op (key_ s) (mk_subscription_closure (registrations w) this event_appeared dropped)
        (subscriptions_map_ w))
      (set_objects (<[this := set_handle_guard false s]> (objects w)) w))).

Lemma volatile_async_start_run this resolve event_appeared dropped s w :
  objects w !! this = Some s → Guid.wf (key_ s) →
  (string_size (username (default_user_credentials_ (settings_ w))) < 256)%nat →
  (string_size (password (default_user_credentials_ (settings_ w))) < 256)%nat →
  Z.of_nat (length (SerializeAsString
    {| sts_event_stream_id := stream_ s; sts_resolve_link_tos := resolve |})) < 2 ^ 30 →
  ∃ p v, to_view p = Ret v ∧ command v = Ret Command.subscribe_to_stream ∧ correlation_id v = Ret (key_ s) ∧
    message_bytes v = Ret (SerializeAsString
      {| sts_event_stream_id := stream_ s; sts_resolve_link_tos := resolve |}) ∧
    run_prog (volatile_async_start this resolve event_appeared dropped) w =
      Ret (tt, started this event_appeared dropped s p w).
Proof.
  intros Hs Hk Hu Hp Hm.
  destruct (make_request_reads (settings_ w) Command.subscribe_to_stream (key_ s)
    (SerializeAsString {| sts_event_stream_id := stream_ s; sts_resolve_link_tos := resolve |}))
    as (p & v & Hpkg & Hv & Hr); [done|done|done|apply Hm|].
  exists p, v. split_and!; [done|apply Hr|apply Hr|apply Hr|].
  unfold volatile_async_start. rewrite run_bind, (run_get_object _ _ _ Hs). run_simpl.
  rewrite run_bind, run_perform. run_simpl. rewrite run_bind, run_perform.
  unfold subscribe_request. rewrite Hpkg. run_simpl. rewrite run_bind.
  unfold base_async_start. rewrite run_bind, (run_update_object _ _ _ _ Hs). run_simpl.
  rewrite run_bind, (run_get_object _ (set_handle_guard false s)) by apply lookup_insert_eq. run_simpl.
  rewrite run_bind, run_perform. run_simpl.
  rewrite run_perform. run_simpl. unfold async_send. rewrite run_perform. by run_simpl.
Qed.
End starting.

(** Starting a volatile subscription registers its lambda under its key
    (unless the key is taken) with the guard unlocked, and posts one
    subscribe package, under the key, for its stream. *)
Theorem volatile_start {AL : Allocator} {PB : Protobuf} {AE : AsioErrors} {GS : GuidSource}
    this resolve event_appeared dropped s w
    (Hs : objects w !! this = Some s) (Hkey : Guid.wf (key_ s))
    (Hu : (string_size (username (default_user_credentials_ (settings_ w))) < 256)%nat)
    (Hp : (string_size (password (default_user_credentials_ (settings_ w))) < 256)%nat)
    (Hsize : Z.of_nat (length (SerializeAsString
      {| sts_event_stream_id := stream_ s; sts_resolve_link_tos := resolve |})) < 2 ^ 30) :
  ∃ p v w', run_prog (volatile_async_start this resolve event_appeared dropped) w = Ret (tt, w') ∧
    to_view p = Ret v ∧ command v = Ret Command.subscribe_to_stream ∧ correlation_id v = Ret (key_ s) ∧
    message_bytes v = Ret (SerializeAsString
      {| sts_event_stream_id := stream_ s; sts_resolve_link_tos := resolve |}) ∧
    posted w' = posted w ++ [send_package p] ∧
    objects w' !! this = Some (set_handle_guard false s) ∧
    subscriptions_map_ w' !! key_ s =
      Some (default (mk_subscription_closure (registrations w) this event_appeared dropped)
        (subscriptions_map_ w !! key_ s)).
Proof.
  destruct (volatile_async_start_run this resolve event_appeared dropped s w Hs Hkey Hu Hp Hsize)
    as (p & v & Hv & Hc & Hcorr & Hm & Hrun).
  eexists p, v, _. split; [done|]. split_and!; try done.
  - apply lookup_insert_eq.
  - apply lookup_register_op.
Qed.

Lemma volatile_start_witness :
  let s := set_handle_guard true (sample_subscription (volatile true)) in
  let w := set_objects {[0%nat := s]} (new_connection default_connection_settings "ES-1") in
  objects w !! 0%nat = Some s ∧
  ∃ p v w', run_prog (AE := linux_asio_errors) (GS := counting_guids)
      (volatile_async_start (AL := zero_allocator) (PB := sample_protobuf) 0 true 1 2) w = Ret (tt, w') ∧
    to_view p = Ret v ∧ command v = Ret Command.subscribe_to_stream ∧ correlation_id v = Ret (key_ s) ∧
    posted w' = [send_package p].
Proof.
  intros s w. split; [reflexivity|].
  destruct (volatile_start (AL := zero_allocator) (PB := sample_protobuf) (AE := linux_asio_errors)
    (GS := counting_guids) 0 true 1 2 s w eq_refl eq_refl ltac:(vm_compute; lia) ltac:(vm_compute; lia)
    eq_refl) as (p & v & w' & H1 & H2 & H3 & H4 & _ & H5 & _).
  exists p, v, w'. split_and!; assumption.
Defined.
