(* ===== verification/Catchup.v ===== *)
(** The catch-up subscription to a stream
    (include/subscription/catchup_subscription.hpp): it reads the stream from
    an event number and then follows it.  The buffered events are held in a
    queue used through its interface. *)
From S2P Require Import Prelude Errors Basics BufferQueue TcpPackage Messages Events Settings Operations.
From S2P Require Import OperationsMap World Connection Requests Subscription.

Section catchup.
Context {AL : Allocator} {PB : Protobuf} {AE : AsioErrors} {GS : GuidSource}.

(** ** Handlers held by reference

    The lambdas of the second phase refer to the handlers stored in the
    closure of the registration [r].  The reference dangles once that closure
    has been erased, also when another has been registered under the key
    since. *)
Definition refers (r : nat) (key : guid_type) (w : world) : Prop :=
  sc_stamp <$> subscriptions_map_ w !! key = Some r.

Definition through_reference (r this : nat) : prog unit :=
  s ← get_object this;
  w ← get_world;
  if bool_decide (sc_stamp <$> subscriptions_map_ w !! key_ s = Some r) then skip
  else lift (Undef dangling_reference).

Definition call_reference (r this cb : nat) (c : callback) : prog unit :=
  through_reference r this;;
  call_user cb c.

Definition drop_reference (r this : nat) (ec : error_code) (dropped : nat) : prog unit :=
  through_reference r this;;
  unsubscribe_dropping this ec dropped.

(** ** catchup_subscription *)

(** The members of the derived class. *)
Definition catchup_members (this : nat) : prog (Z * catchup_subscription_settings * event_queue) :=
  s ← get_object this;
  lift (match kind_ s with
        | catchup n settings buffer => Ret (n, settings, buffer)
        | _ => Undef dangling_reference (* not the class [this] points to *)
        end).

Definition set_catchup_members (this : nat) (n : Z) (settings : catchup_subscription_settings)
    (buffer : event_queue) : prog unit :=
  update_object this (set_kind (catchup n settings buffer)).

(** [++current_event_number_] *)
Definition increment_event_number (this : nat) : prog unit :=
  '(n, settings, buffer) ← catchup_members this;
  n ← lift (i64_checked (n + 1));
  set_catchup_members this n settings buffer.

Definition catch_up_events (this : nat) (from count : Z) (reader : slice_reader) : prog unit :=
  s ← get_object this;
  '(_, settings, _) ← catchup_members this;
  async_read_stream_events (stream_ s) forward from (wrap_i32 count)
    (catchup_resolve_link_tos settings) reader.

Definition catchup_async_start (this event_appeared dropped : nat) : prog unit :=
  '(n, settings, _) ← catchup_members this;
  catch_up_events this n (read_batch_size settings) (slice_to_historical this event_appeared dropped).

Definition catchup_do_async_start (this event_appeared dropped : nat) : prog unit :=
  '(_, settings, _) ← catchup_members this;
  volatile_async_start this (catchup_resolve_link_tos settings) event_appeared dropped.

(** The lambda of async_start. *)
Definition historical_slice_read (this event_appeared dropped : nat) (ec : error_code)
    (result : option stream_events_slice) : prog unit :=
  if negb (failed ec) then
    value ← lift (opt_value result);
    for_each (ses_events value) (λ event,
      call_user event_appeared (cb_event event);;
      increment_event_number this);;
    if ses_is_end_of_stream value
    then catchup_do_async_start this event_appeared dropped
    else catchup_async_start this event_appeared dropped
  else
    unsubscribe_dropping this (make_error_code subscription_request_not_sent) dropped.

Definition catch_up_missed_events (r this : nat) (count : Z) (event_appeared dropped : nat) : prog unit :=
  '(n, _, _) ← catchup_members this;
  catch_up_events this n count (slice_to_missed r this event_appeared dropped count).

(** The lambda of catch_up_missed_events. *)
Definition missed_slice_read (r this event_appeared dropped : nat) (count : Z) (ec : error_code)
    (result : option stream_events_slice) : prog unit :=
  if negb (failed ec) then
    value ← lift (opt_value result);
    for_each (ses_events value) (λ event,
      call_reference r this event_appeared (cb_event event);;
      increment_event_number this);;
    mutable_count ← lift (i64_checked (count - Z.of_nat (length (ses_events value))));
    if mutable_count >? 0
    then catch_up_missed_events r this mutable_count event_appeared dropped
    else post (read_buffered r this event_appeared)
  else drop_reference r this ec dropped.

(** One round of the loop of read_subscription_events. *)
Definition read_one_event (r this event_appeared : nat) : prog unit :=
  '(_, _, buffer) ← catchup_members this;
  event ← lift (q_front buffer);
  call_reference r this event_appeared (cb_event event);;
  '(n, settings, buffer) ← catchup_members this;
  buffer ← lift (q_pop_front buffer);
  set_catchup_members this n settings buffer;;
  increment_event_number this.

(** [rounds] is max_live_queue_size() - i. *)
Fixpoint read_events (rounds : nat) (r this event_appeared : nat) : prog unit :=
  match rounds with
  | O => skip
  | S rounds =>
      '(_, _, buffer) ← catchup_members this;
      if q_empty buffer then skip
      else read_one_event r this event_appeared;; read_events rounds r this event_appeared
  end.

Definition read_subscription_events (r this event_appeared : nat) : prog unit :=
  '(_, settings, _) ← catchup_members this;
  read_events (Z.to_nat (max_live_queue_size settings)) r this event_appeared;;
  '(_, _, buffer) ← catchup_members this;
  if negb (q_empty buffer) then post (read_buffered r this event_appeared) else skip.

Definition catchup_on_package_received (c : subscription_closure) (view : tcp_package_view) : prog bool :=
  let this := sc_this c in
  cmd ← lift (command view);
  if bool_decide (cmd = Command.subscription_confirmation) then
    response ← lift (parse_view (M := SubscriptionConfirmation) view);
    update_object this (confirm (conf_last_commit_position response));;
    match conf_last_event_number response with
    | Some last =>
        update_object this (set_last_event_number last);;
        '(n, _, _) ← catchup_members this;
        if last >? n then
          count ← lift (i64_checked (last - n));
          catch_up_missed_events (sc_stamp c) this count (sc_event_appeared c) (sc_dropped c)
        else skip
    | None =>
        unsubscribe_dropping this (make_error_code bad_subscription_confirmation) (sc_dropped c)
    end;;
    mret true
  else if bool_decide (cmd = Command.stream_event_appeared) then
    message ← lift (parse_view (M := StreamEventAppeared) view);
    event ← lift (resolved_of_ResolvedEvent (sea_event message));
    '(n, settings, buffer) ← catchup_members this;
    buffer ← lift (q_emplace_back event buffer);
    set_catchup_members this n settings buffer;;
    front ← lift (q_front buffer);
    _ ← lift (opt_value (event_ front)); (* its event_number() is read and not used *)
    s ← get_object this;
    last ← lift (opt_value (last_event_number_ s));
    (if last >? n then skip
     else if q_size buffer =? 1 then read_subscription_events (sc_stamp c) this (sc_event_appeared c)
     else skip);;
    mret true
  else mret false.
End catchup.

(** ** Delivering the buffered events *)
Section facts.
Context {AL : Allocator} {PB : Protobuf} {AE : AsioErrors} {GS : GuidSource}.

(** The object of a catch-up subscription. *)
Definition catchup_object (s : subscription) (n : Z) (settings : catchup_subscription_settings)
    (buffer : event_queue) : subscription := set_kind (catchup n settings buffer) s.

Lemma set_kind_id s k : kind_ s = k → set_kind k s = s.
Proof. intros <-. by destruct s. Qed.

Lemma run_catchup_members this s n settings buffer w :
  objects w !! this = Some (catchup_object s n settings buffer) →
  run_prog (catchup_members this) w = Ret ((n, settings, buffer), w).
Proof. intros Hs. unfold catchup_members. by rewrite run_bind, (run_get_object _ _ _ Hs). Qed.

(** The state with the members of the object replaced. *)
Definition with_members (this : nat) s n settings buffer (w : world) : world :=
  set_objects (<[this := catchup_object s n settings buffer]> (objects w)) w.

Lemma with_members_members this s n settings buffer n' settings' buffer' w :
  with_members this s n' settings' buffer' (with_members this s n settings buffer w) =
    with_members this s n' settings' buffer' w.
Proof. unfold with_members. run_simpl. by rewrite insert_insert_eq. Qed.

Lemma lookup_with_members this s n settings buffer w :
  objects (with_members this s n settings buffer w) !! this = Some (catchup_object s n settings buffer).
Proof. apply lookup_insert_eq. Qed.

Lemma with_members_id this s n settings buffer w :
  objects w !! this = Some (catchup_object s n settings buffer) → with_members this s n settings buffer w = w.
Proof. intros Hs. unfold with_members. rewrite insert_id by done. by destruct w. Qed.

Lemma run_set_catchup_members this s n settings buffer n' settings' buffer' w :
  objects w !! this = Some (catchup_object s n settings buffer) →
  run_prog (set_catchup_members this n' settings' buffer') w =
    Ret (tt, with_members this s n' settings' buffer' w).
Proof. intros Hs. unfold set_catchup_members. by rewrite (run_update_object _ _ _ _ Hs). Qed.

Lemma run_increment this s n settings buffer w :
  objects w !! this = Some (catchup_object s n settings buffer) → in_i64 (n + 1) →
  run_prog (increment_event_number this) w = Ret (tt, with_members this s (n + 1) settings buffer w).
Proof.
  intros Hs Hn. unfold increment_event_number. rewrite run_bind, (run_catchup_members _ _ _ _ _ _ Hs). run_simpl.
  rewrite run_bind, run_perform, i64_checked_ok by done. run_simpl. by eapply run_set_catchup_members.
Qed.

Lemma run_call_reference r this s cb c w :
  objects w !! this = Some s → refers r (key_ s) w →
  run_prog (call_reference r this cb c) w = Ret (tt, set_calls (calls w ++ [(cb, c)]) w).
Proof.
  intros Hs Hk. unfold call_reference, through_reference. rewrite run_bind, run_bind, (run_get_object _ _ _ Hs).
  run_simpl. rewrite run_bind, run_perform. run_simpl.
  rewrite bool_decide_eq_true_2 by done. by run_prog_steps.
Qed.

Lemma read_one_event_run r this s cb n settings buffer e l w :
  objects w !! this = Some (catchup_object s n settings buffer) → q_rel buffer (e :: l) →
  refers r (key_ s) w → in_i64 (n + 1) →
  ∃ buffer', q_rel buffer' l ∧
    run_prog (read_one_event r this cb) w =
      Ret (tt, set_calls (calls w ++ [(cb, cb_event e)]) (with_members this s (n + 1) settings buffer' w)).
Proof.
  intros Hs Hq Hk Hn. destruct (q_pop_front_rel _ _ _ Hq) as (buffer' & Hpop & Hq').
  exists buffer'. split; [done|]. unfold read_one_event.
  rewrite run_bind, (run_catchup_members _ _ _ _ _ _ Hs). run_simpl.
  rewrite run_bind, run_perform, (q_front_rel _ _ _ Hq). run_simpl.
  rewrite run_bind, (run_call_reference _ _ _ _ _ _ Hs Hk). run_simpl.
  rewrite run_bind, (run_catchup_members this s n settings buffer) by done. run_simpl.
  rewrite run_bind, run_perform, Hpop. run_simpl.
  rewrite run_bind, (run_set_catchup_members this s n settings buffer) by done. run_simpl.
  rewrite (run_increment this s n settings buffer') by (done || apply lookup_with_members).
  by rewrite with_members_members.
Qed.

(** The calls that deliver [l] to [cb]. *)
Definition deliver (cb : nat) (l : list resolved_event) : list (nat * callback) :=
  (λ e, (cb, cb_event e)) <$> l.

Lemma read_events_run rounds r this s cb settings : ∀ n buffer l w,
  objects w !! this = Some (catchup_object s n settings buffer) → q_rel buffer l →
  refers r (key_ s) w → in_i64 n → in_i64 (n + Z.of_nat (length l)) →
  ∃ buffer', q_rel buffer' (drop rounds l) ∧
    run_prog (read_events rounds r this cb) w =
      Ret (tt, set_calls (calls w ++ deliver cb (take rounds l))
        (with_members this s (n + Z.of_nat (length (take rounds l))) settings buffer' w)).
Proof.
  induction rounds as [|rounds IH]; intros n buffer l w Hs Hq Hk Hn0 Hn; cbn [read_events].
  - exists buffer. split; [done|]. cbn. rewrite Z.add_0_r, app_nil_r, with_members_id by done. by destruct w.
  - rewrite run_bind, (run_catchup_members _ _ _ _ _ _ Hs). run_simpl. rewrite (q_empty_rel _ _ Hq).
    destruct l as [|e l]; cbn [drop take].
    + rewrite bool_decide_eq_true_2 by done. exists buffer. split; [done|].
      cbn. rewrite Z.add_0_r, app_nil_r, with_members_id by done. by destruct w.
    + rewrite bool_decide_eq_false_2 by done. simpl length in Hn.
      assert (in_i64 (n + 1)) as Hn1 by (unfold in_i64 in *; lia).
      destruct (read_one_event_run _ this s cb n settings buffer e l w Hs Hq Hk Hn1) as (b1 & Hq1 & Hrun).
      rewrite run_bind, Hrun. run_simpl.
      destruct (IH (n + 1) b1 l (set_calls (calls w ++ [(cb, cb_event e)])
        (with_members this s (n + 1) settings b1 w))) as (b2 & Hq2 & Hrun2);
        [apply lookup_with_members|done|exact Hk|done|unfold in_i64 in *; lia|].
      exists b2. split; [done|]. rewrite Hrun2. f_equal. f_equal.
      cbn [calls set_calls length deliver fmap list_fmap]. rewrite <- app_assoc.
      replace (n + Z.of_nat (S (length (take rounds l)))) with (n + 1 + Z.of_nat (length (take rounds l))) by lia.
      unfold with_members. run_simpl. by rewrite insert_insert_eq.
Qed.
End facts.

(** read_subscription_events of a catch-up subscription delivers the buffered
    events in the order they were buffered, each once, at most
    max_live_queue_size() of them; it removes exactly these from the buffer,
    advances the event number by their count, and posts itself again exactly
    when events are left, so that none is left behind. *)
Theorem catchup_buffer_drained {AE : AsioErrors} {GS : GuidSource}
    r this cb s n settings buffer l w
    (Hs : objects w !! this = Some (catchup_object s n settings buffer)) (Hq : q_rel buffer l)
    (Hkey : refers r (key_ s) w)
    (Hn : in_i64 n) (Hmax : in_i64 (n + Z.of_nat (length l))) :
  let k := Z.to_nat (max_live_queue_size settings) in
  ∃ buffer' w', run_prog (read_subscription_events r this cb) w = Ret (tt, w') ∧
    calls w' = calls w ++ deliver cb (take k l) ∧
    objects w' !! this = Some (catchup_object s (n + Z.of_nat (length (take k l))) settings buffer') ∧
    q_rel buffer' (drop k l) ∧
    posted w' = posted w ++ (if bool_decide (drop k l = []) then [] else [read_buffered r this cb]).
Proof.
  intros k.
  destruct (read_events_run k _ this s cb settings n buffer l w Hs Hq Hkey Hn Hmax) as (buffer' & Hq' & Hrun).
  set (w1 := set_calls _ _) in Hrun.
  assert (objects w1 !! this = Some (catchup_object s (n + Z.of_nat (length (take k l))) settings buffer'))
    as Hw1 by apply lookup_with_members.
  assert (run_prog (read_subscription_events r this cb) w =
    run_prog (if negb (q_empty buffer') then post (read_buffered r this cb) else skip) w1) as Hr.
  { unfold read_subscription_events. rewrite run_bind, (run_catchup_members _ _ _ _ _ _ Hs). run_simpl.
    fold k. rewrite run_bind, Hrun. run_simpl.
    by rewrite run_bind, (run_catchup_members _ _ _ _ _ _ Hw1). }
  rewrite Hr, (q_empty_rel _ _ Hq'). exists buffer'.
  case_bool_decide; run_simpl; eexists; (split; [reflexivity|]); split_and!; try done.
  by rewrite app_nil_r.
Qed.

(** A buffer with three events. *)
Definition sample_event (n : Z) : resolved_event :=
  match resolved_of_ResolvedEvent (sample_resolved n) with
  | Ret e => e
  | _ => mk_resolved_event None None None
  end.
Definition sample_buffer (l : list resolved_event) : event_queue :=
  foldl (λ q e, match q_emplace_back e q with Ret q => q | _ => q end) q_new l.

Lemma sample_buffer_rel l : q_rel (sample_buffer l) l.
Proof.
  unfold sample_buffer. pose proof q_new_rel as Hq.
  enough (∀ q k, q_rel q k →
    q_rel (foldl (λ q e, match q_emplace_back e q with Ret q => q | _ => q end) q l) (k ++ l)) as H
    by (by apply (H _ [])).
  clear Hq. induction l as [|e l IH]; intros q k Hq; cbn [foldl]; [by rewrite app_nil_r|].
  destruct (q_emplace_back_rel q k e Hq) as (q' & -> & Hq').
  replace (k ++ e :: l) with ((k ++ [e]) ++ l) by (by rewrite <- app_assoc). by apply IH.
Qed.

Lemma catchup_buffer_drained_witness :
  let settings := mk_catchup_subscription_settings 2 10 true "name" in
  let kind := catchup 7 settings (sample_buffer [sample_event 7; sample_event 8; sample_event 9]) in
  let w := sample_subscribed kind in
  max_live_queue_size settings = 2 ∧
  ∃ buffer' w', run_prog (AE := linux_asio_errors) (GS := counting_guids) (read_subscription_events 0 0 1) w
      = Ret (tt, w') ∧
    calls w' = [(1%nat, cb_event (sample_event 7)); (1%nat, cb_event (sample_event 8))] ∧
    objects w' !! 0%nat = Some (catchup_object (sample_subscription kind) 9 settings buffer') ∧
    q_rel buffer' [sample_event 9] ∧ posted w' = [read_buffered 0 0 1].
Proof.
  intros settings kind w. split; [reflexivity|].
  exact (catchup_buffer_drained (AE := linux_asio_errors) (GS := counting_guids)
    0 0 1 (sample_subscription kind) 7 settings (sample_buffer [sample_event 7; sample_event 8; sample_event 9])
    [sample_event 7; sample_event 8; sample_event 9] w ltac:(vm_compute; reflexivity)
    (sample_buffer_rel _) ltac:(vm_compute; reflexivity)
    ltac:(unfold in_i64; lia) ltac:(unfold in_i64; cbn; lia)).
Defined.

Section phases.
Context {AL : Allocator} {PB : Protobuf} {AE : AsioErrors} {GS : GuidSource}.

(** Sizes of the requests a catch-up subscription to [stream] makes. *)
Record catchup_sizes (w : world) (stream : string) : Prop := {
  catchup_alive : alive w = true;
  catchup_credentials : credentials_fit w;
  catchup_read_size : ∀ m : ReadStreamEvents, rse_event_stream_id m = stream →
    Z.of_nat (length (SerializeAsString m)) < 2 ^ 30;
  catchup_subscribe_size : ∀ m : SubscribeToStream, sts_event_stream_id m = stream →
    Z.of_nat (length (SerializeAsString m)) < 2 ^ 30
}.

(** The read a catch-up subscription asks for. *)
Definition catchup_read (w : world) (s : subscription) (settings : catchup_subscription_settings)
    (from count : Z) : ReadStreamEvents := {|
  rse_event_stream_id := stream_ s;
  rse_from_event_number := from;
  rse_max_count := wrap_i32 count;
  rse_resolve_link_tos := catchup_resolve_link_tos settings;
  rse_require_master := require_master_ (settings_ w)
|}.

Lemma catch_up_events_run this s n settings buffer from count reader w :
  objects w !! this = Some (catchup_object s n settings buffer) → catchup_sizes w (stream_ s) →
  ∃ p v, to_view p = Ret v ∧ command v = Ret Command.read_stream_events_forward ∧
    message_bytes v = Ret (SerializeAsString (catchup_read w s settings from count)) ∧
    run_prog (catch_up_events this from count reader) w =
      Ret (tt, issued p (on_read_stream_events (stream_ s) from forward reader) w).
Proof.
  intros Hs [Ha Hc Hm _].
  destruct (issue_make_request Command.read_stream_events_forward
    (SerializeAsString (catchup_read w s settings from count))
    (on_read_stream_events (stream_ s) from forward reader)
    (λ st c, read_stream_events_request st c (stream_ s) forward from (wrap_i32 count)
       (catchup_resolve_link_tos settings)) w) as (p & v & fl & creds & Hrun & Hv & Hr); [done|done|by apply Hm|done|].
  exists p, v. split_and!; [done|apply Hr|apply Hr|].
  unfold catch_up_events. rewrite run_bind, (run_get_object _ _ _ Hs). run_simpl.
  rewrite run_bind, (run_catchup_members _ _ _ _ _ _ Hs). run_simpl. exact Hrun.
Qed.

(** Delivering a slice and counting its events: [body] is the body of the
    loop, [P] what it needs of the subscriptions map. *)
Lemma deliver_slice_run (this : nat) (s : subscription) (cb : nat) (settings : catchup_subscription_settings)
    (buffer : event_queue) (P : operations_map subscription_closure → Prop)
    (body : resolved_event → prog unit)
    (Hbody : ∀ e n w, objects w !! this = Some (catchup_object s n settings buffer) →
      P (subscriptions_map_ w) → in_i64 (n + 1) →
      run_prog (body e) w =
        Ret (tt, set_calls (calls w ++ [(cb, cb_event e)]) (with_members this s (n + 1) settings buffer w))) :
  ∀ l n w, objects w !! this = Some (catchup_object s n settings buffer) → P (subscriptions_map_ w) →
    in_i64 n → in_i64 (n + Z.of_nat (length l)) →
    run_prog (for_each l body) w =
      Ret (tt, set_calls (calls w ++ deliver cb l)
        (with_members this s (n + Z.of_nat (length l)) settings buffer w)).
Proof.
  induction l as [|e l IH]; intros n w Hs HP Hn0 Hn; cbn [for_each].
  - cbn. rewrite Z.add_0_r, app_nil_r, with_members_id by done. by destruct w.
  - simpl length in Hn. assert (in_i64 (n + 1)) as Hn1 by (unfold in_i64 in *; lia).
    change (prog_bind ?f ?p) with (p ≫= f). rewrite run_bind, (Hbody e n w) by done. run_simpl.
    rewrite (IH (n + 1) (set_calls (calls w ++ [(cb, cb_event e)])
      (with_members this s (n + 1) settings buffer w)));
      [|apply lookup_with_members|exact HP|done|unfold in_i64 in *; lia].
    f_equal. f_equal. cbn [calls set_calls length deliver fmap list_fmap]. rewrite <- app_assoc.
    replace (n + Z.of_nat (S (length l))) with (n + 1 + Z.of_nat (length l)) by lia.
    unfold with_members. run_simpl. by rewrite insert_insert_eq.
Qed.

(** The state after a slice has been delivered. *)
Definition delivered (this : nat) (s : subscription) (cb : nat) (settings : catchup_subscription_settings)
    (buffer : event_queue) (n : Z)
    (l : list resolved_event) (w : world) : world :=
  set_calls (calls w ++ deliver cb l) (with_members this s (n + Z.of_nat (length l)) settings buffer w).

Lemma historical_loop_run this s (cb : nat) settings buffer l n w :
  objects w !! this = Some (catchup_object s n settings buffer) →
  in_i64 n → in_i64 (n + Z.of_nat (length l)) →
  run_prog (for_each l (λ event, call_user cb (cb_event event);; increment_event_number this)) w =
    Ret (tt, delivered this s cb settings buffer n l w).
Proof.
  intros Hs Hn0 Hn. apply (deliver_slice_run this s cb settings buffer (λ _, True)); [|done..].
  intros e m w' Hs' _ Hm. rewrite run_bind, run_perform. run_simpl.
  by rewrite (run_increment this s m settings buffer).
Qed.

Lemma missed_loop_run r this s (cb : nat) settings buffer l n w :
  objects w !! this = Some (catchup_object s n settings buffer) →
  refers r (key_ s) w → in_i64 n → in_i64 (n + Z.of_nat (length l)) →
  run_prog (for_each l (λ event, call_reference r this cb (cb_event event);; increment_event_number this)) w =
    Ret (tt, delivered this s cb settings buffer n l w).
Proof.
  intros Hs Hk Hn0 Hn.
  apply (deliver_slice_run this s cb settings buffer (λ m, sc_stamp <$> m !! key_ s = Some r)); [|done..].
  intros e m w' Hs' Hk' Hm. rewrite run_bind, (run_call_reference _ _ _ _ _ _ Hs' Hk'). run_simpl.
  by rewrite (run_increment this s m settings buffer).
Qed.

Lemma delivered_object this s cb settings buffer n l w :
  objects (delivered this s cb settings buffer n l w) !! this =
    Some (catchup_object s (n + Z.of_nat (length l)) settings buffer).
Proof. apply lookup_with_members. Qed.

Lemma delivered_sizes this s cb settings buffer n l w :
  catchup_sizes w (stream_ s) → catchup_sizes (delivered this s cb settings buffer n l w) (stream_ s).
Proof. by intros []. Qed.

Lemma catchup_async_start_run this s n settings buffer event_appeared dropped w :
  objects w !! this = Some (catchup_object s n settings buffer) → catchup_sizes w (stream_ s) →
  ∃ p v, to_view p = Ret v ∧ command v = Ret Command.read_stream_events_forward ∧
    message_bytes v = Ret (SerializeAsString (catchup_read w s settings n (read_batch_size settings))) ∧
    run_prog (catchup_async_start this event_appeared dropped) w =
      Ret (tt, issued p (on_read_stream_events (stream_ s) n forward
        (slice_to_historical this event_appeared dropped)) w).
Proof.
  intros Hs Hw.
  destruct (catch_up_events_run this s n settings buffer n (read_batch_size settings)
    (slice_to_historical this event_appeared dropped) w Hs Hw) as (p & v & Hv & Hc & Hm & Hrun).
  exists p, v. split_and!; [done..|]. unfold catchup_async_start.
  rewrite run_bind, (run_catchup_members _ _ _ _ _ _ Hs). run_simpl. exact Hrun.
Qed.

Lemma catch_up_missed_run r this s n settings buffer count event_appeared dropped w :
  objects w !! this = Some (catchup_object s n settings buffer) → catchup_sizes w (stream_ s) →
  ∃ p v, to_view p = Ret v ∧ command v = Ret Command.read_stream_events_forward ∧
    message_bytes v = Ret (SerializeAsString (catchup_read w s settings n count)) ∧
    run_prog (catch_up_missed_events r this count event_appeared dropped) w =
      Ret (tt, issued p (on_read_stream_events (stream_ s) n forward
        (slice_to_missed r this event_appeared dropped count)) w).
Proof.
  intros Hs Hw.
  destruct (catch_up_events_run this s n settings buffer n count
    (slice_to_missed r this event_appeared dropped count) w Hs Hw) as (p & v & Hv & Hc & Hm & Hrun).
  exists p, v. split_and!; [done..|]. unfold catch_up_missed_events.
  rewrite run_bind, (run_catchup_members _ _ _ _ _ _ Hs). run_simpl. exact Hrun.
Qed.

(** The answer to a read of the missed events. *)
Lemma missed_slice_run r this event_appeared dropped s n settings buffer count slice w :
  objects w !! this = Some (catchup_object s n settings buffer) → catchup_sizes w (stream_ s) →
  refers r (key_ s) w → in_i64 n → in_i64 (n + Z.of_nat (length (ses_events slice))) →
  in_i64 (count - Z.of_nat (length (ses_events slice))) →
  let n' := n + Z.of_nat (length (ses_events slice)) in
  let left := count - Z.of_nat (length (ses_events slice)) in
  let w1 := delivered this s event_appeared settings buffer n (ses_events slice) w in
  let answer := run_prog (missed_slice_read r this event_appeared dropped count success (Some slice)) w in
  (left ≤ 0 → answer = Ret (tt, set_posted (posted w1 ++ [read_buffered r this event_appeared]) w1)) ∧
  (0 < left → ∃ p v, to_view p = Ret v ∧
    message_bytes v = Ret (SerializeAsString (catchup_read w1 s settings n' left)) ∧
    answer = Ret (tt, issued p (on_read_stream_events (stream_ s) n' forward
      (slice_to_missed r this event_appeared dropped left)) w1)).
Proof.
  intros Hs Hsz Hk Hn Hn' Hleft n' left w1 answer.
  pose proof (delivered_object this s event_appeared settings buffer n (ses_events slice) w) as Hw1.
  assert (answer = run_prog (if left >? 0
    then catch_up_missed_events r this left event_appeared dropped
    else post (read_buffered r this event_appeared)) w1) as ->.
  { unfold answer, missed_slice_read. rewrite failed_success. cbn [negb].
    rewrite run_bind, run_perform. run_simpl.
    rewrite run_bind, (missed_loop_run _ this s event_appeared settings buffer _ n) by done. run_simpl.
    rewrite run_bind, run_perform, i64_checked_ok by done. by run_simpl. }
  split; intros Hl.
  - rewrite Z.gtb_ltb, (proj2 (Z.ltb_ge _ _)) by lia. done.
  - rewrite (proj2 (Z.gtb_lt _ _)) by lia.
    destruct (catch_up_missed_run r this s n' settings buffer left event_appeared dropped w1 Hw1
      (delivered_sizes _ s _ _ _ _ _ _ Hsz)) as (p & v & Hv & _ & Hms & Hrun).
    exists p, v. by split_and!.
Qed.
End phases.

(** The historical phase of a catch-up subscription, on the answer to one of
    its reads: every event of the slice is delivered once, in order, and the
    event number advances by their count; before the end of the stream the
    next read starts at that number, and at the end the client subscribes,
    under the subscription's key; when the read failed, the subscription is
    dropped with subscription_request_not_sent. *)
Theorem catchup_historical_phase {AL : Allocator} {PB : Protobuf} {AE : AsioErrors} {GS : GuidSource}
    this event_appeared dropped s n settings buffer w
    (Hs : objects w !! this = Some (catchup_object s n settings buffer)) (Hsizes : catchup_sizes w (stream_ s))
    (Hkey : Guid.wf (key_ s)) (Hn : in_i64 n) :
  let answer ec r := run_prog (historical_slice_read this event_appeared dropped ec r) w in
  (∀ slice, in_i64 (n + Z.of_nat (length (ses_events slice))) →
    let n' := n + Z.of_nat (length (ses_events slice)) in
    let w1 := delivered this s event_appeared settings buffer n (ses_events slice) w in
    calls w1 = calls w ++ deliver event_appeared (ses_events slice) ∧
    (ses_is_end_of_stream slice = false →
      ∃ p v, to_view p = Ret v ∧ command v = Ret Command.read_stream_events_forward ∧
        message_bytes v = Ret (SerializeAsString (catchup_read w s settings n' (read_batch_size settings))) ∧
        answer success (Some slice) =
          Ret (tt, issued p (on_read_stream_events (stream_ s) n' forward
            (slice_to_historical this event_appeared dropped)) w1)) ∧
    (ses_is_end_of_stream slice = true →
      ∃ p v, to_view p = Ret v ∧ command v = Ret Command.subscribe_to_stream ∧
        correlation_id v = Ret (key_ s) ∧
        answer success (Some slice) =
          Ret (tt, started this event_appeared dropped (catchup_object s n' settings buffer) p w1))) ∧
  (∀ ec, failed ec = true →
    answer ec None = Ret (tt, dropping this (make_error_code subscription_request_not_sent) dropped
      (catchup_object s n settings buffer) w)).
Proof.
  intros answer. subst answer. cbv beta. split.
  - intros slice Hn' n' w1. split; [done|].
    pose proof (delivered_object this s event_appeared settings buffer n (ses_events slice) w) as Hw1.
    assert (run_prog (historical_slice_read this event_appeared dropped success (Some slice)) w =
      run_prog (if ses_is_end_of_stream slice then catchup_do_async_start this event_appeared dropped
                else catchup_async_start this event_appeared dropped) w1) as Hrun.
    { unfold historical_slice_read. rewrite failed_success. cbn [negb].
      rewrite run_bind, run_perform. run_simpl.
      rewrite run_bind, (historical_loop_run this s event_appeared settings buffer _ n) by done. by run_simpl. }
    rewrite Hrun. split; intros ->.
    + exact (catchup_async_start_run this s n' settings buffer event_appeared dropped w1 Hw1
        (delivered_sizes _ _ _ _ _ _ _ _ Hsizes)).
    + destruct Hsizes as [? [Hu Hp] ? Hm].
      destruct (volatile_async_start_run this (catchup_resolve_link_tos settings) event_appeared dropped
        (catchup_object s n' settings buffer) w1) as (p & v & Hv & Hc & Hcorr & _ & Hr); [done..|by apply Hm|].
      exists p, v. split_and!; [done..|]. unfold catchup_do_async_start.
      rewrite run_bind, (run_catchup_members _ _ _ _ _ _ Hw1). run_simpl. exact Hr.
  - intros ec Hf. unfold historical_slice_read. rewrite Hf. cbn [negb].
    by apply unsubscribe_dropping_error.
Qed.

Lemma sample_catchup_sizes kind stream : catchup_sizes (PB := sample_protobuf) (sample_subscribed kind) stream.
Proof. split; [done|split; vm_compute; lia|by intros []..]. Qed.

Lemma catchup_historical_phase_witness :
  let settings := default_catchup_subscription_settings in
  let kind := catchup 7 settings (sample_buffer []) in
  let w := sample_subscribed kind in
  let slice := mk_stream_events_slice 7 8 7 "stream" forward false [sample_event 7] in
  ses_is_end_of_stream slice = false ∧
  ∃ p v, to_view p = Ret v ∧ command v = Ret Command.read_stream_events_forward ∧
    message_bytes v = Ret (@SerializeAsString _ (pb_ReadStreamEvents (Protobuf := sample_protobuf))
      (catchup_read w (sample_subscription kind) settings 8 (read_batch_size settings))) ∧
    run_prog (AE := linux_asio_errors) (GS := counting_guids)
      (historical_slice_read (AL := zero_allocator) (PB := sample_protobuf) 0 1 2 success (Some slice)) w =
    Ret (tt, issued (GS := counting_guids) p
      (on_read_stream_events "stream" 8 forward (slice_to_historical 0 1 2))
      (delivered 0 (sample_subscription kind) 1 settings (sample_buffer []) 7 [sample_event 7] w)).
Proof.
  intros settings kind w slice. split; [reflexivity|].
  exact (proj1 (proj2 (proj1 (catchup_historical_phase (AL := zero_allocator) (PB := sample_protobuf)
    (AE := linux_asio_errors) (GS := counting_guids) 0 1 2 (sample_subscription kind) 7 settings
    (sample_buffer []) w ltac:(vm_compute; reflexivity) (sample_catchup_sizes kind _) eq_refl
    ltac:(unfold in_i64; lia)) slice ltac:(unfold in_i64; cbn; lia))) eq_refl).
Defined.

(** Catching up with the events written while the client was subscribing.
    The confirmation gives the number [last] of the last event of the stream.
    When it is greater than the next number [n] to read, the client asks for
    [last - n] events from [n], so for the numbers up to [last - 1], and for
    none when it is equal to [n]; slices are delivered once and in order until
    that count is reached, and then the buffered events are posted for
    delivery: the event [last] itself is never asked for. *)
Theorem catchup_missed_phase {AL : Allocator} {PB : Protobuf} {AE : AsioErrors} {GS : GuidSource}
    c view bs last s n settings buffer w
    (Hs : objects w !! sc_this c = Some (catchup_object s n settings buffer)) (Hopen : handle_guard_ s = false)
    (Hsizes : catchup_sizes w (stream_ s)) (Hn : in_i64 n) (Hcount : in_i64 (last - n))
    (Hcmd : command view = Ret Command.subscription_confirmation) (Hbs : message_bytes view = Ret bs)
    (Hlast : conf_last_event_number (ParseFromArray bs) = Some last) :
  let this := sc_this c in
  let s1 := set_last_event_number last (confirm (conf_last_commit_position (ParseFromArray bs)) s) in
  let w1 := with_members this s1 n settings buffer w in
  let confirmed := run_prog (subscription_lambda catchup_on_package_received c success view) w in
  (n < last →
    ∃ p v, to_view p = Ret v ∧
      message_bytes v = Ret (SerializeAsString (catchup_read w1 s1 settings n (last - n))) ∧
      confirmed = Ret (tt, issued p (on_read_stream_events (stream_ s1) n forward
        (slice_to_missed (sc_stamp c) this (sc_event_appeared c) (sc_dropped c) (last - n))) w1)) ∧
  (last ≤ n → confirmed = Ret (tt, w1)) ∧
  (∀ slice m count buffer2 w2, objects w2 !! this = Some (catchup_object s1 m settings buffer2) →
    catchup_sizes w2 (stream_ s) →
    refers (sc_stamp c) (key_ s1) w2 → in_i64 m → in_i64 (m + Z.of_nat (length (ses_events slice))) →
    in_i64 (count - Z.of_nat (length (ses_events slice))) →
    let m' := m + Z.of_nat (length (ses_events slice)) in
    let left := count - Z.of_nat (length (ses_events slice)) in
    let w3 := delivered this s1 (sc_event_appeared c) settings buffer2 m (ses_events slice) w2 in
    let answer := run_prog (missed_slice_read (sc_stamp c) this (sc_event_appeared c) (sc_dropped c) count success
      (Some slice)) w2 in
    (left ≤ 0 → answer = Ret (tt, set_posted (posted w3 ++ [read_buffered (sc_stamp c) this (sc_event_appeared c)]) w3)) ∧
    (0 < left → ∃ p v, to_view p = Ret v ∧
      message_bytes v = Ret (SerializeAsString (catchup_read w3 s1 settings m' left)) ∧
      answer = Ret (tt, issued p (on_read_stream_events (stream_ s1) m' forward
        (slice_to_missed (sc_stamp c) this (sc_event_appeared c) (sc_dropped c) left)) w3))).
Proof.
  intros this s1 w1 confirmed.
  assert (objects w1 !! this = Some (catchup_object s1 n settings buffer)) as Hw1 by apply lookup_with_members.
  assert (catchup_sizes w1 (stream_ s1)) as Hsz1 by by destruct Hsizes.
  assert (∀ w', (if last >? n
      then run_prog (catch_up_missed_events (sc_stamp c) this (last - n) (sc_event_appeared c) (sc_dropped c)) w1
      else Ret (tt, w1)) = Ret (tt, w') → confirmed = Ret (tt, w')) as Hconf.
  { intros w' Hr. unfold confirmed. rewrite (open_lambda_package _ _ _ _ _ Hs) by done.
    unfold lambda_on_package, catchup_on_package_received. cbv zeta.
    rewrite run_bind, run_bind, run_perform, Hcmd. run_simpl.
    rewrite bool_decide_eq_true_2 by done.
    rewrite run_bind, run_perform, (parse_view_ok (M := SubscriptionConfirmation) _ _ Hbs). run_simpl.
    rewrite run_bind, (run_update_object _ _ _ _ Hs). run_simpl. rewrite Hlast.
    rewrite run_bind, run_bind. rewrite (run_update_object _ _
      (confirm (conf_last_commit_position (ParseFromArray bs)) (catchup_object s n settings buffer)))
      by apply lookup_insert_eq. run_simpl. rewrite insert_insert_eq.
    change (set_objects ?a (set_objects ?b w)) with w1. rewrite run_bind, (run_catchup_members _ _ _ _ _ _ Hw1). run_simpl.
    destruct (last >? n) eqn:E.
    - rewrite run_bind, run_perform, i64_checked_ok by done. run_simpl. fold this. rewrite Hr. by run_simpl.
    - simplify_eq. by run_simpl. }
  split_and!.
  - intros Hlt. rewrite (proj2 (Z.gtb_lt _ _)) in Hconf by lia.
    destruct (catch_up_missed_run (sc_stamp c) this s1 n settings buffer (last - n) (sc_event_appeared c) (sc_dropped c) w1 Hw1 Hsz1)
      as (p & v & Hv & _ & Hm & Hrun).
    exists p, v. split_and!; [done..|]. by apply Hconf.
  - intros Hle. rewrite Z.gtb_ltb, (proj2 (Z.ltb_ge _ _)) in Hconf by lia. by apply Hconf.
  - intros slice m count buffer2 w2 H2 Hsz2 Hk Hm Hm' Hleft.
    exact (missed_slice_run _ this (sc_event_appeared c) (sc_dropped c) s1 m settings buffer2 count slice w2
      H2 Hsz2 Hk Hm Hm' Hleft).
Qed.

(** The sample confirmation says 5. *)
Lemma catchup_missed_phase_witness :
  let settings := default_catchup_subscription_settings in
  let kind := catchup 5 settings (sample_buffer []) in
  let w := sample_subscribed kind in
  let view := sample_response Command.subscription_confirmation x00 in
  conf_last_event_number (@ParseFromArray _ (pb_SubscriptionConfirmation (Protobuf := sample_protobuf)) [x00])
    = Some 5 ∧
  run_prog (AE := linux_asio_errors) (GS := counting_guids)
    (subscription_lambda (AL := zero_allocator) (PB := sample_protobuf)
      (catchup_on_package_received (AL := zero_allocator) (PB := sample_protobuf)) sample_closure success view) w
  = Ret (tt, with_members 0 (set_last_event_number 5 (confirm 5 (sample_subscription kind))) 5 settings
      (sample_buffer []) w).
Proof.
  intros settings kind w view. split; [reflexivity|].
  exact (proj1 (proj2 (catchup_missed_phase (AL := zero_allocator) (PB := sample_protobuf)
    (AE := linux_asio_errors) (GS := counting_guids) sample_closure view [x00] 5 (sample_subscription kind) 5
    settings (sample_buffer []) w ltac:(vm_compute; reflexivity) eq_refl (sample_catchup_sizes kind _)
    ltac:(unfold in_i64; lia) ltac:(unfold in_i64; lia) eq_refl eq_refl eq_refl)) ltac:(lia)).
Defined.
