(* ===== verification/CatchupAll.v ===== *)
(** The catch-up subscription to the transaction log
    (include/subscription/catchup_all_subscription.hpp). *)
From S2P Require Import Prelude Errors Basics BufferQueue TcpPackage Messages Events Settings Operations.
From S2P Require Import OperationsMap World Connection Requests Subscription Catchup.

Section catchup_all.
Context {AL : Allocator} {PB : Protobuf} {AE : AsioErrors} {GS : GuidSource}.

(** The members of the derived class. *)
Record all_members := mk_all_members {
  current_position_ : position;
  all_settings_ : catchup_subscription_settings;
  all_event_buffer_ : event_queue;
  position_to_catch_up_to_ : position
}.

Definition catchup_all_members (this : nat) : prog all_members :=
  s ← get_object this;
  lift (match kind_ s with
        | catchup_all p settings buffer target => Ret (mk_all_members p settings buffer target)
        | _ => Undef dangling_reference (* not the class [this] points to *)
        end).

Definition update_all_members (this : nat) (f : all_members → all_members) : prog unit :=
  m ← catchup_all_members this;
  let m := f m in
  update_object this (set_kind (catchup_all (current_position_ m) (all_settings_ m)
    (all_event_buffer_ m) (position_to_catch_up_to_ m))).

Definition set_current_position (p : position) (m : all_members) : all_members :=
  mk_all_members p (all_settings_ m) (all_event_buffer_ m) (position_to_catch_up_to_ m).
Definition set_all_event_buffer (b : event_queue) (m : all_members) : all_members :=
  mk_all_members (current_position_ m) (all_settings_ m) b (position_to_catch_up_to_ m).
Definition set_position_to_catch_up_to (p : position) (m : all_members) : all_members :=
  mk_all_members (current_position_ m) (all_settings_ m) (all_event_buffer_ m) p.

Definition catch_up_all_events (this : nat) (from : position) (count : Z) (reader : slice_reader) : prog unit :=
  m ← catchup_all_members this;
  async_read_all_events forward from (wrap_i32 count) (catchup_resolve_link_tos (all_settings_ m)) reader.

Definition catchup_all_async_start (this event_appeared dropped : nat) : prog unit :=
  m ← catchup_all_members this;
  catch_up_all_events this (current_position_ m) (read_batch_size (all_settings_ m))
    (slice_to_historical this event_appeared dropped).

Definition catchup_all_do_async_start (this event_appeared dropped : nat) : prog unit :=
  m ← catchup_all_members this;
  volatile_async_start this (catchup_resolve_link_tos (all_settings_ m)) event_appeared dropped.

(** The lambda of async_start. *)
Definition historical_all_slice_read (this event_appeared dropped : nat) (ec : error_code)
    (result : option all_events_slice) : prog unit :=
  if negb (failed ec) then
    value ← lift (opt_value result);
    for_each (aes_events value) (λ event, call_user event_appeared (cb_event event));;
    if aes_is_end_of_stream value
    then catchup_all_do_async_start this event_appeared dropped
    else
      update_all_members this (set_current_position (aes_next_position value));;
      catchup_all_async_start this event_appeared dropped
  else
    unsubscribe_dropping this (make_error_code subscription_request_not_sent) dropped.

Definition catch_up_missed_all_events (r this : nat) (count : Z) (event_appeared dropped : nat) : prog unit :=
  m ← catchup_all_members this;
  catch_up_all_events this (current_position_ m) count (slice_to_missed r this event_appeared dropped count).

(** One round of the loop of read_subscription_events. *)
Definition read_one_all_event (r this event_appeared : nat) : prog unit :=
  m ← catchup_all_members this;
  event ← lift (q_front (all_event_buffer_ m));
  p ← lift (opt_value (original_position_ event));
  update_all_members this (set_current_position p);;
  call_reference r this event_appeared (cb_event event);;
  m ← catchup_all_members this;
  buffer ← lift (q_pop_front (all_event_buffer_ m));
  update_all_members this (set_all_event_buffer buffer).

Fixpoint read_all_buffered (rounds : nat) (r this event_appeared : nat) : prog unit :=
  match rounds with
  | O => skip
  | S rounds =>
      m ← catchup_all_members this;
      if q_empty (all_event_buffer_ m) then skip
      else read_one_all_event r this event_appeared;; read_all_buffered rounds r this event_appeared
  end.

Definition read_all_subscription_events (r this event_appeared : nat) : prog unit :=
  m ← catchup_all_members this;
  read_all_buffered (Z.to_nat (max_live_queue_size (all_settings_ m))) r this event_appeared;;
  m ← catchup_all_members this;
  if negb (q_empty (all_event_buffer_ m)) then post (read_buffered r this event_appeared) else skip.

(** The loop over the slice: it answers whether to read the next batch. *)
Fixpoint missed_all_loop (r this event_appeared : nat) (events : list resolved_event) : prog bool :=
  match events with
  | [] => mret true
  | event :: events =>
      p ← lift (opt_value (original_position_ event));
      update_all_members this (set_current_position p);;
      m ← catchup_all_members this;
      if Position.eq (current_position_ m) (position_to_catch_up_to_ m) then mret false
      else
        call_reference r this event_appeared (cb_event event);;
        missed_all_loop r this event_appeared events
  end.

(** The lambda of catch_up_missed_events. *)
Definition missed_all_slice_read (r this event_appeared dropped : nat) (count : Z) (ec : error_code)
    (result : option all_events_slice) : prog unit :=
  if negb (failed ec) then
    value ← lift (opt_value result);
    continue_next_batch ← missed_all_loop r this event_appeared (aes_events value);
    if (continue_next_batch : bool)
    then catch_up_missed_all_events r this count event_appeared dropped
    else read_all_subscription_events r this event_appeared
  else drop_reference r this ec dropped.

Definition catchup_all_on_package_received (c : subscription_closure) (view : tcp_package_view) : prog bool :=
  let this := sc_this c in
  cmd ← lift (command view);
  if bool_decide (cmd = Command.subscription_confirmation) then
    response ← lift (parse_view (M := SubscriptionConfirmation) view);
    update_object this (λ s,
      confirm_event_number (conf_last_event_number response)
        (confirm (conf_last_commit_position response) s));;
    let last := conf_last_commit_position response in
    update_all_members this (set_position_to_catch_up_to (mk_position last last));;
    m ← catchup_all_members this;
    (if Position.gt (position_to_catch_up_to_ m) (current_position_ m) then
       catch_up_missed_all_events (sc_stamp c) this (read_batch_size (all_settings_ m))
         (sc_event_appeared c) (sc_dropped c)
     else skip);;
    mret true
  else if bool_decide (cmd = Command.stream_event_appeared) then
    message ← lift (parse_view (M := StreamEventAppeared) view);
    event ← lift (resolved_of_ResolvedEvent (sea_event message));
    m ← catchup_all_members this;
    buffer ← lift (q_emplace_back event (all_event_buffer_ m));
    update_all_members this (set_all_event_buffer buffer);;
    m ← catchup_all_members this;
    (if Position.gt (position_to_catch_up_to_ m) (current_position_ m) then skip
     else if q_size (all_event_buffer_ m) =? 1 then
       read_all_subscription_events (sc_stamp c) this (sc_event_appeared c)
     else skip);;
    mret true
  else mret false.
End catchup_all.

(** ** Catching up with the log *)
Section facts.
Context {AL : Allocator} {PB : Protobuf} {AE : AsioErrors} {GS : GuidSource}.

(** The object of a subscription to the whole log. *)
Definition all_object (s : subscription) (m : all_members) : subscription :=
  set_kind (catchup_all (current_position_ m) (all_settings_ m) (all_event_buffer_ m)
    (position_to_catch_up_to_ m)) s.

Definition with_all_members (this : nat) (s : subscription) (m : all_members) (w : world) : world :=
  set_objects (<[this := all_object s m]> (objects w)) w.

Lemma run_all_members this s m w :
  objects w !! this = Some (all_object s m) →
  run_prog (catchup_all_members this) w = Ret (m, w).
Proof.
  intros Hs. unfold catchup_all_members. rewrite run_bind, (run_get_object _ _ _ Hs). by destruct m.
Qed.

Lemma run_update_all_members this s m f w :
  objects w !! this = Some (all_object s m) →
  run_prog (update_all_members this f) w = Ret (tt, with_all_members this s (f m) w).
Proof.
  intros Hs. unfold update_all_members. rewrite run_bind, (run_all_members _ _ _ _ Hs). run_simpl.
  by rewrite (run_update_object _ _ _ _ Hs).
Qed.

Lemma with_all_members_twice this s m m' w :
  with_all_members this s m' (with_all_members this s m w) = with_all_members this s m' w.
Proof. unfold with_all_members. run_simpl. by rewrite insert_insert_eq. Qed.

Lemma with_all_members_id this s m w :
  objects w !! this = Some (all_object s m) → with_all_members this s m w = w.
Proof. intros Hs. unfold with_all_members. rewrite insert_id by done. by destruct w. Qed.

(** The events with their positions, up to the first at [target]. *)
Definition positioned (e : resolved_event) (p : position) : Prop := original_position_ e = Some p.

Lemma missed_all_loop_run r this s cb : ∀ es ps m w,
  Forall2 positioned es ps → position_to_catch_up_to_ m ∉ ps →
  objects w !! this = Some (all_object s m) → refers r (key_ s) w →
  ∀ rest, run_prog (missed_all_loop r this cb (es ++ rest)) w =
    run_prog (missed_all_loop r this cb rest)
      (set_calls (calls w ++ deliver cb es)
        (with_all_members this s (set_current_position (default (current_position_ m) (last ps)) m) w)).
Proof.
  intros es ps m w Hes. revert m w.
  induction Hes as [|e p es ps He Hes IH]; intros m w Hn Hs Hk rest; cbn [app].
  - cbn. rewrite app_nil_r. destruct m. rewrite with_all_members_id by done. by destruct w.
  - apply not_elem_of_cons in Hn as [Hne Hn]. cbn [missed_all_loop].
    rewrite run_bind, run_perform, He. run_simpl.
    rewrite run_bind, (run_update_all_members _ _ _ _ _ Hs). run_simpl.
    set (m1 := set_current_position p m). set (w1 := with_all_members this s m1 w).
    assert (objects w1 !! this = Some (all_object s m1)) as Hw1 by apply lookup_insert_eq.
    rewrite run_bind, (run_all_members _ _ _ _ Hw1). run_simpl.
    assert (Position.eq (current_position_ m1) (position_to_catch_up_to_ m1) = false) as ->.
    { apply not_true_iff_false. rewrite Position.eq_spec. cbn. congruence. }
    rewrite run_bind, (run_call_reference _ this (all_object s m1)) by done. run_simpl.
    rewrite (IH m1) by done.
    f_equal. cbn [calls set_calls w1 with_all_members set_objects deliver fmap list_fmap].
    rewrite <- app_assoc. unfold with_all_members. run_simpl. unfold w1, with_all_members. run_simpl.
    rewrite insert_insert_eq. destruct m; cbn [m1 set_current_position current_position_
      all_settings_ all_event_buffer_ position_to_catch_up_to_].
    by rewrite last_cons; destruct (last ps).
Qed.
End facts.

(** ** Single pieces of its course *)
Section pieces.
Context {AL : Allocator} {PB : Protobuf} {AE : AsioErrors} {GS : GuidSource}.

(** Sizes of the requests a subscription to the log makes. *)
Record all_sizes (w : world) : Prop := {
  all_alive : alive w = true;
  all_credentials : credentials_fit w;
  all_read_size : ∀ m : ReadAllEvents, Z.of_nat (length (SerializeAsString m)) < 2 ^ 30;
  all_subscribe_size : ∀ m : SubscribeToStream, sts_event_stream_id m = EmptyString →
    Z.of_nat (length (SerializeAsString m)) < 2 ^ 30
}.

(** The read it asks for. *)
Definition all_read (w : world) (m : all_members) (count : Z) : ReadAllEvents := {|
  rae_commit_position := commit_position (current_position_ m);
  rae_prepare_position := prepare_position (current_position_ m);
  rae_max_count := wrap_i32 count;
  rae_resolve_link_tos := catchup_resolve_link_tos (all_settings_ m);
  rae_require_master := require_master_ (settings_ w)
|}.

Lemma catch_up_all_events_run this s m count reader w :
  objects w !! this = Some (all_object s m) → all_sizes w →
  ∃ p v, to_view p = Ret v ∧ command v = Ret Command.read_all_events_forward ∧
    message_bytes v = Ret (SerializeAsString (all_read w m count)) ∧
    run_prog (catch_up_all_events this (current_position_ m) count reader) w =
      Ret (tt, issued p (on_read_all_events forward reader) w).
Proof.
  intros Hs [Ha Hc Hm _].
  destruct (issue_make_request Command.read_all_events_forward (SerializeAsString (all_read w m count))
    (on_read_all_events forward reader)
    (λ st c, read_all_events_request st c forward (current_position_ m) (wrap_i32 count)
       (catchup_resolve_link_tos (all_settings_ m))) w) as (p & v & fl & creds & Hrun & Hv & Hr); [done|done|by apply Hm|done|].
  exists p, v. split_and!; [done|apply Hr|apply Hr|].
  unfold catch_up_all_events. rewrite run_bind, (run_all_members _ _ _ _ Hs). run_simpl. exact Hrun.
Qed.

Lemma call_user_loop cb l w :
  run_prog (for_each l (λ event, call_user cb (cb_event event))) w = Ret (tt, set_calls (calls w ++ deliver cb l) w).
Proof.
  revert w. induction l as [|e l IH]; intros w; cbn [for_each].
  - cbn. rewrite app_nil_r. by destruct w.
  - change (prog_bind ?f ?p) with (p ≫= f). rewrite run_bind, run_perform. run_simpl. rewrite IH. run_simpl.
    by rewrite <- app_assoc.
Qed.

(** The answers to the historical reads: the events are delivered and the next
    read starts at the position the slice gives; an empty slice ends the
    phase, and the client subscribes. *)
Lemma historical_all_slice_run this ea dr s m slice w :
  objects w !! this = Some (all_object s m) → all_sizes w → stream_ s = EmptyString →
  length (key_ s) = 16%nat →
  let m' := set_current_position (aes_next_position slice) m in
  let w1 := set_calls (calls w ++ deliver ea (aes_events slice)) (with_all_members this s m' w) in
  let answer := run_prog (historical_all_slice_read this ea dr success (Some slice)) w in
  (aes_is_end_of_stream slice = false → ∃ p v, to_view p = Ret v ∧
    command v = Ret Command.read_all_events_forward ∧
    message_bytes v = Ret (SerializeAsString (all_read w m' (read_batch_size (all_settings_ m)))) ∧
    answer = Ret (tt, issued p (on_read_all_events forward (slice_to_historical this ea dr)) w1)) ∧
  (aes_is_end_of_stream slice = true → ∃ p v, to_view p = Ret v ∧
    command v = Ret Command.subscribe_to_stream ∧
    message_bytes v = Ret (SerializeAsString
      {| sts_event_stream_id := EmptyString; sts_resolve_link_tos := catchup_resolve_link_tos (all_settings_ m) |}) ∧
    answer = Ret (tt, started this ea dr (all_object s m) p (set_calls (calls w ++ deliver ea (aes_events slice)) w))).
Proof.
  intros Hs Hsz Hstr Hk m' w1 answer.
  set (w0 := set_calls (calls w ++ deliver ea (aes_events slice)) w).
  assert (answer = run_prog (if aes_is_end_of_stream slice then catchup_all_do_async_start this ea dr
    else update_all_members this (set_current_position (aes_next_position slice));; catchup_all_async_start this ea dr) w0)
    as ->.
  { unfold answer, historical_all_slice_read. rewrite failed_success. cbn [negb].
    rewrite run_bind, run_perform. run_simpl. by rewrite run_bind, call_user_loop. }
  assert (objects w0 !! this = Some (all_object s m)) as Hw0 by exact Hs.
  split; intros ->.
  - assert (objects (with_all_members this s m' w0) !! this = Some (all_object s m')) as Hw1 by apply lookup_insert_eq.
    destruct (catch_up_all_events_run this s m' (read_batch_size (all_settings_ m)) (slice_to_historical this ea dr)
      (with_all_members this s m' w0) Hw1) as (p & v & Hv & Hc & Hm & Hrun); [by destruct Hsz|].
    exists p, v. split_and!; [done..|]. rewrite run_bind, (run_update_all_members _ _ _ _ _ Hw0). run_simpl.
    unfold catchup_all_async_start. rewrite run_bind, (run_all_members _ _ _ _ Hw1). run_simpl. exact Hrun.
  - destruct (volatile_async_start_run this (catchup_resolve_link_tos (all_settings_ m)) ea dr (all_object s m) w0)
      as (p & v & Hv & Hc & _ & Hm & Hrun); [done|done|apply Hsz|apply Hsz|
        by apply (all_subscribe_size _ Hsz)|].
    exists p, v. split_and!; [done|done|by rewrite Hm; cbn [stream_ all_object set_kind]; rewrite Hstr|].
    unfold catchup_all_do_async_start. rewrite run_bind, (run_all_members _ _ _ _ Hw0). run_simpl. exact Hrun.
Qed.

(** Delivering the buffered events. *)
Lemma with_all_members_members this s m s' m' w :
  with_all_members this s' m' (with_all_members this s m w) = with_all_members this s' m' w.
Proof. unfold with_all_members. run_simpl. by rewrite insert_insert_eq. Qed.

Lemma read_one_all_event_run r this s cb m e p l w :
  objects w !! this = Some (all_object s m) → q_rel (all_event_buffer_ m) (e :: l) → positioned e p →
  refers r (key_ s) w →
  ∃ buffer, q_rel buffer l ∧ run_prog (read_one_all_event r this cb) w =
    Ret (tt, set_calls (calls w ++ [(cb, cb_event e)])
      (with_all_members this s (set_all_event_buffer buffer (set_current_position p m)) w)).
Proof.
  intros Hs Hq Hp Hk. destruct (q_pop_front_rel _ _ _ Hq) as (buffer & Hpop & Hq'). exists buffer. split; [done|].
  unfold read_one_all_event. rewrite run_bind, (run_all_members _ _ _ _ Hs). run_simpl.
  rewrite run_bind, run_perform, (q_front_rel _ _ _ Hq). run_simpl. rewrite run_bind, run_perform, Hp. run_simpl.
  rewrite run_bind, (run_update_all_members _ _ _ _ _ Hs). run_simpl.
  set (m1 := set_current_position p m). set (w1 := with_all_members this s m1 w).
  assert (objects w1 !! this = Some (all_object s m1)) as Hw1 by apply lookup_insert_eq.
  rewrite run_bind, (run_call_reference _ this (all_object s m1)) by done. run_simpl.
  rewrite run_bind, (run_all_members this s m1) by done. run_simpl.
  change (all_event_buffer_ m1) with (all_event_buffer_ m).
  rewrite run_bind, run_perform, Hpop. run_simpl. rewrite (run_update_all_members this s m1) by done.
  unfold w1, with_all_members. run_simpl. by rewrite insert_insert_eq.
Qed.

Lemma read_all_buffered_run rounds r this s cb : ∀ l ps m w,
  objects w !! this = Some (all_object s m) → q_rel (all_event_buffer_ m) l → Forall2 positioned l ps →
  refers r (key_ s) w →
  ∃ buffer, q_rel buffer (drop rounds l) ∧ run_prog (read_all_buffered rounds r this cb) w =
    Ret (tt, set_calls (calls w ++ deliver cb (take rounds l))
      (with_all_members this s (set_all_event_buffer buffer
        (set_current_position (default (current_position_ m) (last (take rounds ps))) m)) w)).
Proof.
  assert (∀ s m w, objects w !! this = Some (all_object s m) →
    set_calls (calls w ++ []) (with_all_members this s (set_all_event_buffer (all_event_buffer_ m)
      (set_current_position (current_position_ m) m)) w) = w) as Hnone.
  { intros s0 m w Hs. rewrite app_nil_r. destruct m. rewrite with_all_members_id by done. by destruct w. }
  induction rounds as [|rounds IH]; intros l ps m w Hs Hq Hps Hk; cbn [read_all_buffered].
  - exists (all_event_buffer_ m). split; [done|]. cbn. by rewrite Hnone.
  - rewrite run_bind, (run_all_members _ _ _ _ Hs). run_simpl. rewrite (q_empty_rel _ _ Hq).
    destruct Hps as [|e p l ps Hp Hps]; cbn [drop take].
    + rewrite bool_decide_eq_true_2 by done. exists (all_event_buffer_ m). split; [done|]. cbn. by rewrite Hnone.
    + rewrite bool_decide_eq_false_2 by done.
      destruct (read_one_all_event_run _ this s cb m e p l w Hs Hq Hp Hk) as (b1 & Hq1 & Hrun).
      rewrite run_bind, Hrun. run_simpl. set (m1 := set_all_event_buffer b1 (set_current_position p m)).
      destruct (IH l ps m1 (set_calls (calls w ++ [(cb, cb_event e)]) (with_all_members this s m1 w)))
        as (b2 & Hq2 & Hrun2); [apply lookup_insert_eq|done|done|exact Hk|].
      exists b2. split; [done|]. rewrite Hrun2. f_equal. f_equal. cbn [calls set_calls deliver fmap list_fmap].
      rewrite <- app_assoc, last_cons. unfold with_all_members. run_simpl. rewrite insert_insert_eq.
      by destruct (last (take rounds ps)).
Qed.

(** ** Packages of the server *)
Lemma confirmation_all_run c v body s m w :
  objects w !! sc_this c = Some (all_object s m) → handle_guard_ s = false → all_sizes w →
  command v = Ret Command.subscription_confirmation → message_bytes v = Ret body →
  let r : SubscriptionConfirmation := ParseFromArray body in
  let last := conf_last_commit_position r in
  let s' := confirm_event_number (conf_last_event_number r) (confirm last s) in
  let m' := set_position_to_catch_up_to (mk_position last last) m in
  let count := read_batch_size (all_settings_ m) in
  let w1 := with_all_members (sc_this c) s' m' w in
  let answer := run_prog (subscription_lambda catchup_all_on_package_received c success v) w in
  (Position.gt (mk_position last last) (current_position_ m) = true → ∃ p v, to_view p = Ret v ∧
    command v = Ret Command.read_all_events_forward ∧
    message_bytes v = Ret (SerializeAsString (all_read w m count)) ∧
    answer = Ret (tt, issued p (on_read_all_events forward
      (slice_to_missed (sc_stamp c) (sc_this c) (sc_event_appeared c) (sc_dropped c) count)) w1)) ∧
  (Position.gt (mk_position last last) (current_position_ m) = false → answer = Ret (tt, w1)).
Proof.
  intros Hs Hg Hsz Hcmd Hm r last s' m' count w1 answer.
  assert (confirm_event_number (conf_last_event_number r) (confirm last (all_object s m)) = all_object s' m) as Hobj
    by (unfold s'; by destruct (conf_last_event_number r)).
  assert (objects (with_all_members (sc_this c) s' m w) !! sc_this c = Some (all_object s' m)) as Hw0
    by apply lookup_insert_eq.
  assert (objects w1 !! sc_this c = Some (all_object s' m')) as Hw1 by apply lookup_insert_eq.
  assert (answer = r ← run_prog (if Position.gt (mk_position last last) (current_position_ m)
    then catch_up_missed_all_events (sc_stamp c) (sc_this c) count (sc_event_appeared c) (sc_dropped c) else skip) w1;
    Ret (tt, r.2)) as ->.
  { unfold answer. rewrite (open_lambda_package _ c v (all_object s m)) by done.
    unfold lambda_on_package, catchup_all_on_package_received. cbv zeta. rewrite run_bind, run_bind, run_perform, Hcmd. run_simpl.
    rewrite bool_decide_eq_true_2 by done.
    rewrite run_bind, run_perform, (parse_view_ok (M := SubscriptionConfirmation) _ _ Hm). run_simpl.
    rewrite run_bind, (run_update_object _ _ _ _ Hs). run_simpl. fold r. fold last. rewrite Hobj.
    change (set_objects _ w) with (with_all_members (sc_this c) s' m w).
    rewrite run_bind, (run_update_all_members _ _ _ _ _ Hw0). run_simpl. rewrite with_all_members_members.
    fold m'. fold w1. rewrite run_bind, (run_all_members _ _ _ _ Hw1). run_simpl. rewrite run_bind.
    change (position_to_catch_up_to_ m') with (mk_position last last).
    change (current_position_ m') with (current_position_ m). change (all_settings_ m') with (all_settings_ m). fold count.
    by destruct (run_prog (if Position.gt _ _ then _ else _) w1) as [[[] w2]| |]. }
  split; intros ->; [|done].
  destruct (catch_up_all_events_run (sc_this c) s' m' count
    (slice_to_missed (sc_stamp c) (sc_this c) (sc_event_appeared c) (sc_dropped c) count) w1 Hw1) as (p & pv & Hv & Hc & Hms & Hrun);
    [by destruct Hsz|].
  exists p, pv. split_and!; [done..|]. unfold catch_up_missed_all_events.
  rewrite run_bind, (run_all_members _ _ _ _ Hw1). run_simpl. change (current_position_ m') with (current_position_ m) in *.
  by rewrite Hrun.
Qed.

Lemma pushed_all_run c v body s m l e w :
  objects w !! sc_this c = Some (all_object s m) → handle_guard_ s = false → q_rel (all_event_buffer_ m) l →
  command v = Ret Command.stream_event_appeared → message_bytes v = Ret body →
  resolved_of_ResolvedEvent (sea_event (ParseFromArray body)) = Ret e →
  ∃ q, q_rel q (l ++ [e]) ∧
    run_prog (subscription_lambda catchup_all_on_package_received c success v) w =
      r ← run_prog (if Position.gt (position_to_catch_up_to_ m) (current_position_ m) then skip
                   else if q_size q =? 1 then read_all_subscription_events (sc_stamp c) (sc_this c) (sc_event_appeared c) else skip)
        (with_all_members (sc_this c) s (set_all_event_buffer q m) w);
      Ret (tt, r.2).
Proof.
  intros Hs Hg Hq Hcmd Hm He. destruct (q_emplace_back_rel _ l e Hq) as (q & Hemp & Hq'). exists q. split; [done|].
  rewrite (open_lambda_package _ c v (all_object s m)) by done.
  unfold lambda_on_package, catchup_all_on_package_received. cbv zeta. rewrite run_bind, run_bind, run_perform, Hcmd. run_simpl.
  rewrite bool_decide_eq_false_2 by done. rewrite bool_decide_eq_true_2 by done.
  rewrite run_bind, run_perform, (parse_view_ok (M := StreamEventAppeared) _ _ Hm). run_simpl.
  rewrite run_bind, run_perform, He. run_simpl. rewrite run_bind, (run_all_members _ _ _ _ Hs). run_simpl.
  rewrite run_bind, run_perform, Hemp. run_simpl. rewrite run_bind, (run_update_all_members _ _ _ _ _ Hs). run_simpl.
  rewrite run_bind, (run_all_members _ s (set_all_event_buffer q m)) by apply lookup_insert_eq. run_simpl.
  rewrite run_bind. cbn [position_to_catch_up_to_ current_position_ all_event_buffer_ set_all_event_buffer].
  by destruct (run_prog (if Position.gt _ _ then _ else _) _) as [[[] w2]| |].
Qed.
End pieces.

(** Catching up with the log on one slice: events are delivered once and in
    order up to, and not including, the event at the position the subscription
    was confirmed at; that event is skipped and the buffered events follow.
    When it is not in the slice, all are delivered and the next read starts at
    the position of the last of them, which it will return again. *)
Lemma catchup_all_missed_phase {AL : Allocator} {PB : Protobuf} {AE : AsioErrors} {GS : GuidSource}
    r this event_appeared dropped count slice s m ps w
    (Hs : objects w !! this = Some (all_object s m)) (Hreg : refers r (key_ s) w)
    (Hps : Forall2 positioned (aes_events slice) ps) :
  let run := run_prog (missed_all_slice_read r this event_appeared dropped count success (Some slice)) w in
  let after es p := set_calls (calls w ++ deliver event_appeared es)
    (with_all_members this s (set_current_position p m) w) in
  (position_to_catch_up_to_ m ∉ ps →
    run = run_prog (catch_up_missed_all_events r this count event_appeared dropped)
            (after (aes_events slice) (default (current_position_ m) (last ps)))) ∧
  (∀ pre e post ps1 ps2, aes_events slice = pre ++ e :: post → ps = ps1 ++ position_to_catch_up_to_ m :: ps2 →
    length pre = length ps1 → position_to_catch_up_to_ m ∉ ps1 →
    run = run_prog (read_all_subscription_events r this event_appeared)
            (after pre (position_to_catch_up_to_ m))).
Proof.
  intros run after.
  assert (run = x ← run_prog (missed_all_loop r this event_appeared (aes_events slice)) w;
    run_prog (if (x.1 : bool) then catch_up_missed_all_events r this count event_appeared dropped
              else read_all_subscription_events r this event_appeared) x.2) as Hrun.
  { unfold run, missed_all_slice_read. rewrite failed_success. cbn [negb].
    rewrite run_bind, run_perform. run_simpl. by rewrite run_bind. }
  split.
  - intros Hn. rewrite Hrun, <- (app_nil_r (aes_events slice)) at 1.
    rewrite (missed_all_loop_run _ this s event_appeared _ ps m w) by done.
    cbn [missed_all_loop]. by run_simpl.
  - intros pre e post ps1 ps2 Hes Hps12 Hlen Hn. rewrite Hrun, Hes.
    rewrite Hes, Hps12 in Hps. apply Forall2_app_inv in Hps as [Hpre Hpost]; [|done].
    apply Forall2_cons in Hpost as [He _].
    rewrite (missed_all_loop_run _ this s event_appeared pre ps1 m w) by done.
    cbn [missed_all_loop]. rewrite run_bind, run_perform, He. run_simpl.
    set (m1 := set_current_position (default _ _) m). set (w1 := set_calls _ _).
    assert (objects w1 !! this = Some (all_object s m1)) as Hw1 by apply lookup_insert_eq.
    rewrite run_bind, (run_update_all_members _ _ _ _ _ Hw1). run_simpl.
    rewrite run_bind, (run_all_members _ s (set_current_position (position_to_catch_up_to_ m) m1))
      by apply lookup_insert_eq. run_simpl.
    rewrite (proj2 (Position.eq_spec _ _)) by done. run_simpl.
    f_equal. unfold w1, after, with_all_members. run_simpl. by rewrite insert_insert_eq.
Qed.
