(* ===== verification/Client.v ===== *)
(** The whole client: the closures of every component tied to the connection
    that calls them, the jobs of the io_context, and the client as a
    transition system driven by the user and the network. *)
From S2P Require Import Prelude Errors Basics BufferQueue TcpPackage Messages Events Settings Operations.
From S2P Require Import OperationsMap World Connection Requests ConnectOps Subscription Catchup.
From S2P Require Import CatchupAll.

Section client.
Context {AL : Allocator} {PB : Protobuf} {AE : AsioErrors} {GS : GuidSource}.

(** ** Calling the closures *)

(** Call the user's handler with what a response lambda gives it, if
    anything. *)
Definition call_with {R} (cb : nat) (f : R → callback) (c : outcome (option R)) : prog unit :=
  r ← lift c;
  match r with None => skip | Some r => call_user cb (f r) end.

Definition stream_slice_read (reader : slice_reader) (ec : error_code)
    (slice : option stream_events_slice) : prog unit :=
  match reader with
  | slice_to_user cb => call_user cb (cb_stream_slice (ec, slice))
  | slice_to_historical this event_appeared dropped =>
      historical_slice_read this event_appeared dropped ec slice
  | slice_to_missed r this event_appeared dropped count =>
      missed_slice_read r this event_appeared dropped count ec slice
  end.

Definition all_slice_read (reader : slice_reader) (ec : error_code)
    (slice : option all_events_slice) : prog unit :=
  match reader with
  | slice_to_user cb => call_user cb (cb_all_slice (ec, slice))
  | slice_to_historical this event_appeared dropped =>
      historical_all_slice_read this event_appeared dropped ec slice
  | slice_to_missed r this event_appeared dropped count =>
      missed_all_slice_read r this event_appeared dropped count ec slice
  end.

(** The PackageReceivedHandler of each request. *)
Definition run_response (h : response_handler) (ec : error_code) (view : tcp_package_view) : prog unit :=
  match h with
  | on_append cb => call_with cb cb_write (append_handler ec view)
  | on_conditional_append cb => call_with cb cb_write (conditional_append_handler ec view)
  | on_delete cb => call_with cb cb_delete (delete_handler ec view)
  | on_start_transaction cb => call_with cb cb_transaction (start_transaction_handler ec view)
  | on_transactional_write cb => call_with cb cb_error (transactional_write_handler ec view)
  | on_commit_transaction cb => call_with cb cb_write (commit_transaction_handler ec view)
  | on_read_stream_event stream n cb =>
      call_with cb cb_event_read (read_stream_event_handler stream n ec view)
  | on_read_stream_events stream from dir reader =>
      r ← lift (read_stream_events_handler stream from dir ec view);
      match r with None => skip | Some (ec, slice) => stream_slice_read reader ec slice end
  | on_read_all_events dir reader =>
      r ← lift (read_all_events_handler dir ec view);
      match r with None => skip | Some (ec, slice) => all_slice_read reader ec slice end
  | on_get_stream_metadata stream cb =>
      call_with cb cb_metadata (get_stream_metadata_handler stream ec view)
  | on_create_persistent cb => call_with cb cb_reason (create_persistent_subscription_handler ec view)
  | on_update_persistent cb => call_with cb cb_reason (update_persistent_subscription_handler ec view)
  | on_delete_persistent cb => call_with cb cb_reason (delete_persistent_subscription_handler ec view)
  | on_unsubscribe this ec0 dropped => unsubscribe_response this ec0 dropped ec
  end.

Definition run_operation (key : guid_type) (op : operation_closure) (ec : error_code)
    (view : tcp_package_view) : prog unit :=
  match op with
  | op_response h deadline => cancel_timer deadline;; run_response h ec view
  | op_authentication handler deadline => authentication_closure key handler deadline ec view
  | op_identification handler deadline authenticated corr_id =>
      identification_closure handler deadline authenticated corr_id ec view
  end.

(** [static_cast<child_type*>(this)->on_package_received] *)
Definition child_on_package_received (c : subscription_closure) (view : tcp_package_view) : prog bool :=
  s ← get_object (sc_this c);
  match kind_ s with
  | volatile _ => volatile_on_package_received c view
  | persistent group _ allowed auto_ack => persistent_on_package_received group allowed auto_ack c view
  | catchup _ _ _ => catchup_on_package_received c view
  | catchup_all _ _ _ _ => catchup_all_on_package_received c view
  end.

#[export] Instance client_dispatch : Dispatch := {
  invoke_operation := run_operation;
  invoke_subscription := subscription_lambda child_on_package_received
}.

(** ** The io_context's jobs *)
Definition run_waiter (waiter : waiter) (timer : nat) (ec : error_code) : prog unit :=
  match waiter with
  | wait_operation key => operation_wait_completed key ec
  | wait_heartbeat info => heartbeat_wait_completed timer info ec
  | wait_authenticate info => authenticate_wait_completed info ec
  | wait_identify info reconnections handler authenticated =>
      identify_wait_completed timer info reconnections handler authenticated ec
  end.

Definition run_read_buffered (r this event_appeared : nat) : prog unit :=
  s ← get_object this;
  match kind_ s with
  | catchup _ _ _ => read_subscription_events r this event_appeared
  | catchup_all _ _ _ _ => read_all_subscription_events r this event_appeared
  | _ => lift (Undef dangling_reference)
  end.

(** Run a program for its effect. *)
Definition effect (p : prog unit) (w : world) : outcome world :=
  r ← run_prog p w; Ret r.2.

Definition run_job (j : job) (w : world) : outcome world :=
  match j with
  | send_package p => run_send p w
  | drop_subscription this ec dropped => effect (run_drop this ec dropped) w
  | read_buffered r this event_appeared => effect (run_read_buffered r this event_appeared) w
  | call_handler cb c => effect (call_user cb c) w
  | wait_completed waiter timer ec => effect (run_waiter waiter timer ec) w
  end.

(** ** The user's calls

    [api_new_subscription] is the construction of a subscription object at
    a fresh address; the others are the functions of the same names. *)
Inductive api_call : Type :=
| api_connect (cb : nat)
| api_close
| api_append (stream : string) (events : list event_data) (expected : Z) (cb : nat)
| api_conditional_append (stream : string) (events : list event_data) (expected : Z) (cb : nat)
| api_delete (stream : string) (expected : Z) (hard : bool) (cb : nat)
| api_start_transaction (stream : string) (expected : Z) (cb : nat)
| api_transaction (t : transaction) (c : transaction_call)
| api_read_event (stream : string) (n : Z) (resolve : bool) (cb : nat)
| api_read_stream (stream : string) (dir : read_direction) (from n : Z) (resolve : bool) (cb : nat)
| api_read_all (dir : read_direction) (from : position) (n : Z) (resolve : bool) (cb : nat)
| api_get_metadata (stream : string) (cb : nat)
| api_set_metadata (stream : string) (expected : Z) (metadata : string) (cb : nat)
| api_create_persistent (stream group : string) (s : persistent_subscription_settings) (cb : nat)
| api_update_persistent (stream group : string) (s : persistent_subscription_settings) (cb : nat)
| api_delete_persistent (stream group : string) (cb : nat)
| api_new_subscription (this : nat) (key : guid_type) (args : subscription_args)
| api_start_subscription (this event_appeared dropped : nat)
| api_unsubscribe (this : nat)
| api_acknowledge (this : nat) (items : list guid_or_event)
| api_fail (this : nat) (items : list guid_or_event) (action : nak_event_action).

(** async_start of the derived classes. *)
Definition start_subscription (this event_appeared dropped : nat) : prog unit :=
  s ← get_object this;
  match kind_ s with
  | volatile resolve => volatile_async_start this resolve event_appeared dropped
  | persistent group _ allowed _ => persistent_async_start this group allowed event_appeared dropped
  | catchup _ _ _ => catchup_async_start this event_appeared dropped
  | catchup_all _ _ _ _ => catchup_all_async_start this event_appeared dropped
  end.

Definition run_api (a : api_call) : prog unit :=
  match a with
  | api_connect cb => async_connect cb
  | api_close => close
  | api_append stream events v cb => async_append_to_stream stream events v cb
  | api_conditional_append stream events v cb => async_conditional_append_to_stream stream events v cb
  | api_delete stream v hard cb => async_delete_stream stream v hard cb
  | api_start_transaction stream v cb => async_start_transaction stream v cb
  | api_transaction t c => run_transaction_call t c;; skip
  | api_read_event stream n resolve cb => async_read_stream_event stream n resolve cb
  | api_read_stream stream dir from n resolve cb =>
      async_read_stream_events stream dir from n resolve (slice_to_user cb)
  | api_read_all dir from n resolve cb => async_read_all_events dir from n resolve (slice_to_user cb)
  | api_get_metadata stream cb => async_get_stream_metadata stream cb
  | api_set_metadata stream v metadata cb => async_set_stream_metadata stream v metadata cb
  | api_create_persistent stream group s cb => async_create_persistent_subscription stream group s cb
  | api_update_persistent stream group s cb => async_update_persistent_subscription stream group s cb
  | api_delete_persistent stream group cb => async_delete_persistent_subscription stream group cb
  | api_new_subscription this key args => set_object this (make_subscription key args)
  | api_start_subscription this event_appeared dropped => start_subscription this event_appeared dropped
  | api_unsubscribe this => unsubscribe this
  | api_acknowledge this items => acknowledge this items
  | api_fail this items action => fail this items action
  end.

(** ** The transition system *)
Inductive event : Type :=
| ev_api (a : api_call)                            (* the user calls a function *)
| ev_job                                           (* the io_context runs its oldest job *)
| ev_timer (t : nat)                               (* a wait expires: its completion is queued *)
| ev_written (ec : error_code)                     (* a write completes *)
| ev_received (ec : error_code) (memory : bytes) (frame_size : Z) (* a read completes *)
| ev_discovered (ec : error_code) (e : endpoint)   (* the discovery service answers *)
| ev_connected (ec : error_code)                   (* the socket is connected, or not *)
| ev_elapse (d : Z)                                (* time passes *)
| ev_destroy (this : nat)                          (* the user destroys a subscription object *)
| ev_release.                                      (* the last reference to the connection goes *)

(** Take the first pending operation that [f] recognises. *)
Fixpoint take_pending {A} (f : async_op → option A) (l : list async_op) : option (A * list async_op) :=
  match l with
  | [] => None
  | o :: l =>
      match f o with
      | Some a => Some (a, l)
      | None => '(a, l) ← take_pending f l; Some (a, o :: l)
      end
  end.

Definition is_receive (o : async_op) : option unit := match o with async_receive => Some tt | _ => None end.
Definition is_discover (o : async_op) : option nat := match o with async_discover cb => Some cb | _ => None end.
Definition is_connect (o : async_op) : option nat :=
  match o with async_socket_connect _ cb => Some cb | _ => None end.

(** Complete a pending operation with the continuation [k]. *)
Definition complete {A} (f : async_op → option A) (k : A → world → outcome world) (w : world) :
    option (outcome world) :=
  '(a, rest) ← take_pending f (pending w);
  Some (k a (set_pending rest w)).

(** What an event does; [None] when it cannot happen. *)
Definition exec (e : event) (w : world) : option (outcome world) :=
  match e with
  | ev_api a => Some (effect (run_api a) w)
  | ev_job => match posted w with [] => None | j :: js => Some (run_job j (set_posted js w)) end
  | ev_timer t =>
      match timers w !! t with
      | Some (mk_timer d (Some waiter)) =>
          Some (Ret (set_posted (posted w ++ [wait_completed waiter t success])
            (set_timers (<[t := mk_timer d None]> (timers w)) w)))
      | _ => None
      end
  | ev_written ec =>
      match writes w with O => None | S n => Some (write_completed ec (set_writes n w)) end
  | ev_received ec memory n => complete is_receive (λ _, effect (receive_completed ec memory n)) w
  | ev_discovered ec e => complete is_discover (λ cb, effect (endpoint_discovered cb ec e)) w
  | ev_connected ec => complete is_connect (λ cb, effect (tcp_connected cb ec)) w
  | ev_elapse d => Some (Ret (set_elapsed (elapsed w + d) w))
  | ev_destroy this =>
      match objects w !! this with
      | Some _ => Some (Ret (set_objects (delete this (objects w)) w))
      | None => None
      end
  | ev_release =>
      (* every subscription object holds a reference to the connection *)
      if decide (objects w = ∅) then Some (Ret (set_alive false w)) else None
  end.

Definition step (w : world) (e : event) (w' : world) : Prop := exec e w = Some (Ret w').

(** Run a list of events; [None] when one of them cannot happen. *)
Fixpoint exec_all (es : list event) (w : world) : option (outcome world) :=
  match es with
  | [] => Some (Ret w)
  | e :: es =>
      match exec e w with
      | Some (Ret w) => exec_all es w
      | o => o
      end
  end.

(** The state after a list of events, when all of them can happen. *)
Definition ran (es : list event) (w : world) : bool :=
  match exec_all es w with Some (Ret _) => true | _ => false end.
Definition after (es : list event) (w : world) : world :=
  match exec_all es w with Some (Ret w) => w | _ => w end.

Lemma exec_all_run es w w' : exec_all es w = Some (Ret w') → run step w es w'.
Proof.
  revert w. induction es as [|e es IH]; intros w He; simpl in He.
  - injection He as <-. constructor.
  - destruct (exec e w) as [[w1| |]|] eqn:E; [|done..]. econstructor; [exact E|by apply IH].
Qed.

Lemma after_run es w : ran es w = true → run step w es (after es w).
Proof.
  intros Hr. apply exec_all_run. revert Hr. unfold ran, after.
  by destruct (exec_all es w) as [[]|].
Qed.

(** A state and an event determine the next state. *)
Lemma step_functional w e w1 w2 : step w e w1 → step w e w2 → w1 = w2.
Proof. unfold step. congruence. Qed.

Lemma run_functional w es w1 w2 : run step w es w1 → run step w es w2 → w1 = w2.
Proof.
  intros Hr. revert w2. induction Hr as [w|w e wm es w1 Hs _ IH]; intros w2 Hr2; inversion Hr2; subst; [done|].
  apply IH. by rewrite (step_functional _ _ _ _ Hs) by eassumption.
Qed.
End client.
