(* ===== verification/Lifecycle.v ===== *)
(** The life of a pending request: its response, its timeout, its cancelled
    wait, and what happens when both a response and an expiry are under way. *)
From S2P Require Import Prelude Errors Basics TcpPackage Messages Events Settings Operations.
From S2P Require Import OperationsMap World Connection Requests ConnectOps Subscription Catchup.
From S2P Require Import CatchupAll Client.

(** The error a call of a user handler carries. *)
Definition callback_error (c : callback) : option error_code :=
  match c with
  | cb_error ec => Some ec
  | cb_reason (ec, _) => Some ec
  | cb_write (ec, _) => Some ec
  | cb_delete (ec, _) => Some ec
  | cb_transaction (ec, _) => Some ec
  | cb_event_read (ec, _) => Some ec
  | cb_stream_slice (ec, _) => Some ec
  | cb_all_slice (ec, _) => Some ec
  | cb_metadata (ec, _) => Some ec
  | cb_connection (ec, _) => Some ec
  | cb_dropped ec _ => Some ec
  | cb_event _ | cb_persistent_event _ _ => None
  end.

Section lifecycle.
Context {AL : Allocator} {PB : Protobuf} {AE : AsioErrors} {GS : GuidSource}.

(** The requests made for the user, and the calls their handler makes. *)
Definition user_call {R} (cb : nat) (f : R → callback) (c : outcome (option R)) :
    outcome (list (nat * callback)) :=
  r ← c; Ret (match r with None => [] | Some r => [(cb, f r)] end).

Definition response_calls (h : response_handler) (ec : error_code) (view : tcp_package_view) :
    option (outcome (list (nat * callback))) :=
  match h with
  | on_append cb => Some (user_call cb cb_write (append_handler ec view))
  | on_conditional_append cb => Some (user_call cb cb_write (conditional_append_handler ec view))
  | on_delete cb => Some (user_call cb cb_delete (delete_handler ec view))
  | on_start_transaction cb => Some (user_call cb cb_transaction (start_transaction_handler ec view))
  | on_transactional_write cb => Some (user_call cb cb_error (transactional_write_handler ec view))
  | on_commit_transaction cb => Some (user_call cb cb_write (commit_transaction_handler ec view))
  | on_read_stream_event stream n cb =>
      Some (user_call cb cb_event_read (read_stream_event_handler stream n ec view))
  | on_read_stream_events stream from dir (slice_to_user cb) =>
      Some (user_call cb cb_stream_slice (read_stream_events_handler stream from dir ec view))
  | on_read_all_events dir (slice_to_user cb) =>
      Some (user_call cb cb_all_slice (read_all_events_handler dir ec view))
  | on_get_stream_metadata stream cb =>
      Some (user_call cb cb_metadata (get_stream_metadata_handler stream ec view))
  | on_create_persistent cb => Some (user_call cb cb_reason (create_persistent_subscription_handler ec view))
  | on_update_persistent cb => Some (user_call cb cb_reason (update_persistent_subscription_handler ec view))
  | on_delete_persistent cb => Some (user_call cb cb_reason (delete_persistent_subscription_handler ec view))
  | _ => None
  end.

Lemma run_call_with {R} cb (f : R → callback) c w :
  run_prog (call_with cb f c) w =
    cs ← user_call cb f c; Ret (tt, set_calls (calls w ++ cs) w).
Proof.
  unfold call_with, user_call. run_prog_steps. destruct c as [[r|]| |]; run_prog_steps; [done| |done..].
  rewrite app_nil_r. by destruct w.
Qed.

Lemma run_response_user h ec view w cs :
  response_calls h ec view = Some cs →
  run_prog (run_response h ec view) w = (cs ← cs; Ret (tt, set_calls (calls w ++ cs) w)).
Proof.
  intros Hcs. destruct h; try (destruct reader; try discriminate); cbn [response_calls] in Hcs;
    simplify_eq; cbn [run_response]; try apply run_call_with.
  - run_prog_steps. unfold user_call. destruct (read_stream_events_handler _ _ _ _ _) as [[[]|]| |];
      run_prog_steps; [done| |done..]. rewrite app_nil_r. by destruct w.
  - run_prog_steps. unfold user_call. destruct (read_all_events_handler _ _ _) as [[[]|]| |];
      run_prog_steps; [done| |done..]. rewrite app_nil_r. by destruct w.
Qed.

(** The end of a user request, however it comes. *)
Lemma run_operation_user key h deadline ec view w cs :
  response_calls h ec view = Some (Ret cs) →
  run_prog (run_operation key (op_response h deadline) ec view) w =
    Ret (tt, set_calls (calls (abort_wait deadline w) ++ cs) (abort_wait deadline w)).
Proof.
  intros Hcs. cbn [run_operation]. run_prog_steps. by rewrite (run_response_user _ _ _ _ _ Hcs).
Qed.

(** An error reported by the connection reaches the user exactly once. *)
Lemma response_calls_error h ec view :
  failed ec = true → is_Some (response_calls h ec view) →
  ∃ cb c, response_calls h ec view = Some (Ret [(cb, c)]) ∧ callback_error c = Some ec.
Proof.
  intros Hec Hs.
  destruct h; try (destruct reader; try (by destruct Hs)); cbn [response_calls] in *;
    try (by destruct Hs); unfold user_call;
    unfold append_handler, conditional_append_handler, delete_handler, start_transaction_handler,
      transactional_write_handler, commit_transaction_handler, get_stream_metadata_handler,
      read_stream_event_handler, read_stream_events_handler, read_all_events_handler,
      create_persistent_subscription_handler, update_persistent_subscription_handler,
      delete_persistent_subscription_handler;
    rewrite check_command_failed by done; cbn [mbind outcome_bind]; rewrite Hec;
    cbn [mbind outcome_bind]; unfold stream_metadata_lambda; rewrite ?Hec;
    cbn [negb mbind outcome_bind]; eauto.
Qed.
End lifecycle.

Section completion.
Context {AL : Allocator} {PB : Protobuf} {AE : AsioErrors} {GS : GuidSource}.

Lemma abort_wait_calls t w : calls (abort_wait t w) = calls w.
Proof. unfold abort_wait. by destruct (timers w !! t) as [[? [?|]]|]. Qed.
Lemma abort_wait_operations t w : operations_map_ (abort_wait t w) = operations_map_ w.
Proof. unfold abort_wait. by destruct (timers w !! t) as [[? [?|]]|]. Qed.

(** The state after a user request has been completed with the calls [cs]. *)
Definition completed (key : guid_type) (deadline : nat) (cs : list (nat * callback)) (w : world) : world :=
  set_operations_map (erase key (operations_map_ w)) (set_calls (calls w ++ cs) (abort_wait deadline w)).

Lemma completed_unfold key deadline cs w :
  completed key deadline cs w =
    set_operations_map (erase key (operations_map_ (abort_wait deadline w)))
      (set_calls (calls (abort_wait deadline w) ++ cs) (abort_wait deadline w)).
Proof. unfold completed. by rewrite abort_wait_calls, abort_wait_operations. Qed.

(** The completion of a wait that has expired. *)
Lemma expiry_run key h deadline t cs w :
  alive w = true → operations_map_ w !! key = Some (op_response h deadline) →
  response_calls h (make_error_code operation_timeout) null_view = Some (Ret cs) →
  effect (run_waiter (wait_operation key) t success) w = Ret (completed key deadline cs w).
Proof.
  intros Halive Hop Hcs. unfold effect. cbn [run_waiter]. unfold operation_wait_completed.
  run_prog_steps. rewrite Halive. run_simpl. rewrite failed_success. run_simpl.
  unfold at_key. run_prog_steps. rewrite Hop. run_prog_steps.
  change (invoke_operation key (op_response h deadline)) with (run_operation key (op_response h deadline)).
  rewrite (run_operation_user _ _ _ _ _ _ _ Hcs). run_prog_steps. by rewrite completed_unfold.
Qed.
End completion.

(** C10: A pending request of the user ends in exactly one of these ways.  A
    response with its correlation id makes the calls its handler decides on,
    removes the entry and cancels the timer.  The expiry of the timer calls
    the handler once, with operation_timeout, and removes the entry.  The
    completion of the cancelled wait changes nothing, before or after.  But a
    wait whose expiry was already queued when the response was processed
    finds no entry, and at() throws std::out_of_range out of the io_context. *)
Theorem request_completion {AL : Allocator} {PB : Protobuf} {AE : AsioErrors} {GS : GuidSource}
    key h deadline t w
    (Halive : alive w = true) (Hop : operations_map_ w !! key = Some (op_response h deadline))
    (Huser : ∀ ec v, is_Some (response_calls h ec v)) :
  (∀ view cs, correlation_id view = Ret key → response_calls h success view = Some (Ret cs) →
    effect (on_package_received success view) w =
      Ret (completed key deadline cs (set_package_no (wrap_u32 (package_no_ w + 1)) w))) ∧
  (∃ cb c, callback_error c = Some (make_error_code operation_timeout) ∧
    effect (run_waiter (wait_operation key) t success) w = Ret (completed key deadline [(cb, c)] w)) ∧
  effect (run_waiter (wait_operation key) t operation_aborted) w = Ret w ∧
  (∀ w', alive w' = true → operations_map_ w' !! key = None →
    effect (run_waiter (wait_operation key) t operation_aborted) w' = Ret w' ∧
    effect (run_waiter (wait_operation key) t success) w' = Throw std_out_of_range).
Proof.
  split_and!; [|destruct (response_calls_error h (make_error_code operation_timeout) null_view)
    as (cb & c & Hcs & Hc); [done|apply Huser|]; exists cb, c; split; [done|]; by apply (expiry_run _ h)|..];
    unfold effect; cbn [run_waiter]; unfold operation_wait_completed.
  - intros view cs Hc Hcs. unfold on_package_received. run_prog_steps. rewrite Hc. run_prog_steps.
    rewrite Guid.guid_from_chars_self by (by eapply correlation_id_length). run_prog_steps.
    unfold contains, at_key. rewrite Hop. run_prog_steps.
    change (invoke_operation key (op_response h deadline)) with (run_operation key (op_response h deadline)).
    rewrite (run_operation_user _ _ _ _ _ _ _ Hcs). run_prog_steps. by rewrite completed_unfold.
  - run_prog_steps. rewrite Halive. run_simpl. rewrite operation_aborted_failed. run_simpl.
    by rewrite bool_decide_eq_true_2.
  - intros w' Ha Hn. split.
    + run_prog_steps. rewrite Ha. run_simpl. rewrite operation_aborted_failed. run_simpl.
      by rewrite bool_decide_eq_true_2.
    + run_prog_steps. rewrite Ha. run_simpl. rewrite failed_success. run_simpl.
      unfold at_key. run_prog_steps. by rewrite Hn.
Qed.

(** ** Executions on concrete events *)
Section scenarios.
Definition scenario_guid (n : nat) : guid_type := le_encode 16 (Z.of_nat n).
Definition scenario_settings : connection_settings :=
  build_connection_settings [with_default_user_credentials (mk_user_credentials "admin" "changeit")].
Definition scenario_endpoint : endpoint := mk_endpoint "127.0.0.1" 1113.

Definition scenario_exec (es : list event) (w : world) : option (outcome world) :=
  exec_all (AL := zero_allocator) (PB := sample_protobuf) (AE := linux_asio_errors) (GS := counting_guids) es w.

(** A response read from the socket: a frame with one byte of message. *)
Definition response (cmd : tcp_command) (n : nat) (b : byte) : event :=
  ev_received success (plain_frame cmd flags_none (scenario_guid n) [b]) 23.

Definition connected (cb : nat) : list event :=
  [ev_api (api_connect cb); ev_discovered success scenario_endpoint; ev_connected success].

(** A client that has connected and identified itself. *)
Definition sample_connected : world :=
  after (AL := zero_allocator) (PB := sample_protobuf) (AE := linux_asio_errors) (GS := counting_guids)
    (connected 9 ++ [ev_job; ev_job; response Command.client_identified 0 x00])
    (new_connection default_connection_settings "ES-1").
End scenarios.

Lemma request_completion_witness :
  let w := after (AL := zero_allocator) (PB := sample_protobuf) (AE := linux_asio_errors) (GS := counting_guids)
    [ev_api (api_append "s" [] 0 7)] (new_connection default_connection_settings "ES-1") in
  let key := scenario_guid 0 in
  alive w = true ∧ operations_map_ w !! key = Some (op_response (on_append 7) 0) ∧
  ∃ cb c, callback_error c = Some (make_error_code operation_timeout) ∧
    effect (AE := linux_asio_errors) (GS := counting_guids)
      (run_waiter (AL := zero_allocator) (PB := sample_protobuf) (AE := linux_asio_errors)
        (wait_operation key) 0 success) w =
      Ret (completed (AE := linux_asio_errors) key 0 [(cb, c)] w).
Proof.
  intros w key. split; [vm_compute; reflexivity|]. split; [vm_compute; reflexivity|].
  exact (proj1 (proj2 (request_completion (AL := zero_allocator) (PB := sample_protobuf) (AE := linux_asio_errors)
    (GS := counting_guids) key (on_append 7) 0 0 w ltac:(vm_compute; reflexivity) ltac:(vm_compute; reflexivity)
    ltac:(intros; eexists; reflexivity)))).
Defined.

(** The race is reachable: a client connects, appends events, the expiry of
    the append's timer is queued, the response arrives and its handler is
    called with success; when the queued completion then runs, it throws
    std::out_of_range. *)
Theorem late_expiry_throws :
  ∃ es w, scenario_exec es (new_connection default_connection_settings "ES-1") = Some (Ret w) ∧
    calls w = [(2%nat, cb_write (success, Some (mk_write_result 4 (mk_position 10 20))))] ∧
    scenario_exec [ev_job] w = Some (Throw std_out_of_range).
Proof.
  eexists (connected 1 ++ [ev_api (api_append "s" [] 0 2); ev_timer 2;
    response Command.write_events_completed 2 x00; ev_job; ev_job; ev_job]), _.
  split; [vm_compute; reflexivity|]. split; vm_compute; reflexivity.
Qed.

(** After an authentication request has timed out its entry stays in the
    operations map: the client goes on to identify itself without credentials,
    but when the late answer to the authentication arrives, the same closure
    runs again and starts a second identification with a handler that has
    been moved from, which is then called. *)
Theorem late_authentication_uses_moved_handler :
  ∃ es w, scenario_exec es (new_connection scenario_settings "ES-1") = Some (Ret w) ∧
    calls w = [(1%nat, cb_connection (make_error_code authentication_failed,
      Some (mk_connection_result (scenario_guid 2))))] ∧
    scenario_exec [response Command.client_identified 3 x00] w = Some (Undef moved_from).
Proof.
  eexists (connected 1 ++ [ev_timer 0; ev_job; ev_job; ev_job; ev_job;
    response Command.client_identified 2 x00;
    response Command.authenticated 0 x00]), _.
  split; [vm_compute; reflexivity|]. split; vm_compute; reflexivity.
Qed.
