(* ===== verification/Sending.v ===== *)
(** The write side of the connection over whole executions of the client:
    packages go out once, in the order they were given to async_send, with at
    most one write in progress. *)
From S2P Require Import Prelude Errors Basics TcpPackage Messages Events Settings OperationsMap World.
From S2P Require Import Connection Requests Client.

Section sending.
Context {AL : Allocator} {PB : Protobuf} {AE : AsioErrors} {GS : GuidSource}.

(** The packages among the posted jobs, and the packages on their way: on
    the wire, waiting in the queue behind the one being written, or not yet
    queued. *)
Definition sends (js : list job) : list tcp_package :=
  omap (λ j, match j with send_package p => Some p | _ => None end) js.

Definition outbox (w : world) : list tcp_package :=
  wire w ++ tail (message_queue_ w) ++ sends (posted w).

Lemma sends_app js js' : sends (js ++ js') = sends js ++ sends js'.
Proof. apply omap_app. Qed.

(** ** Programs only post *)
Definition only_posts (w w' : world) : Prop :=
  message_queue_ w' = message_queue_ w ∧ wire w' = wire w ∧ writes w' = writes w ∧
  alive w' = alive w ∧ ∃ js, posted w' = posted w ++ js.

#[local] Instance only_posts_preorder : PreOrder only_posts.
Proof.
  split.
  - intros w. split_and!; try done. exists []. by rewrite app_nil_r.
  - intros w1 w2 w3 (?&?&?&?&js&E) (?&?&?&?&js'&E'). split_and!; try congruence.
    exists (js ++ js'). by rewrite E', E, app_assoc.
Qed.

Lemma abort_wait_only_posts t w : only_posts w (abort_wait t w).
Proof.
  unfold abort_wait. destruct (timers w !! t) as [[d [wt|]]|]; [|reflexivity..].
  split_and!; try done. by eexists.
Qed.

Lemma run_cmd_only_posts {X} (c : cmd X) w x w' : run_cmd c w = Ret (x, w') → only_posts w w'.
Proof.
  destruct c; cbn [run_cmd]; intros Hrun; inv_ret;
    try (split_and!; try done; first [by eexists | exists []; by rewrite app_nil_r]).
  - apply abort_wait_only_posts.
  - apply abort_wait_only_posts.
  - destruct o; (split_and!; try done; exists []; by rewrite app_nil_r).
Qed.

Lemma run_prog_only_posts {A} (p : prog A) w a w' : run_prog p w = Ret (a, w') → only_posts w w'.
Proof.
  apply (run_prog_preserves only_posts); [reflexivity|intros; by etrans|].
  intros X c w1 x w2. apply run_cmd_only_posts.
Qed.

Lemma effect_only_posts p w w' : effect p w = Ret w' → only_posts w w'.
Proof. unfold effect. intros Hrun. inv_ret. destruct x. by eapply run_prog_only_posts. Qed.

(** ** The invariant of the write chain *)
Definition one_write (w : world) : Prop :=
  writes w = 0%nat ∨
  (writes w = 1%nat ∧ ∃ q front ws, message_queue_ w = front :: q ∧ wire w = ws ++ [front]).

(** Between two states: the wire and the outbox only grow at their ends. *)
Definition grows (w w' : world) : Prop :=
  wire w `prefix_of` wire w' ∧ outbox w `prefix_of` outbox w'.

#[local] Instance grows_preorder : PreOrder grows.
Proof. split; [by intros w|]. intros w1 w2 w3 [] []. split; by etrans. Qed.

Lemma only_posts_one_write w w' : only_posts w w' → one_write w → one_write w'.
Proof. unfold one_write. intros (->&->&->&_). done. Qed.

Lemma only_posts_grows w w' : only_posts w w' → grows w w'.
Proof.
  intros (Hq & Hw & _ & _ & js & Hp). unfold grows, outbox. rewrite Hq, Hw, Hp, sends_app. split; [done|].
  rewrite !app_assoc. by apply prefix_app_r.
Qed.

(** Running a posted send: the package moves to the queue, and to the wire
    when the queue was empty. *)
Lemma run_send_ok p js w w' :
  posted w = send_package p :: js → run_send p (set_posted js w) = Ret w' →
  one_write w → one_write w' ∧ grows w w'.
Proof.
  unfold run_send. intros Hp Hr Hone. cbn in Hr.
  destruct (alive w); [|done]. cbn in Hr. unfold one_write, grows, outbox in *. rewrite Hp.
  destruct (message_queue_ w) as [|front q] eqn:Hq; cbn in Hr; injection Hr as <-; cbn.
  - split.
    + right. destruct Hone as [Hz|(_ & ? & ? & ? & [=] & _)]. split; [lia|]. by exists [], p, (wire w).
    + split; [by apply prefix_app_r|]. by rewrite <- app_assoc.
  - split.
    + destruct Hone as [?|(? & q' & f & ws & [= <- <-] & ?)]; [by left|right].
      split; [done|]. by exists (q ++ [p]), front, ws.
    + split; [done|]. by rewrite <- !app_assoc.
Qed.

(** Completing a write: the written package leaves the queue and the next
    one goes to the wire. *)
Lemma write_completed_ok ec n w w' :
  writes w = S n → write_completed ec (set_writes n w) = Ret w' →
  one_write w → one_write w' ∧ grows w w'.
Proof.
  unfold write_completed. intros Hn Hr Hone. cbn in Hr.
  destruct (alive w); [|done]. cbn in Hr. unfold one_write, grows, outbox in *.
  destruct Hone as [?|(H1 & q & front & ws & Hq & Hw)]; [lia|].
  assert (n = 0%nat) as -> by lia. rewrite Hq in *.
  destruct (failed ec); cbn in Hr; simplify_eq/=.
  - split; [by left|]. by rewrite Hq.
  - destruct q as [|next q]; cbn in Hr; simplify_eq/=.
    + split; [by left|]. done.
    + split; [right; split; [done|]; by exists q, next, (wire w)|].
      split; [by apply prefix_app_r|]. by rewrite <- app_assoc.
Qed.

Lemma only_posts_ok w w' : only_posts w w' → one_write w → one_write w' ∧ grows w w'.
Proof. eauto using only_posts_one_write, only_posts_grows. Qed.

(** A state that differs in nothing the write chain depends on, but for a
    job that is not a send having been taken from the queue. *)
Definition same_sending (w w' : world) : Prop :=
  message_queue_ w' = message_queue_ w ∧ wire w' = wire w ∧ writes w' = writes w ∧
  sends (posted w') = sends (posted w).

Lemma same_sending_ok w w1 w2 :
  same_sending w w1 → only_posts w1 w2 → one_write w → one_write w2 ∧ grows w w2.
Proof.
  intros (Hq & Hw & Hn & Hs) Hp Hone.
  destruct (only_posts_ok w1 w2 Hp) as [H2 [Hg1 Hg2]].
  { unfold one_write in *. by rewrite Hq, Hw, Hn. }
  split; [done|]. unfold grows, outbox in *. by rewrite Hq, Hw, Hs in Hg2; rewrite Hw in Hg1.
Qed.

(** The posted jobs without the one that an event runs. *)
Definition taken (e : event) (js : list job) : list job :=
  match e with ev_job => tail js | _ => js end.

(** The state an event that is no write starts from: the job it runs is gone,
    or the connection is. *)
Definition undisturbed (e : event) (w w1 : world) : Prop :=
  posted w1 = taken e (posted w) ∧
  match e with ev_written _ => False | ev_release => alive w1 = false | _ => alive w1 = alive w end.

(** What a step can do to the write side: run a posted send, complete a
    write, or leave it alone and post. *)
Inductive sending_step (w : world) : event → world → Prop :=
| step_sends p js w' :
    posted w = send_package p :: js → run_send p (set_posted js w) = Ret w' →
    sending_step w ev_job w'
| step_writes ec n w' :
    writes w = S n → write_completed ec (set_writes n w) = Ret w' → sending_step w (ev_written ec) w'
| step_other e w1 w' :
    same_sending w w1 → undisturbed e w w1 → only_posts w1 w' → sending_step w e w'.

Lemma effect_step p w w1 w2 e :
  same_sending w w1 → undisturbed e w w1 → effect p w1 = Ret w2 → sending_step w e w2.
Proof. intros Hs Hu He. eapply step_other; [done..|]. by eapply effect_only_posts. Qed.

Lemma step_sending w e w' : step w e w' → sending_step w e w'.
Proof.
  unfold step. intros He. destruct e; cbn [exec] in He.
  - injection He as He. by eapply effect_step.
  - destruct (posted w) as [|j js] eqn:Hp; [done|]. injection He as He.
    destruct j; cbn [run_job] in He; [by eapply step_sends|..];
      (eapply effect_step; [| |exact He]; split_and!; try done; by rewrite Hp).
  - destruct (timers w !! t) as [[d [wt|]]|]; [|done..]. injection He as <-.
    eapply (step_other _ _ w); [done..|]. split_and!; try done. by eexists.
  - destruct (writes w) as [|n] eqn:Hn; [done|]. injection He as He. by eapply step_writes.
  - unfold complete in He. destruct (take_pending is_receive (pending w)) as [[? rest]|]; [|done].
    injection He as He. by eapply effect_step; [| |exact He].
  - unfold complete in He. destruct (take_pending is_discover (pending w)) as [[? rest]|]; [|done].
    injection He as He. by eapply effect_step; [| |exact He].
  - unfold complete in He. destruct (take_pending is_connect (pending w)) as [[? rest]|]; [|done].
    injection He as He. by eapply effect_step; [| |exact He].
  - injection He as <-. eapply (step_other _ _ w); [done..|]. split_and!; try done. exists []. by rewrite app_nil_r.
  - destruct (objects w !! this); [|done]. injection He as <-. by eapply step_other; [| |reflexivity].
  - destruct (decide (objects w = ∅)); [|done]. injection He as <-. by eapply step_other; [| |reflexivity].
Qed.

Lemma step_ok w e w' : step w e w' → one_write w → one_write w' ∧ grows w w'.
Proof.
  intros Hs. destruct (step_sending _ _ _ Hs);
    eauto using run_send_ok, write_completed_ok, same_sending_ok.
Qed.

(** Nothing being written while packages wait: no step writes any more. *)
Definition stuck (w : world) : Prop := writes w = 0%nat ∧ message_queue_ w ≠ [].

Lemma step_stuck w e w' : step w e w' → stuck w → stuck w' ∧ wire w' = wire w.
Proof.
  unfold stuck. intros Hs [Hw Hq].
  destruct (step_sending _ _ _ Hs) as [p js w' Hp Hr|ec n w' Hn _|e w1 w' (Eq & Ewi & Ew & _) _ (Eq' & Ewi' & Ew' & _)].
  - unfold run_send in Hr. cbn in Hr. destruct (alive w); [|done]. cbn in Hr.
    destruct (message_queue_ w) as [|front q]; [done|]. cbn in Hr. by injection Hr as <-.
  - lia.
  - split; [split|]; congruence.
Qed.

Lemma run_stuck w tr w' : run step w tr w' → stuck w → wire w' = wire w.
Proof.
  induction 1 as [w|w e w1 tr w2 Hs _ IH]; intros Hst; [done|].
  destruct (step_stuck _ _ _ Hs Hst) as [Hst1 <-]. by apply IH.
Qed.

Lemma run_ok w tr w' : run step w tr w' → one_write w → one_write w' ∧ grows w w'.
Proof.
  induction 1 as [w|w e w1 tr w2 Hs _ IH]; intros Hone; [done|].
  destruct (step_ok _ _ _ Hs Hone) as [Hone1 Hg1]. destruct (IH Hone1) as [Hone2 Hg2].
  split; [done|]. by etrans.
Qed.
End sending.

(** ** Progress *)
Section progress.
Context {AL : Allocator} {PB : Protobuf} {AE : AsioErrors} {GS : GuidSource}.

Lemma sends_packages ps : sends (send_package <$> ps) = ps.
Proof. unfold sends. induction ps; cbn; by f_equal. Qed.

(** The write chain works: the front of the queue is being written, if any. *)
Definition chain_works (w : world) : Prop :=
  (writes w = 0%nat ∧ message_queue_ w = []) ∨
  (writes w = 1%nat ∧ ∃ q front ws, message_queue_ w = front :: q ∧ wire w = ws ++ [front]).

(** The state in which [sent] has gone to the wire. *)
Definition written (sent : list tcp_package) (w : world) : world :=
  set_wire (wire w ++ sent) (set_writes 0 (set_message_queue [] w)).

(** Successful writes empty the queue. *)
Lemma drain_queue q : ∀ w front,
  alive w = true → writes w = 1%nat → message_queue_ w = front :: q →
  run step w (replicate (S (length q)) (ev_written success)) (written q w).
Proof.
  induction q as [|next q IH]; intros w front Ha Hw Hq; cbn [length replicate]; (eapply run_step;
    [unfold step; cbn [exec]; rewrite Hw; unfold write_completed, do_async_send; simpl;
     rewrite Ha, Hq; reflexivity|]).
  - unfold written. rewrite app_nil_r. destruct w; simpl in *. constructor.
  - match goal with |- run step ?w1 _ _ =>
      replace (written (next :: q) w) with (written q w1);
      [by apply (IH w1 next)|unfold written; simpl; by rewrite <- app_assoc]
    end.
Qed.

(** Posted sends join the queue. *)
Lemma run_sends ps : ∀ w,
  alive w = true → chain_works w → posted w = send_package <$> ps →
  ∃ w', run step w (replicate (length ps) ev_job) w' ∧ alive w' = true ∧ chain_works w' ∧ posted w' = [] ∧
    message_queue_ w' = message_queue_ w ++ ps ∧
    wire w' ++ tail (message_queue_ w') = wire w ++ tail (message_queue_ w) ++ ps.
Proof.
  induction ps as [|p ps IH]; intros w Ha Hc Hp.
  - exists w. split; [constructor|]. by rewrite !app_nil_r.
  - set (w1 := if decide (message_queue_ w = [])
      then set_writes 1 (set_wire (wire w ++ [p]) (set_message_queue [p] (set_posted (send_package <$> ps) w)))
      else set_message_queue (message_queue_ w ++ [p]) (set_posted (send_package <$> ps) w)).
    assert (step w ev_job w1) as Hstep.
    { unfold step. cbn [exec]. rewrite Hp. cbn [fmap list_fmap run_job]. unfold run_send, do_async_send. simpl.
      rewrite Ha. simpl. unfold w1. destruct Hc as [[Hw Hq]|(Hw & q & front & ws & Hq & _)]; rewrite Hq; simpl;
        [|done]. by rewrite Hw. }
    destruct (IH w1) as (w2 & Hrun & Ha2 & Hc2 & Hp2 & Hq2 & Hwire).
    + unfold w1. by case_decide.
    + unfold w1. destruct Hc as [[Hw Hq]|(Hw & q & front & ws & Hq & Hws)]; rewrite Hq; simpl; right.
      * split; [done|]. by exists [], p, (wire w).
      * split; [done|]. by exists (q ++ [p]), front, ws.
    + unfold w1. by case_decide.
    + exists w2. split; [by econstructor|]. rewrite Hwire, Hq2. unfold w1.
      destruct Hc as [[Hw Hq]|(Hw & q & front & ws & Hq & _)]; rewrite Hq; simpl;
        split_and!; try done; by rewrite <- !app_assoc.
Qed.
End progress.

(** C2: Liveness of the write chain: from any state in which the front of the
    queue is being written, or nothing is waiting, if the io_context runs the
    posted sends and the writes succeed, then after exactly as many jobs and
    writes as there are packages, everything that was given to async_send has
    gone to the wire, in order, nothing is waiting and no write is in
    progress.  After a failed write, however, no package ever goes to the wire
    again, whatever happens: the queue is not empty, so no send starts a
    write, and none is in progress that would start the next. *)
Theorem sends_reach_the_wire {AL : Allocator} {PB : Protobuf} {AE : AsioErrors} {GS : GuidSource} w ps
    (Halive : alive w = true) (Hchain : chain_works w) (Hposted : posted w = send_package <$> ps) :
  (∃ w', run step w (replicate (length ps) ev_job ++
      replicate (length (message_queue_ w) + length ps) (ev_written success)) w' ∧
    wire w' = outbox w ∧ message_queue_ w' = [] ∧ posted w' = [] ∧ writes w' = 0%nat) ∧
  (∀ ec w1 tr w2, failed ec = true → step w (ev_written ec) w1 → run step w1 tr w2 → wire w2 = wire w).
Proof.
  split.
  - destruct (run_sends ps w Halive Hchain Hposted) as (w1 & Hrun & Ha1 & Hc1 & Hp1 & Hq1 & Hwire).
    assert (outbox w = wire w1 ++ tail (message_queue_ w1)) as ->.
    { unfold outbox. rewrite Hwire, Hposted. by rewrite sends_packages. }
    rewrite <- length_app, <- Hq1.
    destruct Hc1 as [[Hw Hq]|(Hw & q & front & ws & Hq & _)].
    + exists w1. rewrite Hq. split; [by rewrite app_nil_r|]. by rewrite app_nil_r.
    + exists (written q w1). split; [|by rewrite Hq]. rewrite Hq.
      eapply run_trans; [exact Hrun|]. by apply (drain_queue q w1 front).
  - intros ec w1 tr w2 Hf Hs Hr.
    destruct Hchain as [[Hw _]|(Hw & q & front & ws & Hq & _)]; unfold step in Hs; cbn [exec] in Hs;
      rewrite Hw in Hs; [done|]. injection Hs as Hs. unfold write_completed in Hs. cbn in Hs.
    rewrite Halive, Hf in Hs. injection Hs as <-.
    by rewrite (run_stuck _ _ _ Hr); [|split; [|cbn; rewrite Hq]].
Qed.

Lemma sends_reach_the_wire_witness :
  let w0 := new_connection default_connection_settings "ES-1" in
  let app cb := ev_api (api_append "s" [] (-2) cb) in
  let ex := after (AL := zero_allocator) (PB := sample_protobuf) (AE := linux_asio_errors) (GS := counting_guids) in
  let w := ex [app 1%nat; app 2%nat; ev_job; app 3%nat] w0 in
  length (sends (posted w)) = 2%nat ∧ length (message_queue_ w) = 1%nat ∧
  ∃ w', length (wire w') = 3%nat ∧ writes w' = 0%nat.
Proof.
  intros w0 app ex w. split_and!; [vm_compute; reflexivity..|].
  destruct (proj1 (sends_reach_the_wire (AL := zero_allocator) (PB := sample_protobuf)
    (AE := linux_asio_errors) (GS := counting_guids) w (sends (posted w))
    eq_refl ltac:(right; split; [vm_compute; reflexivity|];
      exists (tail (message_queue_ w)), (default null_package (head (message_queue_ w))), [];
      split; vm_compute; reflexivity) ltac:(vm_compute; reflexivity))) as (w' & _ & Hwire & _ & _ & Hn).
  exists w'. split; [|exact Hn]. rewrite Hwire. vm_compute. reflexivity.
Defined.

(** C1: Over every execution of the client from a new connection, whatever the
    user, the server and the timers do: at most one write is in progress at
    any time, and it is of the package at the front of the queue; packages
    reach the socket in the order async_send was called, each at most once,
    none being dropped or overtaken: what is on the wire or waiting is only
    ever extended at its end. *)
Theorem packages_sent_in_order {AL : Allocator} {PB : Protobuf} {AE : AsioErrors} {GS : GuidSource}
    settings name tr1 w1 tr2 w2
    (H1 : run step (new_connection settings name) tr1 w1) (H2 : run step w1 tr2 w2) :
  (writes w2 ≤ 1)%nat ∧
  (writes w2 = 1%nat → ∃ front, head (message_queue_ w2) = Some front ∧ last (wire w2) = Some front) ∧
  wire w1 `prefix_of` wire w2 ∧ wire w2 `prefix_of` outbox w2 ∧ outbox w1 `prefix_of` outbox w2.
Proof.
  destruct (run_ok _ _ _ H1) as [Hone1 _]; [by left|].
  destruct (run_ok _ _ _ H2 Hone1) as [Hone2 [Hw Ho]].
  split_and!; [destruct Hone2 as [?|[? _]]; lia| |done|by apply prefix_app_r|done].
  intros Hn. destruct Hone2 as [?|(_ & q & front & ws & Hq & Hwire)]; [lia|].
  exists front. by rewrite Hq, Hwire, last_snoc.
Qed.

Lemma packages_sent_in_order_witness :
  let w0 := new_connection default_connection_settings "ES-1" in
  let app cb := ev_api (api_append "s" [] (-2) cb) in
  let ex := after (AL := zero_allocator) (PB := sample_protobuf) (AE := linux_asio_errors) (GS := counting_guids) in
  let w1 := ex [app 1%nat; app 2%nat; ev_job] w0 in
  let w2 := ex [ev_job; app 3%nat; ev_written success] w1 in
  writes w2 = 1%nat ∧ length (wire w2) = 2%nat ∧ length (outbox w2) = 3%nat ∧
  wire w1 `prefix_of` wire w2.
Proof.
  intros w0 app ex w1 w2. split_and!; [vm_compute; reflexivity..|].
  refine (proj1 (proj2 (proj2 (packages_sent_in_order (AL := zero_allocator) (PB := sample_protobuf)
    (AE := linux_asio_errors) (GS := counting_guids) default_connection_settings "ES-1"
    [app 1%nat; app 2%nat; ev_job] w1 [ev_job; app 3%nat; ev_written success] w2 _ _))));
    apply after_run; vm_compute; reflexivity.
Defined.
