(* ===== verification/Steps.v ===== *)
(** Lemmas about single steps of the client that the theorems on whole courses
    share: a package that arrives for a pending operation or for a
    subscription, and the io_context running the jobs that change nothing but
    the write side. *)
From S2P Require Import Prelude Errors Basics TcpPackage Messages Events Settings OperationsMap World.
From S2P Require Import Connection ConnectOps Subscription Client Sending.

Section steps.
Context {AL : Allocator} {PB : Protobuf} {AE : AsioErrors} {GS : GuidSource}.

(** ** Arrivals *)

(** A package of the server, as a frame without credentials. *)
Definition arrival (cmd : tcp_command) (key : guid_type) (body : bytes) : event :=
  ev_received success (plain_frame cmd flags_none key body) (22 + Z.of_nat (length body)).

(** The state in which an arrival is dispatched, and the state after it. *)
Definition counted (w : world) : world := set_package_no (wrap_u32 (package_no_ w + 1)) (set_pending [] w).
Definition receiving (w : world) : world := set_pending (pending w ++ [async_receive]) w.

Lemma arrival_step w key cmd body (f : tcp_package_view → outcome (unit * world)) :
  alive w = true → pending w = [async_receive] → length key = 16%nat → fits32 (length body) →
  (∀ v, correlation_id v = Ret key → run_prog (on_package_received success v) (set_pending [] w) = f v) →
  ∃ v, view_reads v cmd flags_none None key body ∧
    ∀ w', f v = Ret (tt, w') → step w (arrival cmd key body) (receiving w').
Proof.
  intros Ha Hp Hk Hb Hf. destruct (make_view_plain cmd flags_none key body Hk) as (v & Hv & Hr & _); [done|done|].
  exists v. split; [done|]. intros w' Hw'. unfold step, arrival. cbn [exec]. unfold complete.
  rewrite Hp. cbn [take_pending is_receive mbind option_bind fst snd].
  unfold effect, receive_completed, receive_token, async_start_receive. run_prog_steps.
  rewrite Ha, failed_success. run_prog_steps. rewrite Hv. run_prog_steps.
  rewrite (Hf v) by apply Hr. rewrite Hw'. by run_prog_steps.
Qed.

Lemma arrival_operation w key op cmd body :
  alive w = true → pending w = [async_receive] → length key = 16%nat → fits32 (length body) →
  operations_map_ w !! key = Some op →
  ∃ v, view_reads v cmd flags_none None key body ∧
    ∀ w', run_prog (run_operation key op success v) (counted w) = Ret (tt, w') →
      step w (arrival cmd key body) (receiving (set_operations_map (erase key (operations_map_ w')) w')).
Proof.
  intros Ha Hp Hk Hb Hop.
  destruct (arrival_step w key cmd body (λ v, r ← run_prog (run_operation key op success v) (counted w);
    Ret (tt, set_operations_map (erase key (operations_map_ r.2)) r.2))) as (v & Hr & Hs); [done..| |].
  { intros v Hv. by rewrite (on_package_operation success v key op). }
  exists v. split; [done|]. intros w' Hw'. apply Hs. by rewrite Hw'.
Qed.

Lemma arrival_subscription w key c cmd body :
  alive w = true → pending w = [async_receive] → length key = 16%nat → fits32 (length body) →
  operations_map_ w !! key = None → subscriptions_map_ w !! key = Some c →
  ∃ v, view_reads v cmd flags_none None key body ∧
    ∀ w', run_prog (subscription_lambda child_on_package_received c success v) (counted w) = Ret (tt, w') →
      step w (arrival cmd key body) (receiving w').
Proof.
  intros Ha Hp Hk Hb Hop Hsub. apply (arrival_step w key cmd body
    (λ v, run_prog (subscription_lambda child_on_package_received c success v) (counted w))); [done..|].
  intros v Hv. by rewrite (on_package_subscription success v key c).
Qed.

(** ** Jobs *)

(** A send, or the completion of a wait that was cancelled. *)
Definition inert (j : job) : Prop :=
  match j with
  | send_package _ => True
  | wait_completed _ _ ec => ec = operation_aborted
  | _ => False
  end.

Lemma cancelled_wait x t w : alive w = true → effect (run_waiter x t operation_aborted) w = Ret w.
Proof.
  intros Ha. unfold effect. destruct x; cbn [run_waiter];
    unfold operation_wait_completed, heartbeat_wait_completed, heartbeat_error, authenticate_wait_completed,
      identify_wait_completed; run_prog_steps; rewrite ?Ha, ?operation_aborted_failed; run_prog_steps;
    rewrite bool_decide_eq_true_2 by done; by run_prog_steps.
Qed.

(** The write side after some of the jobs have run. *)
Definition with_writes (js : list job) (q : list tcp_package) (ws : list tcp_package) (n : nat) (w : world) : world :=
  set_posted js (set_message_queue q (set_wire ws (set_writes n w))).

Lemma inert_job j js w :
  alive w = true → inert j → posted w = j :: js →
  ∃ q ws n, step w ev_job (with_writes js q ws n w) ∧
    ws ++ tail q = wire w ++ tail (message_queue_ w) ++ sends [j].
Proof.
  intros Ha Hj Hp. unfold step. cbn [exec]. rewrite Hp. destruct j as [p| | | |x t ec]; try done; cbn [run_job].
  - unfold run_send, do_async_send. simpl. rewrite Ha. simpl.
    destruct (message_queue_ w) as [|front q] eqn:Hq; simpl;
      eexists _, _, _; (split; [reflexivity|]); simpl; by rewrite ?app_nil_r.
  - simpl in Hj. subst ec. rewrite cancelled_wait by done.
    exists (message_queue_ w), (wire w), (writes w). split; [by destruct w|]. by rewrite app_nil_r.
Qed.

Lemma drain_jobs js js' w :
  alive w = true → Forall inert js → posted w = js ++ js' →
  ∃ q ws n, run step w (replicate (length js) ev_job) (with_writes js' q ws n w) ∧
    ws ++ tail q = wire w ++ tail (message_queue_ w) ++ sends js.
Proof.
  intros Ha Hjs. revert w Ha. induction Hjs as [|j js Hj _ IH]; intros w Ha Hp; cbn [length replicate].
  - exists (message_queue_ w), (wire w), (writes w). split; [|by rewrite app_nil_r].
    simpl in Hp. subst js'. destruct w. constructor.
  - destruct (inert_job j (js ++ js') w Ha Hj Hp) as (q & ws & n & Hs & Ho).
    destruct (IH (with_writes (js ++ js') q ws n w)) as (q' & ws' & n' & Hr & Ho'); [done|done|].
    exists q', ws', n'. split; [econstructor; [exact Hs|exact Hr]|]. simpl in Ho'.
    rewrite Ho', (sends_app [j] js : sends (j :: js) = _), !app_assoc in *. by rewrite Ho.
Qed.

Lemma drained_outbox js js' q ws n w :
  posted w = js ++ js' → ws ++ tail q = wire w ++ tail (message_queue_ w) ++ sends js →
  outbox (with_writes js' q ws n w) = outbox w.
Proof.
  intros Hp Ho. unfold outbox. simpl. rewrite Hp, sends_app, !app_assoc in *. by rewrite Ho.
Qed.
End steps.
