(* ===== verification/Conversation.v ===== *)
(** Requests in flight together: any interleaving of the user's requests, the
    server's answers and heartbeats, the requests' deadlines, and the
    io_context's own work. *)
From S2P Require Import Prelude Errors Basics TcpPackage Messages Events Settings Operations.
From S2P Require Import OperationsMap World Connection Requests ConnectOps Subscription Catchup.
From S2P Require Import CatchupAll Client Lifecycle Sending Steps.

Section conversation.
Context {AL : Allocator} {PB : Protobuf} {AE : AsioErrors} {GS : GuidSource}.

(** ** What a call of the user asks of the server

    The command, the message and the handler of the calls that send one
    request; [event_id] is the guid that the call draws before the correlation
    id of its package, if it does. *)
Definition api_request (s : connection_settings) (event_id : guid_type) (a : api_call) : option (tcp_command * bytes * response_handler) :=
  let master := require_master_ s in
  match a with
  | api_append stream events v cb => Some (Command.write_events,
      SerializeAsString (mk_WriteEvents stream v (make_new_event <$> events) master), on_append cb)
  | api_conditional_append stream events v cb => Some (Command.write_events,
      SerializeAsString (mk_WriteEvents stream v (make_new_event <$> events) master), on_conditional_append cb)
  | api_delete stream v hard cb => Some (Command.delete_stream,
      SerializeAsString (mk_DeleteStream stream v master (Some hard)), on_delete cb)
  | api_start_transaction stream v cb => Some (Command.transaction_start,
      SerializeAsString (mk_TransactionStart stream v master), on_start_transaction cb)
  | api_read_event stream n resolve cb => Some (Command.read_event,
      SerializeAsString (mk_ReadEvent stream n resolve master), on_read_stream_event stream n cb)
  | api_read_stream stream dir from n resolve cb => Some (read_stream_command dir,
      SerializeAsString (mk_ReadStreamEvents stream from n resolve master),
      on_read_stream_events stream from dir (slice_to_user cb))
  | api_read_all dir from n resolve cb => Some (read_all_command dir,
      SerializeAsString (mk_ReadAllEvents (commit_position from) (prepare_position from) n resolve master),
      on_read_all_events dir (slice_to_user cb))
  | api_get_metadata stream cb => Some (Command.read_event,
      SerializeAsString (mk_ReadEvent (System.meta_stream_of stream) (-1) false master), on_get_stream_metadata stream cb)
  | api_set_metadata stream v metadata cb => Some (Command.write_events,
      SerializeAsString (mk_WriteEvents (System.meta_stream_of stream) v
        [make_new_event (mk_event_data event_id System.event_type_stream_metadata true metadata None)] master),
      on_append cb)
  | api_delete_persistent stream group cb => Some (Command.delete_persistent_subscription,
      SerializeAsString (mk_DeletePersistentSubscription group stream), on_delete_persistent cb)
  | api_create_persistent stream group ps cb =>
      match persistent_config stream group ps with
      | Ret c => Some (Command.create_persistent_subscription,
          SerializeAsString (mk_CreatePersistentSubscription c), on_create_persistent cb)
      | _ => None
      end
  | api_update_persistent stream group ps cb =>
      match persistent_config stream group ps with
      | Ret c => Some (Command.update_persistent_subscription,
          SerializeAsString (mk_UpdatePersistentSubscription c), on_update_persistent cb)
      | _ => None
      end
  | api_transaction t c =>
      if failed (transaction_error t) then None
      else match c with
      | tx_commit cb => Some (Command.transaction_commit,
          SerializeAsString (mk_TransactionCommit (transaction_id_ t) master), on_commit_transaction cb)
      | tx_write events cb => Some (Command.transaction_write,
          SerializeAsString (mk_TransactionWrite (transaction_id_ t) (make_new_event <$> events) master),
          on_transactional_write cb)
      | tx_rollback => None
      end
  | _ => None
  end.

(** The guids a request draws before its correlation id. *)
Definition own_guids (a : api_call) : nat :=
  match a with api_set_metadata _ _ _ _ => 1 | _ => 0 end.

Lemma run_then_skip {A} (p : prog unit) (a : A) w : run_prog ((p;; mret a);; skip) w = run_prog p w.
Proof. rewrite run_bind, run_bind. by destruct (run_prog p w) as [[[]]| |]. Qed.

Lemma same_guids w : set_guids (0 + guids w) w = w.
Proof. by destruct w. Qed.

Lemma api_request_issue s a w cmd m h : api_request s (fresh_guid (guids w)) a = Some (cmd, m, h) →
  ∃ build, run_prog (run_api a) w = run_prog (issue build h) (set_guids (own_guids a + guids w) w) ∧
    ∀ c, build s c = make_request s cmd c m.
Proof.
  destruct a; cbn [api_request own_guids]; try discriminate; intros Ha; rewrite ?same_guids;
    try (injection Ha as <- <- <-; eexists; (split; [reflexivity|]); reflexivity).
  - destruct (failed (transaction_error t)) eqn:E; [done|].
    destruct c; try discriminate; injection Ha as <- <- <-; eexists; (split;
      [cbn [run_api run_transaction_call]; unfold async_commit, async_write_events; rewrite E;
       apply run_then_skip|reflexivity]).
  - destruct (persistent_config _ _ _) as [c| |] eqn:E; try done. injection Ha as <- <- <-.
    eexists. split; [reflexivity|]. intros k. unfold create_persistent_subscription_request. by rewrite E.
  - destruct (persistent_config _ _ _) as [c| |] eqn:E; try done. injection Ha as <- <- <-.
    eexists. split; [reflexivity|]. intros k. unfold update_persistent_subscription_request. by rewrite E.
Qed.

(** ** Conversations *)
Inductive item : Type :=
| ask (a : api_call)                                    (* the user makes a request *)
| reply (i : nat) (cmd : tcp_command) (body : bytes)    (* the server answers under the i-th guid drawn *)
| beat (corr body : bytes)                              (* the server sends a heartbeat request *)
| expire (t : nat)                                      (* the deadline of the t-th request passes *)
| work                                                  (* the io_context runs its oldest job *)
| wrote.                                                (* a write completes *)

Context (w0 : world).
Abbreviation nth_guid i := (fresh_guid (guids w0 + i)).
Abbreviation nth_timer t := (length (timers w0) + t)%nat.

Definition item_event (x : item) : event :=
  match x with
  | ask a => ev_api a
  | reply i cmd body => arrival cmd (nth_guid i) body
  | beat corr body => arrival Command.heartbeat_request_command corr body
  | expire t => ev_timer (nth_timer t)
  | work => ev_job
  | wrote => ev_written success
  end.

(** The calls an answer makes, and those a timeout makes. *)
Definition answered (h : response_handler) (key : guid_type) (cmd : tcp_command) (body : bytes)
    (cs : list (nat * callback)) : Prop :=
  ∀ v, view_reads v cmd flags_none None key body → response_calls h success v = Some (Ret cs).
Definition timed_out (h : response_handler) (cs : list (nat * callback)) : Prop :=
  response_calls h (make_error_code operation_timeout) null_view = Some (Ret cs).

(** [conversation items sent g n open queue done]: [items] is a conversation in
    which the server answers only what has been asked.  The client draws [g]
    guids and sends the packages [sent], each under one of these guids, [n] of
    them requests; [open] maps the guids of the requests without an outcome to
    their handlers and their numbers; [queue] are the jobs posted,
    [Some i] being the completion of the deadline of [i]; the outcomes make the
    calls [done].  An answer to a request whose deadline has passed comes too
    late, when the completion of its deadline has run; between the two it does
    not come. *)
Inductive conversation : list item → list (nat * (tcp_command * bytes)) → nat → nat → gmap nat (response_handler * nat) →
    list (option nat) → list (nat * callback) → Prop :=
| talk_nothing : conversation [] [] 0 0 ∅ (replicate (length (posted w0)) None) []
| talk_ask items sent g n open queue done a cmd m h :
    conversation items sent g n open queue done →
    api_request (settings_ w0) (nth_guid g) a = Some (cmd, m, h) → Z.of_nat (length m) < 2 ^ 30 →
    let i := (own_guids a + g)%nat in
    conversation (items ++ [ask a]) (sent ++ [(i, (cmd, m))]) (S i) (S n)
      (<[i := (h, n)]> open) (queue ++ [None]) done
| talk_reply items sent g n open queue done i cmd body h t cs :
    conversation items sent g n open queue done → fits32 (length body) →
    open !! i = Some (h, t) → Some i ∉ queue → answered h (nth_guid i) cmd body cs →
    conversation (items ++ [reply i cmd body]) sent g n (delete i open) (queue ++ [None]) (done ++ cs)
| talk_late items sent g n open queue done i cmd body :
    conversation items sent g n open queue done → fits32 (length body) →
    (i < g)%nat → open !! i = None → subscriptions_map_ w0 !! nth_guid i = None →
    cmd ≠ Command.heartbeat_request_command →
    conversation (items ++ [reply i cmd body]) sent g n open queue done
| talk_beat items sent g n open queue done corr body :
    conversation items sent g n open queue done → fits32 (length body) →
    length corr = 16%nat → subscriptions_map_ w0 !! corr = None →
    map_Forall (λ i _, nth_guid i ≠ corr) open →
    conversation (items ++ [beat corr body]) (sent ++ [(g, (Command.heartbeat_response_command, []))]) (S g) n open
      (queue ++ [None]) done
| talk_expire items sent g n open queue done i h t :
    conversation items sent g n open queue done →
    open !! i = Some (h, t) → Some i ∉ queue →
    conversation (items ++ [expire t]) sent g n open (queue ++ [Some i]) done
| talk_work items sent g n open queue done :
    conversation items sent g n open (None :: queue) done → conversation (items ++ [work]) sent g n open queue done
| talk_timeout items sent g n open queue done i h t cs :
    conversation items sent g n open (Some i :: queue) done → open !! i = Some (h, t) → timed_out h cs →
    conversation (items ++ [work]) sent g n (delete i open) queue (done ++ cs)
| talk_wrote items sent g n open queue done :
    conversation items sent g n open queue done → conversation (items ++ [wrote]) sent g n open queue done.

(** ** The client during a conversation *)

(** The operations of the map are the open ones. *)
Definition open_operations (open : gmap nat (response_handler * nat)) (ops : operations_map operation_closure) : Prop :=
  ∀ key op, ops !! key = Some op ↔
    ∃ i h t, open !! i = Some (h, t) ∧ key = nth_guid i ∧ op = op_response h (nth_timer t).

(** The posted jobs are those of the queue. *)
Definition job_is (j : job) (x : option nat) : Prop :=
  match x with
  | None => inert j
  | Some i => ∃ t, j = wait_completed (wait_operation (nth_guid i)) t success
  end.

(** The deadlines of the open requests are armed until they pass. *)
Definition deadlines (open : gmap nat (response_handler * nat)) (queue : list (option nat)) (n : nat) (w : world) : Prop :=
  ∀ i h t, open !! i = Some (h, t) → (t < n)%nat ∧
    ∃ d, timers w !! nth_timer t =
      Some (mk_timer d (if decide (Some i ∈ queue) then None else Some (wait_operation (nth_guid i)))).

(** The packages of the outbox read as what was sent. *)
Definition reads_as (sent : list (nat * (tcp_command * bytes))) (w : world) : Prop :=
  ∃ ps, outbox w = outbox w0 ++ ps ∧ length ps = length sent ∧
    ∀ j i cmd m, sent !! j = Some (i, (cmd, m)) → ∃ p v fl creds, ps !! j = Some p ∧ to_view p = Ret v ∧
      view_reads v cmd fl creds (nth_guid i) m.

Record speaking (sent : list (nat * (tcp_command * bytes))) (g n : nat) (open : gmap nat (response_handler * nat))
    (queue : list (option nat)) (done : list (nat * callback)) (w : world) : Prop := {
  k_alive : alive w = true;
  k_settings : settings_ w = settings_ w0;
  k_subs : subscriptions_map_ w = subscriptions_map_ w0;
  k_pending : pending w = [async_receive];
  k_guids : guids w = (guids w0 + g)%nat;
  k_timers : length (timers w) = nth_timer n;
  k_open : ∀ i, is_Some (open !! i) → (i < g)%nat;
  k_numbers : ∀ i j h h' t, open !! i = Some (h, t) → open !! j = Some (h', t) → i = j;
  k_ops : open_operations open (operations_map_ w);
  k_deadlines : deadlines open queue n w;
  k_posted : Forall2 job_is (posted w) queue;
  k_queue : (∀ i, Some i ∈ queue → is_Some (open !! i)) ∧ NoDup (omap id queue);
  k_write : one_write w;
  k_calls : calls w = calls w0 ++ done;
  k_sent : reads_as sent w
}.

(** A package added to the end of the outbox. *)
Lemma sent_snoc sent w w' i cmd m p v fl creds :
  reads_as sent w → outbox w' = outbox w ++ [p] → to_view p = Ret v →
  view_reads v cmd fl creds (nth_guid i) m → reads_as (sent ++ [(i, (cmd, m))]) w'.
Proof.
  intros (ps & Hps & Hlen & Hall) Hw' Hv Hr. exists (ps ++ [p]). split; [by rewrite Hw', Hps, app_assoc|].
  split; [by rewrite !length_app, Hlen|]. intros j k c b [Hj|[Hj Hc]]%lookup_app_Some.
  - destruct (Hall _ _ _ _ Hj) as (p1 & v1 & fl1 & cr1 & Hp1 & ?). exists p1, v1, fl1, cr1. split; [|done].
    by apply lookup_app_l_Some.
  - apply list_lookup_singleton_Some in Hc as [Hc [= <- <- <-]]. assert (j = length sent) as -> by lia.
    exists p, v, fl, creds. split; [|done]. by rewrite <- Hlen, list_lookup_middle.
Qed.

Lemma reads_same sent w w' : reads_as sent w → outbox w' = outbox w → reads_as sent w'.
Proof. intros (ps & Hps & ?) E. exists ps. by rewrite E. Qed.

Lemma open_insert L open ops h t :
  (∀ i, is_Some (open !! i) → (i < L)%nat) → (∀ i, (i < L)%nat → nth_guid i ≠ nth_guid L) →
  open_operations open ops →
  open_operations (<[L := (h, t)]> open) (register_op (nth_guid L) (op_response h (nth_timer t)) ops).
Proof.
  intros Hlt Hg Hops key op.
  rewrite register_op_absent.
  2:{ apply eq_None_not_Some. intros [op' (i & ? & ? & Hi & Hk & _)%Hops].
      destruct (Hg i (Hlt i (mk_is_Some _ _ Hi))). done. }
  destruct (decide (key = nth_guid L)) as [->|Hne].
  - rewrite lookup_insert_eq. split.
    + intros [= <-]. exists L, h, t. by rewrite lookup_insert_eq.
    + intros (i & h' & t' & Hi & Hk & ->). destruct (decide (i = L)) as [->|].
      * rewrite lookup_insert_eq in Hi. by simplify_eq.
      * rewrite lookup_insert_ne in Hi by done. by destruct (Hg i (Hlt i (mk_is_Some _ _ Hi))).
  - rewrite lookup_insert_ne by done. rewrite (Hops key op). split.
    + intros (i & h' & t' & Hi & Hk & ->). exists i, h', t'. rewrite lookup_insert_ne; [done|].
      intros <-. by specialize (Hlt L (mk_is_Some _ _ Hi)); lia.
    + intros (i & h' & t' & Hi & Hk & ->). exists i, h', t'. rewrite lookup_insert_ne in Hi; [done|].
      by intros <-.
Qed.

Lemma open_delete i open ops :
  (∀ j, is_Some (open !! j) → j ≠ i → nth_guid j ≠ nth_guid i) →
  open_operations open ops → open_operations (delete i open) (erase (nth_guid i) ops).
Proof.
  intros Hg Hops key op. unfold erase. destruct (decide (key = nth_guid i)) as [->|Hne].
  - rewrite lookup_delete_eq. split; [done|]. intros (j & h & t & Hj & Hk & _).
    apply lookup_delete_Some in Hj as [Hne Hj]. by destruct (Hg j (mk_is_Some _ _ Hj) (not_eq_sym Hne)).
  - rewrite lookup_delete_ne by done. rewrite (Hops key op). split; intros (j & h & t & Hj & Hk & ->); exists j, h, t.
    + rewrite lookup_delete_ne; [done|]. by intros <-.
    + by apply lookup_delete_Some in Hj as [_ Hj].
Qed.

(** A job that is not the completion of a deadline joins the queue. *)
Lemma queue_inert (queue : list (option nat)) (open : gmap nat (response_handler * nat)) : (∀ i, Some i ∈ queue → is_Some (open !! i)) ∧ NoDup (omap id queue) →
  (∀ i, Some i ∈ queue ++ [None] → is_Some (open !! i)) ∧ NoDup (omap id (queue ++ [None : option nat])).
Proof.
  intros [Hq Hn]. split; [|by rewrite omap_app, app_nil_r].
  intros i [Hi|Hi%list_elem_of_singleton]%elem_of_app; [by apply Hq|done].
Qed.

Lemma queue_inert_elem (i : nat) (queue : list (option nat)) : Some i ∈ queue ++ [None] ↔ Some i ∈ queue.
Proof. rewrite elem_of_app, list_elem_of_singleton. split; [by intros [?|[=]]|by left]. Qed.

(** What is left of the open requests when [i] has its outcome. *)
Lemma queue_delete (i : nat) (queue : list (option nat)) (open : gmap nat (response_handler * nat)) :
  Some i ∉ queue → (∀ j, Some j ∈ queue → is_Some (open !! j)) → ∀ j, Some j ∈ queue → is_Some (delete i open !! j).
Proof. intros Hi Hq j Hj. rewrite lookup_delete_ne; [by apply Hq|]. by intros ->. Qed.

(** The deadlines not concerned by a change. *)
Lemma deadlines_frame open queue n w open' queue' n' w' :
  deadlines open queue n w → (n ≤ n')%nat →
  (∀ i h t, open' !! i = Some (h, t) → open !! i = Some (h, t) ∧ (Some i ∈ queue' ↔ Some i ∈ queue) ∧
     timers w' !! nth_timer t = timers w !! nth_timer t) →
  deadlines open' queue' n' w'.
Proof.
  intros Hd Hn Hsame i h t Hi. destruct (Hsame i h t Hi) as (Hi' & Hq & Ht).
  destruct (Hd i h t Hi') as (Hlt & d & Hd'). split; [lia|]. exists d. rewrite Ht, Hd'.
  by rewrite (decide_ext (Some i ∈ queue') (Some i ∈ queue)).
Qed.

Lemma deadlines_ask open queue n w L h w' :
  deadlines open queue n w → open !! L = None → (∀ i, Some i ∈ queue → is_Some (open !! i)) →
  length (timers w) = nth_timer n →
  (∃ d, timers w' = timers w ++ [mk_timer d (Some (wait_operation (nth_guid L)))]) →
  deadlines (<[L := (h, n)]> open) (queue ++ [None]) (S n) w'.
Proof.
  intros Hd HL Hq Hn [d Ht] i h' t Hi. apply lookup_insert_Some in Hi as [[<- [= <- <-]]|[_ Hi]].
  - split; [lia|]. exists d. rewrite Ht, <- Hn, list_lookup_middle by done. rewrite decide_False; [done|].
    rewrite queue_inert_elem. intros Hs%Hq. by destruct Hs as [? Hs]; rewrite HL in Hs.
  - destruct (Hd i h' t Hi) as (Hlt & d' & Hd'). split; [lia|]. exists d'.
    rewrite Ht, lookup_app_l by (rewrite Hn; lia). rewrite Hd'.
    by rewrite (decide_ext (Some i ∈ queue ++ [None]) (Some i ∈ queue)) by apply queue_inert_elem.
Qed.

Context (credentials : credentials_fit w0).

Lemma speak_ask sent g n open queue done a cmd m h w :
  speaking sent g n open queue done w → api_request (settings_ w0) (nth_guid g) a = Some (cmd, m, h) →
  Z.of_nat (length m) < 2 ^ 30 →
  let i := (own_guids a + g)%nat in
  (∀ j, (j < i)%nat → nth_guid j ≠ nth_guid i) →
  ∃ w', step w (ev_api a) w' ∧
    speaking (sent ++ [(i, (cmd, m))]) (S i) (S n) (<[i := (h, n)]> open) (queue ++ [None]) done w'.
Proof.
  intros [] Ha Hm i Hg. rewrite <- k_guids0 in Ha.
  destruct (api_request_issue _ _ _ _ _ _ Ha) as (build & Hrun & Hb).
  set (w1 := set_guids (own_guids a + guids w) w) in *.
  assert (guids w1 = guids w0 + i)%nat as Hg1 by (simpl; lia).
  destruct (issue_make_request cmd m h build w1) as (p & v & fl & creds & Hi & Hv & Hr);
    [done|by unfold credentials_fit; simpl; rewrite k_settings0|done|by simpl; rewrite k_settings0|].
  exists (issued p h w1). split; [unfold step; cbn [exec]; unfold effect; by rewrite Hrun, Hi|].
  assert (∀ j, is_Some (open !! j) → (j < i)%nat) as Hlt by (intros j Hs%k_open0; lia).
  assert (open !! i = None) as Hnew by (apply eq_None_not_Some; intros Hs%Hlt; lia).
  rewrite Hg1 in Hr. destruct k_queue0 as [Hq Hnd]. unfold issued, sent_with. rewrite Hg1.
  constructor; simpl; try done.
  - rewrite length_app. simpl. lia.
  - intros j. destruct (decide (j = i)) as [->|]; [lia|].
    rewrite lookup_insert_ne by done. intros Hi'%Hlt. lia.
  - intros j k hi hj t Hi' Hj. apply lookup_insert_Some in Hi', Hj.
    destruct Hi' as [[<- Ei]|[? Hi']], Hj as [[<- Ej]|[? Hj]]; [done| | |by eapply k_numbers0]; simplify_eq.
    + destruct (k_deadlines0 _ _ _ Hj). lia.
    + destruct (k_deadlines0 _ _ _ Hi'). lia.
  - rewrite k_timers0. by apply open_insert.
  - eapply deadlines_ask; [done..|]. simpl. by eexists.
  - apply Forall2_app; [done|]. by repeat constructor.
  - apply queue_inert. split; [|done]. intros j Hs%Hq. by apply lookup_insert_is_Some'; right.
  - eapply (sent_snoc sent w _ i cmd m p v fl creds); [done| |done|done]. unfold outbox. simpl.
    by rewrite sends_app, !app_assoc.
Qed.

(** The end of a request. *)
Lemma open_shrinks sent g n open queue done w i :
  speaking sent g n open queue done w → (∀ j, (j < g)%nat → j ≠ i → nth_guid j ≠ nth_guid i) →
  (∀ j, is_Some (delete i open !! j) → (j < g)%nat) ∧
  (∀ j k h h' t, delete i open !! j = Some (h, t) → delete i open !! k = Some (h', t) → j = k) ∧
  open_operations (delete i open) (erase (nth_guid i) (operations_map_ w)).
Proof.
  intros [] Hg. split_and!.
  - intros j [? [_ Hj]%lookup_delete_Some]. by apply k_open0.
  - intros j k h h' t [_ Hj]%lookup_delete_Some [_ Hk]%lookup_delete_Some. by eapply k_numbers0.
  - apply open_delete; [|done]. intros j Hj. by apply Hg, k_open0.
Qed.

(** Another open request has another deadline. *)
Lemma deadline_ne sent g n open queue done w i h t :
  speaking sent g n open queue done w → open !! i = Some (h, t) →
  ∀ j h' t', open !! j = Some (h', t') → i ≠ j → nth_timer t' ≠ nth_timer t.
Proof. intros [] Hi j h' t' Hj Hne E. assert (t' = t) as -> by lia. by apply Hne; eapply k_numbers0. Qed.

Lemma speak_reply sent g n open queue done i cmd body h t cs w :
  speaking sent g n open queue done w → fits32 (length body) → open !! i = Some (h, t) → Some i ∉ queue →
  answered h (nth_guid i) cmd body cs →
  (∀ j, (j < g)%nat → j ≠ i → nth_guid j ≠ nth_guid i) →
  ∃ w', step w (arrival cmd (nth_guid i) body) w' ∧
    speaking sent g n (delete i open) (queue ++ [None]) (done ++ cs) w'.
Proof.
  intros Hw Hb Hi Hni Hcs Hg.
  destruct (open_shrinks _ _ _ _ _ _ _ i Hw Hg) as (Hopen & Hnum & Hops).
  pose proof (deadline_ne _ _ _ _ _ _ _ _ _ _ Hw Hi) as Hne.
  destruct Hw. destruct (k_deadlines0 _ _ _ Hi) as (Hlt & d & Hd). rewrite decide_False in Hd by done.
  destruct (arrival_operation w (nth_guid i) (op_response h (nth_timer t)) cmd body) as (v & Hr & Hs);
    [done|done|apply fresh_guid_wf|done|apply k_ops0; by exists i, h, t|].
  eexists. split; [apply Hs; by apply run_operation_user, Hcs|].
  unfold abort_wait. simpl. rewrite Hd. simpl. destruct k_queue0 as [Hq Hnd].
  constructor; simpl; try done; try (by rewrite k_pending0).
  - by rewrite length_insert.
  - eapply deadlines_frame; [done..|]. intros j h' t' [Hij Hj]%lookup_delete_Some.
    split_and!; [done|apply queue_inert_elem|]. simpl. apply list_lookup_insert_ne. symmetry. by eapply Hne.
  - apply Forall2_app; [done|]. by repeat constructor.
  - apply queue_inert. split; [by apply queue_delete|done].
  - by rewrite k_calls0, app_assoc.
  - eapply reads_same; [done|]. unfold outbox. simpl. by rewrite sends_app, app_nil_r.
Qed.

Lemma speak_late sent g n open queue done i cmd body w :
  speaking sent g n open queue done w → fits32 (length body) → open !! i = None →
  (∀ j, is_Some (open !! j) → nth_guid j ≠ nth_guid i) → subscriptions_map_ w0 !! nth_guid i = None →
  cmd ≠ Command.heartbeat_request_command →
  ∃ w', step w (arrival cmd (nth_guid i) body) w' ∧ speaking sent g n open queue done w'.
Proof.
  intros [] Hb Hi Hg Hsub Hcmd.
  destruct (arrival_step w (nth_guid i) cmd body
    (λ v, run_prog (on_package_received success v) (set_pending [] w))) as (v & Hr & Hs);
    [done|done|apply fresh_guid_wf|done..|].
  eexists. split.
  - apply Hs. eapply on_package_ignored; [apply Hr| |by simpl; rewrite k_subs0|apply Hr|done].
    apply eq_None_not_Some. intros [op (j & h & t & Hj & E & _)%k_ops0]. by destruct (Hg j (mk_is_Some _ _ Hj)).
  - by constructor.
Qed.

Lemma speak_beat sent g n open queue done corr body w :
  speaking sent g n open queue done w → length corr = 16%nat → fits32 (length body) →
  subscriptions_map_ w0 !! corr = None → map_Forall (λ i _, nth_guid i ≠ corr) open →
  ∃ w', step w (arrival Command.heartbeat_request_command corr body) w' ∧
    speaking (sent ++ [(g, (Command.heartbeat_response_command, []))]) (S g) n open (queue ++ [None]) done w'.
Proof.
  intros [] Hc Hb Hsub Hg.
  destruct (arrival_step w corr Command.heartbeat_request_command body
    (λ v, run_prog (on_package_received success v) (set_pending [] w))) as (v & Hr & Hs); [done..|].
  destruct (on_package_heartbeat success v corr (set_pending [] w)) as (p & pv & Hv & Hpr & Hrun);
    [apply Hr| |by simpl; rewrite k_subs0|apply Hr|].
  { apply eq_None_not_Some. intros [op (i & h & t & Hi & -> & _)%k_ops0].
    by destruct (Hg i _ Hi). }
  eexists. split; [by apply Hs|]. simpl in Hpr. rewrite k_guids0 in Hpr. unfold receiving.
  constructor; simpl; try done.
  - lia.
  - intros i Hi%k_open0. lia.
  - eapply deadlines_frame; [done..|]. intros j h' t' Hj. split_and!; [done|apply queue_inert_elem|done].
  - apply Forall2_app; [done|]. by repeat constructor.
  - by apply queue_inert.
  - eapply (sent_snoc sent w _ _ _ [] p pv); [done| |done|done]. unfold outbox. simpl.
    by rewrite sends_app, !app_assoc.
Qed.

Lemma speak_expire sent g n open queue done i h t w :
  speaking sent g n open queue done w → open !! i = Some (h, t) → Some i ∉ queue →
  ∃ w', step w (ev_timer (nth_timer t)) w' ∧ speaking sent g n open (queue ++ [Some i]) done w'.
Proof.
  intros Hw Hi Hni. pose proof (deadline_ne _ _ _ _ _ _ _ _ _ _ Hw Hi) as Hne.
  destruct Hw. destruct (k_deadlines0 _ _ _ Hi) as (Hlt & d & Hd). rewrite decide_False in Hd by done.
  eexists. split; [unfold step; cbn [exec]; by rewrite Hd|]. destruct k_queue0 as [Hq Hnd].
  constructor; simpl; try done.
  - by rewrite length_insert.
  - intros j h' t' Hj. destruct (k_deadlines0 _ _ _ Hj) as (Hlt' & d' & Hd'). split; [done|]. simpl.
    destruct (decide (i = j)) as [<-|Hij].
    + simplify_eq. exists d. rewrite list_lookup_insert_eq by (apply lookup_lt_Some in Hd; done).
      rewrite decide_True; [done|]. apply elem_of_app. right. by apply list_elem_of_singleton.
    + exists d'. rewrite list_lookup_insert_ne by (symmetry; by eapply Hne). rewrite Hd'.
      rewrite (decide_ext (Some j ∈ queue ++ [Some i]) (Some j ∈ queue)); [done|].
      rewrite elem_of_app, list_elem_of_singleton. split; [intros [?|[= ->]]; done|by left].
  - apply Forall2_app; [done|]. repeat constructor. by exists (nth_timer t).
  - split.
    + intros j [Hj|Hj%list_elem_of_singleton]%elem_of_app; [by apply Hq|]. simplify_eq. by eexists.
    + rewrite omap_app. apply NoDup_app. split_and!; [done| |by apply NoDup_singleton].
      intros j Hj Hj'%list_elem_of_singleton. subst. apply Hni.
      apply list_elem_of_omap in Hj as (x & Hx & Ex). simpl in Ex. by subst.
  - eapply reads_same; [done|]. unfold outbox. simpl. by rewrite sends_app, app_nil_r.
Qed.

Lemma speak_writes sent g n open queue queue' done js q ws k w :
  speaking sent g n open queue done w → one_write (with_writes js q ws k w) → Forall2 job_is js queue' →
  (∀ i, Some i ∈ queue' ↔ Some i ∈ queue) → omap id queue' = omap id queue →
  outbox (with_writes js q ws k w) = outbox w → speaking sent g n open queue' done (with_writes js q ws k w).
Proof.
  intros [] Ho Hjs Hq Hom Hout. constructor; try done.
  - eapply deadlines_frame; [done..|]. intros i h t Hi. split_and!; [done|apply Hq|done].
  - rewrite Hom. split; [|apply k_queue0]. intros i Hi%Hq. by apply k_queue0.
  - by eapply reads_same.
Qed.

Lemma speak_work sent g n open queue done w :
  speaking sent g n open (None :: queue) done w → ∃ w', step w ev_job w' ∧ speaking sent g n open queue done w'.
Proof.
  intros Hw. pose proof (k_posted _ _ _ _ _ _ _ Hw) as Hjs.
  apply Forall2_cons_inv_r in Hjs as (j & js & Hj & Hjs & E).
  destruct (inert_job j js w) as (q & ws & k & Hs & Ho); [apply Hw|done|done|].
  eexists. split; [exact Hs|]. eapply speak_writes; [exact Hw| |done| |done|by apply (drained_outbox [j])].
  - eapply step_ok; [exact Hs|apply Hw].
  - intros i. rewrite elem_of_cons. split; [by right|by intros [|]].
Qed.

Lemma speak_timeout sent g n open queue done i h t cs w :
  speaking sent g n open (Some i :: queue) done w → open !! i = Some (h, t) → timed_out h cs →
  (∀ j, (j < g)%nat → j ≠ i → nth_guid j ≠ nth_guid i) →
  ∃ w', step w ev_job w' ∧ speaking sent g n (delete i open) queue (done ++ cs) w'.
Proof.
  intros Hw Hi Hcs Hg. destruct (open_shrinks _ _ _ _ _ _ _ i Hw Hg) as (Hopen & Hnum & Hops).
  destruct Hw. destruct (k_deadlines0 _ _ _ Hi) as (Hlt & d & Hd). rewrite decide_True in Hd by left.
  apply Forall2_cons_inv_r in k_posted0 as (j & js & [t' ->] & Hjs & E).
  destruct k_queue0 as [Hq [Hni Hnd]%NoDup_cons].
  assert (Some i ∉ queue) as Hni'.
  { intros Hin. apply Hni. apply list_elem_of_omap. by exists (Some i). }
  eexists. split.
  - unfold step. cbn [exec]. rewrite E. cbn [run_job]. f_equal. eapply (expiry_run _ h (nth_timer t)); [done| |done].
    apply k_ops0. by exists i, h, t.
  - unfold completed, abort_wait. simpl. rewrite Hd. simpl. constructor; simpl; try done.
    + eapply deadlines_frame; [done..|]. intros j h' t'' [Hij Hj]%lookup_delete_Some.
      split_and!; [done| |done]. rewrite elem_of_cons. split; [by right|]. by intros [[= ->]|].
    + split; [|done]. apply queue_delete; [done|]. intros j Hj. apply Hq. by right.
    + by rewrite k_calls0, app_assoc.
    + eapply reads_same; [done|]. unfold outbox. simpl. by rewrite E.
Qed.

Lemma speak_wrote sent g n open queue done w :
  speaking sent g n open queue done w → writes w ≠ 0%nat →
  ∃ w', step w (ev_written success) w' ∧ speaking sent g n open queue done w'.
Proof.
  intros Hw Hn. destruct (k_write _ _ _ _ _ _ _ Hw) as [|(H1 & q & front & ws & Hq & Hwire)]; [done|].
  assert (∃ ws k, step w (ev_written success) (with_writes (posted w) q ws k w) ∧
    ws ++ tail q = wire w ++ q) as (ws' & k & Hs & Ho).
  { unfold step. cbn [exec]. rewrite H1. unfold write_completed, do_async_send. simpl.
    rewrite (k_alive _ _ _ _ _ _ _ Hw), Hq. simpl.
    destruct q as [|next q]; [exists (wire w), 0%nat|exists (wire w ++ [next]), 1%nat];
      (split; [reflexivity|]); [done|by rewrite <- app_assoc]. }
  eexists. split; [exact Hs|]. eapply speak_writes; [exact Hw| |apply Hw|done|done|].
  - eapply step_ok; [exact Hs|apply Hw].
  - unfold outbox. simpl. rewrite Hq, !app_assoc. simpl. by rewrite Ho.
Qed.

(** ** The whole conversation *)
Lemma inert_jobs js : Forall inert js → Forall2 job_is js (replicate (length js) None).
Proof. induction 1; by constructor. Qed.

Lemma speaking_start :
  alive w0 = true → pending w0 = [async_receive] → operations_map_ w0 = ∅ → Forall inert (posted w0) →
  one_write w0 → speaking [] 0 0 ∅ (replicate (length (posted w0)) None) [] w0.
Proof.
  intros Ha Hp Ho Hj Hw. constructor; try done; try (simpl; lia).
  - by intros i [? ?].
  - intros key op. rewrite Ho, lookup_empty. split; [done|]. by intros (i & ? & ? & ? & _).
  - by apply inert_jobs.
  - split; [by intros i ?%elem_of_replicate_inv|].
    clear. induction (length _); [constructor|done].
  - by rewrite app_nil_r.
  - exists []. by rewrite app_nil_r.
Qed.

Abbreviation distinct_guids k := (∀ i j, (i < j < k)%nat → nth_guid i ≠ nth_guid j).

Lemma distinct_ne k i j : distinct_guids k → (i < k)%nat → (j < k)%nat → i ≠ j → nth_guid i ≠ nth_guid j.
Proof. intros Hg Hi Hj Hne. destruct (decide (i < j)%nat); [apply Hg; lia|]. symmetry. apply Hg. lia. Qed.

(** One more exchange. *)
Lemma speak_item items x w sent' g' n' open' queue' done' :
  conversation (items ++ [x]) sent' g' n' open' queue' done' → distinct_guids g' →
  (∀ sent g n open queue done, conversation items sent g n open queue done → distinct_guids g →
     speaking sent g n open queue done w) →
  (∃ w', step w (item_event x) w' ∧ speaking sent' g' n' open' queue' done' w') ∨ (x = wrote ∧ writes w = 0%nat).
Proof.
  intros Hc Hg IH. remember (items ++ [x]) as l eqn:El.
  destruct Hc as [|? sent1 g1 n1 open1 queue1 done1 a cmd m h Hc Ha Hm|
    ? sent1 g1 n1 open1 queue1 done1 i cmd body h t cs Hc Hb Hi Hni Han|
    ? sent1 g1 n1 open1 queue1 done1 i cmd body Hc Hb Hlt Hi Hs Hcmd|
    ? sent1 g1 n1 open1 queue1 done1 corr body Hc Hb Hk Hs Hne|? sent1 g1 n1 open1 queue1 done1 i h t Hc Hi Hni|
    ? sent1 g1 n1 open1 queue1 done1 Hc|? sent1 g1 n1 open1 queue1 done1 i h t cs Hc Hi Hcs|
    ? sent1 g1 n1 open1 queue1 done1 Hc];
    [by destruct items|apply app_inj_tail in El as [-> <-]..];
    assert (distinct_guids g1) as Hg1 by (intros ???; apply Hg; lia);
    specialize (IH _ _ _ _ _ _ Hc Hg1).
  - left. eapply speak_ask; [done..|]. intros j Hj. apply Hg. lia.
  - left. eapply speak_reply; [done..|]. intros j Hj Hji.
    eapply distinct_ne; [done..| |done]. eapply (k_open _ _ _ _ _ _ _ IH). by eexists.
  - left. eapply speak_late; [done..| |done|done]. intros j Hj.
    assert (j < g1)%nat by (by eapply (k_open _ _ _ _ _ _ _ IH)).
    eapply distinct_ne; [done..|]. intros ->. rewrite Hi in Hj. by destruct Hj.
  - left. by eapply speak_beat.
  - left. by eapply speak_expire.
  - left. by eapply speak_work.
  - left. eapply speak_timeout; [done..|]. intros j Hj Hji.
    eapply distinct_ne; [done..| |done]. eapply (k_open _ _ _ _ _ _ _ IH). by eexists.
  - destruct (decide (writes w = 0%nat)); [by right|left]. by eapply speak_wrote.
Qed.

(** The guids drawn, counted from the items. *)
Fixpoint drawn (items : list item) : nat :=
  match items with
  | [] => 0
  | ask a :: items => S (own_guids a) + drawn items
  | beat _ _ :: items => S (drawn items)
  | _ :: items => drawn items
  end.

Lemma drawn_snoc items x : drawn (items ++ [x]) = (drawn items + drawn [x])%nat.
Proof. induction items as [|[] items IH]; simpl in *; lia. Qed.

Lemma drawn_item x : (drawn [x] ≤ 2)%nat.
Proof. destruct x as [a| | | | |]; simpl; try lia. destruct a; simpl; lia. Qed.

Lemma conversation_drawn items sent g n open queue done :
  conversation items sent g n open queue done → g = drawn items.
Proof. induction 1; rewrite ?drawn_snoc; simpl; lia. Qed.

(** Every package has a guid of its own. *)
Lemma conversation_ids items sent g n open queue done :
  conversation items sent g n open queue done → Forall (λ x, x.1 < g)%nat sent ∧ NoDup sent.*1.
Proof.
  assert (∀ sent g i x, Forall (λ x, x.1 < g)%nat sent ∧ NoDup sent.*1 → (g ≤ i)%nat →
    Forall (λ y, y.1 < S i)%nat (sent ++ [(i, x : tcp_command * bytes)]) ∧
    NoDup (sent ++ [(i, x : tcp_command * bytes)]).*1) as Hsnoc.
  { intros sent' g' i x [Hlt Hnd] Hi. split.
    - apply Forall_app. split; [|by repeat constructor]. eapply Forall_impl; [exact Hlt|]. simpl. lia.
    - rewrite fmap_app. apply NoDup_app. split_and!; [done| |apply NoDup_singleton].
      intros j (y & -> & Hy)%list_elem_of_fmap Hj%list_elem_of_singleton.
      rewrite Forall_forall in Hlt. specialize (Hlt y Hy). simpl in *. lia. }
  induction 1; try done; [by split; [apply Forall_nil|apply NoDup_nil]|eapply Hsnoc; [done|lia]..].
Qed.

Lemma speaking_run : speaking [] 0 0 ∅ (replicate (length (posted w0)) None) [] w0 →
  ∀ items sent g n open queue done w,
  conversation items sent g n open queue done → distinct_guids g →
  run step w0 (item_event <$> items) w → speaking sent g n open queue done w.
Proof.
  intros Hstart items. induction items as [|x items IH] using rev_ind; intros sent g n open queue done w Hc Hg Hr.
  - inversion Hr; subst. inversion Hc; subst; try (by destruct items). done.
  - rewrite fmap_app in Hr. destruct (run_app _ _ _ _ _ Hr) as (w1 & Hr1 & Hs%run_single).
    destruct (speak_item items x w1 _ _ _ _ _ _ Hc Hg) as [(w' & Hs' & Hw')|[-> E]].
    + intros sent1 g1 n1 open1 queue1 done1 Hc1 Hg1. by apply (IH _ _ _ _ _ _ _ Hc1).
    + by rewrite (step_functional _ _ _ _ Hs Hs').
    + unfold step in Hs. simpl in Hs. by rewrite E in Hs.
Qed.
End conversation.

(** C5: Requests in flight together, on an idle connection.  Over every
    interleaving of the user's requests (appends, deletions, transactions,
    reads, metadata got and set, management of persistent subscriptions) with
    the server's answers, in any order, its heartbeats, the passing of
    deadlines, and the client's jobs and writes, as long as the guids drawn
    differ, the credentials fit their length bytes and the messages are shorter
    than 2^30 bytes: each request has one outcome, the calls its handler
    decides on for the first answer, or its call with operation_timeout when its
    deadline's completion runs before, and the calls come in that order; a later
    answer is ignored; each request has gone out once, in order, as a package
    from which the server reads its command, its message and an id of its own;
    the operations map holds exactly the requests without an outcome; and no
    step fails.  Left out is the answer between the passing of a deadline and
    the run of its completion (see [late_expiry_throws]). *)
Theorem requests_answered {AL : Allocator} {PB : Protobuf} {AE : AsioErrors} {GS : GuidSource}
    w0 items sent g n open queue done w
    (Halive : alive w0 = true) (Hpending : pending w0 = [async_receive]) (Hops : operations_map_ w0 = ∅)
    (Hposted : Forall inert (posted w0)) (Hwrite : one_write w0) (Hcredentials : credentials_fit w0)
    (Htalk : conversation w0 items sent g n open queue done)
    (Hguids : ∀ i j, (i < j < g + 2)%nat → fresh_guid (guids w0 + i) ≠ fresh_guid (guids w0 + j))
    (Hrun : run step w0 (item_event w0 <$> items) w) :
  calls w = calls w0 ++ done ∧
  reads_as w0 sent w ∧
  NoDup ((λ x, fresh_guid (guids w0 + x.1)) <$> sent) ∧
  (∀ key, is_Some (operations_map_ w !! key) ↔ ∃ i, is_Some (open !! i) ∧ key = fresh_guid (guids w0 + i)) ∧
  length (posted w) = length queue ∧
  (∀ x sent' g' n' open' queue' done', conversation w0 (items ++ [x]) sent' g' n' open' queue' done' →
    (∃ w', step w (item_event w0 x) w') ∨ (x = wrote ∧ writes w = 0%nat)).
Proof.
  pose proof (speaking_start w0 Halive Hpending Hops Hposted Hwrite) as Hstart.
  pose proof (speaking_run w0 Hcredentials Hstart items) as Hspeak.
  destruct (Hspeak _ _ _ _ _ _ _ Htalk ltac:(intros; apply Hguids; lia) Hrun) as [].
  split_and!; [done|done| | |by eapply Forall2_length|].
  - destruct (conversation_ids _ _ _ _ _ _ _ _ Htalk) as [Hlt Hnd].
    replace (_ <$> sent) with ((λ i, fresh_guid (guids w0 + i)) <$> sent.*1) by by rewrite <- list_fmap_compose.
    apply NoDup_fmap_2_strong; [|done]. intros i j Hi Hj E.
    apply list_elem_of_fmap in Hi as (x & -> & Hx), Hj as (y & -> & Hy).
    rewrite Forall_forall in Hlt. apply Hlt in Hx, Hy. destruct (decide (x.1 = y.1)); [done|].
    destruct (distinct_ne w0 g x.1 y.1); [intros; apply Hguids; lia|done..].
  - intros key. split.
    + intros [op (i & h & t & Hi & Hk & _)%k_ops0]. exists i. by split; [eexists|].
    + intros (i & [[h t] Hi] & ->). eexists. apply k_ops0. by exists i, h, t.
  - intros x sent' g' n' open' queue' done' Hc.
    assert (g' ≤ g + 2)%nat as Hlen.
    { rewrite (conversation_drawn _ _ _ _ _ _ _ _ Hc), (conversation_drawn _ _ _ _ _ _ _ _ Htalk), drawn_snoc.
      pose proof (drawn_item x). lia. }
    destruct (speak_item w0 Hcredentials items x w _ _ _ _ _ _ Hc) as [(w' & Hs & _)|Hx]; [| |left; by exists w'|by right].
    + intros i j Hij. apply Hguids. lia.
    + intros sent1 g1 n1 open1 queue1 done1 Hc1 Hg1. by apply (Hspeak _ _ _ _ _ _ _ Hc1).
Qed.

(** Two answers of the sample codec. *)
Lemma sample_write_answered cb key :
  answered (PB := sample_protobuf) (on_append cb) key Command.write_events_completed [x00]
  [(cb, cb_write (success, Some (mk_write_result 4 (mk_position 10 20))))].
Proof.
  intros v Hr. cbn [response_calls]. unfold append_handler.
  rewrite (check_command_expected _ _ (reads_command _ _ _ _ _ _ Hr)). cbn [mbind outcome_bind].
  by rewrite failed_success, (parse_view_ok _ _ (reads_message _ _ _ _ _ _ Hr)).
Qed.
Lemma sample_read_answered key : answered (PB := sample_protobuf) (on_read_stream_event "stream" 0 8) key
  Command.read_event_completed [x01]
  [(8%nat, cb_event_read (success, Some (mk_event_read_result read_not_found "stream" 0 None)))].
Proof.
  intros v Hr. cbn [response_calls]. unfold read_stream_event_handler.
  rewrite (check_command_expected _ _ (reads_command _ _ _ _ _ _ Hr)). cbn [mbind outcome_bind].
  by rewrite failed_success, (parse_view_ok _ _ (reads_message _ _ _ _ _ _ Hr)).
Qed.

(** Four requests, one of which sets metadata, a heartbeat while they are under
    way, the last request answered first, the second one out of time and
    answered too late, the others answered last. *)
Lemma requests_answered_witness :
  let timeout := make_error_code operation_timeout in
  let written := cb_write (success, Some (mk_write_result 4 (mk_position 10 20))) in
  let items := [ask (api_append "stream" [] 0 7); ask (api_delete "stream" 0 false 6);
    ask (api_set_metadata "stream" (-1) "{}" 5); ask (api_read_event "stream" 0 false 8); work; work;
    beat (replicate 16 x09) []; expire 1;
    reply 4 Command.read_event_completed [x01]; wrote; work; work; work; work; work;
    reply 1 Command.delete_stream_completed [x00]; reply 3 Command.write_events_completed [x00];
    reply 0 Command.write_events_completed [x00]] in
  let w := after (AL := zero_allocator) (PB := sample_protobuf) (AE := linux_asio_errors) (GS := counting_guids)
    (item_event (GS := counting_guids) sample_connected <$> items) sample_connected in
  calls w = calls sample_connected ++
    [(8%nat, cb_event_read (success, Some (mk_event_read_result read_not_found "stream" 0 None)));
     (6%nat, cb_delete (timeout, None)); (5%nat, written); (7%nat, written)] ∧
  (∀ key, is_Some (operations_map_ w !! key) ↔ False).
Proof.
  intros timeout written items w.
  assert (run (step (AL := zero_allocator) (PB := sample_protobuf) (AE := linux_asio_errors) (GS := counting_guids))
    sample_connected (item_event (GS := counting_guids) sample_connected <$> items) w) as Hrun.
  { unfold w. apply after_run. vm_compute. reflexivity. }
  pose proof (talk_nothing (PB := sample_protobuf) (GS := counting_guids) sample_connected) as T0.
  replace (replicate (length (posted sample_connected)) None) with [None : option nat] in T0
    by (vm_compute; reflexivity).
  pose proof (talk_ask _ _ _ _ _ _ _ _ (api_append "stream" [] 0 7) _ _ _ T0 eq_refl eq_refl) as T1.
  pose proof (talk_ask _ _ _ _ _ _ _ _ (api_delete "stream" 0 false 6) _ _ _ T1 eq_refl eq_refl) as T2.
  pose proof (talk_ask _ _ _ _ _ _ _ _ (api_set_metadata "stream" (-1) "{}" 5) _ _ _ T2 eq_refl eq_refl) as T3.
  pose proof (talk_ask _ _ _ _ _ _ _ _ (api_read_event "stream" 0 false 8) _ _ _ T3 eq_refl eq_refl) as T4.
  pose proof (talk_work _ _ _ _ _ _ _ _ (talk_work _ _ _ _ _ _ _ _ T4)) as T6.
  pose proof (talk_beat _ _ _ _ _ _ _ _ (replicate 16 x09) [] T6 eq_refl eq_refl ltac:(vm_compute; reflexivity)
    ltac:(apply (bool_decide_unpack _); exact I)) as T7.
  pose proof (talk_expire _ _ _ _ _ _ _ _ 1 _ _ T7 eq_refl ltac:(apply (bool_decide_unpack _); exact I)) as T8.
  pose proof (talk_reply _ _ _ _ _ _ _ _ 4 Command.read_event_completed [x01] _ _ _ T8 eq_refl eq_refl
    ltac:(apply (bool_decide_unpack _); exact I) (sample_read_answered _)) as T9.
  pose proof (talk_work _ _ _ _ _ _ _ _ (talk_work _ _ _ _ _ _ _ _ (talk_work _ _ _ _ _ _ _ _
    (talk_work _ _ _ _ _ _ _ _ (talk_wrote _ _ _ _ _ _ _ _ T9))))) as T14.
  pose proof (talk_timeout _ _ _ _ _ _ _ _ 1 _ _ [(6%nat, cb_delete (timeout, None))] T14 eq_refl eq_refl) as T15.
  pose proof (talk_late _ _ _ _ _ _ _ _ 1 Command.delete_stream_completed [x00] T15 eq_refl ltac:(simpl; lia) eq_refl
    ltac:(vm_compute; reflexivity) ltac:(discriminate)) as T16.
  pose proof (talk_reply _ _ _ _ _ _ _ _ 3 Command.write_events_completed [x00] _ _ _ T16 eq_refl eq_refl
    ltac:(apply (bool_decide_unpack _); exact I) (sample_write_answered 5 _)) as T17.
  pose proof (talk_reply _ _ _ _ _ _ _ _ 0 Command.write_events_completed [x00] _ _ _ T17 eq_refl eq_refl
    ltac:(apply (bool_decide_unpack _); exact I) (sample_write_answered 7 _)) as T18.
  assert (one_write sample_connected) as Hwrite.
  { eapply run_ok; [unfold sample_connected; apply after_run; vm_compute; reflexivity|by left]. }
  assert (∀ i j, (i < j < 8)%nat → fresh_guid (GuidSource := counting_guids) (guids sample_connected + i) ≠
    fresh_guid (GuidSource := counting_guids) (guids sample_connected + j)) as Hguids.
  { replace (guids sample_connected) with 2%nat by (vm_compute; reflexivity).
    intros i j Hij E%counting_guids_inj; lia. }
  destruct (requests_answered (AL := zero_allocator) (PB := sample_protobuf) (AE := linux_asio_errors)
    (GS := counting_guids) sample_connected items _ _ _ _ _ _ w eq_refl eq_refl ltac:(vm_compute; reflexivity)
    ltac:(vm_compute; by repeat constructor) Hwrite ltac:(split; vm_compute; lia) T18 Hguids Hrun)
    as (Hc & _ & _ & Ho & _).
  split; [exact Hc|]. intros k. split; [|intros []]. intros (i & Hi & _)%Ho. vm_compute in Hi. by destruct Hi.
Defined.
