(* ===== verification/Receiving.v ===== *)
(** The receive loop of the connection, byte by byte (async_start_receive of
    include/connection/basic_tcp_connection.hpp and the handlers of
    include/tcp/read.hpp): the client with its buffer and its read operation,
    driven by what each read of the socket gives, and the client of Client.v,
    to which whole packages come, as its abstract specification. *)
From S2P Require Import Prelude Errors Basics TcpPackage Framing Messages Events Settings Operations.
From S2P Require Import OperationsMap World Connection Requests ConnectOps Subscription Catchup.
From S2P Require Import CatchupAll Client Lifecycle Sending Steps Conversation.

(** ** The client and its read operation *)
Section receiver.
Context {B : Type} `{!DynamicBuffer B}.

(** The read operation under way: the bytes asked for, the handler, and the
    bytes the socket has given so far. *)
Record receiver := mk_receiver {
  r_world : world;
  r_buffer : B;
  r_read : option (nat * read_handler * bytes)
}.

Inductive byte_event : Type :=
| on_event (e : event)            (* anything but the end of a read *)
| on_bytes (bs : bytes)           (* the socket gives some bytes *)
| on_read_error (ec : error_code). (* the socket reports an error *)

Definition is_received (e : event) : bool := match e with ev_received _ _ _ => true | _ => false end.

(** How many read operations have been started and not ended. *)
Definition receives (w : world) : nat := length (omap is_receive (pending w)).

Context {AL : Allocator} {PB : Protobuf} {AE : AsioErrors} {GS : GuidSource}.

(** The state after the client's code has run: read_op.initiate in
    async_start_receive, when it was called.  Two read operations at a time on
    the one buffer, as after a second async_connect, are not modelled. *)
Definition resume (read : option (nat * read_handler * bytes)) (b : B) (w : world) : option receiver :=
  match receives w, read with
  | 0%nat, _ => Some (mk_receiver w b None)
  | 1%nat, Some rd => Some (mk_receiver w b (Some rd))
  | 1%nat, None =>
      match read_initiate false b with
      | (AsyncRead n h, b) => Some (mk_receiver w b (Some (n, h, [])))
      | (_, b) => Some (mk_receiver w b None)
      end
  | _, _ => None
  end.

Definition resume_after (read : option (nat * read_handler * bytes)) (b : B)
    (o : option (outcome world)) : option (outcome receiver) :=
  match o with
  | Some (Ret w) => Ret <$> resume read b w
  | Some (Throw e) => Some (Throw e)
  | Some (Undef u) => Some (Undef u)
  | None => None
  end.

(** What a handler does last. *)
Definition perform_action (act : read_action) (b : B) (w : world) : option (outcome receiver) :=
  match act with
  | AsyncRead n h => Some (Ret (mk_receiver w b (Some (n, h, []))))
  | CallToken ec n =>
      resume_after None b
        (complete is_receive (λ _, effect (receive_token ec (db_data b) n)) w)
  | NoAction => resume_after None b (complete is_receive (λ _ w, Ret w) w)
  end.

Definition run_handler (h : read_handler) (ec : error_code) (bytes_read : Z) (b : B) (w : world) :
    option (outcome receiver) :=
  match run_read_handler h (negb (alive w)) ec bytes_read b with
  | Ret (act, b) => perform_action act b w
  | Throw e => Some (Throw e)
  | Undef u => Some (Undef u)
  end.

(** async_read fills the prepared bytes as they come, and calls its handler
    with the last of them. *)
Definition exec_bytes (x : byte_event) (s : receiver) : option (outcome receiver) :=
  match x with
  | on_event e =>
      if is_received e then None else resume_after (r_read s) (r_buffer s) (exec e (r_world s))
  | on_bytes bs =>
      '(n, h, got) ← r_read s;
      let got := got ++ bs in
      let b := db_fill got (r_buffer s) in
      if bool_decide (bs = []) || bool_decide (n < length got)%nat then None
      else if bool_decide (length got = n) then run_handler h success (Z.of_nat n) b (r_world s)
      else Some (Ret (mk_receiver (r_world s) b (Some (n, h, got))))
  | on_read_error ec =>
      '(_, h, got) ← r_read s;
      if failed ec then run_handler h ec (Z.of_nat (length got)) (r_buffer s) (r_world s) else None
  end.

Fixpoint exec_all_bytes (xs : list byte_event) (s : receiver) : option (outcome receiver) :=
  match xs with
  | [] => Some (Ret s)
  | x :: xs =>
      match exec_bytes x s with
      | Some (Ret s) => exec_all_bytes xs s
      | o => o
      end
  end.

(** ** What the bytes amount to

    [arrived alive partial]: the event at the client, if any, when [partial]
    has come of a package ([success] stands for a package still incomplete);
    when the client is gone, the handler of the prefix ends its read. *)
Definition arrived (alive : bool) (partial : bytes) : option event :=
  if negb alive && bool_decide (length partial = 4%nat) then Some (ev_received success [] 4)
  else
    match next_frame success partial with
    | inr (f, _) => Some (ev_received success f (Z.of_nat (length f)))
    | inl ec => if failed ec then Some (ev_received ec [] (Z.of_nat (length partial))) else None
    end.

Definition is_release (e : event) : bool := match e with ev_release => true | _ => false end.

(** The events one step amounts to, what has come of the next package, and
    whether the client is still there. *)
Definition package_step (alive : bool) (partial : bytes) (x : byte_event) : list event * bytes * bool :=
  match x with
  | on_event e => ([e], partial, alive && negb (is_release e))
  | on_bytes bs =>
      match arrived alive (partial ++ bs) with
      | Some e => ([e], [], alive)
      | None => ([], partial ++ bs, alive)
      end
  | on_read_error ec => ([ev_received ec [] (Z.of_nat (length partial))], [], alive)
  end.

Fixpoint package_events (alive : bool) (partial : bytes) (xs : list byte_event) : list event :=
  match xs with
  | [] => []
  | x :: xs => let '(es, partial, alive) := package_step alive partial x in es ++ package_events alive partial xs
  end.
End receiver.
Arguments receiver : clear implicits.

(** ** The client through one event *)
Section facts.
Context {AL : Allocator} {PB : Protobuf} {AE : AsioErrors} {GS : GuidSource}.

Lemma step_alive w e w' : step w e w' → alive w' = alive w && negb (is_release e).
Proof.
  assert (∀ p u u', effect p u = Ret u' → alive u' = alive u) as Heff
    by (intros p u u' (_ & _ & _ & H & _)%effect_only_posts; exact H).
  unfold step. intros He. destruct e; cbn [exec is_release negb] in He |- *; rewrite ?andb_true_r, ?andb_false_r;
    unfold complete in He; try (injection He as He; by rewrite (Heff _ _ _ He)).
  - destruct (posted w) as [|j js]; [done|]. injection He as He.
    destruct j; cbn [run_job] in He; try (by rewrite (Heff _ _ _ He)).
    unfold run_send, do_async_send in He. simpl in He. destruct (alive w) eqn:E; [|done]. simpl in He.
    destruct (message_queue_ w); simpl in He; by injection He as <-.
  - destruct (timers w !! t) as [[d [wt|]]|]; [|done..]. by injection He as <-.
  - destruct (writes w) as [|n]; [done|]. injection He as He. unfold write_completed, do_async_send in He.
    simpl in He. destruct (alive w) eqn:E; [|done]. simpl in He.
    destruct (failed ec); simpl in He; [by injection He as <-|].
    destruct (message_queue_ w) as [|? [|]]; [done|..]; simpl in He; by injection He as <-.
  - destruct (take_pending _ _) as [[? rest]|]; [|done]. injection He as He. by rewrite (Heff _ _ _ He).
  - destruct (take_pending _ _) as [[? rest]|]; [|done]. injection He as He. by rewrite (Heff _ _ _ He).
  - destruct (take_pending _ _) as [[? rest]|]; [|done]. injection He as He. by rewrite (Heff _ _ _ He).
  - by injection He as <-.
  - destruct (objects w !! this); [|done]. by injection He as <-.
  - destruct (decide (objects w = ∅)); [|done]. by injection He as <-.
Qed.

(** Programs start reads; only the end of one takes it away. *)
Lemma run_prog_receives {A} (p : prog A) w a w' : run_prog p w = Ret (a, w') → (receives w ≤ receives w')%nat.
Proof.
  assert (∀ l o : list async_op, (length (omap is_receive l) ≤ length (omap is_receive (l ++ o)))%nat) as Happ
    by (intros l o; rewrite omap_app, length_app; lia).
  apply (run_prog_preserves (λ w w', (receives w ≤ receives w')%nat)); [done|lia|].
  intros X c w1 x w2 Hc. unfold receives.
  destruct c; cbn [run_cmd] in Hc; inv_ret; simpl; try done; try (by destruct o; simpl; apply Happ);
    unfold abort_wait; by destruct (timers w1 !! _) as [[? [?|]]|].
Qed.

Lemma effect_receives p w w' : effect p w = Ret w' → (receives w ≤ receives w')%nat.
Proof. unfold effect. intros Hr. inv_ret. destruct x. by eapply run_prog_receives. Qed.

Lemma take_other {A} (f : async_op → option A) l a rest :
  (∀ o, is_Some (f o) → is_receive o = None) → take_pending f l = Some (a, rest) →
  length (omap is_receive rest) = length (omap is_receive l).
Proof.
  intros Hf. revert a rest. induction l as [|o l IH]; intros a rest Ht; simpl in Ht; [done|].
  destruct (f o) eqn:E.
  - simplify_eq. simpl. by rewrite (Hf o).
  - destruct (take_pending f l) as [[a' l']|]; [|done]. simplify_eq/=.
    destruct (is_receive o); simpl; by rewrite (IH _ _ eq_refl).
Qed.

Lemma step_receives w e w' : step w e w' → is_received e = false → (receives w ≤ receives w')%nat.
Proof.
  unfold step. intros He Hr. destruct e; cbn [exec] in He; try done; unfold complete in He;
    try (injection He as He; by eapply effect_receives).
  - destruct (posted w) as [|j js]; [done|]. injection He as He.
    destruct j; cbn [run_job] in He; try (apply effect_receives in He; exact He).
    unfold run_send, do_async_send in He. simpl in He. destruct (alive w); [|done]. simpl in He.
    destruct (message_queue_ w); simpl in He; by injection He as <-.
  - destruct (timers w !! t) as [[d [wt|]]|]; [|done..]. by injection He as <-.
  - destruct (writes w) as [|n]; [done|]. injection He as He. unfold write_completed, do_async_send in He.
    simpl in He. destruct (alive w); [|done]. simpl in He. destruct (failed ec); simpl in He; [by injection He as <-|].
    destruct (message_queue_ w) as [|? [|]]; [done|..]; simpl in He; by injection He as <-.
  - destruct (take_pending _ _) as [[? rest]|] eqn:E; [|done]. injection He as He%effect_receives.
    apply take_other in E; [|by intros [] [? [=]]]. unfold receives in *. simpl in He. lia.
  - destruct (take_pending _ _) as [[? rest]|] eqn:E; [|done]. injection He as He%effect_receives.
    apply take_other in E; [|by intros [] [? [=]]]. unfold receives in *. simpl in He. lia.
  - by injection He as <-.
  - destruct (objects w !! this); [|done]. by injection He as <-.
  - destruct (decide (objects w = ∅)); [|done]. by injection He as <-.
Qed.

Lemma exec_all_app es es' w :
  exec_all (es ++ es') w = match exec_all es w with Some (Ret w1) => exec_all es' w1 | o => o end.
Proof.
  revert w. induction es as [|e es IH]; intros w; simpl; [done|].
  destruct (exec e w) as [[w1| |]|]; [apply IH|done..].
Qed.

Lemma exec_all_single e w : exec_all [e] w = exec e w.
Proof. simpl. by destruct (exec e w) as [[]|]. Qed.

(** A token called with an error does not look at the buffer. *)
Lemma token_error ec m n m' n' : failed ec = true → receive_token ec m n = receive_token ec m' n'.
Proof. intros E. unfold receive_token. by rewrite E. Qed.

Lemma exec_received_alive ec m n w : alive w = true →
  exec (ev_received ec m n) w = complete is_receive (λ _, effect (receive_token ec m n)) w.
Proof.
  intros Ha. cbn [exec]. unfold complete. destruct (take_pending _ _) as [[[] rest]|]; [|done].
  cbn. do 2 f_equal. unfold effect, receive_completed. run_prog_steps.
  by rewrite Ha.
Qed.

Lemma exec_received_gone ec m n w : alive w = false →
  exec (ev_received ec m n) w =
    complete is_receive (λ _ w, if ends_in_message ec n then Undef dangling_reference else Ret w) w.
Proof.
  intros Ha. cbn [exec]. unfold complete. destruct (take_pending _ _) as [[[] rest]|]; [|done].
  cbn. do 2 f_equal. unfold effect, receive_completed. run_prog_steps. rewrite Ha.
  by destruct (ends_in_message ec n).
Qed.

Lemma take_receive w : receives w = 1%nat → ∃ rest, take_pending is_receive (pending w) = Some (tt, rest).
Proof.
  unfold receives. induction (pending w) as [|o l IH]; [done|]. cbn [take_pending].
  destruct o; cbn [is_receive omap list_omap]; intros Hr; [by eexists|..];
    destruct (IH Hr) as [rest ->]; by eexists.
Qed.
End facts.

(** ** The state of the read operation *)
Section simulation.
Context {B : Type} `{DynamicBufferLaws B}.
Context {AL : Allocator} {PB : Protobuf} {AE : AsioErrors} {GS : GuidSource}.

(** [synced partial s]: [partial] has come of the package being read. *)
Definition synced (partial : bytes) (s : receiver B) : Prop :=
  match r_read s with
  | None => partial = [] ∧ receives (r_world s) = 0%nat ∧ ∃ r p, db_rel (r_buffer s) r p
  | Some (n, h, got) => receives (r_world s) = 1%nat ∧ (length got < n)%nat ∧
      ∃ r p, db_rel (r_buffer s) r p ∧ length p = n ∧ partial = r ++ got ∧
        match h with
        | length_check_handler => r = [] ∧ n = 4%nat
        | read_message_handler => length r = 4%nat ∧
            let size := wrap_i32 (le_decode r) in 18 ≤ size ≤ kMaxPackageSize ∧ n = Z.to_nat size
        end
  end.

Lemma resume_synced b w s r p : db_rel b r p → resume None b w = Some s → synced [] s ∧ r_world s = w.
Proof.
  intros Hb. unfold resume, read_initiate. destruct (receives w) as [|[|k]] eqn:Hr; [| |done]; intros [= <-]; simpl.
  - split; [|done]. unfold synced. simpl. split_and!; [done|done|by eexists _, _].
  - split; [|done]. unfold synced. simpl. split_and!; [done|lia|].
    destruct (db_consume_rel (db_size b) b r p Hb) as [p1 Hb1]. rewrite (db_rel_size b r p Hb), drop_all in Hb1.
    destruct (db_prepare_rel 4 _ _ _ Hb1) as (p2 & Hp2 & Hb2).
    rewrite <- (db_rel_size b r p Hb) in Hb2. by exists [], p2.
Qed.

Lemma resume_continues partial s w' s' :
  synced partial s → (receives (r_world s) ≤ receives w')%nat →
  resume (r_read s) (r_buffer s) w' = Some s' → synced partial s' ∧ r_world s' = w'.
Proof.
  unfold synced at 1. destruct (r_read s) as [[[n h] got]|].
  - intros (Hr & Hrest) Hle Hres. unfold resume in Hres.
    destruct (receives w') as [|[|k]] eqn:E; [lia| |done]. injection Hres as <-. split; [|done].
    unfold synced. simpl. by rewrite E.
  - intros (-> & _ & r & p & Hb) _. by apply (resume_synced _ _ _ r p).
Qed.

(** ** The bytes of a package *)
Lemma next_frame_prefix (partial : bytes) : (length partial < 4)%nat → next_frame success partial = inl success.
Proof. intros Hl. unfold next_frame. by rewrite decide_True. Qed.

Lemma next_frame_cases (r got : bytes) : length r = 4%nat →
  let size := wrap_i32 (le_decode r) in
  next_frame success (r ++ got) =
    if (size <? 18) || (size >? kMaxPackageSize) then inl (make_error_code bad_length_prefix)
    else if decide (Z.to_nat size ≤ length got)%nat
    then inr (r ++ take (Z.to_nat size) got, drop (Z.to_nat size) got)
    else inl success.
Proof.
  intros Hr size. unfold next_frame. rewrite length_app, Hr, take_app_length' by done. fold size.
  rewrite decide_False by lia. destruct (_ || _); [done|].
  destruct (decide (Z.to_nat size ≤ length got)%nat); [rewrite decide_True by lia|by rewrite decide_False by lia].
  by rewrite <- Hr, take_app_add, drop_app_add.
Qed.

Lemma size_in_range size : 18 ≤ size ≤ kMaxPackageSize → (size <? 18) || (size >? kMaxPackageSize) = false.
Proof. intros []. apply orb_false_iff. rewrite Z.gtb_ltb, !Z.ltb_ge. lia. Qed.

(** ** The two handlers *)

(** What a handler, run with what has come of the package, does to the
    client: [event] is the event it amounts to. *)
Definition handled (partial : bytes) (e : option event) (o : option (outcome (receiver B))) (w : world) : Prop :=
  match e with
  | None => ∃ s, o = Some (Ret s) ∧ synced partial s ∧ r_world s = w
  | Some e => (∃ b r p, db_rel b r p ∧ o = resume_after None b (exec e w))
  end.

(** The token, and the end of a read whose client is gone. *)
Lemma token_handled partial ec m n k b r p w :
  db_rel b r p → alive w = true → (failed ec = false → m = db_data b ∧ k = n) →
  handled partial (Some (ev_received ec m k)) (perform_action (CallToken ec n) b w) w.
Proof.
  intros Hb Ha Hm. exists b, r, p. split; [done|]. rewrite exec_received_alive by done. cbn [perform_action].
  destruct (failed ec) eqn:E; [|by destruct Hm as [-> ->]].
  by rewrite (token_error ec m k (db_data b) n E).
Qed.

Lemma gone_handled partial ec m n b r p w :
  db_rel b r p → alive w = false → ends_in_message ec n = false →
  handled partial (Some (ev_received ec m n)) (perform_action NoAction b w) w.
Proof. intros Hb Ha Hn. exists b, r, p. split; [done|]. by rewrite exec_received_gone, Hn. Qed.

Lemma dangling_handled partial ec m n b r p w :
  db_rel b r p → alive w = false → receives w = 1%nat → ends_in_message ec n = true →
  handled partial (Some (ev_received ec m n)) (Some (Undef dangling_reference)) w.
Proof.
  intros Hb Ha Hr Hn. exists b, r, p. split; [done|]. rewrite exec_received_gone, Hn by done.
  unfold complete. by destruct (take_receive w Hr) as [rest ->].
Qed.

Lemma length_check_handled got b w :
  length got = 4%nat → db_rel b [] got → receives w = 1%nat →
  handled got (arrived (alive w) got) (run_handler length_check_handler success 4 b w) w.
Proof.
  intros Hg Hb Hr. unfold run_handler. cbn [run_read_handler].
  unfold arrived. rewrite Hg, (bool_decide_eq_true_2 (4%nat = 4%nat)) by done.
  destruct (alive w) eqn:Ha; cbn [negb andb].
  - pose proof (next_frame_cases got [] Hg) as Hnf. rewrite app_nil_r in Hnf. rewrite Hnf.
    set (size := wrap_i32 (le_decode got)). rewrite (length_check_prefix got b Hb Hg). cbv zeta. fold size.
    destruct ((size <? 18) || (size >? kMaxPackageSize)) eqn:En; cbn [mbind outcome_bind].
    + rewrite failed_make_error_code_communication. apply (token_handled _ _ _ _ _ _ [] got); [done..|].
      by rewrite failed_make_error_code_communication.
    + apply orb_false_iff in En as [En1%Z.ltb_ge En2]. rewrite Z.gtb_ltb in En2. apply Z.ltb_ge in En2.
      rewrite decide_False by (simpl; lia). rewrite failed_success.
      eexists. split; [reflexivity|]. split; [|done]. unfold synced. cbn [r_read r_world r_buffer].
      split_and!; [done|simpl; lia|].
      pose proof (db_commit_rel 4 b _ _ Hb) as Hc. rewrite (take_ge got), (drop_ge got) in Hc by lia.
      destruct (db_prepare_rel (Z.to_nat size) _ _ _ (Hc ltac:(lia))) as (p & Hp & Hb').
      exists got, p. by rewrite app_nil_r.
  - unfold length_check. apply (gone_handled _ _ _ _ _ [] got); [done..|]. unfold ends_in_message.
    by rewrite failed_success.
Qed.

Lemma read_message_handled r got b w :
  let size := wrap_i32 (le_decode r) in
  length r = 4%nat → 18 ≤ size ≤ kMaxPackageSize → length got = Z.to_nat size → db_rel b r got → receives w = 1%nat →
  handled (r ++ got) (arrived (alive w) (r ++ got))
    (run_handler read_message_handler success (Z.of_nat (length got)) b w) w.
Proof.
  intros size Hr Hs Hg Hb Hone. unfold arrived. rewrite (next_frame_cases r got Hr). fold size.
  rewrite size_in_range, decide_True, (take_ge got) by lia.
  rewrite (bool_decide_eq_false_2 (length (r ++ got) = 4%nat)), andb_false_r by (rewrite length_app; lia).
  unfold run_handler. cbn [run_read_handler]. unfold read_message.
  destruct (alive w) eqn:Ha; cbn [negb].
  - rewrite failed_success, Nat2Z.id.
    pose proof (db_commit_rel (length got) b r got Hb ltac:(lia)) as Hc. rewrite take_ge, drop_ge in Hc by lia.
    apply (token_handled _ _ _ _ _ _ _ _ _ Hc Ha). intros _. rewrite (db_rel_data _ _ _ Hc), app_nil_r.
    split; [done|]. rewrite length_app. lia.
  - apply (dangling_handled _ _ _ _ _ _ _ _ Hb Ha Hone). unfold ends_in_message. rewrite failed_success.
    apply Z.ltb_lt. rewrite length_app. lia.
Qed.

Lemma read_error_handled h ec partial s n got :
  synced partial s → r_read s = Some (n, h, got) → failed ec = true →
  handled partial (Some (ev_received ec [] (Z.of_nat (length partial))))
    (run_handler h ec (Z.of_nat (length got)) (r_buffer s) (r_world s)) (r_world s).
Proof.
  unfold synced. intros Hs Hrd He. rewrite Hrd in Hs. destruct Hs as (Hone & Hlt & r & p & Hb & Hp & -> & Hh).
  destruct (db_consume_rel 4 _ r p Hb) as [p' Hc].
  unfold run_handler. destruct (alive (r_world s)) eqn:Ha, h; cbn [run_read_handler negb];
    unfold length_check, read_message; rewrite ?He; cbn [negb].
  - by apply (token_handled _ _ _ _ _ _ _ _ _ Hb Ha); rewrite He.
  - by apply (token_handled _ _ _ _ _ _ _ _ _ Hc Ha); rewrite He.
  - destruct Hh as [-> ->]. apply (gone_handled _ _ _ _ _ _ _ _ Hb Ha). unfold ends_in_message. rewrite He.
    apply Z.leb_gt. simpl. lia.
  - destruct Hh as (Hr & _). apply (dangling_handled _ _ _ _ _ _ _ _ Hb Ha Hone). unfold ends_in_message.
    rewrite He. apply Z.leb_le. rewrite length_app. lia.
Qed.

(** A package that is not complete. *)
Lemma arrived_none al r got n h :
  (length got < n)%nat → got ≠ [] →
  match h with
  | length_check_handler => r = [] ∧ n = 4%nat
  | read_message_handler => length r = 4%nat ∧
      let size := wrap_i32 (le_decode r) in 18 ≤ size ≤ kMaxPackageSize ∧ n = Z.to_nat size
  end → arrived al (r ++ got) = None.
Proof.
  intros Hl Hne Hh. assert (0 < length got)%nat by (destruct got; [done|simpl; lia]).
  unfold arrived.
  destruct h.
  - destruct Hh as [-> ->]. simpl app. rewrite (bool_decide_eq_false_2 (length got = 4%nat)), andb_false_r by lia.
    by rewrite next_frame_prefix, failed_success.
  - destruct Hh as (Hr & Hs & ->).
    rewrite (bool_decide_eq_false_2 (length (r ++ got) = 4%nat)), andb_false_r by (rewrite length_app; lia).
    by rewrite (next_frame_cases r got Hr), size_in_range, decide_False, failed_success by lia.
Qed.

(** ** The simulation *)
Lemma resume_after_exec read b w e o :
  resume_after read b (exec e w) = Some o →
  exec_all [e] w = Some (r_world <$> o) ∧
  ∀ s', o = Ret s' → ∃ w', exec e w = Some (Ret w') ∧ resume read b w' = Some s'.
Proof.
  rewrite exec_all_single. unfold resume_after.
  destruct (exec e w) as [[w'| |]|] eqn:E; [|intros [= <-]; by split..|done].
  destruct (resume read b w') as [s'|] eqn:Er; [|done]. intros [= <-].
  assert (r_world s' = w') as Hw.
  { unfold resume, read_initiate in Er. destruct (receives w') as [|[|]], read; by simplify_eq. }
  split; [by rewrite <- Hw|]. intros s1 [= <-]. by exists w'.
Qed.

(** An event that ends a read. *)
Lemma received_step b r p ec m n w o :
  let e := ev_received ec m n in
  db_rel b r p → resume_after None b (exec e w) = Some o →
  exec_all [e] w = Some (r_world <$> o) ∧
  ∀ s', o = Ret s' → synced [] s' ∧ alive (r_world s') = alive w.
Proof.
  intros e Hb Ho. destruct (resume_after_exec _ _ _ _ _ Ho) as [He Hs]. split; [done|].
  intros s' ->. destruct (Hs _ eq_refl) as (w' & Hw & Hr). destruct (resume_synced _ _ _ _ _ Hb Hr) as [? ->].
  split; [done|]. rewrite (step_alive _ _ _ Hw). apply andb_true_r.
Qed.

Lemma arrived_received al partial e : arrived al partial = Some e → ∃ ec m n, e = ev_received ec m n.
Proof.
  unfold arrived. destruct (_ && _); [|destruct (next_frame success partial) as [ec|[f ?]]; [destruct (failed ec)|]];
    intros; simplify_eq; eauto.
Qed.

Lemma last_bytes_handled partial s n h got bs :
  synced partial s → r_read s = Some (n, h, got) → length (got ++ bs) = n →
  handled (partial ++ bs) (arrived (alive (r_world s)) (partial ++ bs))
    (run_handler h success (Z.of_nat n) (db_fill (got ++ bs) (r_buffer s)) (r_world s)) (r_world s).
Proof.
  unfold synced. intros Hs Hrd Hn. rewrite Hrd in Hs. destruct Hs as (Hone & Hlt & r & p & Hb & Hp & -> & Hh).
  pose proof (db_fill_rel (got ++ bs) _ _ _ Hb ltac:(lia)) as Hf. rewrite drop_ge, app_nil_r in Hf by lia.
  rewrite <- app_assoc. destruct h.
  - destruct Hh as [-> ->]. by apply length_check_handled.
  - destruct Hh as (Hr & Hsz & E). rewrite E in Hn. rewrite E, <- Hn. by apply read_message_handled.
Qed.

(** A step of the byte machine is its events at the client. *)
Lemma bytes_step x s o partial es partial' al :
  synced partial s → exec_bytes x s = Some o → package_step (alive (r_world s)) partial x = (es, partial', al) →
  exec_all es (r_world s) = Some (r_world <$> o) ∧ ∀ s', o = Ret s' → synced partial' s' ∧ alive (r_world s') = al.
Proof.
  intros Hs Ho Hx. pose proof Hs as Hs'. unfold synced in Hs'. destruct x as [e|bs|ec]; cbn [exec_bytes package_step] in *.
  - injection Hx as <- <- <-. destruct (is_received e) eqn:Er; [done|].
    destruct (resume_after_exec _ _ _ _ _ Ho) as [He Hr]. split; [done|]. intros s1 E.
    destruct (Hr s1 E) as (w' & Hw & Hres). pose proof (step_receives _ _ _ Hw Er) as Hle.
    destruct (resume_continues _ _ _ _ Hs Hle Hres) as [? ->]. split; [done|]. by apply step_alive in Hw.
  - destruct (r_read s) as [[[n h] got]|] eqn:Erd; [|done]. destruct Hs' as (Hone & Hlt & r & p & Hb & Hp & -> & Hh).
    cbn [mbind option_bind] in Ho. destruct (bool_decide (bs = [])) eqn:Ene; [done|].
    apply bool_decide_eq_false in Ene. assert (got ++ bs ≠ []) as Hne by (by destruct got).
    destruct (bool_decide (n < length (got ++ bs))%nat) eqn:En; [done|]. apply bool_decide_eq_false in En.
    cbn [orb] in Ho. destruct (bool_decide (length (got ++ bs) = n)) eqn:Ed.
    + apply bool_decide_eq_true in Ed. pose proof (last_bytes_handled _ _ _ _ _ bs Hs Erd Ed) as Hd. rewrite Ho in Hd.
      destruct (arrived _ _) as [e|] eqn:Ea; cbn [handled] in Hd; injection Hx as <- <- <-.
      * destruct (arrived_received _ _ _ Ea) as (ec & m & k & ->). destruct Hd as (b & r' & p' & Hb' & Heq).
        symmetry in Heq. by apply (received_step _ _ _ _ _ _ _ _ Hb' Heq).
      * destruct Hd as (s1 & [= ->] & Hs1 & Hw). simpl. rewrite Hw. split; [done|]. intros s2 [= <-]. by rewrite Hw.
    + apply bool_decide_eq_false in Ed. pose proof (db_fill_rel (got ++ bs) _ _ _ Hb ltac:(lia)) as Hf.
      rewrite <- app_assoc, (arrived_none _ _ _ n h) in Hx by (done || lia). injection Hx as <- <- <-.
      injection Ho as <-. split; [done|]. intros s1 [= <-].
      split; [|done]. unfold synced. cbn [r_read r_world r_buffer]. split_and!; [done|lia|].
      eexists r, _. split_and!; [exact Hf| |done|done]. rewrite length_app, length_drop. lia.
  - injection Hx as <- <- <-. destruct (r_read s) as [[[n h] got]|] eqn:Erd; [|done].
    cbn [mbind option_bind] in Ho. destruct (failed ec) eqn:Ef; [|done].
    destruct (read_error_handled h ec _ _ _ _ Hs Erd Ef) as (b & r' & p' & Hb' & Heq).
    rewrite Ho in Heq. symmetry in Heq. by apply (received_step _ _ _ _ _ _ _ _ Hb' Heq).
Qed.

Lemma bytes_run xs s partial o : synced partial s → exec_all_bytes xs s = Some o →
  exec_all (package_events (alive (r_world s)) partial xs) (r_world s) = Some (r_world <$> o).
Proof.
  revert s partial. induction xs as [|x xs IH]; intros s partial Hs Ho; [by injection Ho as <-|].
  cbn [exec_all_bytes package_events] in *. destruct (exec_bytes x s) as [o1|] eqn:E; [|done].
  destruct (package_step _ _ x) as [[es partial'] al] eqn:Ex.
  destruct (bytes_step _ _ _ _ _ _ _ Hs E Ex) as [He Hafter]. rewrite exec_all_app, He.
  destruct o1 as [s1| |]; [|by injection Ho as <-..]. simpl. destruct (Hafter s1 eq_refl) as [Hs1 <-]. by apply IH.
Qed.

(** ** The other direction: every cut of the bytes *)

(** What a read asks for when [partial] has come. *)
Definition wanted (partial : bytes) : nat :=
  if decide (length partial < 4)%nat then 4 - length partial
  else 4 + Z.to_nat (wrap_i32 (le_decode (take 4 partial))) - length partial.

Definition allowed (partial : bytes) (x : byte_event) : Prop :=
  match x with
  | on_event e => is_received e = false
  | on_bytes bs => bs ≠ [] ∧ (length bs ≤ wanted partial)%nat
  | on_read_error ec => failed ec = true
  end.

Fixpoint well_cut (al : bool) (partial : bytes) (xs : list byte_event) : Prop :=
  match xs with
  | [] => True
  | x :: xs => allowed partial x ∧ let '(_, partial, al) := package_step al partial x in well_cut al partial xs
  end.

Lemma wanted_synced partial s n h got :
  synced partial s → r_read s = Some (n, h, got) → wanted partial = (n - length got)%nat.
Proof.
  unfold synced, wanted. intros Hs Hrd. rewrite Hrd in Hs. destruct Hs as (_ & Hlt & r & p & _ & _ & -> & Hh).
  destruct h.
  - destruct Hh as [-> ->]. by rewrite decide_True.
  - destruct Hh as (Hr & Hs & ->). rewrite length_app, take_app_length' by done. rewrite decide_False by lia. lia.
Qed.

(** A read under way throughout. *)
Definition keeps_receiving (es : list event) (w : world) : Prop :=
  ∀ es' w', es' `prefix_of` es → exec_all es' w = Some (Ret w') → receives w' = 1%nat.

Lemma resume_after_some read b e es w o :
  exec_all (e :: es) w = Some o → keeps_receiving (e :: es) w → is_Some (resume_after read b (exec e w)).
Proof.
  intros Ho Hk. specialize (Hk [e]). rewrite exec_all_single in Hk. simpl in Ho. unfold resume_after.
  destruct (exec e w) as [[w'| |]|]; [|by eexists..|done].
  unfold resume. rewrite (Hk w') by (done || by exists es).
  destruct read; [by eexists|]. by eexists.
Qed.

Lemma handled_some partial e o w es out :
  handled partial (Some e) o w → exec_all (e :: es) w = Some out → keeps_receiving (e :: es) w → is_Some o.
Proof. intros (b & r & p & _ & ->). by apply resume_after_some. Qed.

Lemma bytes_accepted x s partial es partial' al es' o :
  synced partial s → allowed partial x → package_step (alive (r_world s)) partial x = (es, partial', al) →
  keeps_receiving (es ++ es') (r_world s) → exec_all (es ++ es') (r_world s) = Some o → is_Some (exec_bytes x s).
Proof.
  intros Hs Hx Hstep Hk Ho.
  pose proof (Hk [] _ (prefix_nil _) eq_refl) as Hone. pose proof Hs as Hs'. unfold synced in Hs'.
  destruct x as [e|bs|ec]; cbn [allowed package_step exec_bytes] in *.
  - injection Hstep as <- <- <-. rewrite Hx. by eapply resume_after_some.
  - destruct Hx as (Hne & Hlen). destruct (r_read s) as [[[n h] got]|] eqn:Erd;
      [|destruct Hs' as (_ & Hz & _); lia].
    rewrite (wanted_synced _ _ _ _ _ Hs Erd) in Hlen. destruct Hs' as (_ & Hlt & _). cbn [mbind option_bind].
    rewrite (bool_decide_eq_false_2 (bs = [])), (bool_decide_eq_false_2 (n < _)%nat) by (done || rewrite length_app; lia).
    cbn [orb]. destruct (bool_decide _) eqn:Ed; [|by eexists]. apply bool_decide_eq_true in Ed.
    pose proof (last_bytes_handled _ _ _ _ _ bs Hs Erd Ed) as Hd.
    destruct (arrived _ _) as [e|]; injection Hstep as <- <- <-; [by eapply handled_some|].
    destruct Hd as (s1 & -> & _). by eexists.
  - injection Hstep as <- <- <-. destruct (r_read s) as [[[n h] got]|] eqn:Erd; [|destruct Hs' as (_ & Hz & _); lia].
    cbn [mbind option_bind]. rewrite Hx. eapply handled_some; [by eapply read_error_handled|done|done].
Qed.

Lemma bytes_progress xs s partial o :
  synced partial s → well_cut (alive (r_world s)) partial xs →
  let es := package_events (alive (r_world s)) partial xs in
  keeps_receiving es (r_world s) → exec_all es (r_world s) = Some o → is_Some (exec_all_bytes xs s).
Proof.
  revert s partial. induction xs as [|x xs IH]; intros s partial Hs Hcut es Hk Ho; [by eexists|]. subst es.
  cbn [well_cut package_events exec_all_bytes] in *. destruct Hcut as [Hx Hcut].
  destruct (package_step _ _ x) as [[es partial'] al] eqn:Ex.
  destruct (bytes_accepted _ _ _ _ _ _ _ _ Hs Hx Ex Hk Ho) as [o1 E]. rewrite E.
  destruct (bytes_step _ _ _ _ _ _ _ Hs E Ex) as [He Hafter].
  destruct o1 as [s1| |]; [|by eexists..]. destruct (Hafter s1 eq_refl) as [Hs1 <-].
  rewrite exec_all_app, He in Ho. eapply IH; [done|done| |done].
  intros es' w' [es2 Hp] Hr. apply (Hk (es ++ es')); [exists es2; by rewrite Hp, app_assoc|].
  by rewrite exec_all_app, He.
Qed.

(** ** Frames, however they are cut *)
Lemma next_frame_whole f : frame_ok f → next_frame success f = inr (f, []).
Proof.
  intros [[Hmin Hmax] Hpre]. rewrite <- (take_drop 4 f) at 1.
  rewrite next_frame_cases by (rewrite length_take; lia). cbv zeta.
  rewrite Hpre, frame_prefix_value, <- Hpre by lia. rewrite size_in_range by lia. rewrite decide_True by (rewrite length_drop; lia).
  rewrite (take_ge (drop 4 f)), (drop_ge (drop 4 f)), take_drop by (rewrite length_drop; lia). done.
Qed.

Lemma frame_part p rest : frame_ok (p ++ rest) → rest ≠ [] →
  next_frame success p = inl success ∧ (wanted p ≤ length rest)%nat.
Proof.
  intros [[Hmin Hmax] Hpre] Hne. rewrite length_app in *.
  assert (0 < length rest)%nat by (destruct rest; [done|simpl; lia]). unfold wanted.
  destruct (decide (length p < 4)%nat); [split; [by apply next_frame_prefix|lia]|].
  rewrite take_app_le in Hpre by lia. rewrite Hpre, frame_prefix_value by lia. split; [|lia].
  rewrite <- (take_drop 4 p), next_frame_cases by (rewrite length_take; lia). cbv zeta.
  rewrite Hpre, frame_prefix_value by lia. rewrite size_in_range by lia. by rewrite decide_False by (rewrite length_drop; lia).
Qed.

Definition bytes_of (xs : list byte_event) : bytes :=
  concat ((λ x, match x with on_bytes bs => bs | _ => [] end) <$> xs).

Definition no_error (x : byte_event) : Prop :=
  match x with on_event e => is_release e = false | on_bytes _ => True | on_read_error _ => False end.

(** [part partial fs]: [partial] is the start of the first of the frames [fs]. *)
Definition part (partial : bytes) (fs : list bytes) : Prop :=
  partial = [] ∨ ∃ f fs' rest, fs = f :: fs' ∧ f = partial ++ rest ∧ rest ≠ [].

Lemma part_more partial fs bs l : Forall frame_ok fs → part partial fs → partial ++ bs ++ l = concat fs → bs ≠ [] →
  ∃ f fs' rest, fs = f :: fs' ∧ f = partial ++ rest ∧ rest ≠ [] ∧ bs ++ l = rest ++ concat fs'.
Proof.
  intros Hfs [->|(f & fs' & rest & -> & -> & Hne)] E Hbs.
  - destruct fs as [|f fs']; simpl in E; [by apply app_nil in E as [-> _]|].
    apply Forall_cons in Hfs as [[[Hmin _] _] _]. exists f, fs', f. split_and!; [done|done| |done].
    intros ->. simpl in Hmin. lia.
  - exists (partial ++ rest), fs', rest. split_and!; [done..|]. simpl in E. rewrite <- app_assoc in E.
    by apply app_inv_head in E.
Qed.

Lemma frames_cut xs partial fs :
  Forall frame_ok fs → Forall no_error xs → well_cut true partial xs → part partial fs →
  partial ++ bytes_of xs = concat fs →
  filter (λ e, is_received e = true) (package_events true partial xs) =
    (λ f, ev_received success f (Z.of_nat (length f))) <$> fs.
Proof.
  revert partial fs. induction xs as [|x xs IH]; intros partial fs Hfs Hxs Hcut Hp Hb.
  - unfold bytes_of in Hb. simpl in *. rewrite app_nil_r in Hb. destruct fs as [|f fs]; [done|].
    apply Forall_cons in Hfs as [[[Hmin _] _] _]. apply (f_equal length) in Hb. simpl in Hb. rewrite length_app in Hb.
    destruct Hp as [->|(? & ? & rest & [= <- <-] & -> & Hne)]; [simpl in Hb; lia|].
    rewrite length_app in Hb. destruct rest; [done|simpl in Hb; lia].
  - apply Forall_cons in Hxs as [Hx Hxs]. cbn [well_cut package_events] in *. destruct Hcut as [Hal Hcut].
    destruct x as [e|bs|ec]; [| |done]; cbn [no_error allowed package_step] in *.
    + rewrite Hx in *. simpl app. rewrite filter_cons_False by (by rewrite Hal). by apply IH.
    + destruct Hal as [Hne Hlen]. change (bytes_of (on_bytes bs :: xs)) with (bs ++ bytes_of xs) in Hb.
      destruct (part_more partial fs bs (bytes_of xs) Hfs Hp Hb Hne) as (f & fs' & rest & -> & -> & Hrest & E).
      apply Forall_cons in Hfs as [Hf Hfs']. destruct (frame_part _ _ Hf Hrest) as [_ Hw].
      assert (rest = bs ++ drop (length bs) rest) as Er.
      { rewrite <- (take_drop (length bs) rest) at 1. f_equal. apply (f_equal (take (length bs))) in E.
        by rewrite take_app_length, take_app_le in E by lia. }
      rewrite Er in E. rewrite <- app_assoc in E. apply app_inv_head in E.
      unfold arrived in *. cbn [negb andb] in *. destruct (drop (length bs) rest) as [|y l] eqn:Ed.
      * rewrite app_nil_r in Er. subst rest. rewrite (next_frame_whole _ Hf) in *. simpl app.
        rewrite filter_cons_True by done. rewrite fmap_cons. f_equal. apply IH; [done..|by left|done].
      * rewrite Er, app_assoc in Hf. destruct (frame_part _ _ Hf ltac:(done)) as [Hn _]. rewrite Hn in *.
        rewrite failed_success in *. simpl app in *. rewrite Er, app_assoc. apply IH; try done.
        -- by constructor.
        -- right. eexists _, fs', (y :: l). done.
        -- rewrite E. cbn [concat]. by rewrite <- !app_assoc.
Qed.
End simulation.

(** Deciding that a read is under way throughout. *)
Section check.
Context {AL : Allocator} {PB : Protobuf} {AE : AsioErrors} {GS : GuidSource}.

Fixpoint receiving_throughout (es : list event) (w : world) : bool :=
  (receives w =? 1)%nat &&
  match es with
  | [] => true
  | e :: es => match exec e w with Some (Ret w') => receiving_throughout es w' | _ => true end
  end.

Lemma receiving_throughout_ok es w : receiving_throughout es w = true → keeps_receiving es w.
Proof.
  revert w. induction es as [|e es IH]; intros w Hr es' w' [es2 Hp] He; simpl in Hr; apply andb_true_iff in Hr as [H1 Hr].
  - symmetry in Hp. apply app_nil in Hp as [-> ->]. injection He as <-. by apply Nat.eqb_eq.
  - destruct es' as [|e' es']; [injection He as <-; by apply Nat.eqb_eq|]. injection Hp as <- ->. simpl in He.
    destruct (exec e w) as [[w1| |]|]; [|done..]. apply (IH w1 Hr es'); [by exists es2|done].
Qed.
End check.

(** C15: The client over bytes refines the client over packages.  Whatever the
    buffer, for every list of events in which the socket gives its bytes in
    any pieces: what the byte machine does, exceptions and undefined behaviour
    included, the client does on the packages those bytes amount to (also when
    the connection is gone: the handler of the length prefix then does nothing,
    that of the message uses the buffer of the destroyed connection, which is
    undefined behaviour in both machines); when the pieces are such as the
    reads ask for and one read is always under way, the byte machine does all
    the client does, so no cut loses, delays or invents a package; and when the
    bytes are those of a sequence of frames, between any other events, the
    packages are these frames, in order. *)
Theorem bytes_refine_packages {B : Type} `{DynamicBufferLaws B}
    {AL : Allocator} {PB : Protobuf} {AE : AsioErrors} {GS : GuidSource} (b : B) r p w0 s0 xs
    (Hb : db_rel b r p) (Hstart : resume None b w0 = Some s0) :
  let es := package_events (alive w0) [] xs in
  (∀ o, exec_all_bytes xs s0 = Some o → exec_all es w0 = Some (r_world <$> o)) ∧
  (well_cut (alive w0) [] xs → keeps_receiving es w0 →
    ∀ o, exec_all es w0 = Some o → ∃ o', exec_all_bytes xs s0 = Some o' ∧ o = r_world <$> o') ∧
  (∀ fs, alive w0 = true → Forall frame_ok fs → Forall no_error xs → well_cut true [] xs →
    bytes_of xs = concat fs →
    filter (λ e, is_received e = true) es = (λ f, ev_received success f (Z.of_nat (length f))) <$> fs).
Proof.
  intros es. destruct (resume_synced b w0 s0 r p Hb Hstart) as [Hs <-]. subst es. split_and!.
  - intros o. by apply bytes_run.
  - intros Hcut Hk o Ho. destruct (bytes_progress xs s0 [] o Hs Hcut Hk Ho) as [o' Ho']. exists o'. split; [done|].
    pose proof (bytes_run xs s0 [] o' Hs Ho') as E. rewrite Ho in E. by injection E.
  - intros fs -> Hfs Hxs Hcut E. apply frames_cut; [done..|by left|done].
Qed.

Lemma bytes_refine_packages_witness :
  let f := plain_frame Command.write_events_completed flags_none (scenario_guid 2) [x00] in
  let w0 := sample_connected in
  let s0 := mk_receiver w0 (mk_vector_buffer (replicate 4 x00) 0) (Some (4%nat, length_check_handler, [])) in
  let xs := [on_event (ev_api (api_append "stream" [] 0 7)); on_bytes (take 3 f); on_event ev_job;
    on_bytes (take 1 (drop 3 f)); on_event ev_job; on_bytes (drop 4 f)] in
  let es := package_events (alive w0) [] xs in
  ∃ o o', exec_all (AL := zero_allocator) (PB := sample_protobuf) (AE := linux_asio_errors) (GS := counting_guids) es w0 =
      Some o ∧
    exec_all_bytes (AL := zero_allocator) (PB := sample_protobuf) (AE := linux_asio_errors) (GS := counting_guids) xs s0 =
      Some o' ∧ o = r_world <$> o' ∧
    filter (λ e, is_received e = true) es = [ev_received success f 23].
Proof.
  intros f w0 s0 xs es.
  assert (frame_ok f) as Hf by (apply plain_frame_ok; [reflexivity|vm_compute; discriminate]).
  assert (well_cut true [] xs) as Hcut by (vm_compute; repeat split; (discriminate || lia)).
  assert (db_rel (mk_vector_buffer [] 0) [] []) as Hb by (split; reflexivity).
  destruct (bytes_refine_packages (AL := zero_allocator) (PB := sample_protobuf) (AE := linux_asio_errors)
    (GS := counting_guids) (mk_vector_buffer [] 0) [] [] w0 s0 xs Hb ltac:(vm_compute; reflexivity))
    as (_ & Hall & Hframes).
  destruct (Hall Hcut) with (o := Ret (after (AL := zero_allocator) (PB := sample_protobuf) (AE := linux_asio_errors)
    (GS := counting_guids) es w0)) as (o' & Ho' & E).
  - apply receiving_throughout_ok. vm_compute. reflexivity.
  - vm_compute. reflexivity.
  - eexists _, o'. split; [|split; [exact Ho'|split; [exact E|]]]; [vm_compute; reflexivity|].
    apply (Hframes [f]); [reflexivity|exact (Forall_cons_2 _ _ _ Hf (Forall_nil_2 _))|vm_compute; repeat constructor|
      exact Hcut|vm_compute; reflexivity].
Defined.

(** The connection is released while the message of a package is being read:
    the handler of that read, which is then cancelled, consumes from the buffer
    of the destroyed connection. While the prefix is being read nothing happens. *)
Example message_read_outlives_connection :
  let f := plain_frame Command.write_events_completed flags_none (scenario_guid 2) [x00] in
  let s0 := mk_receiver sample_connected (mk_vector_buffer (replicate 4 x00) 0) (Some (4%nat, length_check_handler, [])) in
  let released n := exec_all_bytes (AL := zero_allocator) (PB := sample_protobuf) (AE := linux_asio_errors)
    (GS := counting_guids)
    [on_bytes (take n f); on_event ev_release; on_read_error (operation_aborted (AsioErrors := linux_asio_errors))] s0 in
  released 4%nat = Some (Undef dangling_reference) ∧
  match released 3%nat with Some (Ret s) => r_read s = None | _ => False end.
Proof. vm_compute. by split. Qed.

Section conversations.
Context {AL : Allocator} {PB : Protobuf} {AE : AsioErrors} {GS : GuidSource}.

Lemma run_exec_all es w w' : run step w es w' → exec_all es w = Some (Ret w').
Proof. induction 1 as [|w e w1 tr w2 Hs _ IH]; [done|]. simpl. by rewrite Hs. Qed.

(** The start of a conversation is one. *)
Lemma conversation_start w0 l items sent g n open queue done :
  conversation w0 (items ++ l) sent g n open queue done →
  ∃ sent' g' n' open' queue' done', conversation w0 items sent' g' n' open' queue' done' ∧ (g' ≤ g)%nat.
Proof.
  revert sent g n open queue done. induction l as [|x l IH] using rev_ind; intros sent g n open queue done Hc.
  - rewrite app_nil_r in Hc. by eexists _, _, _, _, _, _.
  - rewrite app_assoc in Hc. remember ((items ++ l) ++ [x]) as l' eqn:E.
    destruct Hc; [by destruct (items ++ l)|apply app_inj_tail in E as [-> _]..];
      edestruct IH as (sent' & g' & n' & open' & queue' & done' & Hc' & Hlen); try done;
      exists sent', g', n', open', queue', done'; (split; [done|]); lia.
Qed.
End conversations.

(** C16: The answers over bytes.  In a conversation of requests in flight
    together (Conversation.v), in which the server's packages come as
    bytes, in any pieces between the other events: the handlers are called as
    in the conversation, and no step of the byte machine fails. *)
Theorem answers_over_bytes {B : Type} `{DynamicBufferLaws B}
    {AL : Allocator} {PB : Protobuf} {AE : AsioErrors} {GS : GuidSource} (b : B) r p
    w0 s0 xs items sent g n open queue done w
    (Hb : db_rel b r p) (Hstart : resume None b w0 = Some s0)
    (Halive : alive w0 = true) (Hpending : pending w0 = [async_receive]) (Hops : operations_map_ w0 = ∅)
    (Hposted : Forall inert (posted w0)) (Hwrite : one_write w0) (Hcredentials : credentials_fit w0)
    (Htalk : conversation w0 items sent g n open queue done)
    (Hguids : ∀ i j, (i < j < g)%nat → fresh_guid (guids w0 + i) ≠ fresh_guid (guids w0 + j))
    (Hrun : run step w0 (item_event w0 <$> items) w)
    (Hxs : package_events true [] xs = item_event w0 <$> items) (Hcut : well_cut true [] xs) :
  ∃ s, exec_all_bytes xs s0 = Some (Ret s) ∧ r_world s = w ∧ calls (r_world s) = calls w0 ++ done.
Proof.
  pose proof (speaking_run w0 Hcredentials (speaking_start w0 Halive Hpending Hops Hposted Hwrite)) as Hspeak.
  destruct (resume_synced b w0 s0 r p Hb Hstart) as [Hsync E].
  pose proof (bytes_progress xs s0 [] (Ret w) Hsync) as Hsome. pose proof (bytes_run xs s0 []) as Hbytes.
  rewrite E, Halive, Hxs in Hsome, Hbytes. pose proof (run_exec_all _ _ _ Hrun) as Hexec.
  destruct Hsome as [o Ho]; [done| |done|].
  - intros es' w' [es2 Hp] He. apply fmap_app_inv in Hp as (items' & l & -> & _ & Hitems).
    rewrite Hitems in Htalk. destruct (conversation_start _ _ _ _ _ _ _ _ _ Htalk) as (sent1 & g1 & n1 & o1 & q1 & d1 & Hc & Hlen).
    assert (pending w' = [async_receive]) as Hpw; [|by unfold receives; rewrite Hpw].
    eapply k_pending, Hspeak; [exact Hc|intros; apply Hguids; lia|by apply exec_all_run].
  - specialize (Hbytes o Hsync Ho). rewrite Hexec in Hbytes. destruct o as [s| |]; [|done..]. injection Hbytes as Hw. exists s.
    split_and!; [done|done|]. rewrite <- Hw. eapply k_calls, Hspeak; [exact Htalk|intros; apply Hguids; lia|done].
Qed.

(** Two requests; the two answers come in one stream of bytes cut in five
    pieces, with the jobs of the client in between. *)
Lemma answers_over_bytes_witness :
  let w0 := sample_connected in
  let s0 := mk_receiver w0 (mk_vector_buffer (replicate 4 x00) 0) (Some (4%nat, length_check_handler, [])) in
  let first := plain_frame Command.read_event_completed flags_none (scenario_guid 3) [x01] in
  let second := plain_frame Command.write_events_completed flags_none (scenario_guid 2) [x00] in
  let xs := [on_event (ev_api (api_append "stream" [] 0 7)); on_event (ev_api (api_read_event "stream" 0 false 8));
    on_bytes (take 4 first); on_event ev_job; on_bytes (take 10 (drop 4 first)); on_bytes (drop 14 first);
    on_event ev_job; on_bytes (take 4 second); on_event ev_job; on_bytes (drop 4 second)] in
  ∃ s, exec_all_bytes (AL := zero_allocator) (PB := sample_protobuf) (AE := linux_asio_errors) (GS := counting_guids)
      xs s0 = Some (Ret s) ∧
    calls (r_world s) = calls sample_connected ++
      [(8%nat, cb_event_read (success, Some (mk_event_read_result read_not_found "stream" 0 None)));
       (7%nat, cb_write (success, Some (mk_write_result 4 (mk_position 10 20))))].
Proof.
  intros w0 s0 first second xs.
  set (items := [ask (api_append "stream" [] 0 7); ask (api_read_event "stream" 0 false 8); work;
    reply 1 Command.read_event_completed [x01]; work; work; reply 0 Command.write_events_completed [x00]]).
  pose proof (talk_nothing (PB := sample_protobuf) (GS := counting_guids) w0) as T0.
  replace (replicate (length (posted w0)) None) with [None : option nat] in T0 by (vm_compute; reflexivity).
  pose proof (talk_ask _ _ _ _ _ _ _ _ (api_append "stream" [] 0 7) _ _ _ T0 eq_refl eq_refl) as T1.
  pose proof (talk_ask _ _ _ _ _ _ _ _ (api_read_event "stream" 0 false 8) _ _ _ T1 eq_refl eq_refl) as T2.
  pose proof (talk_reply _ _ _ _ _ _ _ _ 1 Command.read_event_completed [x01] _ _ _ (talk_work _ _ _ _ _ _ _ _ T2)
    eq_refl eq_refl ltac:(apply (bool_decide_unpack _); exact I) (sample_read_answered _)) as T4.
  pose proof (talk_reply _ _ _ _ _ _ _ _ 0 Command.write_events_completed [x00] _ _ _
    (talk_work _ _ _ _ _ _ _ _ (talk_work _ _ _ _ _ _ _ _ T4))
    eq_refl eq_refl ltac:(apply (bool_decide_unpack _); exact I) (sample_write_answered 7 _)) as T7.
  assert (one_write w0) as Hwrite.
  { eapply run_ok; [unfold w0, sample_connected; apply after_run; vm_compute; reflexivity|by left]. }
  assert (∀ i j, (i < j < 2)%nat → fresh_guid (GuidSource := counting_guids) (guids w0 + i) ≠
    fresh_guid (GuidSource := counting_guids) (guids w0 + j)) as Hguids.
  { replace (guids w0) with 2%nat by (vm_compute; reflexivity). intros i j Hij E%counting_guids_inj; lia. }
  assert (well_cut true [] xs) as Hcut by (vm_compute; repeat split; (discriminate || lia)).
  assert (db_rel (mk_vector_buffer [] 0) [] []) as Hb by (split; reflexivity).
  destruct (answers_over_bytes (AL := zero_allocator) (PB := sample_protobuf) (AE := linux_asio_errors)
    (GS := counting_guids) (mk_vector_buffer [] 0) [] [] w0 s0 xs items _ _ _ _ _ _
    (after (AL := zero_allocator) (PB := sample_protobuf) (AE := linux_asio_errors) (GS := counting_guids)
      (item_event (GS := counting_guids) w0 <$> items) w0) Hb ltac:(vm_compute; reflexivity) eq_refl eq_refl
    ltac:(vm_compute; reflexivity) ltac:(vm_compute; by repeat constructor) Hwrite ltac:(split; vm_compute; lia) T7
    Hguids ltac:(apply after_run; vm_compute; reflexivity) ltac:(vm_compute; reflexivity) Hcut) as (s & Hs & _ & Hc).
  exists s. split; [exact Hs|exact Hc].
Defined.
