(* ===== verification/ConnectChain.v ===== *)
(** The connect chain as a whole, from the user's async_connect to the call of
    its handler: what the client sends, what it answers to what the server
    sends, and what the handler is told, for each course the connection can
    take. *)
From S2P Require Import Prelude Errors Basics TcpPackage Messages Events Settings OperationsMap World.
From S2P Require Import Connection ConnectOps Client Sending Steps.

(** ** The courses *)
Inductive course : Type :=
| no_endpoint (ec : error_code) (e : endpoint)          (* the discovery fails *)
| not_connected (e : endpoint) (ec : error_code)        (* the socket does not connect *)
| anonymous (e : endpoint) (cmd : tcp_command) (body : bytes)
    (* without credentials: the answer to the identification *)
| unrecognised (e : endpoint) (cmd : tcp_command) (body : bytes)
    (* with credentials: an answer that is none to an authentication *)
| logged_in (e : endpoint) (accepted : bool) (body : bytes) (cmd : tcp_command) (body' : bytes).
    (* with credentials: the answers to the authentication and to the
       identification *)

Section chain.
Context {AL : Allocator} {PB : Protobuf} {AE : AsioErrors} {GS : GuidSource}.

Definition answer (cmd : tcp_command) (n : nat) (body : bytes) : event := arrival cmd (fresh_guid n) body.

Definition authentication_answer (accepted : bool) : tcp_command :=
  if accepted then Command.authenticated else Command.not_authenticated.

Definition course_events (cb : nat) (c : course) : list event :=
  ev_api (api_connect cb) ::
  match c with
  | no_endpoint ec e => [ev_discovered ec e]
  | not_connected e ec => [ev_discovered success e; ev_connected ec]
  | anonymous e cmd body => [ev_discovered success e; ev_connected success; answer cmd 0 body]
  | unrecognised e cmd body => [ev_discovered success e; ev_connected success; answer cmd 0 body]
  | logged_in e accepted body cmd body' =>
      [ev_discovered success e; ev_connected success; answer (authentication_answer accepted) 0 body;
       answer cmd 2 body']
  end.

(** What the handler is told, if it is called. *)
Definition identified (cmd : tcp_command) (accepted : bool) (n : nat) : option (error_code * option connection_result) :=
  if bool_decide (cmd = Command.client_identified)
  then Some (if accepted then success else make_error_code authentication_failed,
             Some (mk_connection_result (fresh_guid n)))
  else None.

Definition course_result (c : course) : option (error_code * option connection_result) :=
  match c with
  | no_endpoint _ _ => Some (make_error_code endpoint_discovery, None)
  | not_connected _ ec => Some (ec, None)
  | anonymous _ cmd _ => identified cmd false 0
  | unrecognised _ _ _ => None
  | logged_in _ accepted _ cmd _ => identified cmd accepted 2
  end.

(** The commands of the packages handed to the write chain. *)
Definition course_commands (c : course) : list tcp_command :=
  match c with
  | no_endpoint _ _ | not_connected _ _ => []
  | anonymous _ _ _ => [Command.identify_client; Command.heartbeat_request_command]
  | unrecognised _ _ _ => [Command.authenticate; Command.heartbeat_request_command]
  | logged_in _ _ _ _ _ =>
      [Command.authenticate; Command.heartbeat_request_command; Command.identify_client]
  end.
Definition is_connected (c : course) : bool :=
  match c with no_endpoint _ _ | not_connected _ _ => false | _ => true end.

Definition package_command (p : tcp_package) : option tcp_command :=
  match to_view p ≫= command with Ret c => Some c | _ => None end.
Definition commands_sent (w : world) : list tcp_command := omap package_command (outbox w).

(** The errors are errors, credentials are there where the course has an
    authentication, and the frames fit their length prefix. *)
Definition course_ok (settings : connection_settings) (c : course) : Prop :=
  match c with
  | no_endpoint ec _ => failed ec = true
  | not_connected _ ec => failed ec = true ∧ ec ≠ make_error_code authentication_failed
  | anonymous _ _ body =>
      credentials_null (default_user_credentials_ settings) = true ∧ fits32 (length body)
  | unrecognised _ cmd body =>
      credentials_null (default_user_credentials_ settings) = false ∧ fits32 (length body) ∧
      cmd ≠ Command.authenticated ∧ cmd ≠ Command.not_authenticated
  | logged_in _ _ body _ body' =>
      credentials_null (default_user_credentials_ settings) = false ∧ fits32 (length body) ∧
      fits32 (length body') ∧ fresh_guid 2 ≠ fresh_guid 0
  end.

(** ** The state between two steps of the chain *)
Section states.
Context (w0 : world) (cb : nat).

Record stage (ops : operations_map operation_closure) (n : nat) (cmds : list tcp_command)
    (received : nat) (w : world) : Prop := {
  s_alive : alive w = true;
  s_open : socket_open w = true;
  s_settings : settings_ w = settings_ w0;
  s_name : connection_name_ w = connection_name_ w0;
  s_ops : operations_map_ w = ops;
  s_subs : subscriptions_map_ w = ∅;
  s_guids : guids w = n;
  s_calls : calls w = [];
  s_commands : commands_sent w = cmds;
  s_posted : Forall inert (posted w);
  s_number : package_no_ w = wrap_u32 (Z.of_nat received)
}.

Lemma commands_sent_package p v cmd w w' :
  to_view p = Ret v → command v = Ret cmd →
  wire w' = wire w → message_queue_ w' = message_queue_ w → posted w' = posted w ++ [send_package p] →
  commands_sent w' = commands_sent w ++ [cmd].
Proof.
  intros Hv Hc Hw Hq Hp. unfold commands_sent, outbox. rewrite Hw, Hq, Hp, sends_app, !app_assoc, (omap_app _ _ (sends _)).
  f_equal. simpl. unfold package_command. by rewrite Hv; simpl; rewrite Hc.
Qed.

(** What starting a request of the chain adds: a timer, [t], with the wait [x],
    and the job that sends the package; for several of them, in their order. *)
Definition adds (t : nat) (xs : list waiter) (w w' : world) : Prop :=
  t = length (timers w) ∧
  (∃ ts, timers w' = timers w ++ ts ∧ waiting <$> ts = Some <$> xs) ∧
  (∃ ps, posted w' = posted w ++ (send_package <$> ps) ∧ length ps = length xs) ∧
  message_queue_ w' = message_queue_ w ∧ writes w' = writes w.

Lemma adds_one w w' d x p :
  timers w' = timers w ++ [mk_timer d (Some x)] → posted w' = posted w ++ [send_package p] →
  message_queue_ w' = message_queue_ w → writes w' = writes w → adds (length (timers w)) [x] w w'.
Proof. intros Ht Hp Hq Hw. split_and!; [done|by eexists|by exists [p]|done..]. Qed.

Lemma adds_app t t' xs ys w w1 w2 : adds t xs w w1 → adds t' ys w1 w2 → adds t (xs ++ ys) w w2.
Proof.
  intros (-> & (ts & Ht & Hx) & (ps & Hp & Hl) & Hq & Hw) (_ & (ts' & Ht' & Hx') & (ps' & Hp' & Hl') & Hq' & Hw').
  split_and!; [done| | |congruence..].
  - exists (ts ++ ts'). by rewrite Ht', Ht, <- app_assoc, !fmap_app, Hx, Hx'.
  - exists (ps ++ ps'). by rewrite Hp', Hp, <- app_assoc, fmap_app, !length_app, Hl, Hl'.
Qed.

Definition identification_wait (n : nat) (retries : Z) (b : bool) (x : waiter) : Prop :=
  ∃ info, identity_correlation_id info = fresh_guid n ∧ x = wait_identify info retries None b.
Definition authentication_wait (n : nat) (x : waiter) : Prop :=
  ∃ info, authentication_correlation_id info = fresh_guid n ∧ x = wait_authenticate info.

(** The wait after a heartbeat request, [r] packages having been received. *)
Definition heartbeat_wait (r : nat) (x : waiter) : Prop :=
  ∃ info, x = wait_heartbeat info ∧ wrap_u32 (last_package_no info) = wrap_u32 (Z.of_nat r) ∧
    is_interval_stage info = false.

Lemma insert_new (ts : list timer) x y : <[length ts := x]> (ts ++ [y]) = ts ++ [x].
Proof. rewrite <- (Nat.add_0_r (length ts)). by rewrite insert_app_r. Qed.

Lemma sizes_kept w : settings_ w = settings_ w0 → connection_name_ w = connection_name_ w0 →
  identify_sizes w0 → identify_sizes w.
Proof. intros Hs Hn []. constructor; by rewrite ?Hs, ?Hn. Qed.

Lemma identify_op_run h b w : alive w = true → identify_sizes w →
  ∃ p v, to_view p = Ret v ∧ command v = Ret Command.identify_client ∧
    run_prog (identify_op h b) w = Ret (tt,
      set_timers (timers w ++ [mk_timer (operation_timeout_ (settings_ w))
          (Some (wait_identify (mk_identity_info (fresh_guid (guids w)) (elapsed w)) 0 None b))])
        (set_operations_map (register_op (fresh_guid (guids w))
            (op_identification h (length (timers w)) b (fresh_guid (guids w))) (operations_map_ w))
          (set_posted (posted w ++ [send_package p]) (set_guids (S (guids w)) w)))).
Proof.
  intros Ha Hz. set (w1 := set_guids (S (guids w)) (set_timers (timers w ++ [mk_timer 0 None]) w)).
  destruct (identify_initiate_run (length (timers w)) (mk_identity_info (fresh_guid (guids w)) (elapsed w)) 0 h b 0 w1)
    as (p & v & Hv & Hcmd & _ & Hr); [done|by simpl; rewrite list_lookup_middle|by destruct Hz|apply fresh_guid_wf|].
  simpl in Hr. rewrite insert_new in Hr. exists p, v. split_and!; [done..|].
  unfold identify_op. run_prog_steps. exact Hr.
Qed.

Lemma stage_identify ops n cmds r h b w :
  identify_sizes w0 → stage ops n cmds r w →
  ∃ t w1, run_prog (identify_op h b) w = Ret (tt, w1) ∧ pending w1 = pending w ∧
    (∃ x, identification_wait n 0 b x ∧ adds t [x] w w1) ∧
    stage (register_op (fresh_guid n) (op_identification h t b (fresh_guid n)) ops) (S n)
      (cmds ++ [Command.identify_client]) r w1.
Proof.
  intros Hz []. destruct (identify_op_run h b w) as (p & v & Hv & Hcmd & Hr); [done|by apply sizes_kept|].
  eexists _, _. split; [exact Hr|]. split; [done|]. split.
  { eexists. split; [eexists (mk_identity_info _ (elapsed w)); split; [|reflexivity]; by subst|].
    by eapply (adds_one _ _ _ _ p). }
  constructor; simpl; try done; [by subst|by f_equal| |by apply Forall_app_2; [|repeat constructor]].
  subst cmds. by eapply commands_sent_package.
Qed.

Lemma stage_authenticate ops n cmds r w :
  identify_sizes w0 → stage ops n cmds r w →
  ∃ t w1, run_prog (authenticate_op cb) w = Ret (tt, w1) ∧ pending w1 = pending w ∧
    (∃ x, authentication_wait n x ∧ adds t [x] w w1) ∧
    stage (register_op (fresh_guid n) (op_authentication (Some cb) t) ops) (S n)
      (cmds ++ [Command.authenticate]) r w1.
Proof.
  intros [Hu Hp _] []. destruct (auth_package_reads Command.authenticate (fresh_guid (guids w))
    (username (default_user_credentials_ (settings_ w0))) (password (default_user_credentials_ (settings_ w0))) [])
    as (p & v & Hpkg & Hv & Hr); [apply fresh_guid_wf|done|done|done|].
  eexists (length (timers w)), _. split.
  { unfold authenticate_op, async_send. run_prog_steps. rewrite s_alive0. run_prog_steps. rewrite s_settings0, Hpkg.
    run_prog_steps. unfold abort_wait.
    cbn [timers set_operations_map set_timers set_posted set_guids]. rewrite list_lookup_middle by done.
    run_simpl. rewrite arm_new_timer. reflexivity. }
  split; [done|]. split.
  { eexists. split; [eexists (mk_authentication_info _ (elapsed w)); split; [|reflexivity]; by subst|].
    by eapply (adds_one _ _ _ _ p). }
  constructor; simpl; try done; [by subst|by f_equal| |by apply Forall_app_2; [|repeat constructor]].
  subst cmds. eapply commands_sent_package; [done|apply Hr|done..].
Qed.

Lemma stage_heartbeat ops n cmds r w :
  stage ops n cmds r w →
  ∃ w1, run_prog heartbeat_op w = Ret (tt, w1) ∧ pending w1 = pending w ∧
    (∃ h, heartbeat_wait r h ∧ adds (length (timers w)) [h] w w1) ∧
    stage ops (S n) (cmds ++ [Command.heartbeat_request_command]) r w1.
Proof.
  intros []. destruct (heartbeat_initiate_quiet (length (timers w))
    (mk_heartbeat_info (wrap_i32 (package_no_ w)) (elapsed w) true) 0 (set_timers (timers w ++ [mk_timer 0 None]) w))
    as (p & v & Hv & Hr & Hrun); [done|done|by simpl; rewrite list_lookup_middle| |done|].
  { simpl. by rewrite s_number0, wrap_u32_i32, wrap_u32_idemp. }
  eexists. split; [unfold heartbeat_op; run_prog_steps; exact Hrun|]. split; [done|]. split.
  { exists (wait_heartbeat (mk_heartbeat_info (wrap_i32 (package_no_ w)) (elapsed w) false)). split.
    { eexists. split_and!; [reflexivity| |done]. simpl. by rewrite s_number0, wrap_u32_i32, wrap_u32_idemp. }
    eapply (adds_one _ _ _ _ p); [simpl; by rewrite insert_new|done..]. }
  constructor; simpl; try done; [by f_equal| |by apply Forall_app_2; [|repeat constructor]].
  subst cmds. eapply commands_sent_package; [done|apply Hr|done..].
Qed.

Lemma stage_pending ops n cmds r l w : stage ops n cmds r w → stage ops n cmds r (set_pending l w).
Proof. intros []. by constructor. Qed.

(** The operation and the wait of the first request of the chain. *)
Definition first_operation (anonymous : bool) (n t : nat) : operation_closure :=
  if anonymous then op_identification (Some cb) t false (fresh_guid n) else op_authentication (Some cb) t.
Definition first_wait (anonymous : bool) (n : nat) (x : waiter) : Prop :=
  if anonymous then identification_wait n 0 false x else authentication_wait n x.
Definition first_command (anonymous : bool) : tcp_command :=
  if anonymous then Command.identify_client else Command.authenticate.

(** The socket is connected. *)
Lemma stage_connected n w :
  identify_sizes w0 → stage ∅ n [] 0 w →
  let anonymous := credentials_null (default_user_credentials_ (settings_ w0)) in
  ∃ t w1, effect (tcp_connected cb success) w = Ret w1 ∧ pending w1 = pending w ++ [async_receive] ∧
    (∃ x h, first_wait anonymous n x ∧ heartbeat_wait 0 h ∧ adds t [x; h] w w1) ∧
    stage {[fresh_guid n := first_operation anonymous n t]} (S (S n))
      [first_command anonymous; Command.heartbeat_request_command] 0 w1.
Proof.
  intros Hz Hs anonymous. assert (∃ t w1, run_prog (if anonymous then identify_op (Some cb) false else authenticate_op cb) w =
      Ret (tt, w1) ∧ pending w1 = pending w ∧ (∃ x, first_wait anonymous n x ∧ adds t [x] w w1) ∧
    stage {[fresh_guid n := first_operation anonymous n t]} (S n) [first_command anonymous] 0 w1)
    as (t & w1 & Hr & Hp & (x & Hx & Ht) & Hs1).
  { destruct anonymous; [exact (stage_identify ∅ n [] 0 (Some cb) false w Hz Hs)|exact (stage_authenticate ∅ n [] 0 w Hz Hs)]. }
  destruct (stage_heartbeat _ _ _ _ _ (stage_pending _ _ _ _ (pending w1 ++ [async_receive]) _ Hs1))
    as (w2 & Hr2 & Hp2 & (h & Hh & Ht2) & Hs2).
  exists t, w2. split_and!; [|by rewrite Hp2; simpl; rewrite Hp| |exact Hs2].
  2:{ exists x, h. split_and!; [done..|]. exact (adds_app t _ [x] [h] w w1 w2 Ht Ht2). }
  unfold effect, tcp_connected. destruct Hs. run_prog_steps. rewrite s_alive0, failed_success. run_prog_steps.
  rewrite s_settings0. fold anonymous. rewrite Hr. unfold async_start_receive. run_prog_steps. by rewrite Hr2.
Qed.

Lemma stage_counted ops n cmds r w : stage ops n cmds r w → stage ops n cmds (S r) (counted w).
Proof.
  intros []. constructor; try done. simpl. rewrite s_number0. unfold wrap_u32. rewrite Zplus_mod_idemp_l. f_equal. lia.
Qed.

Lemma abort_wait_pending t w : pending (abort_wait t w) = pending w.
Proof. unfold abort_wait. by destruct (timers w !! t) as [[? [?|]]|]. Qed.

Lemma stage_abort ops n cmds r t w : stage ops n cmds r w → stage ops n cmds r (abort_wait t w).
Proof.
  intros Hs. unfold abort_wait. destruct (timers w !! t) as [[d [x|]]|]; [|done..]. destruct Hs. constructor; try done.
  - subst cmds. unfold commands_sent, outbox. simpl. rewrite sends_app. simpl. by rewrite app_nil_r.
  - by apply Forall_app_2; [|repeat constructor].
Qed.

Lemma stage_operations ops ops' n cmds r w : stage ops n cmds r w → stage ops' n cmds r (set_operations_map ops' w).
Proof. intros []. by constructor. Qed.

(** The answer to the authentication: the identification follows. *)
Lemma authentication_answered key t n cmds r accepted v w :
  identify_sizes w0 → command v = Ret (authentication_answer accepted) → fresh_guid n ≠ key →
  stage {[key := op_authentication (Some cb) t]} n cmds r w →
  ∃ t' w1, run_prog (run_operation key (op_authentication (Some cb) t) success v) w = Ret (tt, w1) ∧
    pending w1 = pending w ∧
    stage {[fresh_guid n := op_identification (Some cb) t' accepted (fresh_guid n)]} (S n)
      (cmds ++ [Command.identify_client]) r (set_operations_map (erase key (operations_map_ w1)) w1).
Proof.
  intros Hz Hc Hne Hs. set (w1 := abort_wait t w).
  assert (stage {[key := op_authentication (Some cb) t]} n cmds r w1) as Hs1 by by apply stage_abort.
  destruct (stage_identify {[key := op_authentication None t]} n cmds r (Some cb) accepted
    (set_operations_map {[key := op_authentication None t]} w1) Hz) as (t' & w2 & Hr & Hp & _ & Hs2).
  { by eapply stage_operations. }
  exists t', w2. split; [|split; [rewrite Hp; apply abort_wait_pending|]].
  - cbn [run_operation]. unfold authentication_closure, authentication_handler. run_prog_steps. fold w1.
    rewrite (s_alive _ _ _ _ _ Hs1), failed_success. run_prog_steps. rewrite Hc. run_prog_steps.
    transitivity (run_prog (update_operation key (op_authentication None t);; identify_op (Some cb) accepted) w1);
      [by destruct accepted|].
    run_prog_steps. rewrite (s_ops _ _ _ _ _ Hs1). unfold contains. rewrite lookup_singleton_eq.
    rewrite insert_singleton_eq. exact Hr.
  - eapply stage_operations in Hs2 as Hs3. rewrite (s_ops _ _ _ _ _ Hs2). rewrite register_op_absent.
    + unfold erase. rewrite delete_insert_ne by done. rewrite delete_singleton_eq. exact Hs3.
    + by rewrite lookup_singleton_ne.
Qed.

(** The answer to the identification: the handler is told. *)
Lemma stage_identified n m cmds r t accepted cmd v w :
  command v = Ret cmd → stage {[fresh_guid m := op_identification (Some cb) t accepted (fresh_guid m)]} n cmds r w →
  ∃ w1, run_prog (run_operation (fresh_guid m) (op_identification (Some cb) t accepted (fresh_guid m)) success v) w =
      Ret (tt, w1) ∧
    operations_map_ w1 = {[fresh_guid m := op_identification (Some cb) t accepted (fresh_guid m)]} ∧
    pending w1 = pending w ∧ commands_sent w1 = cmds ∧
    calls w1 = match identified cmd accepted m with Some r => [(cb, cb_connection r)] | None => [] end.
Proof.
  intros Hc Hs. apply (stage_abort _ _ _ _ t) in Hs as Hs1. destruct Hs1. eexists. split.
  { cbn [run_operation]. by apply identification_answered. }
  pose proof (abort_wait_pending t w) as Hp.
  unfold identified. cbn zeta. case_bool_decide; simpl; split_and!; try done. by rewrite s_calls0.
Qed.
End states.

Lemma connect_prefix settings name cb e :
  let w0 := new_connection settings name in
  let anonymous := credentials_null (default_user_credentials_ settings) in
  identify_sizes w0 →
  ∃ t w, run step w0 [ev_api (api_connect cb); ev_discovered success e; ev_connected success] w ∧
    pending w = [async_receive] ∧ (∃ x h, first_wait anonymous 0 x ∧ heartbeat_wait 0 h ∧ adds t [x; h] w0 w) ∧
    stage w0 {[fresh_guid 0 := first_operation cb anonymous 0 t]} 2
      [first_command anonymous; Command.heartbeat_request_command] 0 w.
Proof.
  intros w0 anonymous Hz.
  destruct (stage_connected w0 cb 0 (set_pending [] (set_socket_open true w0))) as (t & w & Hr & Hp & Hx & Hs).
  { done. }
  { by constructor. }
  exists t, w. split_and!; [|exact Hp|exact Hx|exact Hs].
  econstructor; [reflexivity|]. econstructor; [reflexivity|]. econstructor; [|constructor].
  unfold step. cbn [exec]. unfold complete. cbn. f_equal. exact Hr.
Qed.

(** The server's answer, taken from the pending read. *)
Lemma answer_step w0 i op n cmds r cmd body w :
  fits32 (length body) → pending w = [async_receive] → stage w0 {[fresh_guid i := op]} n cmds r w →
  ∃ v w1, command v = Ret cmd ∧ stage w0 {[fresh_guid i := op]} n cmds (S r) w1 ∧ pending w1 = [] ∧
    ∀ w2, run_prog (run_operation (fresh_guid i) op success v) w1 = Ret (tt, w2) →
      step w (answer cmd i body) (receiving (set_operations_map (erase (fresh_guid i) (operations_map_ w2)) w2)).
Proof.
  intros Hb Hp Hs. destruct (arrival_operation w (fresh_guid i) op cmd body) as (v & Hr & Hstep);
    [apply Hs|done|apply fresh_guid_wf|done|by rewrite (s_ops _ _ _ _ _ _ Hs), lookup_singleton_eq|].
  exists v, (counted w). split_and!; [apply Hr|by apply stage_counted|done|exact Hstep].
Qed.

Lemma identification_step w0 cb m n cmds r t accepted cmd body w :
  fits32 (length body) → pending w = [async_receive] →
  stage w0 {[fresh_guid m := op_identification (Some cb) t accepted (fresh_guid m)]} n cmds r w →
  ∃ w1, step w (answer cmd m body) w1 ∧
    calls w1 = match identified cmd accepted m with Some r => [(cb, cb_connection r)] | None => [] end ∧
    commands_sent w1 = cmds ∧ operations_map_ w1 = ∅ ∧ pending w1 = [async_receive].
Proof.
  intros Hb Hp Hs. destruct (answer_step _ _ _ _ _ _ cmd body _ Hb Hp Hs) as (v & w1 & Hv & Hs1 & Hp1 & Hstep).
  destruct (stage_identified w0 cb _ _ _ _ _ _ _ v _ Hv Hs1) as (w2 & Hr & Ho & Hp2 & Hc & Hcalls).
  eexists. split; [by apply Hstep|]. simpl. rewrite Hp2, Hp1, Ho. split_and!; [done|done| |done].
  unfold erase. by rewrite delete_singleton_eq.
Qed.

Lemma authentication_step w0 cb n cmds r t accepted body w :
  fits32 (length body) → identify_sizes w0 → fresh_guid n ≠ fresh_guid 0 → pending w = [async_receive] →
  stage w0 {[fresh_guid 0 := op_authentication (Some cb) t]} n cmds r w →
  ∃ t' w1, step w (answer (authentication_answer accepted) 0 body) w1 ∧ pending w1 = [async_receive] ∧
    stage w0 {[fresh_guid n := op_identification (Some cb) t' accepted (fresh_guid n)]} (S n)
      (cmds ++ [Command.identify_client]) (S r) w1.
Proof.
  intros Hb Hz Hne Hp Hs.
  destruct (answer_step _ _ _ _ _ _ (authentication_answer accepted) body _ Hb Hp Hs) as (v & w1 & Hv & Hs1 & Hp1 & Hstep).
  destruct (authentication_answered w0 cb (fresh_guid 0) _ _ _ _ accepted v _ Hz Hv Hne Hs1) as (t' & w2 & Hr & Hp2 & Hs2).
  eexists t', _. split; [by apply Hstep|]. split; [simpl; by rewrite Hp2, Hp1|by apply stage_pending].
Qed.

Lemma unrecognised_step w0 cb n cmds r t cmd body w :
  fits32 (length body) → cmd ≠ Command.authenticated → cmd ≠ Command.not_authenticated → pending w = [async_receive] →
  stage w0 {[fresh_guid 0 := op_authentication (Some cb) t]} n cmds r w →
  ∃ w1, step w (answer cmd 0 body) w1 ∧ pending w1 = [async_receive] ∧ stage w0 ∅ n cmds (S r) w1.
Proof.
  intros Hb Hy Hn Hp Hs.
  destruct (answer_step _ _ _ _ _ _ cmd body _ Hb Hp Hs) as (v & w1 & Hv & Hs1 & Hp1 & Hstep).
  apply (stage_abort _ _ _ _ _ t) in Hs1 as Hs2. eexists. split; [apply (Hstep (abort_wait t w1))|].
  - cbn [run_operation]. unfold authentication_closure, authentication_handler. run_prog_steps.
    rewrite (s_alive _ _ _ _ _ _ Hs2), failed_success. run_prog_steps. rewrite Hv. run_prog_steps.
    rewrite !bool_decide_eq_false_2 by done. reflexivity.
  - split; [simpl; by rewrite abort_wait_pending, Hp1|]. apply stage_pending.
    rewrite (s_ops _ _ _ _ _ _ Hs2). unfold erase. rewrite delete_singleton_eq. by eapply stage_operations.
Qed.

Lemma run_last w es w1 e w2 : run step w es w1 → step w1 e w2 → run step w (es ++ [e]) w2.
Proof. intros Hr He. eapply run_trans; [exact Hr|]. econstructor; [exact He|constructor]. Qed.
End chain.

(** C8: The connect chain from async_connect to the user's handler, for each
    course it can take, on every connection whose credentials and name have
    bounded sizes.  Without an endpoint the handler gets endpoint_discovery,
    and when the socket does not connect the socket's error.  Once connected,
    a client without credentials sends its identification, and one with
    credentials its authentication, each followed by a first heartbeat request,
    and starts to receive; the answer to the authentication, whichever of the
    two it is, makes the client identify itself; and client_identified makes
    the handler called once, with the identity's guid, and with success only if
    the server authenticated the client.  Any other answer ends the chain and
    the handler is never called.  In no case is an operation left behind, and
    the client goes on receiving. *)
Theorem connect_chain {AL : Allocator} {PB : Protobuf} {AE : AsioErrors} {GS : GuidSource} settings name cb c
    (Hcourse : course_ok settings c) (Hsizes : identify_sizes (new_connection settings name)) :
  ∃ w, run step (new_connection settings name) (course_events cb c) w ∧
    calls w = match course_result c with Some r => [(cb, cb_connection r)] | None => [] end ∧
    commands_sent w = course_commands c ∧ operations_map_ w = ∅ ∧
    pending w = if is_connected c then [async_receive] else [].
Proof.
  destruct c as [ec e|e ec|e cmd body|e cmd body|e accepted body cmd body']; simpl in Hcourse.
  - eexists. split.
    { econstructor; [reflexivity|]. econstructor; [|constructor]. unfold step. cbn [exec]. unfold complete. cbn. f_equal.
      unfold effect, endpoint_discovered, connection_lambda. run_prog_steps. rewrite Hcourse. run_prog_steps. reflexivity. }
    done.
  - destruct Hcourse as [Hf Hne]. eexists. split.
    { econstructor; [reflexivity|]. econstructor; [reflexivity|]. econstructor; [|constructor].
      unfold step. cbn [exec]. unfold complete. cbn. f_equal.
      unfold effect, tcp_connected, connection_lambda. run_prog_steps. rewrite Hf.
      replace (is_error ec authentication_failed) with false by (symmetry; apply not_true_iff_false; by rewrite is_error_iff).
      run_prog_steps. reflexivity. }
    done.
  - destruct (connect_prefix settings name cb e Hsizes) as (t & w & Hr & Hp & _ & Hs). destruct Hcourse as [Hn Hb].
    rewrite Hn in Hs. destruct (identification_step _ _ _ _ _ _ _ _ cmd body _ Hb Hp Hs) as (w1 & He & Hw1).
    exists w1. split; [exact (run_last _ _ _ _ _ Hr He)|exact Hw1].
  - destruct (connect_prefix settings name cb e Hsizes) as (t & w & Hr & Hp & _ & Hs).
    destruct Hcourse as (Hn & Hb & Hy & Hno). rewrite Hn in Hs.
    destruct (unrecognised_step _ _ _ _ _ _ cmd body _ Hb Hy Hno Hp Hs) as (w1 & He & Hp1 & []).
    exists w1. split; [exact (run_last _ _ _ _ _ Hr He)|done].
  - destruct (connect_prefix settings name cb e Hsizes) as (t & w & Hr & Hp & _ & Hs).
    destruct Hcourse as (Hn & Hb & Hb' & Hne). rewrite Hn in Hs.
    destruct (authentication_step _ _ _ _ _ _ accepted body _ Hb Hsizes Hne Hp Hs) as (t' & w1 & He & Hp1 & Hs1).
    destruct (identification_step _ _ _ _ _ _ _ _ cmd body' _ Hb' Hp1 Hs1) as (w2 & He' & Hw2).
    exists w2. split; [exact (run_last _ _ _ _ _ (run_last _ _ _ _ _ Hr He) He')|exact Hw2].
Qed.

Definition secret_settings : connection_settings :=
  build_connection_settings [with_default_user_credentials (mk_user_credentials "admin" "changeit")].

Lemma connect_chain_witness :
  let c := logged_in (mk_endpoint "127.0.0.1" 1113) true [] Command.client_identified [] in
  let w0 := new_connection secret_settings "ES-1" in
  credentials_null (default_user_credentials_ secret_settings) = false ∧
  ∃ w, run (step (AL := zero_allocator) (PB := sample_protobuf) (AE := linux_asio_errors) (GS := counting_guids)) w0
      (course_events (GS := counting_guids) 7 c) w ∧
    calls w = [(7%nat, cb_connection (success, Some (mk_connection_result (le_encode 16 2))))].
Proof.
  intros c w0. split; [reflexivity|].
  destruct (connect_chain (AL := zero_allocator) (PB := sample_protobuf) (AE := linux_asio_errors)
    (GS := counting_guids) secret_settings "ES-1" 7 c) as (w & Hr & Hc & _).
  - split_and!; [reflexivity|vm_compute; reflexivity..|vm_compute; discriminate].
  - split; vm_compute; first [lia|reflexivity].
  - by exists w.
Defined.
