(* ===== verification/Silence.v ===== *)
(** The connect chain against a server that never answers: whatever the order
    in which timers expire, jobs run and writes and reads end, the
    identification is sent again after each timeout, as often as the settings
    allow, and then the user's handler is told. *)
From S2P Require Import Prelude Errors Basics TcpPackage Messages Events Settings OperationsMap World.
From S2P Require Import Connection ConnectOps Client Sending Steps ConnectChain.

Section silence.
Context {AL : Allocator} {PB : Protobuf} {AE : AsioErrors} {GS : GuidSource}.

(** The events of an execution in which the server sends nothing and the user
    does nothing but, perhaps, close the connection: timers expire, jobs run,
    time passes, writes end with or without an error, a read ends with one. *)
Definition silent (e : event) : bool :=
  match e with
  | ev_timer _ | ev_job | ev_elapse _ | ev_written _ | ev_api api_close => true
  | ev_received ec _ _ => failed ec
  | _ => false
  end.

(** Those of them that are the work of the io_context, and how many there are. *)
Definition is_progress (e : event) : bool := match e with ev_timer _ | ev_job => true | _ => false end.
Definition progress (es : list event) : nat := length (filter is_progress es).

(** ** Waits that have not been completed

    [at_timer t w]: the wait in progress on the timer [t]; [due t js]: its
    completions among the jobs; [live t w]: both. *)
Definition at_timer (t : nat) (w : world) : list waiter :=
  match timers w !! t with Some (mk_timer _ (Some x)) => [x] | _ => [] end.
Definition due (t : nat) (js : list job) : list waiter :=
  omap (λ j, match j with wait_completed x t' _ => if decide (t' = t) then Some x else None | _ => None end) js.
Definition live (t : nat) (w : world) : list waiter := at_timer t w ++ due t (posted w).

Lemma due_app t js js' : due t (js ++ js') = due t js ++ due t js'.
Proof. apply omap_app. Qed.

Lemma due_completion t x ec js : due t (wait_completed x t ec :: js) = x :: due t js.
Proof. unfold due. simpl. by rewrite decide_True. Qed.
Lemma due_other t t' x ec js : t' ≠ t → due t (wait_completed x t' ec :: js) = due t js.
Proof. intros Hne. unfold due. simpl. by rewrite decide_False. Qed.
Lemma due_sent t js p : due t (js ++ [send_package p]) = due t js.
Proof. rewrite due_app. apply app_nil_r. Qed.

(** What such an execution posts. *)
Definition quiet_job (j : job) : Prop :=
  match j with
  | send_package _ => True
  | wait_completed _ _ ec => ec = success
  | _ => False
  end.

(** ** The course of the chain *)
Section rounds.
Context (w0 : world) (cb : nat).
Abbreviation anonymous := (credentials_null (default_user_credentials_ (settings_ w0))).
Abbreviation retries := (Z.to_nat (max_reconnections_ (settings_ w0))).
(** The number of the identification's guid. *)
Abbreviation identity := (if anonymous then 0 else 2)%nat.

(** The authentication waits for its answer; the identification does, and
    will be sent [more] times again; the user's handler has been called. *)
Inductive phase : Type := authenticating | identifying (more : nat) | told.

Definition phase_wait (ph : phase) (x : waiter) : Prop :=
  match ph with
  | authenticating => authentication_wait 0 x
  | identifying more => identification_wait identity (Z.of_nat (retries - more)) false x ∧ (more ≤ retries)%nat
  | told => False
  end.

Definition phase_operation (ph : phase) (t : nat) (w : world) : Prop :=
  match ph with
  | authenticating =>
      operations_map_ w !! fresh_guid 0 = Some (op_authentication (Some cb) t) ∧
      operations_map_ w !! fresh_guid 2 = None ∧ guids w = 2%nat ∧ anonymous = false
  | identifying _ =>
      operations_map_ w !! fresh_guid identity = Some (op_identification (Some cb) t false (fresh_guid identity))
  | told => True
  end.

Definition phase_commands (ph : phase) : list tcp_command :=
  let identified := if anonymous then [Command.identify_client; Command.heartbeat_request_command]
    else [Command.authenticate; Command.heartbeat_request_command; Command.identify_client] in
  match ph with
  | authenticating => [Command.authenticate; Command.heartbeat_request_command]
  | identifying more => identified ++ replicate (retries - more) Command.identify_client
  | told => identified ++ replicate retries Command.identify_client
  end.

Definition phase_calls (ph : phase) : list (nat * callback) :=
  match ph with
  | told => [(cb, cb_connection (make_error_code operation_timeout, None))]
  | _ => []
  end.

(** The waits that a timer may have: [tc] is the timer of the chain, [th] that
    of the heartbeat. *)
Definition phase_live (ph : phase) (xs : list waiter) : Prop :=
  match ph with told => xs = [] | _ => ∃ x, xs = [x] ∧ phase_wait ph x end.
Definition heart_live (xs : list waiter) : Prop := xs = [] ∨ ∃ x, xs = [x] ∧ heartbeat_wait 0 x.

Record quiet (ph : phase) (tc th : nat) (w : world) : Prop := {
  q_alive : alive w = true;
  q_settings : settings_ w = settings_ w0;
  q_name : connection_name_ w = connection_name_ w0;
  q_number : package_no_ w = 0;
  q_timers : (tc < length (timers w) ∧ th < length (timers w) ∧ tc ≠ th)%nat;
  q_chain : phase_live ph (live tc w);
  q_heart : heart_live (live th w);
  q_rest : ∀ t, t ≠ tc → t ≠ th → live t w = [];
  q_operation : phase_operation ph tc w;
  q_jobs : Forall quiet_job (posted w);
  q_calls : calls w = phase_calls ph;
  q_commands : commands_sent w = phase_commands ph;
  q_write : one_write w
}.

(** How much the io_context has still to do: two steps for each wait in
    progress, one for each job, and three for each request still to be sent. *)
Definition future (ph : phase) : nat :=
  match ph with authenticating => 3 * S retries | identifying more => 3 * more | told => 0 end.
Definition work_left (ph : phase) (tc th : nat) (w : world) : nat :=
  future ph + 2 * (length (at_timer tc w) + length (at_timer th w)) + length (posted w).

(** A change that does not concern the chain. *)
Lemma quiet_frame ph tc th w w' :
  quiet ph tc th w →
  alive w' = alive w → settings_ w' = settings_ w → connection_name_ w' = connection_name_ w →
  package_no_ w' = package_no_ w → timers w' = timers w → operations_map_ w' = operations_map_ w →
  guids w' = guids w → calls w' = calls w → (∀ t, due t (posted w') = due t (posted w)) →
  Forall quiet_job (posted w') → outbox w' = outbox w → one_write w' → quiet ph tc th w'.
Proof.
  intros [] Ha Hs Hn Hp Ht Ho Hg Hc Hd Hj Hout Hw.
  assert (∀ t, live t w' = live t w) as Hl by (intros t; unfold live, at_timer; by rewrite Ht, Hd).
  constructor; rewrite ?Hl, ?Ht; try done; try congruence.
  - intros t. rewrite Hl. apply q_rest0.
  - unfold phase_operation in *. by rewrite Ho, Hg.
  - unfold commands_sent. by rewrite Hout.
Qed.

Lemma at_timer_none t w : timers w !! t = None → at_timer t w = [].
Proof. unfold at_timer. by intros ->. Qed.

Lemma live_length ph tc th w t : quiet ph tc th w → (length (live t w) ≤ 1)%nat.
Proof.
  intros []. destruct (decide (t = tc)) as [->|]; [|destruct (decide (t = th)) as [->|]].
  - unfold phase_live in *. destruct ph; [destruct q_chain0 as (x & -> & _)..|rewrite q_chain0]; simpl; lia.
  - destruct q_heart0 as [->|(x & -> & _)]; simpl; lia.
  - rewrite q_rest0 by done. simpl. lia.
Qed.

(** A wait expires. *)
Lemma quiet_expires ph tc th t d x w :
  quiet ph tc th w → timers w !! t = Some (mk_timer d (Some x)) →
  let w' := set_posted (posted w ++ [wait_completed x t success]) (set_timers (<[t := mk_timer d None]> (timers w)) w) in
  quiet ph tc th w' ∧ S (work_left ph tc th w') = work_left ph tc th w.
Proof.
  intros Hw Ht w'. pose proof (live_length _ _ _ _ t Hw) as Hlen.
  assert (at_timer t w = [x]) as Hat by (unfold at_timer; by rewrite Ht).
  assert (at_timer t w' = []) as Hat'.
  { unfold at_timer. simpl. by rewrite list_lookup_insert_eq by (by eapply lookup_lt_Some). }
  assert (∀ t', t' ≠ t → at_timer t' w' = at_timer t' w) as Hother.
  { intros t' Hne. unfold at_timer. simpl. by rewrite list_lookup_insert_ne. }
  assert (∀ t', live t' w' = live t' w) as Hl.
  { intros t'. unfold live in *. simpl posted. rewrite due_app. destruct (decide (t' = t)) as [->|Hne].
    - rewrite Hat', Hat in *. rewrite due_completion. simpl in Hlen. destruct (due t (posted w)); [done|simpl in Hlen; lia].
    - rewrite Hother, due_other by done. by rewrite app_nil_r. }
  destruct Hw as [].
  assert (t = tc ∨ t = th) as Htt.
  { destruct (decide (t = tc)); [by left|]. destruct (decide (t = th)); [by right|].
    specialize (q_rest0 t n n0). unfold live in q_rest0. by rewrite Hat in q_rest0. }
  destruct q_timers0 as (Hc & Hh & Hne). split.
  - constructor; rewrite ?Hl; try done.
    + simpl. by rewrite length_insert.
    + intros t'. rewrite Hl. apply q_rest0.
    + simpl. apply Forall_app_2; [done|]. by repeat constructor.
    + subst. unfold commands_sent, outbox in *. simpl. rewrite sends_app. simpl. by rewrite app_nil_r.
  - unfold work_left. simpl posted. rewrite length_app. cbn [length].
    destruct Htt as [->| ->]; rewrite Hat, Hat', Hother by done; simpl; lia.
Qed.

(** A job that sends. *)
Lemma quiet_sends ph tc th p js w :
  quiet ph tc th w → posted w = send_package p :: js →
  ∃ w', step w ev_job w' ∧ quiet ph tc th w' ∧ S (work_left ph tc th w') = work_left ph tc th w.
Proof.
  intros Hw Hp. destruct (inert_job (send_package p) js w) as (q & ws & n & Hs & Ho); [apply Hw|done|done|].
  exists (with_writes js q ws n w). split; [done|]. split.
  - pose proof (q_jobs _ _ _ _ Hw) as Hj. rewrite Hp in Hj.
    apply (quiet_frame _ _ _ _ _ Hw); try done.
    + intros t. by rewrite Hp.
    + by apply Forall_cons in Hj as [_ Hj].
    + by apply (drained_outbox [send_package p]).
    + eapply step_ok; [exact Hs|apply Hw].
  - unfold work_left, at_timer. simpl. rewrite Hp. simpl. lia.
Qed.

(** A completion is taken from the posted jobs. *)
Record taken_completion (ph : phase) (tc th t : nat) (x : waiter) (w w1 : world) : Prop := {
  t_live : live t w = [x];
  t_none : at_timer t w = [] ∧ due t (posted w1) = [];
  t_others : ∀ t', t' ≠ t → due t' (posted w1) = due t' (posted w);
  t_jobs : Forall quiet_job (posted w1);
  t_sends : sends (posted w1) = sends (posted w)
}.

Lemma take_completion ph tc th x t js w :
  quiet ph tc th w → posted w = wait_completed x t success :: js →
  taken_completion ph tc th t x w (set_posted js w).
Proof.
  intros Hw Hp. pose proof (live_length _ _ _ _ t Hw) as Hlen. pose proof (q_jobs _ _ _ _ Hw) as Hj.
  unfold live in Hlen. rewrite Hp in *. rewrite due_completion, length_app in Hlen. simpl in Hlen.
  assert (at_timer t w = [] ∧ due t js = []) as [E1 E2].
  { destruct (at_timer t w), (due t js); simpl in Hlen; try lia; done. }
  constructor; simpl.
  - unfold live. by rewrite Hp, due_completion, E1, E2.
  - done.
  - intros t' Hne. by rewrite Hp, due_other.
  - by apply Forall_cons in Hj as [_ Hj].
  - by rewrite Hp.
Qed.

Lemma heartbeat_no_phase ph x : heartbeat_wait 0 x → ¬ phase_wait ph x.
Proof. intros (h & -> & _). destruct ph; simpl; [by intros (? & _ & [=])|by intros [(? & _ & [=]) _]|by intros []]. Qed.

(** The heartbeat's wait completes: the socket is closed, if it is not. *)
Lemma quiet_heartbeat ph tc th x js w :
  quiet ph tc th w → posted w = wait_completed x th success :: js → heartbeat_wait 0 x →
  ∃ w', step w ev_job w' ∧ quiet ph tc th w' ∧ S (work_left ph tc th w') = work_left ph tc th w.
Proof.
  intros Hw Hp (info & -> & Hnum & Hstage). pose proof (take_completion _ _ _ _ _ _ _ Hw Hp) as Ht.
  destruct (take_completion _ _ _ _ _ _ _ Hw Hp) as [Hl [Hat Hdue] Hother Hj Hs]. destruct Hw as [].
  assert (∃ b, effect (run_waiter (wait_heartbeat info) th success) (set_posted js w) =
    Ret (set_socket_open b (set_posted js w))) as [b Hrun].
  { unfold effect. cbn [run_waiter]. unfold heartbeat_wait_completed. rewrite failed_success. cbn [negb].
    destruct (socket_open w) eqn:Eo.
    - exists false. rewrite heartbeat_initiate_silent; [done|done|done| |done]. simpl. by rewrite Hnum, q_number0.
    - exists false. rewrite heartbeat_initiate_closed by (by right). f_equal. destruct w. simpl in *. by subst. }
  exists (set_socket_open b (set_posted js w)). split; [|split].
  - unfold step. cbn [exec]. rewrite Hp. cbn [run_job]. by rewrite Hrun.
  - assert (∀ t, t ≠ th → live t (set_socket_open b (set_posted js w)) = live t w) as Hl'.
    { intros t Hne. unfold live. simpl posted. by rewrite <- (Hother t Hne). }
    destruct q_timers0 as (? & ? & ?). constructor; try done.
    + by rewrite Hl'.
    + left. unfold live. simpl posted. simpl in Hdue. by rewrite Hdue, app_nil_r.
    + intros t Hn1 Hn2. rewrite Hl' by done. by apply q_rest0.
    + unfold commands_sent, outbox in *. simpl. simpl in Hs. by rewrite Hs.
  - unfold work_left, at_timer. simpl. rewrite Hp. simpl. lia.
Qed.

(** A step of the chain: a completion on its timer has been taken, and the
    chain goes on with the timer [tc'], the old one or a new one. *)
Lemma quiet_chain ph ph' tc tc' th x w w1 w' :
  quiet ph tc th w → taken_completion ph tc th tc x w w1 →
  alive w' = alive w → settings_ w' = settings_ w → connection_name_ w' = connection_name_ w →
  package_no_ w' = package_no_ w → (length (timers w) ≤ length (timers w'))%nat →
  tc' = tc ∨ tc' = length (timers w) ∧ (tc' < length (timers w'))%nat →
  (∀ t, t ≠ tc' → at_timer t w' = at_timer t w) → (∀ t, due t (posted w') = due t (posted w1)) →
  phase_live ph' (at_timer tc' w') → phase_operation ph' tc' w' → Forall quiet_job (posted w') →
  calls w' = phase_calls ph' → commands_sent w' = phase_commands ph' → one_write w' →
  quiet ph' tc' th w'.
Proof.
  intros [] [Hl [Hat Hdue] Hother _ _] Ha Hset Hn Hno Hlen Htc Hats Hdues Hph Hop Hj Hc Hcmd Hw.
  destruct q_timers0 as (Hltc & Hlth & Hne).
  assert (due tc' (posted w1) = []) as Hd'.
  { destruct Htc as [->|[-> _]]; [done|]. specialize (q_rest0 (length (timers w)) ltac:(lia) ltac:(lia)).
    unfold live in q_rest0. apply app_nil in q_rest0 as [_ Hd]. rewrite Hother; [done|lia]. }
  assert (tc' ≠ th) as Hne' by (destruct Htc as [->|[-> _]]; [done|lia]).
  assert (∀ t, t ≠ tc → t ≠ tc' → live t w' = live t w) as Hlive.
  { intros t H1' H2'. unfold live. by rewrite Hats, Hdues, Hother. }
  constructor; try done; try congruence.
  - destruct Htc as [->|[-> Hlt]]; split_and!; lia.
  - unfold live. by rewrite Hdues, Hd', app_nil_r.
  - by rewrite Hlive.
  - intros t Hn1 Hn2. destruct (decide (t = tc)) as [->|]; [|rewrite Hlive by done; by apply q_rest0].
    unfold live. by rewrite Hats, Hat, Hdues, Hdue.
Qed.

Lemma commands_unchanged ph tc th t x w w1 :
  quiet ph tc th w → taken_completion ph tc th t x w w1 → wire w1 = wire w → message_queue_ w1 = message_queue_ w →
  commands_sent w1 = phase_commands ph.
Proof. intros Hw Ht H1' H2'. rewrite <- (q_commands _ _ _ _ Hw). unfold commands_sent, outbox. by rewrite H1', H2', (t_sends _ _ _ _ _ _ _ Ht). Qed.

(** A job that is the completion of a wait. *)
Lemma completion_step x t js w w' :
  posted w = wait_completed x t success :: js →
  run_prog (run_waiter x t success) (set_posted js w) = Ret (tt, w') → step w ev_job w'.
Proof. intros Hp Hr. unfold step. cbn [exec]. rewrite Hp. cbn [run_job]. unfold effect. by rewrite Hr. Qed.

Lemma timer_idle ph tc th w t : quiet ph tc th w → (t < length (timers w))%nat → at_timer t w = [] →
  ∃ d, timers w !! t = Some (mk_timer d None).
Proof.
  intros _ Hlt Hat. apply lookup_lt_is_Some in Hlt as [[d [x|]] Ht]; [|by exists d].
  unfold at_timer in Hat. by rewrite Ht in Hat.
Qed.

Context (sizes : identify_sizes w0) (bound : 0 ≤ max_reconnections_ (settings_ w0) < 2 ^ 32).
Context (distinct : fresh_guid 2 ≠ fresh_guid 0).

(** One more identification. *)
Lemma quiet_again more tc th x js w :
  quiet (identifying (S more)) tc th w → posted w = wait_completed x tc success :: js →
  phase_wait (identifying (S more)) x →
  ∃ w', step w ev_job w' ∧ quiet (identifying more) tc th w' ∧
    S (work_left (identifying more) tc th w') = work_left (identifying (S more)) tc th w.
Proof.
  intros Hw Hp ((info & Hi & ->) & Hmore). pose proof (take_completion _ _ _ _ _ _ _ Hw Hp) as Ht.
  destruct (timer_idle _ _ _ _ tc Hw) as [d Hd]; [apply (q_timers _ _ _ _ Hw)|apply (t_none _ _ _ _ _ _ _ Ht)|].
  pose proof (q_operation _ _ _ _ Hw) as Hop. simpl in Hop.
  set (n := Z.of_nat (retries - S more)) in *.
  destruct (identify_initiate_run tc info (wrap_u32 (n + 1)) None false d (set_posted js w))
    as (p & v & Hv & Hcmd & _ & Hrun);
    [apply Hw|done|by apply (sizes_kept w0); [apply Hw..|]|rewrite Hi; apply fresh_guid_wf|].
  assert (wrap_u32 (n + 1) = Z.of_nat (retries - more)) as En by (rewrite wrap_u32_small; lia).
  eexists. split; [|split].
  - apply (completion_step _ _ _ _ _ Hp). cbn [run_waiter]. unfold identify_wait_completed. run_prog_steps.
    rewrite (q_alive _ _ _ _ Hw), failed_success. run_prog_steps. rewrite (q_settings _ _ _ _ Hw).
    rewrite (proj2 (Z.gtb_lt _ _)), (proj2 (Z.ltb_lt _ _)) by lia. cbn [andb]. exact Hrun.
  - rewrite En, Hi. simpl operations_map_. rewrite (register_op_present _ _ _ _ Hop).
    eapply (quiet_chain _ _ _ tc _ _ _ _ _ Hw Ht); try done.
    + simpl. by rewrite length_insert.
    + by left.
    + intros t Hne. unfold at_timer. simpl. by rewrite list_lookup_insert_ne.
    + intros t. apply due_sent.
    + unfold at_timer. simpl. rewrite list_lookup_insert_eq by (by eapply lookup_lt_Some).
      eexists. split; [done|]. split; [by exists info|lia].
    + apply Forall_app_2; [apply Ht|by repeat constructor].
    + apply (q_calls _ _ _ _ Hw).
    + erewrite (commands_sent_package p v _ (set_posted js w)) by done.
      rewrite (commands_unchanged _ _ _ _ _ _ _ Hw Ht) by done. simpl.
      replace (retries - more)%nat with (S (retries - S more)) by lia.
      rewrite replicate_S_end, app_assoc. done.
    + apply (q_write _ _ _ _ Hw).
  - pose proof (proj1 (t_none _ _ _ _ _ _ _ Ht)) as Hat. unfold work_left. rewrite Hp, Hat.
    unfold at_timer. simpl. rewrite list_lookup_insert_eq by (by eapply lookup_lt_Some).
    rewrite list_lookup_insert_ne by apply (q_timers _ _ _ _ Hw). rewrite length_app. simpl. lia.
Qed.

(** The last timeout: the handler is told. *)
Lemma quiet_given_up tc th x js w :
  quiet (identifying 0) tc th w → posted w = wait_completed x tc success :: js →
  phase_wait (identifying 0) x →
  ∃ w', step w ev_job w' ∧ quiet told tc th w' ∧ S (work_left told tc th w') = work_left (identifying 0) tc th w.
Proof.
  intros Hw Hp ((info & Hi & ->) & _). pose proof (take_completion _ _ _ _ _ _ _ Hw Hp) as Ht.
  destruct (timer_idle _ _ _ _ tc Hw) as [d Hd]; [apply (q_timers _ _ _ _ Hw)|apply (t_none _ _ _ _ _ _ _ Ht)|].
  pose proof (q_operation _ _ _ _ Hw) as Hop. simpl in Hop. rewrite Nat.sub_0_r in *.
  exists (set_calls (calls w ++ [(cb, cb_connection (make_error_code operation_timeout, None))]) (set_posted js w)).
  split; [|split].
  - apply (completion_step _ _ _ _ _ Hp). cbn [run_waiter]. unfold identify_wait_completed. run_prog_steps.
    rewrite (q_alive _ _ _ _ Hw), failed_success. run_prog_steps. rewrite (q_settings _ _ _ _ Hw).
    rewrite (proj2 (Z.ltb_ge (Z.of_nat retries) _)) by lia. rewrite andb_false_r. run_prog_steps.
    rewrite Hi. unfold at_key. rewrite Hop. run_prog_steps.
    cbn [invoke_operation client_dispatch run_operation]. unfold identification_closure, connection_lambda. run_prog_steps.
    unfold abort_wait. simpl timers. rewrite Hd.
    replace (failed (make_error_code operation_timeout)) with true by done.
    replace (is_error (make_error_code operation_timeout) authentication_failed) with false by done.
    rewrite andb_false_r. run_prog_steps.
    replace (failed (make_error_code operation_timeout)) with true by done.
    replace (is_error (make_error_code operation_timeout) authentication_failed) with false by done. cbn [orb].
    by run_prog_steps.
  - eapply (quiet_chain _ _ _ tc _ _ _ _ _ Hw Ht); try done.
    + by left.
    + apply (t_none _ _ _ _ _ _ _ Ht).
    + apply Ht.
    + simpl. by rewrite (q_calls _ _ _ _ Hw).
    + etransitivity; [by apply (commands_unchanged _ _ _ _ _ _ _ Hw Ht)|]. simpl. by rewrite Nat.sub_0_r.
    + apply (q_write _ _ _ _ Hw).
  - unfold work_left, at_timer. simpl. rewrite Hp. simpl. lia.
Qed.

(** The authentication is not answered: the client identifies itself without. *)
Lemma quiet_unauthenticated tc th x js w :
  quiet authenticating tc th w → posted w = wait_completed x tc success :: js →
  phase_wait authenticating x →
  ∃ tc' w', step w ev_job w' ∧ quiet (identifying retries) tc' th w' ∧
    S (work_left (identifying retries) tc' th w') = work_left authenticating tc th w.
Proof.
  intros Hw Hp (info & Hi & ->). pose proof (take_completion _ _ _ _ _ _ _ Hw Hp) as Ht.
  destruct (timer_idle _ _ _ _ tc Hw) as [d Hd]; [apply (q_timers _ _ _ _ Hw)|apply (t_none _ _ _ _ _ _ _ Ht)|].
  pose proof (q_operation _ _ _ _ Hw) as (Hop & Hnone & Hg & Hanon). simpl in Hop.
  set (w2 := set_operations_map (<[fresh_guid 0 := op_authentication None tc]> (operations_map_ w)) (set_posted js w)).
  destruct (identify_op_run (Some cb) false w2) as (p & v & Hv & Hcmd & Hrun);
    [apply Hw|by apply (sizes_kept w0); [apply Hw..|]|].
  assert (guids w2 = 2%nat) as Hg2 by done. rewrite Hg2 in Hrun.
  eexists (length (timers w)), _. split; [|split].
  - apply (completion_step _ _ _ _ _ Hp). cbn [run_waiter]. unfold authenticate_wait_completed. run_prog_steps.
    rewrite (q_alive _ _ _ _ Hw), failed_success. run_prog_steps. rewrite Hi. unfold at_key. rewrite Hop. run_prog_steps.
    cbn [invoke_operation client_dispatch run_operation]. unfold authentication_closure, authentication_handler. run_prog_steps.
    unfold abort_wait. simpl timers. rewrite Hd. simpl alive. rewrite (q_alive _ _ _ _ Hw).
    replace (failed (make_error_code authentication_timeout)) with true by done. run_prog_steps.
    cbn [run_prog mret prog_mret mbind outcome_bind fst snd]. run_prog_steps. unfold contains. rewrite Hop. exact Hrun.
  - pose proof (q_timers _ _ _ _ Hw) as (Hltc & Hlth & Hne).
    eapply (quiet_chain _ _ _ (length (timers w)) _ _ _ _ _ Hw Ht); try done.
    + simpl. rewrite length_app. lia.
    + right. split; [done|]. simpl. rewrite length_app. simpl. lia.
    + intros t Hnt. unfold at_timer. simpl. destruct (decide (t < length (timers w))%nat).
      * by rewrite lookup_app_l.
      * rewrite (lookup_ge_None_2 (timers w)) by lia. by rewrite lookup_ge_None_2 by (rewrite length_app; simpl; lia).
    + intros t. apply due_sent.
    + unfold at_timer. simpl. rewrite list_lookup_middle by done. eexists. split; [done|]. split; [|done].
      rewrite Nat.sub_diag, Hanon. by eexists (mk_identity_info _ _).
    + simpl. rewrite Hanon. rewrite register_op_absent by (by rewrite lookup_insert_ne).
      by rewrite lookup_insert_eq.
    + apply Forall_app_2; [apply Ht|by repeat constructor].
    + apply (q_calls _ _ _ _ Hw).
    + erewrite (commands_sent_package p v _ (set_posted js w)) by done.
      rewrite (commands_unchanged _ _ _ _ _ _ _ Hw Ht) by done. simpl. by rewrite Hanon, Nat.sub_diag.
    + apply (q_write _ _ _ _ Hw).
  - pose proof (proj1 (t_none _ _ _ _ _ _ _ Ht)) as Hat. pose proof (q_timers _ _ _ _ Hw) as (Hltc & Hlth & Hne).
    unfold work_left. rewrite Hp, Hat. unfold at_timer. simpl. rewrite list_lookup_middle by done.
    rewrite lookup_app_l by done. rewrite length_app. simpl. lia.
Qed.

(** ** Any step *)
Definition goes_on (ph : phase) (tc th : nat) (w : world) (e : event) (w' : world) : Prop :=
  ∃ ph' tc', quiet ph' tc' th w' ∧
    ((if is_progress e then 1 else 0) + work_left ph' tc' th w' = work_left ph tc th w)%nat.

Lemma quiet_job_step ph tc th w : quiet ph tc th w → posted w ≠ [] →
  ∃ w', step w ev_job w' ∧ goes_on ph tc th w ev_job w'.
Proof.
  intros Hw Hne. destruct (posted w) as [|j js] eqn:Hp; [done|].
  pose proof (q_jobs _ _ _ _ Hw) as Hj. rewrite Hp in Hj. apply Forall_cons in Hj as [Hj _].
  destruct j as [p| | | |x t ec]; try done; [|simpl in Hj; subst ec].
  - destruct (quiet_sends _ _ _ _ _ _ Hw Hp) as (w' & Hs & Hw' & Hk). exists w'. split; [done|]. by exists ph, tc.
  - pose proof (t_live _ _ _ _ _ _ _ (take_completion _ _ _ _ _ _ _ Hw Hp)) as Hl.
    destruct (decide (t = tc)) as [->|Htc]; [|destruct (decide (t = th)) as [->|Hth]].
    + pose proof (q_chain _ _ _ _ Hw) as Hc. rewrite Hl in Hc. destruct ph as [|[|more]|]; [| | |done];
        destruct Hc as (x' & [= <-] & Hx).
      * destruct (quiet_unauthenticated _ _ _ _ _ Hw Hp Hx) as (tc' & w' & Hs & Hw' & Hk).
        exists w'. split; [done|]. by exists (identifying retries), tc'.
      * destruct (quiet_given_up _ _ _ _ _ Hw Hp Hx) as (w' & Hs & Hw' & Hk). exists w'. split; [done|]. by exists told, tc.
      * destruct (quiet_again _ _ _ _ _ _ Hw Hp Hx) as (w' & Hs & Hw' & Hk). exists w'. split; [done|].
        by exists (identifying more), tc.
    + pose proof (q_heart _ _ _ _ Hw) as [Hh|(x' & Hh & Hx)]; rewrite Hl in Hh; [done|]. injection Hh as <-.
      destruct (quiet_heartbeat _ _ _ _ _ _ Hw Hp Hx) as (w' & Hs & Hw' & Hk). exists w'. split; [done|]. by exists ph, tc.
    + pose proof (q_rest _ _ _ _ Hw t Htc Hth) as Hr. by rewrite Hl in Hr.
Qed.

Lemma quiet_closed ph tc th w b pend : quiet ph tc th w → quiet ph tc th (set_socket_open b (set_pending pend w)).
Proof. intros Hw. apply (quiet_frame _ _ _ _ _ Hw); try done; apply Hw. Qed.

Lemma quiet_written ph tc th ec n w : quiet ph tc th w → writes w = S n →
  ∃ w', write_completed ec (set_writes n w) = Ret w' ∧ goes_on ph tc th w (ev_written ec) w'.
Proof.
  intros Hw Hn. destruct (q_write _ _ _ _ Hw) as [|(H1 & q & front & ws & Hq & Hwire)]; [lia|].
  assert (∃ w', write_completed ec (set_writes n w) = Ret w' ∧ posted w' = posted w ∧ timers w' = timers w ∧
    operations_map_ w' = operations_map_ w ∧ guids w' = guids w ∧ calls w' = calls w ∧ alive w' = alive w ∧
    settings_ w' = settings_ w ∧ connection_name_ w' = connection_name_ w ∧ package_no_ w' = package_no_ w ∧
    outbox w' = outbox w) as (w' & Hr & Hp & Ht & Ho & Hg & Hc & Ha & Hs & Hnm & Hno & Hout).
  { unfold write_completed, do_async_send, outbox. simpl. rewrite (q_alive _ _ _ _ Hw), Hq. simpl.
    destruct (failed ec); simpl; [|destruct q as [|next q]; simpl]; eexists; (split; [reflexivity|]); simpl;
      (split_and!; try done); rewrite ?Hq; simpl; try apply (q_alive _ _ _ _ Hw); by rewrite <- ?app_assoc. }
  exists w'. split; [done|]. exists ph, tc. split.
  - apply (quiet_frame _ _ _ _ _ Hw); try done; rewrite ?Hp; try done; [apply Hw|].
    eapply write_completed_ok; [exact Hn|exact Hr|apply Hw].
  - unfold work_left, at_timer. by rewrite Ht, Hp.
Qed.

Lemma quiet_step ph tc th w e o : quiet ph tc th w → silent e = true → exec e w = Some o →
  ∃ w', o = Ret w' ∧ goes_on ph tc th w e w'.
Proof.
  intros Hw He Ho. destruct e as [a| |t|ec|ec m n|? ?|?|d|?|]; cbn [silent] in He; try done; cbn [exec] in Ho.
  - destruct a; try done. injection Ho as <-. unfold effect. cbn [run_api]. unfold close. run_prog_steps.
    eexists. split; [reflexivity|]. exists ph, tc. split; [|done].
    replace (set_socket_open false w) with (set_socket_open false (set_pending (pending w) w)) by by destruct w.
    by apply quiet_closed.
  - destruct (quiet_job_step _ _ _ _ Hw) as (w' & Hs & Hg); [by destruct (posted w)|].
    exists w'. split; [|done]. unfold step in Hs. cbn [exec] in Hs. congruence.
  - destruct (timers w !! t) as [[d [x|]]|] eqn:Ht; [|done..]. injection Ho as <-.
    destruct (quiet_expires _ _ _ _ _ _ _ Hw Ht) as [Hw' Hk]. eexists. split; [reflexivity|]. by exists ph, tc.
  - destruct (writes w) as [|n] eqn:Hn; [done|]. injection Ho as <-.
    destruct (quiet_written _ _ _ ec n w Hw Hn) as (w' & -> & Hg). by exists w'.
  - unfold complete in Ho. destruct (take_pending is_receive (pending w)) as [[[] rest]|]; [|done]. injection Ho as <-.
    unfold effect, receive_completed, receive_token, close. run_prog_steps. rewrite (q_alive _ _ _ _ Hw), He.
    run_prog_steps. eexists. split; [reflexivity|]. exists ph, tc. split; [by apply quiet_closed|done].
  - injection Ho as <-. eexists. split; [reflexivity|]. exists ph, tc. split; [|done].
    apply (quiet_frame _ _ _ _ _ Hw); try done; apply Hw.
Qed.

Lemma quiet_run ph tc th w es w' : quiet ph tc th w → run step w es w' → Forall (λ e, silent e = true) es →
  ∃ ph' tc', quiet ph' tc' th w' ∧ (progress es + work_left ph' tc' th w' = work_left ph tc th w)%nat.
Proof.
  intros Hw Hr. revert ph tc Hw. induction Hr as [w|w e w1 es w' Hs _ IH]; intros ph tc Hw Hes.
  - by exists ph, tc.
  - apply Forall_cons in Hes as [He Hes]. destruct (quiet_step _ _ _ _ _ _ Hw He Hs) as (? & [= <-] & ph1 & tc1 & Hw1 & Hk).
    destruct (IH _ _ Hw1 Hes) as (ph2 & tc2 & Hw2 & Hk2). exists ph2, tc2. split; [done|].
    unfold progress in *. rewrite filter_cons. destruct (is_progress e); simpl in *; lia.
Qed.

(** With work left, the io_context can go on; without, the handler has been told. *)
Lemma quiet_progress ph tc th w : quiet ph tc th w →
  (work_left ph tc th w = 0%nat → ph = told ∧ posted w = [] ∧ ∀ t, live t w = []) ∧
  (work_left ph tc th w ≠ 0%nat → ∃ e w', is_progress e = true ∧ step w e w').
Proof.
  intros Hw. assert (∀ t, at_timer t w ≠ [] → ∃ e w', is_progress e = true ∧ step w e w') as Htimer.
  { intros t Hat. exists (ev_timer t). unfold at_timer in Hat. unfold step. cbn [exec].
    destruct (timers w !! t) as [[d [x|]]|]; [|done..]. by eexists. }
  destruct (posted w) as [|j js] eqn:Hp.
  - destruct (at_timer tc w) eqn:Ec.
    + assert (ph = told) as ->.
      { pose proof (q_chain _ _ _ _ Hw) as Hc. unfold live in Hc. rewrite Ec, Hp in Hc.
        destruct ph; [by destruct Hc as (? & [=] & _)..|done]. }
      destruct (at_timer th w) eqn:Eh.
      * split; [|unfold work_left; rewrite Ec, Eh, Hp; simpl; lia]. intros _. split_and!; [done..|]. intros t.
        destruct (decide (t = tc)) as [->|]; [by unfold live; rewrite Ec, Hp|].
        destruct (decide (t = th)) as [->|]; [by unfold live; rewrite Eh, Hp|]. by apply (q_rest _ _ _ _ Hw).
      * split; [unfold work_left; rewrite Eh; simpl; lia|]. intros _. apply (Htimer th). by rewrite Eh.
    + split; [unfold work_left; rewrite Ec; simpl; lia|]. intros _. apply (Htimer tc). by rewrite Ec.
  - split; [unfold work_left; rewrite Hp; simpl; lia|]. intros _.
    destruct (quiet_job_step _ _ _ _ Hw) as (w' & Hs & _); [by rewrite Hp|]. by exists ev_job, w'.
Qed.

(** The state in which the socket has just been connected. *)
Lemma quiet_start w t x h :
  first_wait anonymous 0 x → heartbeat_wait 0 h → adds t [x; h] w0 w →
  stage w0 {[fresh_guid 0 := first_operation cb anonymous 0 t]} 2 [first_command anonymous; Command.heartbeat_request_command] 0 w →
  timers w0 = [] → posted w0 = [] → writes w0 = 0%nat →
  let ph := if anonymous then identifying retries else authenticating in
  quiet ph 0 1 w ∧ work_left ph 0 1 w = (3 * ((if anonymous then 0 else 1) + retries) + 6)%nat.
Proof.
  intros Hx Hh (-> & (ts & Hts & Hxs) & (ps & Hps & Hlen) & _ & Hwr) [] Ht0 Hp0 Hw0 ph.
  rewrite Ht0, Hp0 in *. simpl in Hts, Hps. destruct ts as [|[d x'] [|[d' h'] [|]]]; simplify_eq/=.
  destruct ps as [|p [|p' [|]]]; simplify_eq/=.
  assert (∀ t, due t (posted w) = []) as Hd by by rewrite Hps.
  assert (at_timer 0 w = [x] ∧ at_timer 1 w = [h]) as [Hat Hat'] by (unfold at_timer; by rewrite Hts).
  split.
  - constructor; try done.
    + rewrite Hts. simpl. lia.
    + unfold live. rewrite Hat, Hd. unfold ph, first_wait in *. destruct anonymous eqn:E; (eexists; split; [done|]);
        unfold phase_wait; rewrite ?E; [|done]. rewrite Nat.sub_diag. by split.
    + unfold live. rewrite Hat', Hd. right. by exists h.
    + intros t Hn1 Hn2. unfold live, at_timer. rewrite Hts, Hd. by destruct t as [|[|]].
    + unfold ph, phase_operation, first_operation in *. destruct anonymous eqn:E; rewrite ?E.
      * by rewrite s_ops, lookup_singleton_eq.
      * split_and!; [by rewrite s_ops, lookup_singleton_eq|by rewrite s_ops, lookup_singleton_ne|done|done].
    + rewrite Hps. by repeat constructor.
    + rewrite s_calls. unfold ph. by destruct anonymous.
    + rewrite s_commands. unfold ph, phase_commands, first_command. destruct anonymous eqn:E; rewrite ?E; [|done].
      by rewrite Nat.sub_diag.
    + left. lia.
  - unfold work_left. rewrite Hat, Hat', Hps. unfold ph. destruct anonymous; simpl; lia.
Qed.
End rounds. End silence.

(** C9: A server that never answers does not keep the user waiting for ever.
    The client connects; let the server then be silent: in whatever order
    timers expire (the heartbeat's among them, which closes the socket), jobs
    run, time passes, writes end with or without an error, the read ends with
    one, and the user closes the connection.  In every such execution no step
    fails; the user's handler is called at most once, and with
    operation_timeout; there are at most 3 * (authentication + retries) + 6
    expirations and jobs, and as long as there have been fewer another one can
    come; and when there have been that many, no timer is armed, no job is
    left, and the handler has been called.  The packages sent are then one
    identification and max_reconnections() repetitions of it, after the
    authentication of a client with credentials, and one heartbeat request. *)
Theorem silent_server {AL : Allocator} {PB : Protobuf} {AE : AsioErrors} {GS : GuidSource} settings name cb e
    (Hsizes : identify_sizes (new_connection settings name))
    (Hmax : 0 ≤ max_reconnections_ settings < 2 ^ 32) (Hguids : fresh_guid 2 ≠ fresh_guid 0) :
  let anonymous := credentials_null (default_user_credentials_ settings) in
  let retries := Z.to_nat (max_reconnections_ settings) in
  let most := (3 * ((if anonymous then 0 else 1) + retries) + 6)%nat in
  let timed_out := [(cb, cb_connection (make_error_code operation_timeout, None))] in
  ∃ w1, run step (new_connection settings name)
      [ev_api (api_connect cb); ev_discovered success e; ev_connected success] w1 ∧
    ∀ es w, run step w1 es w → Forall (λ e, silent e = true) es →
      (∀ e o, silent e = true → exec e w = Some o → ∃ w', o = Ret w') ∧
      (calls w = [] ∨ calls w = timed_out) ∧
      (progress es ≤ most)%nat ∧
      (progress es ≠ most → ∃ e w', is_progress e = true ∧ step w e w') ∧
      (progress es = most → posted w = [] ∧ (∀ t, at_timer t w = []) ∧ calls w = timed_out ∧
        commands_sent w =
          (if anonymous then [Command.identify_client; Command.heartbeat_request_command]
           else [Command.authenticate; Command.heartbeat_request_command; Command.identify_client]) ++
          replicate retries Command.identify_client).
Proof.
  intros anonymous retries most timed_out.
  destruct (connect_prefix settings name cb e Hsizes) as (t & w1 & Hr & _ & (x & h & Hx & Hh & Ht) & Hs).
  exists w1. split; [exact Hr|]. intros es w Hes Hsilent.
  destruct (quiet_start (new_connection settings name) cb Hguids w1 t x h Hx Hh Ht Hs eq_refl eq_refl eq_refl)
    as [Hw1 Hwork].
  destruct (quiet_run _ _ Hsizes Hmax Hguids _ _ _ _ _ _ Hw1 Hes Hsilent) as (ph & tc & Hw & Hleft).
  rewrite Hwork in Hleft. change (progress es + work_left (new_connection settings name) ph tc 1 w = most)%nat in Hleft.
  destruct (quiet_progress _ _ Hsizes Hmax Hguids _ _ _ _ Hw) as [Hnone Hmore]. split_and!.
  - intros e' o He Ho. destruct (quiet_step _ _ Hsizes Hmax Hguids _ _ _ _ _ _ Hw He Ho) as (w' & -> & _). by exists w'.
  - rewrite (q_calls _ _ _ _ _ _ Hw). destruct ph; [by left..|by right].
  - lia.
  - intros Hne. apply Hmore. lia.
  - intros Hall. destruct Hnone as (-> & Hp & Hl); [lia|]. split_and!.
    + done.
    + intros t'. specialize (Hl t'). unfold live in Hl. by apply app_nil in Hl as [-> _].
    + apply (q_calls _ _ _ _ _ _ Hw).
    + apply (q_commands _ _ _ _ _ _ Hw).
Qed.

(** A client with credentials and two repetitions: the heartbeat's timer
    expires first and closes the socket, and the second write fails. *)
Lemma silent_server_witness :
  let settings := build_connection_settings
    [with_default_user_credentials (mk_user_credentials "admin" "changeit"); with_max_reconnections 2] in
  let connecting := [ev_api (api_connect 7); ev_discovered success (mk_endpoint "127.0.0.1" 1113); ev_connected success] in
  let es := [ev_job; ev_timer 1; ev_job; ev_written success; ev_job; ev_timer 0; ev_job; ev_timer 2; ev_elapse 7;
    ev_written (make_error_code connection_closed); ev_job; ev_job; ev_timer 2; ev_job; ev_job; ev_timer 2; ev_job; ev_job] in
  let w := after (AL := zero_allocator) (PB := sample_protobuf) (AE := linux_asio_errors) (GS := counting_guids)
    (connecting ++ es) (new_connection settings "ES-1") in
  max_reconnections_ settings = 2 ∧ socket_open w = false ∧
  calls w = [(7%nat, cb_connection (make_error_code operation_timeout, None))] ∧
  commands_sent w = [Command.authenticate; Command.heartbeat_request_command; Command.identify_client;
                     Command.identify_client; Command.identify_client].
Proof.
  intros settings connecting es w. split; [reflexivity|]. split; [vm_compute; reflexivity|].
  destruct (silent_server (AL := zero_allocator) (PB := sample_protobuf) (AE := linux_asio_errors)
    (GS := counting_guids) settings "ES-1" 7 (mk_endpoint "127.0.0.1" 1113)) as (w1 & Hr & Hall).
  - split; vm_compute; first [lia|reflexivity].
  - vm_compute. by split.
  - vm_compute. discriminate.
  - assert (run (step (AL := zero_allocator) (PB := sample_protobuf) (AE := linux_asio_errors) (GS := counting_guids))
      (new_connection settings "ES-1") (connecting ++ es) w) as Hrun.
    { unfold w. apply after_run. vm_compute. reflexivity. }
    destruct (run_app _ _ _ _ _ Hrun) as (w1' & Hr1 & Hr2).
    rewrite (run_functional _ _ _ _ Hr1 Hr) in Hr2.
    destruct (Hall es w Hr2) as (_ & _ & _ & _ & Hend).
    + unfold es. by repeat constructor.
    + destruct Hend as (_ & _ & Hc & Hcmd); [vm_compute; reflexivity|]. by split.
Defined.
