(* ===== verification/Points.v ===== *)
(** The states of a catch-up subscription between two events of its course:
    what of the world the theorems on whole courses follow, for the
    subscriptions to a stream and to the log alike. *)
From S2P Require Import Prelude Errors Basics BufferQueue TcpPackage Messages Events Settings Operations.
From S2P Require Import OperationsMap World Connection Requests ConnectOps Subscription Catchup Client Lifecycle.
From S2P Require Import Sending Steps.

(** What the sizes of messages depend on. *)
Class OfSettings (sizes : world → Prop) : Prop :=
  sizes_same w w' : alive w' = alive w → settings_ w' = settings_ w → sizes w → sizes w'.

Section points.
Context {AL : Allocator} {PB : Protobuf} {AE : AsioErrors} {GS : GuidSource}.
Context {this ea : nat} {w0 : world} {sizes : world → Prop} {stable : OfSettings sizes}.

(** [obj q]: the object, with the buffer [q]. *)
Record point (obj : event_queue → subscription) (buffered delivered : list resolved_event)
    (ops : operations_map operation_closure) (subs : operations_map subscription_closure)
    (g : nat) (pend : list async_op) (w : world) : Prop := {
  p_sizes : sizes w;
  p_pending : pending w = pend;
  p_ops : operations_map_ w = ops;
  p_subs : subscriptions_map_ w = subs;
  p_registrations : subs = ∅ → registrations w = registrations w0;
  p_object : ∃ q, objects w !! this = Some (obj q) ∧ q_rel q buffered;
  p_guids : guids w = g;
  p_calls : calls w = calls w0 ++ deliver ea delivered;
  p_posted : Forall inert (posted w)
}.

Lemma deliver_app cb l l' : deliver cb (l ++ l') = deliver cb l ++ deliver cb l'.
Proof. apply fmap_app. Qed.

Lemma point_counted obj b d ops subs g pend w : point obj b d ops subs g pend w → point obj b d ops subs g [] (counted w).
Proof. intros []. by constructor; try by apply (sizes_same w). Qed.

Lemma point_abort obj b d ops subs g pend t w :
  point obj b d ops subs g pend w → point obj b d ops subs g pend (abort_wait t w).
Proof.
  intros []. unfold abort_wait. destruct (timers w !! t) as [[e [x|]]|]; [|by constructor..].
  constructor; try done; [by apply (sizes_same w)|by apply Forall_app_2; [|repeat constructor]].
Qed.

(** After a read has been issued. *)
Lemma point_issued obj b d ops subs g pend p h w :
  point obj b d ops subs g pend w →
  ∃ t, point obj b d (register_op (fresh_guid g) (op_response h t) ops) subs (S g) pend (issued p h w).
Proof.
  intros []. exists (length (timers w)). unfold issued, sent_with. constructor; simpl; try done.
  - by apply (sizes_same w).
  - by subst.
  - by f_equal.
  - by apply Forall_app_2; [|repeat constructor].
Qed.

Lemma point_answered obj b d ops ops' subs g pend k w :
  point obj b d ops subs g pend w → erase k ops = ops' →
  point obj b d ops' subs g (pend ++ [async_receive]) (receiving (set_operations_map (erase k (operations_map_ w)) w)).
Proof. intros [] He. constructor; simpl; try done; [by apply (sizes_same w)|by f_equal|by subst]. Qed.

Lemma point_receiving obj b d ops subs g pend w :
  point obj b d ops subs g pend w → point obj b d ops subs g (pend ++ [async_receive]) (receiving w).
Proof. intros []. constructor; simpl; try done; [by apply (sizes_same w)|by f_equal]. Qed.

(** The object and its buffer have changed, and events have been delivered. *)
Lemma point_delivered obj obj' b b' d ops subs g pend l q w :
  point obj b d ops subs g pend w → q_rel q b' →
  point obj' b' (d ++ l) ops subs g pend
    (set_calls (calls w ++ deliver ea l) (set_objects (<[this := obj' q]> (objects w)) w)).
Proof.
  intros [] Hb. constructor; simpl; try done; [by apply (sizes_same w)| |].
  - exists q. split; [apply lookup_insert_eq|done].
  - by rewrite p_calls0, deliver_app, app_assoc.
Qed.

Lemma point_object obj obj' b b' d ops subs g pend q w :
  point obj b d ops subs g pend w → q_rel q b' →
  point obj' b' d ops subs g pend (set_objects (<[this := obj' q]> (objects w)) w).
Proof.
  intros [] Hb. constructor; simpl; try done; [by apply (sizes_same w)|]. exists q. split; [apply lookup_insert_eq|done].
Qed.

(** The jobs posted. *)
Lemma point_writes obj b d ops subs g pend js q ws k w :
  point obj b d ops subs g pend w → Forall inert js → point obj b d ops subs g pend (with_writes js q ws k w).
Proof. intros [] Hjs. constructor; simpl; try done. by apply (sizes_same w). Qed.

Lemma point_posts obj b d ops subs g pend js w :
  point obj b d ops subs g pend w → Forall inert js → point obj b d ops subs g pend (set_posted js w).
Proof. intros [] Hjs. constructor; simpl; try done. by apply (sizes_same w). Qed.

(** A subscription that starts: its lambda is registered, its package posted. *)
Lemma point_started obj obj' b d ops g pend dr s p q w :
  point obj b d ops ∅ g pend w → q_rel q b → set_handle_guard false s = obj' q →
  point obj' b d ops {[key_ s := mk_subscription_closure (registrations w0) this ea dr]} g pend (started this ea dr s p w).
Proof.
  intros [] Hq Ho. unfold started. rewrite p_subs0, p_registrations0, Ho, register_op_absent by done. constructor; simpl; try done.
  - by apply (sizes_same w).
  - exists q. split; [apply lookup_insert_eq|done].
  - by apply Forall_app_2; [|repeat constructor].
Qed.

(** ** The packages sent *)
Definition asks (p : tcp_package) (x : tcp_command * bytes) : Prop :=
  ∃ v, to_view p = Ret v ∧ command v = Ret x.1 ∧ message_bytes v = Ret x.2.
Definition asked (sent : list (tcp_command * bytes)) (w : world) : Prop :=
  ∃ ps, outbox w = outbox w0 ++ ps ∧ Forall2 asks ps sent.

Lemma asked_same sent w w' : asked sent w → outbox w' = outbox w → asked sent w'.
Proof. intros (ps & Hps & ?) E. exists ps. by rewrite E. Qed.

Lemma asked_more sent w w' p x : asked sent w → outbox w' = outbox w ++ [p] → asks p x → asked (sent ++ [x]) w'.
Proof.
  intros (ps & Hps & Hall) E Hp. exists (ps ++ [p]). rewrite E, Hps, app_assoc. split; [done|].
  apply Forall2_app; [done|by constructor].
Qed.

Lemma outbox_abort t w : outbox (abort_wait t w) = outbox w.
Proof.
  unfold abort_wait. destruct (timers w !! t) as [[d [x|]]|]; [|done..]. unfold outbox. simpl.
  by rewrite sends_app, app_nil_r.
Qed.

Lemma outbox_issued p h w : outbox (issued p h w) = outbox w ++ [p].
Proof. unfold outbox. simpl. by rewrite sends_app, !app_assoc. Qed.

Lemma outbox_started dr s p w : outbox (started this ea dr s p w) = outbox w ++ [p].
Proof. unfold outbox. simpl. by rewrite sends_app, !app_assoc. Qed.
End points.

Lemma erase_answered {GS : GuidSource} (g : nat) (op op' : operation_closure) :
  fresh_guid g ≠ fresh_guid (S g) →
  erase (fresh_guid g) (register_op (fresh_guid (S g)) op' {[fresh_guid g := op]}) = {[fresh_guid (S g) := op']}.
Proof.
  intros Hne. unfold erase. rewrite register_op_absent by by rewrite lookup_singleton_ne.
  rewrite delete_insert_ne by done. by rewrite delete_singleton_eq.
Qed.

Lemma erase_only {GS : GuidSource} (g : nat) (op : operation_closure) :
  erase (fresh_guid g) ({[fresh_guid g := op]} : operations_map operation_closure) = ∅.
Proof. unfold erase. apply delete_singleton_eq. Qed.

(** ** Sequences of answers *)

(** The slices the server answers with, each with the message that says it. *)
Definition slices : Type := list (list resolved_event * bytes).

(** What arrives while the missed events are read: their slices, and events
    pushed meanwhile. *)
Inductive message : Type :=
| a_slice (events : list resolved_event) (body : bytes)
| a_push (e : resolved_event) (body : bytes).

Definition message_sliced (m : message) : list resolved_event :=
  match m with a_slice events _ => events | a_push _ _ => [] end.
Definition message_pushed (m : message) : list resolved_event :=
  match m with a_slice _ _ => [] | a_push e _ => [e] end.
Definition sliced (ms : list message) : list resolved_event := ms ≫= message_sliced.
Definition pushed_while (ms : list message) : list resolved_event := ms ≫= message_pushed.
Definition reads (ms : list message) : nat :=
  length (omap (λ m, match m with a_slice _ _ => Some tt | a_push _ _ => None end) ms).

(** Packages of the server for the subscription with the id [key]. *)
Definition confirmation_of (key : guid_type) (body : bytes) : event := arrival Command.subscription_confirmation key body.
Definition event_of (key : guid_type) (body : bytes) : event := arrival Command.stream_event_appeared key body.

(** The events of the client: [answer g body] is the answer to the request with
    the [g]-th id, [push body] is an event pushed. *)
Section arrivals.
Context (answer : nat → bytes → event) (push : bytes → event).

Fixpoint answers_to_slices (g : nat) (hs : slices) : list event :=
  match hs with
  | [] => []
  | h :: hs => answer g h.2 :: answers_to_slices (S g) hs
  end.

Fixpoint arrivals (g : nat) (ms : list message) : list event :=
  match ms with
  | [] => []
  | a_slice _ body :: ms => answer g body :: arrivals (S g) ms
  | a_push _ body :: ms => push body :: arrivals g ms
  end.
End arrivals.
