(* ===== verification/CatchupRun.v ===== *)
(** A catch-up subscription to a stream from its start to live events, over
    the executions in which the server answers its reads: what the event
    handler is given, against the log of the stream. *)
From S2P Require Import Prelude Errors Basics BufferQueue TcpPackage Messages Events Settings Operations.
From S2P Require Import OperationsMap World Connection Requests ConnectOps Subscription Catchup Client Lifecycle.
From S2P Require Import Sending Steps Points.

Section run.
Context {AL : Allocator} {PB : Protobuf} {AE : AsioErrors} {GS : GuidSource}.
Context (this ea dr : nat) (key : guid_type) (stream : string) (cfg : catchup_subscription_settings) (w0 : world).

(** The answers of the server: the events of a slice, and a pushed event. *)
Definition slice_body (events : list resolved_event) (is_end : bool) (body : bytes) : Prop :=
  fits32 (length body) ∧
  let m := ParseFromArray body in
  rsec_result m = ReadStream_Success ∧
  transform_events resolved_of_ResolvedIndexedEvent (rsec_events m) = Ret events ∧
  rsec_is_end_of_stream m = is_end.
Definition event_body (e : resolved_event) (body : bytes) : Prop :=
  fits32 (length body) ∧ resolved_of_ResolvedEvent (sea_event (ParseFromArray body)) = Ret e ∧ is_Some (event_ e).
Definition confirmation_body (last : Z) (body : bytes) : Prop :=
  fits32 (length body) ∧ conf_last_event_number (ParseFromArray body) = Some last.

Definition slice_answer (g : nat) (body : bytes) : event :=
  arrival Command.read_stream_events_forward_completed (fresh_guid g) body.
Abbreviation confirmation := (confirmation_of key).
Abbreviation pushed_event := (event_of key).
Abbreviation slice_answers := (answers_to_slices slice_answer).
Abbreviation message_answers := (arrivals slice_answer pushed_event).

(** Between two answers. *)
Lemma stream_sizes w w' : alive w' = alive w → settings_ w' = settings_ w → catchup_sizes w stream → catchup_sizes w' stream.
Proof. intros Ha Hs [? [] ? ?]. split; [by rewrite Ha|split; by rewrite Hs|done..]. Qed.
#[local] Instance catchup_sizes_settings : OfSettings (λ w, catchup_sizes w stream) := stream_sizes.

Abbreviation at_point s n := (point (this := this) (ea := ea) (w0 := w0) (sizes := λ w, catchup_sizes w stream)
  (catchup_object s n cfg)).

Definition reading (from : Z) (reader : slice_reader) (g t : nat) : operations_map operation_closure :=
  {[fresh_guid g := op_response (on_read_stream_events stream from forward reader) t]}.

(** A slice answers the pending read. *)
Lemma slice_arrives s n b d subs g g' t from reader events is_end body w :
  at_point s n b d (reading from reader g t) subs g' [async_receive] w → slice_body events is_end body →
  ∃ slice w1, ses_events slice = events ∧ ses_is_end_of_stream slice = is_end ∧
    at_point s n b d (reading from reader g t) subs g' [] w1 ∧
    ∀ w2, run_prog (stream_slice_read reader success (Some slice)) w1 = Ret (tt, w2) →
      step w (slice_answer g body) (receiving (set_operations_map (erase (fresh_guid g) (operations_map_ w2)) w2)).
Proof.
  intros Hw (Hb & Hres & Hev & Hend).
  destruct (arrival_operation w (fresh_guid g) (op_response (on_read_stream_events stream from forward reader) t)
    Command.read_stream_events_forward_completed body) as (v & Hr & Hstep);
    [apply Hw|apply Hw|apply fresh_guid_wf|done|by rewrite (p_ops _ _ _ _ _ _ _ _ Hw); apply lookup_singleton_eq|].
  eexists (mk_stream_events_slice _ _ _ _ _ _ _), (abort_wait t (counted w)).
  split; [reflexivity|]. split; [reflexivity|]. split; [by eapply point_abort, point_counted|].
  intros w2 Hw2. apply Hstep. cbn [run_operation run_response]. run_prog_steps.
  unfold read_stream_events_handler. rewrite (check_command_expected _ _ (reads_command _ _ _ _ _ _ Hr)).
  cbn [mbind outcome_bind]. rewrite failed_success, (parse_view_ok _ _ (reads_message _ _ _ _ _ _ Hr)).
  cbn [mbind outcome_bind]. rewrite Hres. unfold make_stream_events_slice. rewrite Hev, Hend. run_prog_steps. exact Hw2.
Qed.

(** ** The historical phase *)
Section phases.
Context (key_wf : length key = 16%nat) (bound : nat)
  (guids_new : ∀ i, (i < bound)%nat → fresh_guid i ≠ key ∧ fresh_guid i ≠ fresh_guid (S i)).

Abbreviation historical := (slice_to_historical this ea dr).
Abbreviation closure := (mk_subscription_closure (registrations w0) this ea dr).

(** The object between its start and its end. *)
Record running (s : subscription) : Prop := {
  run_key : key_ s = key;
  run_stream : stream_ s = stream;
  run_open : handle_guard_ s = false
}.

Lemma historical_step s n d g t events body w :
  key_ s = key → stream_ s = stream → (g < bound)%nat → in_i64 n → in_i64 (n + Z.of_nat (length events)) →
  at_point s n [] d (reading n historical g t) ∅ (S g) [async_receive] w → slice_body events false body →
  ∃ t' w', step w (slice_answer g body) w' ∧
    at_point s (n + Z.of_nat (length events)) [] (d ++ events)
      (reading (n + Z.of_nat (length events)) historical (S g) t') ∅ (S (S g)) [async_receive] w'.
Proof.
  intros Hk Hst Hg Hn Hn' Hw Hbody.
  destruct (slice_arrives _ _ _ _ _ _ _ _ _ _ _ _ _ _ Hw Hbody) as (slice & w1 & <- & Hend & Hw1 & Hstep).
  destruct (p_object _ _ _ _ _ _ _ _ Hw1) as (q & Hq & Hrel).
  destruct (catchup_historical_phase this ea dr s n cfg q w1 Hq) as [Hphase _];
    [rewrite Hst; apply Hw1|by rewrite Hk|done|].
  destruct (Hphase slice Hn') as (_ & Hmore & _). destruct (Hmore Hend) as (p & v & _ & _ & _ & Hrun).
  pose proof (point_delivered _ (catchup_object s (n + Z.of_nat (length (ses_events slice))) cfg) _ _ _ _ _ _ _ (ses_events slice) q _ Hw1 Hrel) as Hd.
  destruct (point_issued _ _ _ _ _ _ _ p (on_read_stream_events stream (n + Z.of_nat (length (ses_events slice)))
    forward historical) _ Hd) as (t' & Hi).
  rewrite Hst in Hrun. exists t'. eexists. split; [apply Hstep; exact Hrun|].
  eapply (point_answered _ _ _ _ _ _ _ []); [exact Hi|]. apply erase_answered. by apply guids_new.
Qed.

Lemma historical_end s n d g t events body w :
  key_ s = key → stream_ s = stream → in_i64 n → in_i64 (n + Z.of_nat (length events)) →
  at_point s n [] d (reading n historical g t) ∅ (S g) [async_receive] w → slice_body events true body →
  ∃ w', step w (slice_answer g body) w' ∧
    at_point (set_handle_guard false s) (n + Z.of_nat (length events)) [] (d ++ events)
      ∅ {[key := closure]} (S g) [async_receive] w'.
Proof.
  intros Hk Hst Hn Hn' Hw Hbody.
  destruct (slice_arrives _ _ _ _ _ _ _ _ _ _ _ _ _ _ Hw Hbody) as (slice & w1 & <- & Hend & Hw1 & Hstep).
  destruct (p_object _ _ _ _ _ _ _ _ Hw1) as (q & Hq & Hrel).
  destruct (catchup_historical_phase this ea dr s n cfg q w1 Hq) as [Hphase _];
    [rewrite Hst; apply Hw1|by rewrite Hk|done|].
  destruct (Hphase slice Hn') as (_ & _ & Hlast). destruct (Hlast Hend) as (p & v & _ & _ & _ & Hrun).
  pose proof (point_delivered _ (catchup_object s (n + Z.of_nat (length (ses_events slice))) cfg) _ _ _ _ _ _ _ (ses_events slice) q _ Hw1 Hrel) as Hd.
  eexists. split; [apply Hstep; exact Hrun|].
  set (n' := n + Z.of_nat (length (ses_events slice))) in *.
  pose proof (point_started _ (catchup_object (set_handle_guard false s) n' cfg) _ _ _ _ _ dr
    (catchup_object s n' cfg q) p q _ Hd Hrel eq_refl) as Hp.
  rewrite (Hk : key_ (catchup_object s n' cfg q) = key) in Hp.
  eapply (point_answered _ _ _ _ _ _ _ []); [exact Hp|apply (erase_only g)].
Qed.

(** ** Packages for the subscription *)
Lemma catchup_lambda c s n q v w :
  objects w !! sc_this c = Some (catchup_object s n cfg q) →
  run_prog (subscription_lambda child_on_package_received c success v) w =
    run_prog (subscription_lambda catchup_on_package_received c success v) w.
Proof.
  intros Hs. unfold subscription_lambda. rewrite !run_bind, (run_get_object _ _ _ Hs). run_simpl.
  destruct (handle_guard_ _); [done|]. rewrite failed_success. unfold lambda_on_package. rewrite !run_bind.
  assert (run_prog (child_on_package_received c v) w = run_prog (catchup_on_package_received c v) w) as ->; [|done].
  unfold child_on_package_received. by rewrite run_bind, (run_get_object _ _ _ Hs).
Qed.

Lemma package_arrives s n b d ops g cmd body w :
  ops !! key = None → fits32 (length body) →
  at_point s n b d ops {[key := closure]} g [async_receive] w →
  ∃ v w1 q, command v = Ret cmd ∧ message_bytes v = Ret body ∧
    objects w1 !! this = Some (catchup_object s n cfg q) ∧ q_rel q b ∧
    at_point s n b d ops {[key := closure]} g [] w1 ∧
    ∀ w2, run_prog (subscription_lambda catchup_on_package_received closure success v) w1 = Ret (tt, w2) →
      step w (arrival cmd key body) (receiving w2).
Proof.
  intros Hops Hb Hw. apply point_counted in Hw as Hw1. destruct (p_object _ _ _ _ _ _ _ _ Hw1) as (q & Hq & Hrel).
  destruct (arrival_subscription w key closure cmd body) as (v & Hr & Hstep);
    [apply Hw|apply Hw|done|done|by rewrite (p_ops _ _ _ _ _ _ _ _ Hw)|
     rewrite (p_subs _ _ _ _ _ _ _ _ Hw); apply lookup_singleton_eq|].
  exists v, (counted w), q. split_and!; [apply Hr|apply Hr|done..|].
  intros w2 Hw2. apply Hstep. by rewrite (catchup_lambda _ s n q).
Qed.

(** The object once the server has confirmed the subscription. *)
Definition confirmed (last : Z) (body : bytes) (s : subscription) : subscription :=
  set_last_event_number last (confirm (conf_last_commit_position (ParseFromArray body)) s).

Lemma running_confirmed last body s : running s → running (confirmed last body s).
Proof. intros []. by split. Qed.

Lemma confirmation_step s n d g last body w :
  running s → in_i64 n → in_i64 (last - n) → confirmation_body last body →
  at_point s n [] d ∅ {[key := closure]} g [async_receive] w →
  ∃ w', step w (confirmation body) w' ∧
    if decide (n < last)
    then ∃ t, at_point (confirmed last body s) n [] d (reading n (slice_to_missed (registrations w0) this ea dr (last - n)) g t)
                {[key := closure]} (S g) [async_receive] w'
    else at_point (confirmed last body s) n [] d ∅ {[key := closure]} g [async_receive] w'.
Proof.
  intros [Hk Hst Hop] Hn Hc [Hb Hlast] Hw.
  destruct (package_arrives _ _ _ _ _ _ Command.subscription_confirmation body _ (lookup_empty _) Hb Hw)
    as (v & w1 & q & Hcmd & Hm & Hq & Hrel & Hw1 & Hstep).
  destruct (catchup_missed_phase closure v body last s n cfg q w1) as (Hmore & Hnone & _);
    [done|done|rewrite Hst; apply Hw1|done..|].
  pose proof (point_object _ (catchup_object (confirmed last body s) n cfg) _ _ _ _ _ _ _ q _ Hw1 Hrel) as Hw2.
  case_decide as Hlt.
  - destruct (Hmore Hlt) as (p & _ & _ & _ & Hrun). eexists. split; [apply Hstep; exact Hrun|].
    destruct (point_issued _ _ _ _ _ _ _ p (on_read_stream_events stream n forward
      (slice_to_missed (registrations w0) this ea dr (last - n))) _ Hw2) as (t & Hi).
    exists t. simpl. rewrite Hst. apply (point_receiving _ _ _ _ _ _ []). exact Hi.
  - eexists. split; [apply Hstep, Hnone; lia|]. by apply (point_receiving _ _ _ _ _ _ []).
Qed.

(** A pushed event is put into the buffer. *)
Lemma pushed_lambda s n q l e v body last w :
  running s → last_event_number_ s = Some last → Forall (λ e, is_Some (event_ e)) l →
  objects w !! this = Some (catchup_object s n cfg q) → q_rel q l →
  command v = Ret Command.stream_event_appeared → message_bytes v = Ret body → event_body e body →
  ∃ q', q_rel q' (l ++ [e]) ∧
    run_prog (subscription_lambda catchup_on_package_received closure success v) w =
      run_prog (if last >? n then skip
                else if q_size q' =? 1 then read_subscription_events (registrations w0) this ea else skip)
        (with_members this s n cfg q' w).
Proof.
  intros [Hk Hst Hop] Hlast Hl Hs Hq Hcmd Hm (_ & He & Hsome).
  destruct (q_emplace_back_rel q l e Hq) as (q' & Hemp & Hq'). exists q'. split; [done|].
  assert (∃ front, q_front q' = Ret front ∧ is_Some (event_ front)) as (front & Hfront & o & Ho).
  { destruct l as [|e0 l]; [exists e; split; [by eapply q_front_rel|done]|].
    apply Forall_cons in Hl as [Hl _]. exists e0. split; [by eapply q_front_rel|done]. }
  rewrite (open_lambda_package _ closure _ _ _ Hs) by done.
  unfold lambda_on_package, catchup_on_package_received. cbv zeta. cbn [sc_stamp sc_this sc_event_appeared]. rewrite run_bind, run_bind, run_perform, Hcmd. run_simpl.
  rewrite bool_decide_eq_false_2 by done. rewrite bool_decide_eq_true_2 by done.
  rewrite run_bind, run_perform, (parse_view_ok (M := StreamEventAppeared) _ _ Hm). run_simpl. rewrite run_bind, run_perform, He. run_simpl.
  rewrite run_bind, (run_catchup_members _ _ _ _ _ _ Hs). run_simpl. rewrite run_bind, run_perform, Hemp. run_simpl.
  rewrite run_bind, (run_set_catchup_members _ s n cfg q) by done. run_simpl.
  rewrite run_bind, run_perform, Hfront. run_simpl. rewrite run_bind, run_perform, Ho. run_simpl.
  rewrite run_bind, (run_get_object _ (catchup_object s n cfg q')) by apply lookup_insert_eq. run_simpl.
  rewrite run_bind, run_perform. change (last_event_number_ (catchup_object s n cfg q')) with (last_event_number_ s).
  rewrite Hlast. run_simpl. rewrite run_bind.
  by destruct (run_prog (if last >? n then skip else _) _) as [[[] ?]| |].
Qed.

Lemma pushed_step s n b d g from reader t last e body w :
  running s → last_event_number_ s = Some last → n < last → (g < bound)%nat → Forall (λ e, is_Some (event_ e)) b →
  event_body e body →
  at_point s n b d (reading from reader g t) {[key := closure]} (S g) [async_receive] w →
  ∃ w', step w (pushed_event body) w' ∧
    at_point s n (b ++ [e]) d (reading from reader g t) {[key := closure]} (S g) [async_receive] w'.
Proof.
  intros Hrun Hlast Hlt Hg Hbuf Hbody Hw.
  destruct (package_arrives _ _ _ _ _ _ Command.stream_event_appeared body _
    (lookup_singleton_ne _ _ _ (proj1 (guids_new g Hg))) (proj1 Hbody) Hw)
    as (v & w1 & q & Hcmd & Hm & Hq & Hrel & Hw1 & Hstep).
  destruct (pushed_lambda s n q b e v body last w1 Hrun Hlast Hbuf Hq Hrel Hcmd Hm Hbody) as (q' & Hrel' & Hr).
  rewrite (proj2 (Z.gtb_lt _ _)) in Hr by lia. eexists. split; [apply Hstep; exact Hr|].
  apply (point_receiving _ _ _ _ _ _ []). exact (point_object _ (catchup_object s n cfg) _ _ _ _ _ _ _ q' _ Hw1 Hrel').
Qed.

(** ** The missed events *)
Abbreviation missed count := (slice_to_missed (registrations w0) this ea dr count).

Lemma missed_step s n b d g t count events body w :
  running s → (g < bound)%nat → in_i64 n → in_i64 (n + Z.of_nat (length events)) →
  in_i64 (count - Z.of_nat (length events)) → Z.of_nat (length events) < count →
  at_point s n b d (reading n (missed count) g t) {[key := closure]} (S g) [async_receive] w →
  (∃ is_end, slice_body events is_end body) →
  ∃ t' w', step w (slice_answer g body) w' ∧
    at_point s (n + Z.of_nat (length events)) b (d ++ events)
      (reading (n + Z.of_nat (length events)) (missed (count - Z.of_nat (length events))) (S g) t')
      {[key := closure]} (S (S g)) [async_receive] w'.
Proof.
  intros [Hk Hst Hop] Hg Hn Hn' Hc Hlt Hw [is_end Hbody].
  destruct (slice_arrives _ _ _ _ _ _ _ _ _ _ _ _ _ _ Hw Hbody) as (slice & w1 & <- & Hend & Hw1 & Hstep).
  destruct (p_object _ _ _ _ _ _ _ _ Hw1) as (q & Hq & Hrel).
  destruct (missed_slice_run (registrations w0) this ea dr s n cfg q count slice w1 Hq) as [_ Hmore];
    [rewrite Hst; apply Hw1|unfold refers; by rewrite Hk, (p_subs _ _ _ _ _ _ _ _ Hw1), lookup_singleton_eq|done..|].
  destruct (Hmore ltac:(lia)) as (p & v & _ & _ & Hrun).
  pose proof (point_delivered _ (catchup_object s (n + Z.of_nat (length (ses_events slice))) cfg) _ _ _ _ _ _ _ (ses_events slice) q _ Hw1 Hrel) as Hd.
  destruct (point_issued _ _ _ _ _ _ _ p (on_read_stream_events stream (n + Z.of_nat (length (ses_events slice)))
    forward (missed (count - Z.of_nat (length (ses_events slice))))) _ Hd) as (t' & Hi).
  rewrite Hst in Hrun. exists t'. eexists. split; [apply Hstep; exact Hrun|].
  eapply (point_answered _ _ _ _ _ _ _ []); [exact Hi|]. apply erase_answered. by apply guids_new.
Qed.

(** The last of them: the delivery of the buffered events is posted. *)
Lemma missed_end s n b d g t count events body w :
  running s → in_i64 n → in_i64 (n + Z.of_nat (length events)) →
  in_i64 (count - Z.of_nat (length events)) → count ≤ Z.of_nat (length events) →
  at_point s n b d (reading n (missed count) g t) {[key := closure]} (S g) [async_receive] w →
  (∃ is_end, slice_body events is_end body) →
  ∃ js w', step w (slice_answer g body) w' ∧ posted w' = js ++ [read_buffered (registrations w0) this ea] ∧
    at_point s (n + Z.of_nat (length events)) b (d ++ events) ∅ {[key := closure]} (S g) [async_receive]
      (set_posted js w').
Proof.
  intros [Hk Hst Hop] Hn Hn' Hc Hlt Hw [is_end Hbody].
  destruct (slice_arrives _ _ _ _ _ _ _ _ _ _ _ _ _ _ Hw Hbody) as (slice & w1 & <- & Hend & Hw1 & Hstep).
  destruct (p_object _ _ _ _ _ _ _ _ Hw1) as (q & Hq & Hrel).
  destruct (missed_slice_run (registrations w0) this ea dr s n cfg q count slice w1 Hq) as [Hlast _];
    [rewrite Hst; apply Hw1|unfold refers; by rewrite Hk, (p_subs _ _ _ _ _ _ _ _ Hw1), lookup_singleton_eq|done..|].
  specialize (Hlast ltac:(lia)).
  pose proof (point_delivered _ (catchup_object s (n + Z.of_nat (length (ses_events slice))) cfg) _ _ _ _ _ _ _ (ses_events slice) q _ Hw1 Hrel) as Hd.
  exists (posted w1). eexists. split; [apply Hstep; exact Hlast|]. split; [done|].
  apply (point_answered _ _ _ _ ∅ _ _ [] (fresh_guid g)) in Hd; [|apply erase_only].
  destruct Hd. by constructor.
Qed.

(** ** The buffered events *)
(** read_subscription_events, wherever it is called. *)
Lemma read_buffered_run s n b d ops g pend w :
  running s → in_i64 n → in_i64 (n + Z.of_nat (length b)) →
  at_point s n b d ops {[key := closure]} g pend w →
  let k := Z.to_nat (max_live_queue_size cfg) in
  ∃ w', run_prog (read_subscription_events (registrations w0) this ea) w = Ret (tt, w') ∧
    posted w' = posted w ++ (if bool_decide (drop k b = []) then [] else [read_buffered (registrations w0) this ea]) ∧
    at_point s (n + Z.of_nat (length (take k b))) (drop k b) (d ++ take k b) ops {[key := closure]} g pend
      (set_posted (posted w) w').
Proof.
  intros [Hk Hst Hop] Hn Hn' Hw k. destruct (p_object _ _ _ _ _ _ _ _ Hw) as (q & Hq & Hrel).
  destruct (read_events_run k (registrations w0) this s ea cfg n q b w Hq Hrel) as (q' & Hrel' & Hrun);
    [unfold refers; by rewrite Hk, (p_subs _ _ _ _ _ _ _ _ Hw), lookup_singleton_eq|done..|].
  set (w1 := set_calls _ _) in Hrun.
  assert (objects w1 !! this = Some (catchup_object s (n + Z.of_nat (length (take k b))) cfg q')) as Hw1
    by apply lookup_with_members.
  exists (set_posted (posted w ++ (if bool_decide (drop k b = []) then [] else [read_buffered (registrations w0) this ea])) w1).
  split_and!; [|done|].
  - unfold read_subscription_events. rewrite run_bind, (run_catchup_members _ _ _ _ _ _ Hq). run_simpl.
    fold k. rewrite run_bind, Hrun. run_simpl. rewrite run_bind, (run_catchup_members _ _ _ _ _ _ Hw1). run_simpl.
    rewrite (q_empty_rel _ _ Hrel'). case_bool_decide; run_prog_steps; [|reflexivity]. by rewrite app_nil_r.
  - exact (point_delivered _ (catchup_object s (n + Z.of_nat (length (take k b))) cfg) _ _ _ _ _ _ _ (take k b) q' _
      Hw Hrel').
Qed.

(** The deliveries posted, when nothing else is: each posts the next. *)
Lemma buffered_delivered (live : 0 < max_live_queue_size cfg) s ops g : running s → ∀ b n d w,
  in_i64 n → in_i64 (n + Z.of_nat (length b)) → posted w = [read_buffered (registrations w0) this ea] →
  at_point s n b d ops {[key := closure]} g [async_receive] (set_posted [] w) →
  ∃ j w', run step w (replicate j ev_job) w' ∧
    at_point s (n + Z.of_nat (length b)) [] (d ++ b) ops {[key := closure]} g [async_receive] w'.
Proof.
  intros Hrun b. induction b as [b IH] using (induction_ltof1 _ length). intros n d w Hn Hn' Hp Hw.
  destruct (read_buffered_run _ _ _ _ _ _ _ _ Hrun Hn Hn' Hw) as (w1 & Hr & Hp1 & Hw1).
  set (k := Z.to_nat (max_live_queue_size cfg)) in *.
  assert (step w ev_job w1) as Hs.
  { destruct (p_object _ _ _ _ _ _ _ _ Hw) as (q & Hq & _).
    unfold step. cbn [exec]. rewrite Hp. cbn [run_job]. unfold effect, run_read_buffered.
    rewrite run_bind, (run_get_object _ _ _ Hq). run_simpl. cbn [catchup_object kind_ set_kind]. by rewrite Hr. }
  simpl in Hp1, Hw1. case_bool_decide as Hd.
  - exists 1%nat, w1. split; [by econstructor; [|constructor]|].
    assert (take k b = b) as Ht by (rewrite <- (take_drop k b) at 2; by rewrite Hd, app_nil_r).
    rewrite Hd, Ht in Hw1. destruct w1; simpl in Hp1; subst. exact Hw1.
  - assert (ltof _ length (drop k b) b) as Hlt.
    { unfold ltof. rewrite length_drop. destruct b; [by rewrite drop_nil in Hd|simpl; lia]. }
    assert (Z.of_nat (length (take k b)) + Z.of_nat (length (drop k b)) = Z.of_nat (length b)) as Hlen
      by (rewrite <- (take_drop k b) at 3; rewrite length_app; lia).
    destruct (IH _ Hlt (n + Z.of_nat (length (take k b))) (d ++ take k b) w1) as (j & w2 & Hr2 & Hw2);
      [unfold in_i64 in *; lia|unfold in_i64 in *; lia|done|exact Hw1|].
    exists (S j), w2. split; [by econstructor|].
    rewrite <- app_assoc, take_drop, <- Z.add_assoc, Hlen in Hw2. exact Hw2.
Qed.

(** ** Live events *)
Lemma live_step (live : 0 < max_live_queue_size cfg) s n d g last e body w :
  running s → last_event_number_ s = Some last → last ≤ n → in_i64 n → in_i64 (n + 1) → event_body e body →
  at_point s n [] d ∅ {[key := closure]} g [async_receive] w →
  ∃ w', step w (pushed_event body) w' ∧
    at_point s (n + 1) [] (d ++ [e]) ∅ {[key := closure]} g [async_receive] w'.
Proof.
  intros Hrun Hlast Hle Hn Hn' Hbody Hw.
  destruct (package_arrives _ _ _ _ _ _ Command.stream_event_appeared body _ (lookup_empty _) (proj1 Hbody) Hw)
    as (v & w1 & q & Hcmd & Hm & Hq & Hrel & Hw1 & Hstep).
  destruct (pushed_lambda s n q [] e v body last w1 Hrun Hlast (Forall_nil_2 _) Hq Hrel Hcmd Hm Hbody) as (q' & Hrel' & Hr).
  rewrite Z.gtb_ltb, (proj2 (Z.ltb_ge _ _)) in Hr by lia.
  assert (q_size q' = 1) as Hsize by (by rewrite (q_size_rel q' [e] Hrel')).
  rewrite Hsize in Hr. cbn [Z.eqb Pos.eqb] in Hr.
  assert (at_point s n [e] d ∅ {[key := closure]} g [] (with_members this s n cfg q' w1)) as Hw2.
    by exact (point_object _ (catchup_object s n cfg) _ _ _ _ _ _ _ q' _ Hw1 Hrel').
  destruct (read_buffered_run _ _ [e] _ _ _ _ _ Hrun Hn Hn' Hw2) as (w3 & Hr3 & Hp3 & Hw3).
  destruct (Z.to_nat (max_live_queue_size cfg)) as [|k] eqn:Ek; [lia|]. simpl take in *. simpl drop in *.
  rewrite take_nil, drop_nil in *. rewrite bool_decide_eq_true_2, app_nil_r in Hp3 by done.
  eexists. split; [apply Hstep; rewrite Hr; exact Hr3|]. apply (point_receiving _ _ _ _ _ _ []).
  rewrite <- Hp3 in Hw3. by destruct w3.
Qed.

(** ** Sequences of answers *)

Definition message_valid (m : message) : Prop :=
  match m with
  | a_slice events body => ∃ is_end, slice_body events is_end body
  | a_push e body => event_body e body
  end.

Lemma in_i64_between a b n : in_i64 a → in_i64 b → a ≤ n ≤ b → in_i64 n.
Proof. unfold in_i64. lia. Qed.

Lemma historical_run s hs : key_ s = key → stream_ s = stream → ∀ n d g t w,
  Forall (λ h, slice_body h.1 false h.2) hs → (g + length hs ≤ bound)%nat →
  in_i64 n → in_i64 (n + Z.of_nat (length (concat hs.*1))) →
  at_point s n [] d (reading n historical g t) ∅ (S g) [async_receive] w →
  ∃ t' w', run step w (slice_answers g hs) w' ∧
    at_point s (n + Z.of_nat (length (concat hs.*1))) [] (d ++ concat hs.*1)
      (reading (n + Z.of_nat (length (concat hs.*1))) historical (g + length hs) t') ∅ (S (g + length hs))
      [async_receive] w'.
Proof.
  intros Hk Hst. induction hs as [|[events body] hs IH]; intros n d g t w Hhs Hg Hn Hn' Hw; simpl in *.
  - exists t, w. rewrite Z.add_0_r, Nat.add_0_r, app_nil_r. split; [constructor|done].
  - apply Forall_cons in Hhs as [Hh Hhs]. rewrite length_app in *. rewrite Nat2Z.inj_add, Z.add_assoc, Nat.add_succ_r, app_assoc in *.
    assert (in_i64 (n + Z.of_nat (length events))) as Hm by (eapply in_i64_between; [exact Hn|exact Hn'|lia]).
    destruct (historical_step s n d g t events body w Hk Hst ltac:(lia) Hn Hm Hw Hh) as (t1 & w1 & Hs & Hw1).
    destruct (IH _ _ (S g) t1 w1 Hhs ltac:(lia) Hm Hn' Hw1) as (t2 & w2 & Hr & Hw2).
    exists t2, w2. split; [by econstructor|done].
Qed.

Lemma missed_run s last : running s → last_event_number_ s = Some last → ∀ ms n b d g t w,
  Forall message_valid ms → (g + reads ms < bound)%nat → Forall (λ e, is_Some (event_ e)) b →
  in_i64 n → in_i64 (last - n) → in_i64 last → n + Z.of_nat (length (sliced ms)) < last →
  at_point s n b d (reading n (missed (last - n)) g t) {[key := closure]} (S g) [async_receive] w →
  let n' := n + Z.of_nat (length (sliced ms)) in
  ∃ t' w', run step w (message_answers g ms) w' ∧ Forall (λ e, is_Some (event_ e)) (b ++ pushed_while ms) ∧
    at_point s n' (b ++ pushed_while ms) (d ++ sliced ms)
      (reading n' (missed (last - n')) (g + reads ms) t') {[key := closure]} (S (g + reads ms))
      [async_receive] w'.
Proof.
  intros Hrun Hlast. induction ms as [|m ms IH]; intros n b d g t w Hms Hg Hb Hn Hc Hl Hlt Hw n'.
  - exists t, w. subst n'. simpl. unfold reads, pushed_while. simpl.
    rewrite Z.add_0_r, Nat.add_0_r, !app_nil_r. split; [constructor|done].
  - apply Forall_cons in Hms as [Hm Hms]. destruct m as [events body|e body]; subst n'; cbn [arrivals message_valid] in *.
    + change (sliced (a_slice events body :: ms)) with (events ++ sliced ms) in *.
      change (pushed_while (a_slice events body :: ms)) with (pushed_while ms).
      change (reads (a_slice events body :: ms)) with (S (reads ms)) in *. rewrite length_app in *.
      rewrite Nat2Z.inj_add, Z.add_assoc, Nat.add_succ_r, (app_assoc d) in *.
      assert (in_i64 (n + Z.of_nat (length events))) as Hm' by (eapply in_i64_between; [exact Hn|exact Hl|lia]).
      destruct (missed_step s n b d g t (last - n) events body w Hrun ltac:(lia) Hn Hm') as (t1 & w1 & Hs & Hw1);
        [eapply (in_i64_between 0); [unfold in_i64; lia|exact Hc|lia]|lia|done|done|].
      replace (last - n - Z.of_nat (length events)) with (last - (n + Z.of_nat (length events))) in Hw1 by lia.
      destruct (IH (n + Z.of_nat (length events)) b (d ++ events) (S g) t1 w1 Hms ltac:(lia) Hb Hm') as (t2 & w2 & Hr & Hb2 & Hw2);
        [eapply (in_i64_between 0); [unfold in_i64; lia|exact Hc|lia]|done|lia|done|].
      exists t2, w2. split; [by econstructor|]. split; [exact Hb2|exact Hw2].
    + change (sliced (a_push e body :: ms)) with (sliced ms) in *.
      change (pushed_while (a_push e body :: ms)) with ([e] ++ pushed_while ms).
      change (reads (a_push e body :: ms)) with (reads ms) in *. rewrite (app_assoc b).
      destruct (pushed_step s n b d g n (missed (last - n)) t last e body w Hrun Hlast) as (w1 & Hs & Hw1);
        [lia|lia|done|done|done|].
      destruct (IH n (b ++ [e]) d g t w1 Hms) as (t2 & w2 & Hr & Hb2 & Hw2);
        [done|apply Forall_app_2; [done|repeat constructor; apply Hm]|done|done|done|done|done|].
      exists t2, w2. split; [by econstructor|]. split; [exact Hb2|exact Hw2].
Qed.

Lemma live_run (live : 0 < max_live_queue_size cfg) s g last : running s → last_event_number_ s = Some last →
  ∀ ls n d w, last ≤ n → in_i64 n → in_i64 (n + Z.of_nat (length ls)) → Forall (λ l, event_body l.1 l.2) ls →
  at_point s n [] d ∅ {[key := closure]} g [async_receive] w →
  ∃ w', run step w (pushed_event ∘ snd <$> ls) w' ∧
    at_point s (n + Z.of_nat (length ls)) [] (d ++ ls.*1) ∅ {[key := closure]} g [async_receive] w'.
Proof.
  intros Hrun Hlast. induction ls as [|[e body] ls IH]; intros n d w Hle Hn Hn' Hls Hw; simpl.
  - exists w. rewrite Z.add_0_r, app_nil_r. split; [constructor|done].
  - apply Forall_cons in Hls as [Hl Hls]. simpl length in Hn'.
    assert (in_i64 (n + 1)) as Hm by (eapply in_i64_between; [exact Hn|exact Hn'|lia]).
    destruct (live_step live s n d g last e body w Hrun Hlast Hle Hn Hm Hl Hw) as (w1 & Hs & Hw1).
    replace (n + Z.of_nat (S (length ls))) with (n + 1 + Z.of_nat (length ls)) in * by lia.
    destruct (IH (n + 1) (d ++ [e]) w1 ltac:(lia) Hm Hn' Hls Hw1) as (w2 & Hr & Hw2).
    rewrite <- app_assoc in Hw2. exists w2. split; [by econstructor|exact Hw2].
Qed.

(** The last slice of the missed events, what was posted before it, and the
    delivery of the buffered events. *)
Lemma missed_end_run (live : 0 < max_live_queue_size cfg) s n b d g t last events body w :
  running s → in_i64 n → in_i64 (last - n) → n + Z.of_nat (length events) = last → in_i64 (last + Z.of_nat (length b)) →
  at_point s n b d (reading n (missed (last - n)) g t) {[key := closure]} (S g) [async_receive] w →
  (∃ is_end, slice_body events is_end body) →
  ∃ j w', run step w (slice_answer g body :: replicate j ev_job) w' ∧
    at_point s (last + Z.of_nat (length b)) [] (d ++ events ++ b) ∅ {[key := closure]} (S g) [async_receive] w'.
Proof.
  intros Hrun Hn Hc Hlast Hb Hw Hbody.
  assert (in_i64 last) as Hl.
  { destruct (decide (0 ≤ n)); [|eapply (in_i64_between n); [exact Hn|exact Hb|lia]].
    eapply (in_i64_between 0); [unfold in_i64; lia|exact Hb|lia]. }
  destruct (missed_end s n b d g t (last - n) events body w) as (js & w1 & Hs & Hp & Hw1);
    [done|done|by rewrite Hlast|by replace (last - n - Z.of_nat (length events)) with 0 by lia|lia|done|done|].
  rewrite Hlast in Hw1.
  destruct (drain_jobs js [read_buffered (registrations w0) this ea] w1) as (q & ws & k & Hr & _);
    [apply (catchup_alive _ _ (p_sizes _ _ _ _ _ _ _ _ Hw1))|apply (p_posted _ _ _ _ _ _ _ _ Hw1)|done|].
  destruct (buffered_delivered live s ∅ (S g) Hrun b last (d ++ events) (with_writes [read_buffered (registrations w0) this ea] q ws k w1))
    as (j & w2 & Hr2 & Hw2); [done|done|done| |].
  - apply (point_writes _ _ _ _ _ _ _ [] q ws k) in Hw1; [|constructor]. by destruct w1.
  - exists (length js + j)%nat, w2. rewrite <- app_assoc in Hw2. split; [|done].
    econstructor; [exact Hs|]. rewrite replicate_add. by eapply run_trans.
Qed.
End phases.

(** ** The whole course *)

(** A connection that is ready, with nothing under way. *)
Record idle : Prop := {
  idle_sizes : catchup_sizes w0 stream;
  idle_pending : pending w0 = [async_receive];
  idle_ops : operations_map_ w0 = ∅;
  idle_subs : subscriptions_map_ w0 = ∅;
  idle_posted : Forall inert (posted w0)
}.

Definition segment {A} (i j : nat) (l : list A) : list A := take (j - i) (drop i l).

Lemma segment_app {A} i j k (l : list A) : (i ≤ j ≤ k)%nat → segment i j l ++ segment j k l = segment i k l.
Proof.
  intros [Hij Hjk]. unfold segment. replace (drop j l) with (drop (j - i) (drop i l)) by (rewrite drop_drop; f_equal; lia).
  replace (k - i)%nat with ((j - i) + (k - j))%nat by lia. by rewrite take_take_drop.
Qed.
Lemma segment_length {A} i j (l : list A) : (i ≤ j ≤ length l)%nat → length (segment i j l) = (j - i)%nat.
Proof. intros. unfold segment. rewrite length_take, length_drop. lia. Qed.
Lemma segment_drop {A} i j (l : list A) : (i ≤ j)%nat → segment i j l ++ drop j l = drop i l.
Proof.
  intros Hij. unfold segment. replace (drop j l) with (drop (j - i) (drop i l)) by (rewrite drop_drop; f_equal; lia).
  apply take_drop.
Qed.

(** What the server says: the slices up to the end of the stream, the last of
    them apart; the confirmation; the slices of the missed events, if the
    client asks for any, with the events pushed meanwhile, the last slice
    apart; and the events pushed from then on. *)
Record answers : Type := mk_answers {
  a_historical : slices;
  a_end : list resolved_event * bytes;
  a_confirmation : bytes;
  a_missed : option (list message * (list resolved_event * bytes));
  a_live : list (resolved_event * bytes)
}.

Definition pushes (a : answers) : list resolved_event :=
  match a_missed a with None => [] | Some (ms, _) => pushed_while ms end ++ (a_live a).*1.

(** The server answers according to [log]: the historical slices give the
    events from [n0] to the end of the stream, which is at [h]; when the
    subscription is confirmed, the last event is number [last]; the client asks
    for the events between, if [h < last]; and all the later events are pushed. *)
Record serves (log : list resolved_event) (n0 h : nat) (last : Z) (a : answers) : Prop := {
  sv_bounds : (n0 ≤ h ≤ length log)%nat ∧ Z.of_nat h - 1 ≤ last < Z.of_nat (length log);
  sv_historical : Forall (λ s, slice_body s.1 false s.2) (a_historical a);
  sv_end : slice_body (a_end a).1 true (a_end a).2;
  sv_read : concat (a_historical a).*1 ++ (a_end a).1 = segment n0 h log;
  sv_confirmation : confirmation_body last (a_confirmation a);
  sv_missed : match a_missed a with
    | None => last ≤ Z.of_nat h
    | Some (ms, (events, body)) => Forall message_valid ms ∧ (∃ is_end, slice_body events is_end body) ∧
        events ≠ [] ∧ sliced ms ++ events = segment h (Z.to_nat last) log
    end;
  sv_live : Forall (λ l, event_body l.1 l.2) (a_live a);
  sv_pushes : pushes a = drop (Z.to_nat (last + 1)) log
}.

(** The course of the subscription, [j] jobs being run after the last slice. *)
Definition course (n0 : nat) (a : answers) (j : nat) : list event :=
  let g := guids w0 in
  [ev_api (api_new_subscription this key (args_catchup stream (Z.of_nat n0) cfg));
   ev_api (api_start_subscription this ea dr)] ++
  slice_answers g (a_historical a) ++ [slice_answer (g + length (a_historical a)) (a_end a).2] ++
  [confirmation (a_confirmation a)] ++
  match a_missed a with
  | None => []
  | Some (ms, (_, body)) =>
      let g := S (g + length (a_historical a)) in
      message_answers g ms ++ slice_answer (g + reads ms) body :: replicate j ev_job
  end ++
  (pushed_event ∘ snd <$> a_live a).

(** The number of guids it takes. *)
Definition course_guids (a : answers) : nat :=
  guids w0 + S (length (a_historical a)) + match a_missed a with None => 0 | Some (ms, _) => S (reads ms) end.

Lemma course_start n0 : idle →
  ∃ s t w, key_ s = key ∧ stream_ s = stream ∧
    run step w0 [ev_api (api_new_subscription this key (args_catchup stream n0 cfg));
                 ev_api (api_start_subscription this ea dr)] w ∧
    at_point s n0 [] [] (reading n0 (slice_to_historical this ea dr) (guids w0) t) ∅ (S (guids w0)) [async_receive] w.
Proof.
  intros []. set (s := make_catchup_subscription key stream n0 cfg).
  set (w1 := set_objects (<[this := s]> (objects w0)) w0).
  assert (at_point s n0 [] [] ∅ ∅ (guids w0) [async_receive] w1) as Hw1.
  { constructor; simpl; try done; [by apply (stream_sizes w0)| |by rewrite app_nil_r].
    exists q_new. split; [apply lookup_insert_eq|exact (q_new_rel (T := resolved_event) (Q := event_queue))]. }
  destruct (catchup_async_start_run this s n0 cfg q_new ea dr w1) as (p & v & _ & _ & _ & Hrun);
    [apply lookup_insert_eq|apply Hw1|].
  destruct (point_issued _ _ _ _ _ _ _ p (on_read_stream_events stream n0 forward (slice_to_historical this ea dr)) _ Hw1)
    as (t & Hi).
  assert (∀ x, run_prog (catchup_async_start this ea dr) w1 = Ret x →
    run_prog (start_subscription this ea dr) w1 = Ret x) as Hstart.
  { intros x Hx. unfold start_subscription. by rewrite run_bind, (run_get_object _ s) by apply lookup_insert_eq. }
  exists s, t. eexists. split; [done|]. split; [done|]. split; [|exact Hi].
  apply (run_step _ _ _ w1); [|econstructor; [|constructor]]; unfold step; cbn [exec run_api]; unfold effect.
  - by rewrite run_perform.
  - by rewrite (Hstart _ Hrun).
Qed.

(** Up to the confirmation. *)
Lemma course_confirmed bound log n0 h last a :
  length key = 16%nat → (∀ i, (i < bound)%nat → fresh_guid i ≠ key ∧ fresh_guid i ≠ fresh_guid (S i)) →
  idle → Z.of_nat (length log) < 2 ^ 63 → serves log n0 h last a → (guids w0 + length (a_historical a) < bound)%nat →
  let g := (guids w0 + length (a_historical a))%nat in
  let n := Z.of_nat h in
  ∃ s w, running s ∧ last_event_number_ s = Some last ∧
    run step w0 ([ev_api (api_new_subscription this key (args_catchup stream (Z.of_nat n0) cfg));
        ev_api (api_start_subscription this ea dr)] ++
      slice_answers (guids w0) (a_historical a) ++ [slice_answer g (a_end a).2] ++ [confirmation (a_confirmation a)]) w ∧
    let d := segment n0 h log in
    let subs := {[key := mk_subscription_closure (registrations w0) this ea dr]} in
    if decide (n < last)
    then ∃ t, at_point s n [] d (reading n (slice_to_missed (registrations w0) this ea dr (last - n)) (S g) t) subs (S (S g)) [async_receive] w
    else at_point s n [] d ∅ subs (S g) [async_receive] w.
Proof.
  intros Hkey Hguids Hidle Hlog [[Hh Hlast] Hhist Hend Hread Hconf _ _ _] Hbound g n.
  assert (length (concat (a_historical a).*1) + length (a_end a).1 = h - n0)%nat as Hlen
    by (by rewrite <- length_app, Hread, segment_length).
  destruct (course_start (Z.of_nat n0) Hidle) as (s & t & w1 & Hk & Hst & Hr1 & Hw1).
  destruct (historical_run Hkey bound Hguids s (a_historical a) Hk Hst (Z.of_nat n0) [] (guids w0) t w1)
    as (t2 & w2 & Hr2 & Hw2); [done|lia|unfold in_i64; lia|unfold in_i64; lia|done|].
  edestruct (historical_end Hkey s) as (w3 & Hs3 & Hw3); [done|done| | |exact Hw2|exact Hend|];
    [unfold in_i64; lia..|].
  rewrite app_nil_l, Hread in Hw3.
  replace (Z.of_nat n0 + _ + _) with n in Hw3 by (subst n; lia).
  destruct (confirmation_step Hkey (set_handle_guard false s) n (segment n0 h log) (S g) last (a_confirmation a) w3)
    as (w4 & Hs4 & Hw4); [done|unfold in_i64; lia..|done|done|].
  exists (confirmed last (a_confirmation a) (set_handle_guard false s)), w4. split_and!.
  - apply running_confirmed. by split.
  - done.
  - eapply run_trans; [exact Hr1|]. eapply run_trans; [exact Hr2|]. do 2 (econstructor; [eassumption|]). constructor.
  - exact Hw4.
Qed.
(** The events pushed once the earlier ones have been delivered. *)
Lemma live_delivered s last g ls n d w :
  length key = 16%nat → 0 < max_live_queue_size cfg → running s → last_event_number_ s = Some last →
  last ≤ n → in_i64 n → in_i64 (n + Z.of_nat (length ls)) → Forall (λ l, event_body l.1 l.2) ls →
  at_point s n [] d ∅ {[key := mk_subscription_closure (registrations w0) this ea dr]} g [async_receive] w →
  ∃ q w', run step w (pushed_event ∘ snd <$> ls) w' ∧ calls w' = calls w0 ++ deliver ea (d ++ ls.*1) ∧
    objects w' !! this = Some (catchup_object s (n + Z.of_nat (length ls)) cfg q) ∧ q_rel q [] ∧
    is_Some (subscriptions_map_ w' !! key).
Proof.
  intros Hkey Hlive Hrun Hlast Hle Hn Hn' Hls Hw.
  destruct (live_run Hkey Hlive s g last Hrun Hlast ls n d w Hle Hn Hn' Hls Hw) as (w' & Hr & []).
  destruct p_object as (q & Hq & Hrel). exists q, w'. split_and!; [done..|].
  rewrite p_subs, lookup_singleton_eq. eauto.
Qed.

(** The missed events, those buffered meanwhile, and those pushed later. *)
Lemma missed_delivered bound s last g ms events body ls n d t w :
  length key = 16%nat → (∀ i, (i < bound)%nat → fresh_guid i ≠ key ∧ fresh_guid i ≠ fresh_guid (S i)) →
  0 < max_live_queue_size cfg → running s → last_event_number_ s = Some last → (g + reads ms < bound)%nat →
  0 ≤ n → n + Z.of_nat (length (sliced ms ++ events)) = last → events ≠ [] →
  in_i64 (last + Z.of_nat (length (pushed_while ms ++ ls.*1))) →
  Forall message_valid ms → (∃ is_end, slice_body events is_end body) → Forall (λ l, event_body l.1 l.2) ls →
  at_point s n [] d (reading n (slice_to_missed (registrations w0) this ea dr (last - n)) g t)
    {[key := mk_subscription_closure (registrations w0) this ea dr]} (S g) [async_receive] w →
  ∃ j q w', run step w (message_answers g ms ++ (slice_answer (g + reads ms) body :: replicate j ev_job) ++
      (pushed_event ∘ snd <$> ls)) w' ∧
    calls w' = calls w0 ++ deliver ea (d ++ (sliced ms ++ events) ++ pushed_while ms ++ ls.*1) ∧
    objects w' !! this = Some (catchup_object s (last + Z.of_nat (length (pushed_while ms ++ ls.*1))) cfg q) ∧
    q_rel q [] ∧ is_Some (subscriptions_map_ w' !! key).
Proof.
  intros Hkey Hguids Hlive Hrun Hlast Hg Hn Hn' Hne Hmax Hms Hbody Hls Hw. rewrite ?length_app, ?length_fmap in *.
  assert (0 < length events)%nat as Hpos by (destruct events; [done|simpl; lia]).
  destruct (missed_run Hkey bound Hguids s last Hrun Hlast ms n [] d g t w) as (t1 & w1 & Hr1 & Hb1 & Hw1);
    [done|done|done|unfold in_i64 in *; lia..|done|]. simpl app in Hw1.
  destruct (missed_end_run Hkey Hlive s (n + Z.of_nat (length (sliced ms))) (pushed_while ms) (d ++ sliced ms)
    (g + reads ms) t1 last events body w1 Hrun) as (j & w2 & Hr2 & Hw2); [unfold in_i64 in *; lia..|done|done|].
  destruct (live_delivered s last (S (g + reads ms)) ls (last + Z.of_nat (length (pushed_while ms)))
    ((d ++ sliced ms) ++ events ++ pushed_while ms) w2) as (q & w3 & Hr3 & Hc & Ho & Hq & Hsub);
    [done|done|done|done|lia|unfold in_i64 in *; lia..|done|done|].
  exists j, q, w3. split_and!; [|by rewrite Hc, <- !app_assoc| |done|done].
  - eapply run_trans; [exact Hr1|]. by eapply run_trans.
  - by rewrite Nat2Z.inj_add, Z.add_assoc.
Qed.
End run.

(** C6: What a catch-up subscription to a stream delivers, over its whole
    course: the reads up to the end of the stream, in any slices; the
    subscription and its confirmation; the reads of the events written
    meanwhile, in any slices and with events pushed in between; the delivery of
    the buffered events, as many at a time as max_live_queue_size() says; and
    the events pushed from then on.  Against the log of the stream from which
    the server answers, the event handler gets every event from the starting
    number on once and in order, with one exception: when anything was written
    between the end of the reads and the confirmation, the event whose number
    the confirmation gives is left out, and the subscription's event number is
    one behind from then on. *)
Theorem catchup_delivers_log {AL : Allocator} {PB : Protobuf} {AE : AsioErrors} {GS : GuidSource}
    this ea dr key stream cfg w0 log n0 h last a
    (Hidle : idle stream w0) (Hkey : length key = 16%nat) (Hlive : 0 < max_live_queue_size cfg)
    (Hguids : ∀ i, (i < course_guids w0 a)%nat → fresh_guid i ≠ key ∧ fresh_guid i ≠ fresh_guid (S i))
    (Hlog : Z.of_nat (length log) < 2 ^ 63) (Hserver : serves log n0 h last a) :
  let given := if last <? Z.of_nat h then drop n0 log
               else segment n0 (Z.to_nat last) log ++ drop (S (Z.to_nat last)) log in
  ∃ j s q w, run step w0 (course this ea dr key stream cfg w0 n0 a j) w ∧
    calls w = calls w0 ++ deliver ea given ∧
    objects w !! this = Some (catchup_object s (Z.of_nat (n0 + length given)) cfg q) ∧ q_rel q [] ∧
    last_event_number_ s = Some last ∧ is_Some (subscriptions_map_ w !! key).
Proof.
  intros given. pose proof Hserver as [[Hh Hlast] _ _ _ _ Hmissed Hlv Hpush]. unfold pushes in Hpush.
  pose proof (length_drop log (Z.to_nat (last + 1))) as Hlen. rewrite <- Hpush, length_app, length_fmap in Hlen.
  destruct (course_confirmed this ea dr key stream cfg w0 (course_guids w0 a) log n0 h last a)
    as (s & w1 & Hrun & Hsl & Hr1 & Hw1); [done..|unfold course_guids; lia|].
  pose proof (segment_length n0 h log Hh) as Hseg.
  unfold course, course_guids in *. destruct (a_missed a) as [[ms [events body]]|].
  - destruct Hmissed as (Hms & Hend & Hne & Hsl2).
    assert (Z.of_nat h < last).
    { destruct (decide (Z.of_nat h < last)); [done|]. unfold segment in Hsl2.
      replace (Z.to_nat last - h)%nat with 0%nat in Hsl2 by lia. by apply app_nil in Hsl2 as [_ ->]. }
    pose proof (segment_length h (Z.to_nat last) log ltac:(lia)) as Hseg2. rewrite <- Hsl2, length_app in Hseg2.
    rewrite decide_True in Hw1 by done. destruct Hw1 as [t Hw1].
    destruct (missed_delivered this ea dr key stream cfg w0
      (guids w0 + S (length (a_historical a)) + S (reads ms)) s last
      (S (guids w0 + length (a_historical a))) ms events body (a_live a) (Z.of_nat h) (segment n0 h log) t w1)
      as (j & q & w2 & Hr2 & Hc & Ho & Hq & Hsub);
      [done|exact Hguids|done|done|done|lia|lia|rewrite length_app; lia|done|
       rewrite length_app, length_fmap; unfold in_i64; lia|done..|].
    rewrite Hpush, Hsl2, (app_assoc _ (segment h _ _)), segment_app in Hc by lia. rewrite Hpush in Ho.
    assert (given = segment n0 (Z.to_nat last) log ++ drop (Z.to_nat (last + 1)) log) as Hgiven
      by (unfold given; rewrite (proj2 (Z.ltb_ge _ _)) by lia; do 2 f_equal; lia).
    rewrite Hgiven. exists j, s, q, w2. split_and!; [|done| |done..].
    + pose proof (run_trans _ _ _ _ _ _ Hr1 Hr2) as Hr. rewrite <- !app_assoc in *. exact Hr.
    + rewrite Ho. do 3 f_equal. rewrite length_app, segment_length by lia. lia.
  - rewrite decide_False in Hw1 by lia.
    destruct (live_delivered this ea dr key stream cfg w0 s last (S (guids w0 + length (a_historical a))) (a_live a) (Z.of_nat h) (segment n0 h log) w1)
      as (q & w2 & Hr2 & Hc & Ho & Hq & Hsub); [done..|lia|unfold in_i64; lia|unfold in_i64; lia|done|exact Hw1|].
    rewrite app_nil_l in Hpush. rewrite Hpush in Hc.
    assert (given = segment n0 h log ++ drop (Z.to_nat (last + 1)) log) as Hgiven.
    { unfold given. destruct (last <? Z.of_nat h) eqn:E.
      - replace (Z.to_nat (last + 1)) with h by lia. by rewrite segment_drop by lia.
      - replace (Z.to_nat last) with h by lia. do 2 f_equal. lia. }
    rewrite Hgiven. exists 0%nat, s, q, w2. split_and!; [|done| |done..].
    + pose proof (run_trans _ _ _ _ _ _ Hr1 Hr2) as Hr. rewrite <- !app_assoc in *. exact Hr.
    + rewrite Ho. do 3 f_equal. rewrite length_app, Hseg, <- Hpush, length_fmap. lia.
Qed.

(** The server's log has eight events: the client reads event 0 and, at the end
    of the stream, subscribes; the confirmation says that the last event is
    number 5; events 1 to 4 are read, 6 is pushed meanwhile and 7 later. *)
Definition sample_indexed_event (n : Z) : resolved_event :=
  match resolved_of_ResolvedIndexedEvent (sample_indexed n) with
  | Ret e => e
  | _ => mk_resolved_event None None None
  end.
Definition sample_answers : answers := {|
  a_historical := [];
  a_end := ([sample_indexed_event 0], [x00]);
  a_confirmation := [x00];
  a_missed := Some (
    [a_slice [sample_indexed_event 1] [x01]; a_slice [sample_indexed_event 2] [x02];
     a_push (sample_event 6) [x06]; a_slice [sample_indexed_event 3] [x03]],
    ([sample_indexed_event 4], [x04]));
  a_live := [(sample_event 7, [x07])]
|}.

Lemma catchup_delivers_log_witness :
  let slices := sample_indexed_event <$> ([0; 1; 2; 3; 4; 5] : list Z) in
  let log := slices ++ [sample_event 6; sample_event 7] in
  let cfg := default_catchup_subscription_settings in
  idle (PB := sample_protobuf) (AE := linux_asio_errors) "stream" sample_connected ∧
  serves (PB := sample_protobuf) log 0 1 5 sample_answers ∧
  ∃ j w, run (step (AL := zero_allocator) (PB := sample_protobuf) (AE := linux_asio_errors) (GS := counting_guids))
      sample_connected
      (course (GS := counting_guids) 0 1 2 (replicate 16 x05) "stream" cfg sample_connected 0 sample_answers j) w ∧
    calls w = calls sample_connected ++ deliver 1 (take 5 slices ++ [sample_event 6; sample_event 7]).
Proof.
  intros slices log cfg.
  assert (idle (PB := sample_protobuf) (AE := linux_asio_errors) "stream" sample_connected) as Hidle.
  { split; [split; [|split|..]|..]; try (vm_compute; reflexivity); [vm_compute; lia|vm_compute; lia|by intros []..|].
    vm_compute. by repeat constructor. }
  assert (serves (PB := sample_protobuf) log 0 1 5 sample_answers) as Hserves.
  { split.
    - split; [cbn; lia|]. vm_compute. split; [discriminate|reflexivity].
    - constructor.
    - repeat split; vm_compute; reflexivity.
    - vm_compute. reflexivity.
    - split; vm_compute; reflexivity.
    - split_and!; [|exists true; repeat split; vm_compute; reflexivity|discriminate|vm_compute; reflexivity].
      repeat apply Forall_cons_2; [exists true; repeat split; vm_compute; reflexivity..|
        |exists true; repeat split; vm_compute; reflexivity|constructor].
      split_and!; [vm_compute; reflexivity..|]. vm_compute. by eexists.
    - apply Forall_cons_2; [|constructor]. split_and!; [vm_compute; reflexivity..|]. vm_compute. by eexists.
    - vm_compute. reflexivity. }
  split; [exact Hidle|]. split; [exact Hserves|].
  assert (∀ i, (i < course_guids sample_connected sample_answers)%nat →
    fresh_guid (GuidSource := counting_guids) i ≠ replicate 16 x05 ∧
    fresh_guid (GuidSource := counting_guids) i ≠ fresh_guid (GuidSource := counting_guids) (S i)) as Hguids.
  { intros i Hi. replace (course_guids sample_connected sample_answers) with 7%nat in Hi by (vm_compute; reflexivity).
    do 7 (destruct i as [|i]; [vm_compute; split; discriminate|]). lia. }
  destruct (catchup_delivers_log (AL := zero_allocator) (PB := sample_protobuf) (AE := linux_asio_errors)
    (GS := counting_guids) 0 1 2 (replicate 16 x05) "stream" cfg sample_connected log 0 1 5 sample_answers Hidle
    eq_refl eq_refl Hguids eq_refl Hserves) as (j & _ & _ & w & Hr & Hc & _).
  exists j, w. split; [exact Hr|]. rewrite Hc. f_equal.
Defined.
