(* ===== verification/EventLog.v ===== *)
(** The log of all the events of a server, which the subscriptions to all
    streams read: the events in the order of their positions. *)
From stdpp Require Import sorting.
From S2P Require Import Prelude Basics Messages Events.

(** The position of an event. *)
Definition pos (e : resolved_event) : position := default Position.default_position (original_position_ e).
Definition has_position (e : resolved_event) : Prop := is_Some (original_position_ e).

(** Events in the order of their positions. *)
Definition before (e e' : resolved_event) : Prop := Position.lt (pos e) (pos e') = true.
Definition in_order (log : list resolved_event) : Prop := Forall has_position log ∧ StronglySorted before log.

(** The events at or after a position, and those after it. *)
Definition from (p : position) (log : list resolved_event) : list resolved_event :=
  filter (λ e, Position.lt (pos e) p = false) log.
Definition after (p : position) (log : list resolved_event) : list resolved_event :=
  filter (λ e, Position.lt p (pos e) = true) log.

Lemma position_lt_asym p q : Position.lt p q = true → Position.lt q p = false.
Proof. intros H. destruct (Position.lt q p) eqn:E; [|done]. apply Position.lt_spec in H, E. lia. Qed.
Lemma position_lt_trans p q r : Position.lt p q = true → Position.lt q r = true → Position.lt p r = true.
Proof. rewrite !Position.lt_spec. lia. Qed.

Lemma filter_all {A} (P : A → Prop) `{∀ x, Decision (P x)} l : Forall P l → filter P l = l.
Proof. induction 1; [done|]. rewrite filter_cons_True by done. by f_equal. Qed.
Lemma filter_none {A} (P : A → Prop) `{∀ x, Decision (P x)} l : Forall (λ x, ¬ P x) l → filter P l = [].
Proof. induction 1; [done|]. by rewrite filter_cons_False. Qed.

Lemma Forall_filter {A} (P Q : A → Prop) `{∀ x, Decision (P x)} l : Forall Q l → Forall Q (filter P l).
Proof. rewrite !Forall_forall. intros HQ x Hx. apply list_elem_of_filter in Hx as [_ Hx]. by apply HQ. Qed.

Lemma before_app l1 e l2 : StronglySorted before (l1 ++ e :: l2) → Forall (λ x, before x e) l1 ∧ Forall (before e) l2.
Proof.
  induction l1 as [|x l1 IH]; intros Hs; apply StronglySorted_inv in Hs as [Hs Hx]; [by split|].
  destruct (IH Hs) as [H1 H2]. split; [|done]. constructor; [|done].
  apply Forall_app in Hx as [_ Hx]. by apply Forall_cons in Hx as [? _].
Qed.

Lemma in_order_from p log : in_order log → in_order (from p log).
Proof.
  intros [Hp Hs]. split; [by apply Forall_filter|]. unfold from. induction Hs as [|x l Hs IH Hx]; [constructor|].
  apply Forall_cons in Hp as [_ Hp]. rewrite filter_cons. case_decide; [|by apply IH].
  constructor; [by apply IH|by apply Forall_filter].
Qed.

(** From an event of the log on. *)
Lemma from_event log p l1 e l2 : in_order log → from p log = l1 ++ e :: l2 → from (pos e) log = e :: l2.
Proof.
  intros Hlog E.
  assert (e ∈ from p log) as [He _]%list_elem_of_filter by (rewrite E; set_solver).
  assert (from (pos e) log = from (pos e) (from p log)) as ->.
  { unfold from. rewrite list_filter_filter. apply list_filter_iff. intros x.
    split; [intros Hx; split; [done|]|by intros []].
    destruct (Position.lt (pos x) p) eqn:Hxp; [|done].
    destruct (Position.lt p (pos e)) eqn:Hpe; [by rewrite (position_lt_trans _ _ _ Hxp Hpe) in Hx|].
    assert (p = pos e) as ->; [|congruence].
    destruct p, (pos e); unfold Position.lt in *; simpl in *. f_equal; lia. }
  pose proof (in_order_from p log Hlog) as [_ Hs]. rewrite E in Hs |- *. apply before_app in Hs as [H1 H2].
  unfold from. rewrite filter_app, filter_cons_True by apply Position.lt_irrefl.
  rewrite (filter_none _ l1), (filter_all _ l2); [done|..].
  - eapply Forall_impl; [exact H2|]. intros x Hx. by apply position_lt_asym.
  - eapply Forall_impl; [exact H1|]. intros x Hx Hn. unfold before in Hx. congruence.
Qed.

Lemma from_after log p l1 e l2 : in_order log → from p log = l1 ++ e :: l2 → after (pos e) log = l2.
Proof.
  intros Hlog E. pose proof (from_event log p l1 e l2 Hlog E) as Ee.
  assert (after (pos e) log = after (pos e) (from (pos e) log)) as ->.
  { unfold after at 1 2. unfold from. rewrite list_filter_filter. apply list_filter_iff. intros x.
    split; [intros Hx; split; [done|by apply position_lt_asym]|by intros []]. }
  pose proof (in_order_from (pos e) log Hlog) as [_ Hs]. rewrite Ee in Hs |- *. apply StronglySorted_inv in Hs as [_ Hs].
  unfold after. rewrite filter_cons_False by by rewrite Position.lt_irrefl. by apply filter_all.
Qed.

(** A slice read from [p] on, and the position of its last event. *)
Lemma from_slice log p events : in_order log → events ≠ [] → events `prefix_of` from p log →
  ∃ e rest, last events = Some e ∧ from p log = events ++ rest ∧ from (pos e) log = e :: rest ∧ after (pos e) log = rest.
Proof.
  intros Hlog Hne [rest E]. destruct events as [|e events _] using rev_ind; [done|].
  exists e, rest. rewrite last_snoc. split_and!; [done|done|..]; rewrite <- app_assoc in E; simpl in E.
  - by eapply from_event.
  - by eapply from_after.
Qed.

(** The events of slices read one after the other, when every slice after one
    with events begins with the last event of that one. *)
Fixpoint once (seen : bool) (ss : list (list resolved_event)) : list resolved_event :=
  match ss with
  | [] => []
  | s :: ss => (if seen then tail s else s) ++ once (seen || negb (bool_decide (s = []))) ss
  end.
