(* ===== verification/CatchupAllRun.v ===== *)
(** A catch-up subscription to the log from its start to live events, over the
    executions in which the server answers its reads: what it asks for, and
    what the event handler is given, against the log. *)
From S2P Require Import Prelude Errors Basics BufferQueue TcpPackage Messages Events Settings Operations.
From S2P Require Import OperationsMap World Connection Requests ConnectOps Subscription Catchup CatchupAll Client.
From S2P Require Import Lifecycle Sending Steps Points EventLog.

Section run.
Context {AL : Allocator} {PB : Protobuf} {AE : AsioErrors} {GS : GuidSource}.
Context (this ea dr : nat) (key : guid_type) (cfg : catchup_subscription_settings) (w0 : world).

(** ** The answers of the server *)
Definition all_slice_body (events : list resolved_event) (body : bytes) : Prop :=
  fits32 (length body) ∧
  let m : ReadAllEventsCompleted := ParseFromArray body in
  default ReadAll_Success (raec_result m) = ReadAll_Success ∧
  transform_events resolved_of_ResolvedEvent (raec_events m) = Ret events.
Definition next_position (body : bytes) : position :=
  let m : ReadAllEventsCompleted := ParseFromArray body in
  mk_position (raec_next_commit_position m) (raec_next_prepare_position m).
Definition pushed_body (e : resolved_event) (body : bytes) : Prop :=
  fits32 (length body) ∧ resolved_of_ResolvedEvent (sea_event (ParseFromArray body)) = Ret e.

Lemma positioned_pos e : has_position e → positioned e (pos e).
Proof. intros [p Hp]. unfold positioned, pos. by rewrite Hp. Qed.
Lemma positions_all l : Forall has_position l → Forall2 positioned l (pos <$> l).
Proof. induction 1; constructor; [by apply positioned_pos|done]. Qed.

Definition all_slice_answer (g : nat) (body : bytes) : event :=
  arrival Command.read_all_events_forward_completed (fresh_guid g) body.

(** The requests the subscription makes. *)
Definition read_request (p : position) : tcp_command * bytes :=
  (Command.read_all_events_forward, SerializeAsString {|
    rae_commit_position := commit_position p;
    rae_prepare_position := prepare_position p;
    rae_max_count := wrap_i32 (read_batch_size cfg);
    rae_resolve_link_tos := catchup_resolve_link_tos cfg;
    rae_require_master := require_master_ (settings_ w0) |}).
Definition subscribe_all_request : tcp_command * bytes :=
  (Command.subscribe_to_stream, SerializeAsString
    {| sts_event_stream_id := EmptyString; sts_resolve_link_tos := catchup_resolve_link_tos cfg |}).

(** ** Between two answers

    [p]: the current position; [t]: the position to catch up to. *)
Definition sizes (w : world) : Prop := all_sizes w ∧ settings_ w = settings_ w0.

#[local] Instance all_sizes_settings : OfSettings sizes.
Proof. intros w w' Ha Hs [[? [] ? ?] ?]. split; [|by rewrite Hs]. split; [by rewrite Ha|split; by rewrite Hs|done..]. Qed.

Definition members (p t : position) (q : event_queue) : all_members := mk_all_members p cfg q t.

Definition at_all (s : subscription) (p t : position) (b d : list resolved_event) (sent : list (tcp_command * bytes))
    (ops : operations_map operation_closure) (subs : operations_map subscription_closure)
    (g : nat) (pend : list async_op) (w : world) : Prop :=
  point (this := this) (ea := ea) (w0 := w0) (sizes := sizes) (λ q, all_object s (members p t q)) b d ops subs g pend w ∧
  asked (w0 := w0) sent w.

Definition all_reading (reader : slice_reader) (g t : nat) : operations_map operation_closure :=
  {[fresh_guid g := op_response (on_read_all_events forward reader) t]}.

(** A slice answers the pending read. *)
Lemma all_slice_arrives s p tg b d sent subs g g' t reader events body w :
  at_all s p tg b d sent (all_reading reader g t) subs g' [async_receive] w → all_slice_body events body →
  ∃ slice w1, aes_events slice = events ∧ aes_next_position slice = next_position body ∧
    aes_is_end_of_stream slice = bool_decide (events = []) ∧
    at_all s p tg b d sent (all_reading reader g t) subs g' [] w1 ∧
    ∀ w2, run_prog (all_slice_read reader success (Some slice)) w1 = Ret (tt, w2) →
      step w (all_slice_answer g body) (receiving (set_operations_map (erase (fresh_guid g) (operations_map_ w2)) w2)).
Proof.
  intros [Hw Hsent] (Hb & Hres & Hev).
  destruct (arrival_operation w (fresh_guid g) (op_response (on_read_all_events forward reader) t)
    Command.read_all_events_forward_completed body) as (v & Hr & Hstep);
    [apply (proj1 (p_sizes _ _ _ _ _ _ _ _ Hw))|apply Hw|apply fresh_guid_wf|done|
     by rewrite (p_ops _ _ _ _ _ _ _ _ Hw); apply lookup_singleton_eq|].
  eexists (mk_all_events_slice _ _ _ _ _), (abort_wait t (counted w)).
  split; [reflexivity|]. split; [reflexivity|]. split; [reflexivity|].
  split; [split; [by eapply point_abort, point_counted|eapply asked_same; [exact Hsent|by rewrite outbox_abort]]|].
  intros w2 Hw2. apply Hstep. cbn [run_operation run_response]. run_prog_steps.
  unfold read_all_events_handler. rewrite (check_command_expected _ _ (reads_command _ _ _ _ _ _ Hr)).
  cbn [mbind outcome_bind]. rewrite failed_success, (parse_view_ok _ _ (reads_message _ _ _ _ _ _ Hr)).
  cbn [mbind outcome_bind]. rewrite Hres. unfold make_all_events_slice. rewrite Hev. run_prog_steps.
  pose proof (length_transform_events _ _ _ Hev) as Hlen.
  assert (Nat.eqb (length (raec_events (ParseFromArray body : ReadAllEventsCompleted))) 0 = bool_decide (events = [])) as ->.
  { rewrite <- Hlen. by destruct events. }
  exact Hw2.
Qed.

(** A read has been issued, and the request it answers is over. *)
Lemma all_issued s p tg b d sent ops subs g p1 h w x :
  at_all s p tg b d sent ops subs g [] w → asks p1 x →
  ∃ t, at_all s p tg b d (sent ++ [x]) (register_op (fresh_guid g) (op_response h t) ops) subs (S g) [] (issued p1 h w).
Proof.
  intros [Hw Hsent] Hx. destruct (point_issued _ _ _ _ _ _ _ p1 h _ Hw) as (t & Hi). exists t. split; [exact Hi|].
  by eapply asked_more; [exact Hsent|apply outbox_issued|].
Qed.

Lemma all_answered s p tg b d sent ops ops' subs g k w :
  at_all s p tg b d sent ops subs g [] w → erase k ops = ops' →
  at_all s p tg b d sent ops' subs g [async_receive] (receiving (set_operations_map (erase k (operations_map_ w)) w)).
Proof.
  intros [Hw Hsent] He. split; [by apply (point_answered _ _ _ _ _ _ _ [] _ _ Hw)|]. by eapply asked_same; [exact Hsent|].
Qed.

Lemma all_receiving s p tg b d sent ops subs g w :
  at_all s p tg b d sent ops subs g [] w → at_all s p tg b d sent ops subs g [async_receive] (receiving w).
Proof. intros [Hw Hsent]. split; [by apply (point_receiving _ _ _ _ _ _ [])|]. by eapply asked_same; [exact Hsent|]. Qed.

(** Events have been delivered and members have changed. *)
Lemma all_delivered s s' p p' tg tg' b b' d sent ops subs g pend l q w :
  at_all s p tg b d sent ops subs g pend w → q_rel q b' →
  at_all s' p' tg' b' (d ++ l) sent ops subs g pend
    (set_calls (calls w ++ deliver ea l) (with_all_members this s' (members p' tg' q) w)).
Proof.
  intros [Hw Hsent] Hq. split; [exact (point_delivered _ (λ q, all_object s' (members p' tg' q)) _ _ _ _ _ _ _ l q _ Hw Hq)|].
  by eapply asked_same; [exact Hsent|].
Qed.

Lemma all_members_set s s' p p' tg tg' b b' d sent ops subs g pend q w :
  at_all s p tg b d sent ops subs g pend w → q_rel q b' →
  at_all s' p' tg' b' d sent ops subs g pend (with_all_members this s' (members p' tg' q) w).
Proof.
  intros [Hw Hsent] Hq. split; [exact (point_object _ (λ q, all_object s' (members p' tg' q)) _ _ _ _ _ _ _ q _ Hw Hq)|].
  by eapply asked_same; [exact Hsent|].
Qed.

(** ** The historical phase *)
Section phases.
Context (key_wf : length key = 16%nat) (bound : nat)
  (guids_new : ∀ i, (i < bound)%nat → fresh_guid i ≠ key ∧ fresh_guid i ≠ fresh_guid (S i)).

Abbreviation historical := (slice_to_historical this ea dr).
Abbreviation missed := (slice_to_missed (registrations w0) this ea dr (read_batch_size cfg)).
Abbreviation closure := (mk_subscription_closure (registrations w0) this ea dr).

Lemma all_historical_step s p tg d sent g t events body w :
  key_ s = key → stream_ s = EmptyString → (g < bound)%nat → events ≠ [] →
  at_all s p tg [] d sent (all_reading historical g t) ∅ (S g) [async_receive] w → all_slice_body events body →
  ∃ t' w', step w (all_slice_answer g body) w' ∧
    at_all s (next_position body) tg [] (d ++ events) (sent ++ [read_request (next_position body)])
      (all_reading historical (S g) t') ∅ (S (S g)) [async_receive] w'.
Proof.
  intros Hk Hst Hg Hne Hw Hbody.
  destruct (all_slice_arrives _ _ _ _ _ _ _ _ _ _ _ _ _ _ Hw Hbody) as (slice & w1 & <- & Hnext & Hend & Hw1 & Hstep).
  rewrite bool_decide_eq_false_2 in Hend by done.
  destruct (p_object _ _ _ _ _ _ _ _ (proj1 Hw1)) as (q & Hq & Hrel).
  destruct (historical_all_slice_run this ea dr s (members p tg q) slice w1 Hq) as [Hmore _];
    [apply (p_sizes _ _ _ _ _ _ _ _ (proj1 Hw1))|done|by rewrite Hk|].
  destruct (Hmore Hend) as (p1 & v & Hv & Hc & Hm & Hrun). rewrite Hnext in *.
  pose proof (all_delivered _ s _ (next_position body) _ tg _ [] _ _ _ _ _ _ (aes_events slice) q _ Hw1 Hrel) as Hd.
  destruct (all_issued _ _ _ _ _ _ _ _ _ p1 (on_read_all_events forward historical) _ (read_request (next_position body)) Hd)
    as (t' & Hi).
  { exists v. split_and!; [done|done|]. rewrite Hm. unfold read_request, all_read.
    by rewrite (proj2 (p_sizes _ _ _ _ _ _ _ _ (proj1 Hw1))). }
  exists t'. eexists. split; [apply Hstep; exact Hrun|].
  eapply all_answered; [exact Hi|]. apply erase_answered. by apply guids_new.
Qed.

Lemma all_historical_end s p tg d sent g t body w :
  key_ s = key → stream_ s = EmptyString →
  at_all s p tg [] d sent (all_reading historical g t) ∅ (S g) [async_receive] w → all_slice_body [] body →
  ∃ w', step w (all_slice_answer g body) w' ∧
    at_all (set_handle_guard false s) p tg [] d (sent ++ [subscribe_all_request])
      ∅ {[key := closure]} (S g) [async_receive] w'.
Proof.
  intros Hk Hst Hw Hbody.
  destruct (all_slice_arrives _ _ _ _ _ _ _ _ _ _ _ _ _ _ Hw Hbody) as (slice & w1 & Hev & Hnext & Hend & Hw1 & Hstep).
  rewrite bool_decide_eq_true_2 in Hend by done.
  destruct (p_object _ _ _ _ _ _ _ _ (proj1 Hw1)) as (q & Hq & Hrel).
  destruct (historical_all_slice_run this ea dr s (members p tg q) slice w1 Hq) as [_ Hlast];
    [apply (p_sizes _ _ _ _ _ _ _ _ (proj1 Hw1))|done|by rewrite Hk|].
  destruct (Hlast Hend) as (p1 & v & Hv & Hc & Hm & Hrun). rewrite Hev in Hrun. cbn [deliver fmap list_fmap] in Hrun.
  assert (set_calls (calls w1 ++ []) w1 = w1) as E by (rewrite app_nil_r; by destruct w1). rewrite E in Hrun.
  destruct Hw1 as [Hw1 Hsent].
  pose proof (point_started _ (λ q, all_object (set_handle_guard false s) (members p tg q)) _ _ _ _ _ dr
    (all_object s (members p tg q)) p1 q _ Hw1 Hrel eq_refl) as Hp.
  rewrite (Hk : key_ (all_object s (members p tg q)) = key) in Hp.
  eexists. split; [apply Hstep; exact Hrun|].
  eapply all_answered; [split; [exact Hp|]|apply (erase_only g)].
  eapply asked_more; [exact Hsent|apply outbox_started|]. by exists v.
Qed.

(** ** Packages for the subscription *)
Lemma all_lambda c s m v w :
  objects w !! sc_this c = Some (all_object s m) →
  run_prog (subscription_lambda child_on_package_received c success v) w =
    run_prog (subscription_lambda catchup_all_on_package_received c success v) w.
Proof.
  intros Hs. unfold subscription_lambda. rewrite !run_bind, (run_get_object _ _ _ Hs). run_simpl.
  destruct (handle_guard_ _); [done|]. rewrite failed_success. unfold lambda_on_package. rewrite !run_bind.
  assert (run_prog (child_on_package_received c v) w = run_prog (catchup_all_on_package_received c v) w) as ->; [|done].
  unfold child_on_package_received. by rewrite run_bind, (run_get_object _ _ _ Hs).
Qed.

Lemma all_package_arrives s p tg b d sent ops g cmd body w :
  ops !! key = None → fits32 (length body) →
  at_all s p tg b d sent ops {[key := closure]} g [async_receive] w →
  ∃ v w1 q, command v = Ret cmd ∧ message_bytes v = Ret body ∧
    objects w1 !! this = Some (all_object s (members p tg q)) ∧ q_rel q b ∧
    at_all s p tg b d sent ops {[key := closure]} g [] w1 ∧
    ∀ w2, run_prog (subscription_lambda catchup_all_on_package_received closure success v) w1 = Ret (tt, w2) →
      step w (arrival cmd key body) (receiving w2).
Proof.
  intros Hops Hb [Hw Hsent]. apply point_counted in Hw as Hw1. destruct (p_object _ _ _ _ _ _ _ _ Hw1) as (q & Hq & Hrel).
  destruct (arrival_subscription w key closure cmd body) as (v & Hr & Hstep);
    [apply (proj1 (p_sizes _ _ _ _ _ _ _ _ Hw))|apply Hw|done|done|by rewrite (p_ops _ _ _ _ _ _ _ _ Hw)|
     rewrite (p_subs _ _ _ _ _ _ _ _ Hw); apply lookup_singleton_eq|].
  exists v, (counted w), q. split_and!; [apply Hr|apply Hr|done|done|by split|].
  intros w2 Hw2. apply Hstep. by rewrite (all_lambda _ s (members p tg q)).
Qed.

(** The object between its start and its end. *)
Record all_running (s : subscription) : Prop := {
  all_run_key : key_ s = key;
  all_run_open : handle_guard_ s = false
}.

(** The object once the server has confirmed the subscription. *)
Definition commit_of (body : bytes) : Z := conf_last_commit_position (ParseFromArray body : SubscriptionConfirmation).
Definition all_confirmed (body : bytes) (s : subscription) : subscription :=
  confirm_event_number (conf_last_event_number (ParseFromArray body : SubscriptionConfirmation))
    (confirm (commit_of body) s).
Abbreviation target_of body := (mk_position (commit_of body) (commit_of body)).

Lemma running_all_confirmed body s : all_running s → all_running (all_confirmed body s).
Proof. intros []. unfold all_confirmed. destruct (conf_last_event_number _); by split. Qed.

Lemma all_confirmation_step s p tg d sent g body w :
  all_running s → fits32 (length body) →
  at_all s p tg [] d sent ∅ {[key := closure]} g [async_receive] w →
  ∃ w', step w (confirmation_of key body) w' ∧
    if Position.gt (target_of body) p
    then ∃ t, at_all (all_confirmed body s) p (target_of body) [] d (sent ++ [read_request p])
                (all_reading missed g t) {[key := closure]} (S g) [async_receive] w'
    else at_all (all_confirmed body s) p (target_of body) [] d sent ∅ {[key := closure]} g [async_receive] w'.
Proof.
  intros [Hk Hop] Hb Hw.
  destruct (all_package_arrives _ _ _ _ _ _ _ _ Command.subscription_confirmation body _ (lookup_empty _) Hb Hw)
    as (v & w1 & q & Hcmd & Hm & Hq & Hrel & Hw1 & Hstep).
  destruct (confirmation_all_run closure v body s (members p tg q) w1 Hq) as (Hmore & Hnone);
    [done|apply (p_sizes _ _ _ _ _ _ _ _ (proj1 Hw1))|done|done|].
  fold (commit_of body) in Hmore, Hnone. fold (all_confirmed body s) in Hmore, Hnone.
  pose proof (all_members_set _ (all_confirmed body s) _ p _ (target_of body) _ [] _ _ _ _ _ _ q _ Hw1 Hrel) as Hw2.
  change (current_position_ (members p tg q)) with p in Hmore, Hnone.
  destruct (Position.gt (target_of body) p).
  - destruct (Hmore eq_refl) as (p1 & pv & Hv & Hc & Hms & Hrun). eexists. split; [apply Hstep; exact Hrun|].
    destruct (all_issued _ _ _ _ _ _ _ _ _ p1 (on_read_all_events forward missed) _ (read_request p) Hw2) as (t & Hi).
    { exists pv. split_and!; [done|done|]. rewrite Hms. unfold read_request, all_read.
      by rewrite (proj2 (p_sizes _ _ _ _ _ _ _ _ (proj1 Hw1))). }
    exists t. apply all_receiving. exact Hi.
  - eexists. split; [apply Hstep, Hnone, eq_refl|]. by apply all_receiving.
Qed.

(** An event pushed while the subscription catches up is buffered. *)
Lemma all_pushed_step s p tg b d sent ops g e body w :
  all_running s → ops !! key = None → Position.gt tg p = true → pushed_body e body →
  at_all s p tg b d sent ops {[key := closure]} g [async_receive] w →
  ∃ w', step w (event_of key body) w' ∧
    at_all s p tg (b ++ [e]) d sent ops {[key := closure]} g [async_receive] w'.
Proof.
  intros [Hk Hop] Hops Hlt [Hb He] Hw.
  destruct (all_package_arrives _ _ _ _ _ _ _ _ Command.stream_event_appeared body _ Hops Hb Hw)
    as (v & w1 & q & Hcmd & Hm & Hq & Hrel & Hw1 & Hstep).
  destruct (pushed_all_run closure v body s (members p tg q) b e w1 Hq Hop Hrel Hcmd Hm He) as (q' & Hrel' & Hr).
  cbn [position_to_catch_up_to_ current_position_ members] in Hr. rewrite Hlt in Hr.
  eexists. split; [apply Hstep; exact Hr|]. apply all_receiving.
  exact (all_members_set s s p p tg tg b _ _ _ _ _ _ _ q' _ Hw1 Hrel').
Qed.

(** ** The missed events *)
Lemma all_missed_step s p tg b d sent g t events body w :
  all_running s → (g < bound)%nat → Forall has_position events → tg ∉ pos <$> events →
  at_all s p tg b d sent (all_reading missed g t) {[key := closure]} (S g) [async_receive] w →
  all_slice_body events body →
  let p' := default p (last (pos <$> events)) in
  ∃ t' w', step w (all_slice_answer g body) w' ∧
    at_all s p' tg b (d ++ events) (sent ++ [read_request p'])
      (all_reading missed (S g) t') {[key := closure]} (S (S g)) [async_receive] w'.
Proof.
  intros [Hk Hop] Hg Hpos Htg Hw Hbody p'.
  destruct (all_slice_arrives _ _ _ _ _ _ _ _ _ _ _ _ _ _ Hw Hbody) as (slice & w1 & <- & _ & _ & Hw1 & Hstep).
  destruct (p_object _ _ _ _ _ _ _ _ (proj1 Hw1)) as (q & Hq & Hrel).
  destruct (catchup_all_missed_phase (registrations w0) this ea dr (read_batch_size cfg) slice s (members p tg q) (pos <$> aes_events slice) w1 Hq)
    as [Hmore _];
    [unfold refers; by rewrite Hk, (p_subs _ _ _ _ _ _ _ _ (proj1 Hw1)), lookup_singleton_eq|by apply positions_all|].
  specialize (Hmore Htg). fold p' in Hmore.
  pose proof (all_delivered s s p p' tg tg _ _ _ _ _ _ _ _ (aes_events slice) q _ Hw1 Hrel) as Hd.
  set (w2 := set_calls _ _) in *.
  assert (objects w2 !! this = Some (all_object s (members p' tg q))) as Hw2 by apply lookup_insert_eq.
  destruct (catch_up_all_events_run this s (members p' tg q) (read_batch_size cfg) missed w2 Hw2)
    as (p1 & v & Hv & Hc & Hm & Hrun); [apply (p_sizes _ _ _ _ _ _ _ _ (proj1 Hd))|].
  destruct (all_issued _ _ _ _ _ _ _ _ _ p1 (on_read_all_events forward missed) _ (read_request p') Hd) as (t' & Hi).
  { exists v. split_and!; [done|done|]. rewrite Hm. unfold read_request, all_read.
    by rewrite (proj2 (p_sizes _ _ _ _ _ _ _ _ (proj1 Hd))). }
  exists t'. eexists. split.
  - apply Hstep. cbn [all_slice_read]. refine (eq_trans Hmore _). unfold catch_up_missed_all_events.
    rewrite run_bind, (run_all_members _ _ _ _ Hw2). run_simpl. exact Hrun.
  - eapply all_answered; [exact Hi|]. apply erase_answered. by apply guids_new.
Qed.

(** read_subscription_events, wherever it is called. *)
Lemma all_read_buffered_run s p tg b d sent ops g pend w :
  all_running s → Forall has_position b → at_all s p tg b d sent ops {[key := closure]} g pend w →
  let k := Z.to_nat (max_live_queue_size cfg) in
  ∃ w', run_prog (read_all_subscription_events (registrations w0) this ea) w = Ret (tt, w') ∧
    posted w' = posted w ++ (if bool_decide (drop k b = []) then [] else [read_buffered (registrations w0) this ea]) ∧
    at_all s (default p (last (pos <$> take k b))) tg (drop k b) (d ++ take k b) sent ops {[key := closure]} g pend
      (set_posted (posted w) w').
Proof.
  intros [Hk Hop] Hpos Hw k. destruct (p_object _ _ _ _ _ _ _ _ (proj1 Hw)) as (q & Hq & Hrel).
  destruct (read_all_buffered_run k (registrations w0) this s ea b (pos <$> b) (members p tg q) w Hq Hrel) as (q' & Hrel' & Hrun);
    [by apply positions_all|unfold refers; by rewrite Hk, (p_subs _ _ _ _ _ _ _ _ (proj1 Hw)), lookup_singleton_eq|].
  rewrite <- fmap_take in Hrun. set (p' := default p (last (pos <$> take k b))) in *.
  change (set_all_event_buffer q' _) with (members p' tg q') in Hrun. set (w1 := set_calls _ _) in Hrun.
  assert (objects w1 !! this = Some (all_object s (members p' tg q'))) as Hw1 by apply lookup_insert_eq.
  exists (set_posted (posted w ++ (if bool_decide (drop k b = []) then [] else [read_buffered (registrations w0) this ea])) w1).
  split_and!; [|done|].
  - unfold read_all_subscription_events. rewrite run_bind, (run_all_members _ _ _ _ Hq). run_simpl.
    change (Z.to_nat (max_live_queue_size (all_settings_ (members p tg q)))) with k. rewrite run_bind, Hrun. run_simpl. rewrite run_bind, (run_all_members _ _ _ _ Hw1). run_simpl.
    cbn [all_event_buffer_ members]. rewrite (q_empty_rel _ _ Hrel').
    case_bool_decide; run_prog_steps; [|reflexivity]. by rewrite app_nil_r.
  - exact (all_delivered s s p p' tg tg b _ _ _ _ _ _ _ (take k b) q' _ Hw Hrel').
Qed.

(** The slice with the event the subscription was confirmed at. *)
Lemma all_missed_end s p tg b d sent g t pre e post body w :
  all_running s → Forall has_position (pre ++ e :: post) → pos e = tg → tg ∉ pos <$> pre → Forall has_position b →
  at_all s p tg b d sent (all_reading missed g t) {[key := closure]} (S g) [async_receive] w →
  all_slice_body (pre ++ e :: post) body →
  let k := Z.to_nat (max_live_queue_size cfg) in
  ∃ js w', step w (all_slice_answer g body) w' ∧
    posted w' = js ++ (if bool_decide (drop k b = []) then [] else [read_buffered (registrations w0) this ea]) ∧
    at_all s (default tg (last (pos <$> take k b))) tg (drop k b) (d ++ pre ++ take k b) sent ∅ {[key := closure]} (S g)
      [async_receive] (set_posted js w').
Proof.
  intros Hrun Hpos He Htg Hb Hw Hbody k. pose proof Hrun as [Hk Hop].
  destruct (all_slice_arrives _ _ _ _ _ _ _ _ _ _ _ _ _ _ Hw Hbody) as (slice & w1 & Hev & _ & _ & Hw1 & Hstep).
  destruct (p_object _ _ _ _ _ _ _ _ (proj1 Hw1)) as (q & Hq & Hrel).
  destruct (catchup_all_missed_phase (registrations w0) this ea dr (read_batch_size cfg) slice s (members p tg q) (pos <$> aes_events slice) w1 Hq)
    as [_ Hlast];
    [unfold refers; by rewrite Hk, (p_subs _ _ _ _ _ _ _ _ (proj1 Hw1)), lookup_singleton_eq|
     rewrite Hev; by apply positions_all|].
  specialize (Hlast pre e post (pos <$> pre) (pos <$> post) Hev).
  rewrite Hev, fmap_app, fmap_cons, He, length_fmap in Hlast. specialize (Hlast eq_refl eq_refl Htg).
  pose proof (all_delivered s s p tg tg tg b _ _ _ _ _ _ _ pre q _ Hw1 Hrel) as Hd.
  destruct (all_read_buffered_run _ _ _ _ _ _ _ _ _ _ Hrun Hb Hd) as (w2 & Hr2 & Hp2 & Hw2). fold k in Hp2, Hw2.
  eexists (posted w1), _. split; [apply Hstep; exact (eq_trans Hlast Hr2)|]. split; [exact Hp2|].
  rewrite <- app_assoc in Hw2.
  apply (all_answered _ _ _ _ _ _ _ ∅ _ _ (fresh_guid g)) in Hw2; [|apply erase_only]. exact Hw2.
Qed.

(** The deliveries posted, when nothing else is: each posts the next. *)
Lemma all_buffered_delivered (live : 0 < max_live_queue_size cfg) s tg sent ops g : all_running s → ∀ b p d w,
  Forall has_position b → posted w = [read_buffered (registrations w0) this ea] →
  at_all s p tg b d sent ops {[key := closure]} g [async_receive] (set_posted [] w) →
  ∃ j w', run step w (replicate j ev_job) w' ∧
    at_all s (default p (last (pos <$> b))) tg [] (d ++ b) sent ops {[key := closure]} g [async_receive] w'.
Proof.
  intros Hrun b. induction b as [b IH] using (induction_ltof1 _ length). intros p d w Hb Hp Hw.
  destruct (all_read_buffered_run _ _ _ _ _ _ _ _ _ _ Hrun Hb Hw) as (w1 & Hr & Hp1 & Hw1).
  set (k := Z.to_nat (max_live_queue_size cfg)) in *.
  assert (step w ev_job w1) as Hs.
  { destruct (p_object _ _ _ _ _ _ _ _ (proj1 Hw)) as (q & Hq & _).
    unfold step. cbn [exec]. rewrite Hp. cbn [run_job]. unfold effect, run_read_buffered.
    rewrite run_bind, (run_get_object _ _ _ Hq). run_simpl. cbn [all_object kind_ set_kind]. by rewrite Hr. }
  simpl in Hp1, Hw1. case_bool_decide as Hd.
  - exists 1%nat, w1. split; [by econstructor; [|constructor]|].
    assert (take k b = b) as Ht by (rewrite <- (take_drop k b) at 2; by rewrite Hd, app_nil_r).
    rewrite Hd, Ht in Hw1. destruct w1; simpl in Hp1; subst. exact Hw1.
  - assert (ltof _ length (drop k b) b) as Hlt.
    { unfold ltof. rewrite length_drop. destruct b; [by rewrite drop_nil in Hd|simpl; lia]. }
    destruct (IH _ Hlt (default p (last (pos <$> take k b))) (d ++ take k b) w1) as (j & w2 & Hr2 & Hw2);
      [by apply Forall_drop|done|exact Hw1|].
    exists (S j), w2. split; [by econstructor|]. rewrite <- app_assoc, take_drop in Hw2.
    replace (default p (last (pos <$> b))) with (default (default p (last (pos <$> take k b))) (last (pos <$> drop k b)));
      [exact Hw2|].
    rewrite <- (take_drop k b) at 3. rewrite fmap_app, last_app. by destruct (last (pos <$> drop k b)).
Qed.

(** ** Live events *)
Lemma all_live_step (live : 0 < max_live_queue_size cfg) s p tg d sent g e body w :
  all_running s → Position.gt tg p = false → has_position e → pushed_body e body →
  at_all s p tg [] d sent ∅ {[key := closure]} g [async_receive] w →
  ∃ w', step w (event_of key body) w' ∧
    at_all s (pos e) tg [] (d ++ [e]) sent ∅ {[key := closure]} g [async_receive] w'.
Proof.
  intros Hrun Hle Hpe [Hb He] Hw. pose proof Hrun as [Hk Hop].
  destruct (all_package_arrives _ _ _ _ _ _ _ _ Command.stream_event_appeared body _ (lookup_empty _) Hb Hw)
    as (v & w1 & q & Hcmd & Hm & Hq & Hrel & Hw1 & Hstep).
  destruct (pushed_all_run closure v body s (members p tg q) [] e w1 Hq Hop Hrel Hcmd Hm He) as (q' & Hrel' & Hr).
  cbn [position_to_catch_up_to_ current_position_ members] in Hr. rewrite Hle in Hr.
  assert (q_size q' = 1) as Hsize by (by rewrite (q_size_rel q' [e] Hrel')).
  rewrite Hsize in Hr. cbn [Z.eqb Pos.eqb] in Hr.
  pose proof (all_members_set s s p p tg tg [] _ _ _ _ _ _ _ q' _ Hw1 Hrel') as Hw2.
  destruct (all_read_buffered_run _ _ _ _ _ _ _ _ _ _ Hrun (Forall_cons_2 _ _ _ Hpe (Forall_nil_2 _)) Hw2)
    as (w3 & Hr3 & Hp3 & Hw3).
  destruct (Z.to_nat (max_live_queue_size cfg)) as [|k] eqn:Ek; [lia|]. simpl take in *. simpl drop in *.
  rewrite take_nil, drop_nil in *. rewrite bool_decide_eq_true_2, app_nil_r in Hp3 by done.
  cbn [sc_stamp sc_this sc_event_appeared] in Hr. change (set_all_event_buffer q' (members p tg q)) with (members p tg q') in Hr.
  rewrite Hr3 in Hr. eexists. split; [by apply Hstep|]. apply all_receiving.
  rewrite <- Hp3 in Hw3. by destruct w3.
Qed.

(** ** Sequences of answers *)
Lemma default_last_cons {A} (d x : A) l : default d (last (x :: l)) = default x (last l).
Proof. rewrite last_cons. by destruct (last l). Qed.

(** The positions at which the slices say the next read starts. *)
Definition next_positions (hs : slices) : list position := (λ h, next_position h.2) <$> hs.

Lemma all_historical_run s tg hs : key_ s = key → stream_ s = EmptyString → ∀ p d sent g t w,
  Forall (λ h, h.1 ≠ [] ∧ all_slice_body h.1 h.2) hs → (g + length hs ≤ bound)%nat →
  at_all s p tg [] d sent (all_reading historical g t) ∅ (S g) [async_receive] w →
  ∃ t' w', run step w (answers_to_slices all_slice_answer g hs) w' ∧
    at_all s (default p (last (next_positions hs))) tg [] (d ++ concat hs.*1)
      (sent ++ (read_request <$> next_positions hs))
      (all_reading historical (g + length hs) t') ∅ (S (g + length hs)) [async_receive] w'.
Proof.
  intros Hk Hst. induction hs as [|[events body] hs IH]; intros p d sent g t w Hhs Hg Hw; simpl in *.
  - exists t, w. rewrite Nat.add_0_r, !app_nil_r. split; [constructor|done].
  - apply Forall_cons in Hhs as [[Hne Hh] Hhs].
    destruct (all_historical_step s p tg d sent g t events body w Hk Hst ltac:(lia) Hne Hw Hh) as (t1 & w1 & Hs & Hw1).
    destruct (IH _ _ _ (S g) t1 w1 Hhs ltac:(lia) Hw1) as (t2 & w2 & Hr & Hw2).
    exists t2, w2. split; [by econstructor|]. by rewrite default_last_cons, !Nat.add_succ_r, (app_assoc d), cons_middle, (app_assoc sent).
Qed.

(** The positions at which the missed events are read. *)
Fixpoint missed_positions (p : position) (ms : list message) : list position :=
  match ms with
  | [] => []
  | a_slice events _ :: ms =>
      let p := default p (last (pos <$> events)) in p :: missed_positions p ms
  | a_push _ _ :: ms => missed_positions p ms
  end.
Definition position_after (p : position) (ms : list message) : position := default p (last (missed_positions p ms)).

Lemma position_after_slice p events body ms :
  position_after p (a_slice events body :: ms) = position_after (default p (last (pos <$> events))) ms.
Proof. unfold position_after. cbn [missed_positions]. apply default_last_cons. Qed.

(** What the client needs of them. *)
Fixpoint missed_valid (tg p : position) (ms : list message) : Prop :=
  match ms with
  | [] => True
  | a_slice events body :: ms =>
      Forall has_position events ∧ (tg ∉ pos <$> events) ∧ all_slice_body events body ∧
      missed_valid tg (default p (last (pos <$> events))) ms
  | a_push e body :: ms => Position.gt tg p = true ∧ has_position e ∧ pushed_body e body ∧ missed_valid tg p ms
  end.

Lemma all_missed_run s tg : all_running s → ∀ ms p b d sent g t w,
  missed_valid tg p ms → (g + reads ms < bound)%nat → Forall has_position b →
  at_all s p tg b d sent (all_reading missed g t) {[key := closure]} (S g) [async_receive] w →
  ∃ t' w', run step w (arrivals all_slice_answer (event_of key) g ms) w' ∧ Forall has_position (b ++ pushed_while ms) ∧
    at_all s (position_after p ms) tg (b ++ pushed_while ms) (d ++ sliced ms)
      (sent ++ (read_request <$> missed_positions p ms))
      (all_reading missed (g + reads ms) t') {[key := closure]} (S (g + reads ms)) [async_receive] w'.
Proof.
  intros Hrun. induction ms as [|m ms IH]; intros p b d sent g t w Hms Hg Hb Hw.
  - exists t, w. unfold reads, pushed_while, sliced, position_after. simpl.
    rewrite Nat.add_0_r, !app_nil_r. split; [constructor|done].
  - destruct m as [events body|e body]; cbn [arrivals missed_valid] in *.
    + change (sliced (a_slice events body :: ms)) with (events ++ sliced ms).
      change (pushed_while (a_slice events body :: ms)) with (pushed_while ms).
      change (reads (a_slice events body :: ms)) with (S (reads ms)) in *.
      destruct Hms as (Hpos & Htg & Hbody & Hms). rewrite Nat.add_succ_r in Hg.
      rewrite position_after_slice, Nat.add_succ_r, (app_assoc d).
      destruct (all_missed_step s p tg b d sent g t events body w Hrun ltac:(lia) Hpos Htg Hw Hbody) as (t1 & w1 & Hs & Hw1).
      destruct (IH _ b _ _ (S g) t1 w1 Hms ltac:(lia) Hb Hw1) as (t2 & w2 & Hr & Hb2 & Hw2).
      exists t2, w2. split; [by econstructor|]. split; [exact Hb2|]. rewrite <- (app_assoc sent) in Hw2. exact Hw2.
    + change (sliced (a_push e body :: ms)) with (sliced ms).
      change (pushed_while (a_push e body :: ms)) with ([e] ++ pushed_while ms).
      change (reads (a_push e body :: ms)) with (reads ms) in *. rewrite (app_assoc b).
      destruct Hms as (Hlt & Hpos & Hbody & Hms).
      destruct (all_pushed_step s p tg b d sent (all_reading missed g t) (S g) e body w Hrun) as (w1 & Hs & Hw1);
        [apply lookup_singleton_ne, guids_new; lia|done..|].
      destruct (IH p (b ++ [e]) d sent g t w1 Hms Hg) as (t2 & w2 & Hr & Hb2 & Hw2);
        [by apply Forall_app_2; [|repeat constructor]|done|].
      exists t2, w2. split; [by econstructor|]. split; [exact Hb2|exact Hw2].
Qed.

Lemma all_live_run (live : 0 < max_live_queue_size cfg) s tg sent g : all_running s → ∀ ls p d w,
  Position.gt tg p = false →
  Forall (λ l, Position.gt tg (pos l.1) = false ∧ has_position l.1 ∧ pushed_body l.1 l.2) ls →
  at_all s p tg [] d sent ∅ {[key := closure]} g [async_receive] w →
  ∃ w', run step w ((event_of key ∘ snd) <$> ls) w' ∧
    at_all s (default p (last (pos <$> ls.*1))) tg [] (d ++ ls.*1) sent ∅ {[key := closure]} g [async_receive] w'.
Proof.
  intros Hrun. induction ls as [|[e body] ls IH]; intros p d w Hle Hls Hw; simpl.
  - exists w. rewrite app_nil_r. split; [constructor|done].
  - apply Forall_cons in Hls as [(He & Hpos & Hbody) Hls].
    destruct (all_live_step live s p tg d sent g e body w Hrun Hle Hpos Hbody Hw) as (w1 & Hs & Hw1).
    destruct (IH (pos e) (d ++ [e]) w1 He Hls Hw1) as (w2 & Hr & Hw2).
    rewrite <- app_assoc in Hw2. exists w2. split; [by econstructor|]. by rewrite default_last_cons.
Qed.

(** The last slice of the missed events, and the delivery of the buffered
    events, at once and by jobs. *)
Lemma all_missed_end_run (live : 0 < max_live_queue_size cfg) s p tg b d sent g t pre e post body w :
  all_running s → Forall has_position (pre ++ e :: post) → pos e = tg → tg ∉ pos <$> pre → Forall has_position b →
  at_all s p tg b d sent (all_reading missed g t) {[key := closure]} (S g) [async_receive] w →
  all_slice_body (pre ++ e :: post) body →
  ∃ j w', run step w (all_slice_answer g body :: replicate j ev_job) w' ∧
    at_all s (default tg (last (pos <$> b))) tg [] (d ++ pre ++ b) sent ∅ {[key := closure]} (S g) [async_receive] w'.
Proof.
  intros Hrun Hpos He Htg Hb Hw Hbody.
  destruct (all_missed_end s p tg b d sent g t pre e post body w Hrun Hpos He Htg Hb Hw Hbody)
    as (js & w1 & Hs & Hp & Hw1). set (k := Z.to_nat (max_live_queue_size cfg)) in *. case_bool_decide as Hd.
  - rewrite app_nil_r in Hp.
    assert (take k b = b) as Ht by (rewrite <- (take_drop k b) at 2; by rewrite Hd, app_nil_r).
    rewrite Hd, Ht in Hw1. exists 0%nat, w1. split; [by econstructor; [|constructor]|].
    rewrite <- Hp in Hw1. by destruct w1.
  - destruct (drain_jobs js [read_buffered (registrations w0) this ea] w1) as (q & ws & n & Hr & Ho);
      [apply (proj1 (p_sizes _ _ _ _ _ _ _ _ (proj1 Hw1)))|apply (p_posted _ _ _ _ _ _ _ _ (proj1 Hw1))|done|].
    destruct (all_buffered_delivered live s tg sent ∅ (S g) Hrun (drop k b) (default tg (last (pos <$> take k b)))
      (d ++ pre ++ take k b) (with_writes [read_buffered (registrations w0) this ea] q ws n w1)) as (j & w2 & Hr2 & Hw2);
      [by apply Forall_drop|done| |].
    + destruct Hw1 as [Hw1 Hsent]. split.
      * apply (point_writes _ _ _ _ _ _ _ [] q ws n) in Hw1; [|constructor]. by destruct w1.
      * eapply asked_same; [exact Hsent|]. unfold outbox. simpl. rewrite app_nil_r. by rewrite Ho, app_assoc.
    + exists (length js + j)%nat, w2. split; [econstructor; [exact Hs|]; rewrite replicate_add; by eapply run_trans|].
      rewrite <- !app_assoc, take_drop in Hw2.
      replace (default tg (last (pos <$> b))) with (default (default tg (last (pos <$> take k b))) (last (pos <$> drop k b)));
        [exact Hw2|].
      rewrite <- (take_drop k b) at 3. rewrite fmap_app, last_app. by destruct (last (pos <$> drop k b)).
Qed.
End phases.


(** ** What the server says *)
Record all_answers : Type := mk_all_answers {
  l_historical : slices;
  (* an empty slice *)
  l_end : bytes;
  l_confirmation : bytes;
  (* the last slice of the missed events: those before the one the
     subscription was confirmed at, that one, those after it *)
  l_missed : option (list message * (list resolved_event * resolved_event * list resolved_event * bytes));
  l_live : list (resolved_event * bytes)
}.

Definition all_pushes (a : all_answers) : list resolved_event :=
  match l_missed a with None => [] | Some (ms, _) => pushed_while ms end ++ (l_live a).*1.

(** The slices read up to the end of the log, and the next position to read at. *)
Definition end_position (start : position) (hs : slices) : position := default start (last (next_positions hs)).

Fixpoint historical_served (log : list resolved_event) (p : position) (hs : slices) : Prop :=
  match hs with
  | [] => True
  | (events, body) :: hs =>
      events ≠ [] ∧ all_slice_body events body ∧ from p log = events ++ from (next_position body) log ∧
      historical_served log (next_position body) hs
  end.

(** The slices of the missed events: each has events of the log from the
    position asked for on, the last one has the event at [tg]. *)
Fixpoint missed_served (log : list resolved_event) (tg p : position) (ms : list message)
    (pre : list resolved_event) (t : resolved_event) (post : list resolved_event) : Prop :=
  match ms with
  | [] => (pre ++ t :: post) `prefix_of` from p log ∧ pos t = tg
  | a_slice events body :: ms =>
      events `prefix_of` from p log ∧ (tg ∉ pos <$> events) ∧ all_slice_body events body ∧
      missed_served log tg (default p (last (pos <$> events))) ms pre t post
  | a_push e body :: ms => pushed_body e body ∧ missed_served log tg p ms pre t post
  end.

Lemma historical_served_read log hs : ∀ p, historical_served log p hs →
  from p log = concat hs.*1 ++ from (end_position p hs) log ∧ Forall (λ h, h.1 ≠ [] ∧ all_slice_body h.1 h.2) hs.
Proof.
  unfold end_position. induction hs as [|[events body] hs IH]; intros p; [done|].
  intros (Hne & Hbody & Hfrom & Hhs). destruct (IH _ Hhs) as [E Hall]. split; [|by constructor].
  rewrite Hfrom, E. simpl. by rewrite default_last_cons, app_assoc.
Qed.

Lemma missed_served_end log tg ms pre t post : ∀ p, missed_served log tg p ms pre t post →
  (pre ++ t :: post) `prefix_of` from (position_after p ms) log ∧ pos t = tg.
Proof.
  induction ms as [|[events body|e body] ms IH]; intros p; [done| |].
  - intros (_ & _ & _ & Hms). rewrite position_after_slice. by apply IH.
  - intros [_ Hms]. by apply IH.
Qed.

Lemma missed_served_event log tg ms pre t post p : missed_served log tg p ms pre t post → t ∈ log ∧ pos t = tg.
Proof.
  intros Hms. destruct (missed_served_end _ _ _ _ _ _ _ Hms) as [[rest E] Ht]. split; [|done].
  assert (t ∈ from (position_after p ms) log) as Hin by (rewrite E; set_solver).
  by apply list_elem_of_filter in Hin as [_ Hin].
Qed.

Lemma missed_served_valid log tg ms pre t post : in_order log → Forall has_position (pushed_while ms) → ∀ p,
  Position.gt tg p = true → missed_served log tg p ms pre t post → missed_valid tg p ms.
Proof.
  intros Hlog Hpush. induction ms as [|[events body|e body] ms IH]; intros p Hlt Hms; [done| |].
  - pose proof (missed_served_event _ _ _ _ _ _ _ Hms) as [Ht Htg]. destruct Hms as (Hpre & Hno & Hbody & Hms).
    pose proof (in_order_from p log Hlog) as [Hpos _].
    split; [|split; [done|split; [done|]]].
    { destruct Hpre as [rest E]. rewrite E in Hpos. by apply Forall_app in Hpos as [? _]. }
    apply IH; [done| |done]. destruct (decide (events = [])) as [->|Hne]; [done|].
    destruct (from_slice log p events Hlog Hne Hpre) as (e & rest & Hlast & E & _ & Hafter).
    rewrite fmap_last, Hlast. simpl. rewrite Position.gt_lt in Hlt |- *.
    assert (t ∈ from p log) as Hin by (apply list_elem_of_filter; subst tg; split; [by apply position_lt_asym|done]).
    rewrite E, <- Hafter in Hin. apply elem_of_app in Hin as [Hin|Hin].
    + destruct Hno. subst tg. by apply list_elem_of_fmap_2.
    + apply list_elem_of_filter in Hin as [Hin _]. by subst tg.
  - destruct Hms as [Hbody Hms]. apply Forall_cons in Hpush as [He Hpush]. split_and!; [done..|]. by apply IH.
Qed.

(** The slices, as the log has their events. *)
Definition slice_events (ms : list message) : list (list resolved_event) :=
  omap (λ m, match m with a_slice events _ => Some events | a_push _ _ => None end) ms.

Lemma missed_served_once log tg ms pre t post : in_order log → ∀ p (seen : bool),
  missed_served log tg p ms pre t post →
  (if seen then tail (from p log) else from p log) = once seen (slice_events ms ++ [pre ++ [t]]) ++ after tg log.
Proof.
  intros Hlog. induction ms as [|[events body|e body] ms IH]; intros p seen Hms.
  - destruct Hms as [Hpre Ht].
    assert ((pre ++ [t]) `prefix_of` from p log) as Hpre'.
    { etransitivity; [|exact Hpre]. exists post. by rewrite <- app_assoc. }
    destruct (from_slice log p (pre ++ [t]) Hlog) as (e & rest & Hlast & E & _ & Hafter); [by destruct pre|done|].
    rewrite last_snoc in Hlast. injection Hlast as <-. rewrite Ht in Hafter. rewrite E, Hafter. simpl.
    rewrite app_nil_r. destruct seen; [|done]. by destruct pre.
  - destruct Hms as (Hpre & _ & _ & Hms). specialize (IH _ (seen || negb (bool_decide (events = []))) Hms).
    change (slice_events (a_slice events body :: ms) ++ ?l) with (events :: (slice_events ms ++ l)).
    cbn [once]. destruct (decide (events = [])) as [->|Hne].
    + rewrite bool_decide_eq_true_2, orb_false_r in IH |- * by done. rewrite <- app_assoc, <- IH. by destruct seen.
    + rewrite bool_decide_eq_false_2, orb_true_r in IH |- * by done.
      destruct (from_slice log p events Hlog Hne Hpre) as (e & rest & Hlast & E & Ee & _).
      rewrite fmap_last, Hlast in IH. simpl in IH. rewrite Ee in IH. simpl in IH.
      rewrite <- app_assoc, <- IH, E. destruct seen; [|done]. by destruct events.
  - destruct Hms as [_ Hms]. by apply IH.
Qed.

(** The position the confirmation gives. *)
Definition confirmed_position (body : bytes) : position := mk_position (commit_of body) (commit_of body).

(** The server answers according to [log]: the historical slices give events
    from [start] on, in turn; the slices of the missed events, when the
    confirmed position is after the end of these, too; and the events after
    the confirmed position are pushed. *)
Record all_serves (log : list resolved_event) (start : position) (a : all_answers) : Prop := {
  ls_log : in_order log;
  ls_historical : historical_served log start (l_historical a);
  ls_end : all_slice_body [] (l_end a);
  ls_confirmation : fits32 (length (l_confirmation a));
  ls_missed : let p := end_position start (l_historical a) in
    let tg := confirmed_position (l_confirmation a) in
    match l_missed a with
    | None => Position.gt tg p = false
    | Some (ms, (pre, t, post, body)) =>
        Position.gt tg p = true ∧ missed_served log tg p ms pre t post ∧ all_slice_body (pre ++ t :: post) body
    end;
  ls_live : Forall (λ l, pushed_body l.1 l.2) (l_live a);
  ls_pushes : all_pushes a = after (confirmed_position (l_confirmation a)) log
}.

(** A connection that is ready, with nothing under way. *)
Record all_idle : Prop := {
  all_idle_sizes : all_sizes w0;
  all_idle_pending : pending w0 = [async_receive];
  all_idle_ops : operations_map_ w0 = ∅;
  all_idle_subs : subscriptions_map_ w0 = ∅;
  all_idle_posted : Forall inert (posted w0)
}.

(** The course of the subscription, [j] jobs being run after the last slice. *)
Definition all_course (start : position) (a : all_answers) (j : nat) : list event :=
  let g := guids w0 in
  [ev_api (api_new_subscription this key (args_catchup_all start cfg));
   ev_api (api_start_subscription this ea dr)] ++
  answers_to_slices all_slice_answer g (l_historical a) ++
  [all_slice_answer (g + length (l_historical a)) (l_end a)] ++
  [confirmation_of key (l_confirmation a)] ++
  match l_missed a with
  | None => []
  | Some (ms, (_, body)) =>
      let g := S (g + length (l_historical a)) in
      arrivals all_slice_answer (event_of key) g ms ++ all_slice_answer (g + reads ms) body :: replicate j ev_job
  end ++
  ((event_of key ∘ snd) <$> l_live a).

(** What the client asks for in its course. *)
Definition all_requests (start : position) (a : all_answers) : list (tcp_command * bytes) :=
  let p := end_position start (l_historical a) in
  [read_request start] ++ (read_request <$> next_positions (l_historical a)) ++ [subscribe_all_request] ++
  match l_missed a with
  | None => []
  | Some (ms, _) => [read_request p] ++ (read_request <$> missed_positions p ms)
  end.

(** The number of guids it takes. *)
Definition all_course_guids (a : all_answers) : nat :=
  guids w0 + S (length (l_historical a)) + match l_missed a with None => 0 | Some (ms, _) => S (reads ms) end.

Lemma all_course_start start : all_idle →
  ∃ s t w, key_ s = key ∧ stream_ s = EmptyString ∧
    run step w0 [ev_api (api_new_subscription this key (args_catchup_all start cfg));
                 ev_api (api_start_subscription this ea dr)] w ∧
    at_all s start Position.default_position [] [] [read_request start]
      (all_reading (slice_to_historical this ea dr) (guids w0) t) ∅ (S (guids w0)) [async_receive] w.
Proof.
  intros []. set (s := make_catchup_all_subscription key start cfg).
  set (w1 := set_objects (<[this := s]> (objects w0)) w0).
  assert (at_all s start Position.default_position [] [] [] ∅ ∅ (guids w0) [async_receive] w1) as Hw1.
  { split; [|exists []; by rewrite app_nil_r]. constructor; simpl; try done.
    - by apply (sizes_same w0 w1).
    - exists q_new. split; [apply lookup_insert_eq|exact (q_new_rel (T := resolved_event) (Q := event_queue))].
    - by rewrite app_nil_r. }
  assert (objects w1 !! this = Some (all_object s (members start Position.default_position q_new))) as Hs
    by apply lookup_insert_eq.
  destruct (catch_up_all_events_run this s (members start Position.default_position q_new) (read_batch_size cfg)
    (slice_to_historical this ea dr) w1 Hs) as (p & v & Hv & Hc & Hm & Hrun); [apply (p_sizes _ _ _ _ _ _ _ _ (proj1 Hw1))|].
  destruct Hw1 as [Hw1 Hsent].
  destruct (point_issued _ _ _ _ _ _ _ p (on_read_all_events forward (slice_to_historical this ea dr)) _ Hw1) as (t & Hi).
  exists s, t. eexists. split; [done|]. split; [done|]. split; [|split; [exact Hi|]].
  - apply (run_step _ _ _ w1); [|econstructor; [|constructor]]; unfold step; cbn [exec run_api]; unfold effect.
    + by rewrite run_perform.
    + unfold start_subscription. rewrite run_bind, (run_get_object _ _ _ Hs). run_simpl. cbn [kind_ all_object set_kind].
      unfold catchup_all_async_start. rewrite run_bind, (run_all_members _ _ _ _ Hs). run_simpl.
      exact (f_equal (λ r, Some (x ← r; Ret x.2)) Hrun).
  - eapply (asked_more []); [exact Hsent|apply outbox_issued|]. exists v. split_and!; [done|done|]. by rewrite Hm.
Qed.

(** Up to the confirmation. *)
Lemma all_course_confirmed bound log start a :
  length key = 16%nat → (∀ i, (i < bound)%nat → fresh_guid i ≠ key ∧ fresh_guid i ≠ fresh_guid (S i)) →
  all_idle → all_serves log start a → (guids w0 + length (l_historical a) < bound)%nat →
  let g := (guids w0 + length (l_historical a))%nat in
  let p := end_position start (l_historical a) in
  let tg := confirmed_position (l_confirmation a) in
  let d := concat (l_historical a).*1 in
  let sent := [read_request start] ++ (read_request <$> next_positions (l_historical a)) ++ [subscribe_all_request] in
  ∃ s w, all_running s ∧
    run step w0 ([ev_api (api_new_subscription this key (args_catchup_all start cfg));
        ev_api (api_start_subscription this ea dr)] ++
      answers_to_slices all_slice_answer (guids w0) (l_historical a) ++ [all_slice_answer g (l_end a)] ++
      [confirmation_of key (l_confirmation a)]) w ∧
    let subs := {[key := mk_subscription_closure (registrations w0) this ea dr]} in
    if Position.gt tg p
    then ∃ t, at_all s p tg [] d (sent ++ [read_request p])
                (all_reading (slice_to_missed (registrations w0) this ea dr (read_batch_size cfg)) (S g) t) subs (S (S g)) [async_receive] w
    else at_all s p tg [] d sent ∅ subs (S g) [async_receive] w.
Proof.
  intros Hkey Hguids Hidle [Hlog Hhist Hend Hconf _ _ _] Hbound g p tg d sent.
  destruct (historical_served_read log (l_historical a) start Hhist) as [_ Hall].
  destruct (all_course_start start Hidle) as (s & t & w1 & Hk & Hst & Hr1 & Hw1).
  destruct (all_historical_run Hkey bound Hguids s Position.default_position (l_historical a) Hk Hst
    start [] _ (guids w0) t w1 Hall ltac:(lia) Hw1) as (t2 & w2 & Hr2 & Hw2).
  destruct (all_historical_end Hkey s _ _ _ _ _ _ _ _ Hk Hst Hw2 Hend) as (w3 & Hs3 & Hw3).
  destruct (all_confirmation_step Hkey (set_handle_guard false s) p Position.default_position d sent (S g)
    (l_confirmation a) w3) as (w4 & Hs4 & Hw4); [by split|done|exact Hw3|].
  exists (all_confirmed (l_confirmation a) (set_handle_guard false s)), w4. split_and!.
  - apply running_all_confirmed. by split.
  - eapply run_trans; [exact Hr1|]. eapply run_trans; [exact Hr2|]. do 2 (econstructor; [eassumption|]). constructor.
  - exact Hw4.
Qed.

(** The missed events, and those buffered meanwhile. *)
Lemma all_missed_delivered bound s tg g ms pre e post body log p d sent t w :
  length key = 16%nat → (∀ i, (i < bound)%nat → fresh_guid i ≠ key ∧ fresh_guid i ≠ fresh_guid (S i)) →
  0 < max_live_queue_size cfg → all_running s → (g + reads ms < bound)%nat → in_order log →
  Forall has_position (pushed_while ms) → Position.gt tg p = true → missed_served log tg p ms pre e post →
  all_slice_body (pre ++ e :: post) body →
  let subs := {[key := mk_subscription_closure (registrations w0) this ea dr]} in
  at_all s p tg [] d sent (all_reading (slice_to_missed (registrations w0) this ea dr (read_batch_size cfg)) g t) subs (S g) [async_receive] w →
  ∃ j w', run step w (arrivals all_slice_answer (event_of key) g ms ++
      all_slice_answer (g + reads ms) body :: replicate j ev_job) w' ∧
    at_all s (default tg (last (pos <$> pushed_while ms))) tg [] (d ++ sliced ms ++ pre ++ pushed_while ms)
      (sent ++ (read_request <$> missed_positions p ms)) ∅ subs (S (g + reads ms)) [async_receive] w'.
Proof.
  intros Hkey Hguids Hlive Hrun Hg Hlog Hpush Hgt Hserved Hbody subs Hw.
  destruct (all_missed_run Hkey bound Hguids s tg Hrun ms p [] d sent g t w) as (t1 & w1 & Hr1 & _ & Hw1);
    [by eapply missed_served_valid|done|constructor|done|]. rewrite !app_nil_l in Hw1.
  destruct (missed_served_end _ _ _ _ _ _ _ Hserved) as [[rest E] He].
  pose proof (in_order_from (position_after p ms) log Hlog) as [Hpos Hsorted]. rewrite E in Hpos, Hsorted.
  rewrite <- app_assoc in Hsorted. cbn [app] in Hsorted.
  destruct (all_missed_end_run Hkey Hlive s (position_after p ms) tg (pushed_while ms) (d ++ sliced ms)
    (sent ++ (read_request <$> missed_positions p ms)) (g + reads ms) t1 pre e post body w1 Hrun)
    as (j & w2 & Hr2 & Hw2); [|done| |done|exact Hw1|done|].
  - by apply Forall_app in Hpos as [Hpos _].
  - intros Hin. apply list_elem_of_fmap in Hin as (x & Hx & Hin).
    apply before_app in Hsorted as [Hbefore _]. rewrite Forall_forall in Hbefore. specialize (Hbefore x Hin).
    unfold before in Hbefore. rewrite <- Hx, He, Position.lt_irrefl in Hbefore. done.
  - exists j, w2. rewrite <- app_assoc in Hw2. split; [by eapply run_trans|exact Hw2].
Qed.

Lemma sliced_events ms : sliced ms = concat (slice_events ms).
Proof.
  induction ms as [|[events body|e body] ms IH]; [done|..].
  - change (events ++ sliced ms = events ++ concat (slice_events ms)). by f_equal.
  - exact IH.
Qed.

(** The events pushed once the earlier ones have been delivered. *)
Lemma all_live_delivered s p tg b d sent g ls log w :
  length key = 16%nat → 0 < max_live_queue_size cfg → all_running s → in_order log →
  b ++ ls.*1 = after tg log → Forall (λ l, pushed_body l.1 l.2) ls → Position.gt tg p = false →
  let subs := {[key := mk_subscription_closure (registrations w0) this ea dr]} in
  at_all s (default p (last (pos <$> b))) tg [] d sent ∅ subs g [async_receive] w →
  ∃ w', run step w ((event_of key ∘ snd) <$> ls) w' ∧
    at_all s (default p (last (pos <$> after tg log))) tg [] (d ++ ls.*1) sent ∅ subs g [async_receive] w'.
Proof.
  intros Hkey Hlive Hrun [Hpos _] Hall Hbody Hgt subs Hw.
  assert (Forall (λ e, Position.gt tg (pos e) = false ∧ has_position e) (b ++ ls.*1)) as Hlater.
  { rewrite Hall. rewrite Forall_forall in Hpos |- *. intros e [He Hin]%list_elem_of_filter.
    split; [|by apply Hpos]. rewrite Position.gt_lt. by apply position_lt_asym. }
  apply Forall_app in Hlater as [Hb Hls]. rewrite Forall_fmap in Hls.
  destruct (all_live_run Hkey Hlive s tg sent g Hrun ls (default p (last (pos <$> b))) d w) as (w' & Hr & Hw');
    [| |exact Hw|].
  - destruct (last (pos <$> b)) as [x|] eqn:E; [|done]. rewrite fmap_last in E.
    destruct (last b) as [e|] eqn:Eb; [|done]. injection E as <-. rewrite Forall_forall in Hb.
    apply Hb. apply last_Some in Eb as [l' ->]. apply elem_of_app. right. left.
  - rewrite Forall_forall in Hls, Hbody |- *. intros l Hl. destruct (Hls l Hl). split_and!; [done..|by apply Hbody].
  - exists w'. split; [done|]. rewrite <- Hall, fmap_app, last_app.
    by destruct (last (pos <$> ls.*1)).
Qed.
End run.

(** C7: What a catch-up subscription to the log of all streams asks for and
    delivers, over its whole course: the reads up to the end of the log, in
    any slices; the subscription and its confirmation; the reads of the events
    written meanwhile, in any slices and with events pushed in between; the
    delivery of the buffered events, as many at a time as max_live_queue_size()
    says; and the events pushed from then on.  The historical reads start at
    the positions the slices give, the reads of the missed events at the
    position of the last event delivered.  Against the log from which the server
    answers, the event handler gets the events read, those missed and those
    after the confirmed position, in order; but when that position is after the
    end of the reads, the last event of each slice of missed events comes a
    second time, as the first of the next, and the event at the position itself
    is left out. *)
Theorem catchup_all_delivers_log {AL : Allocator} {PB : Protobuf} {AE : AsioErrors} {GS : GuidSource}
    this ea dr key cfg w0 log start a
    (Hidle : all_idle w0) (Hkey : length key = 16%nat) (Hlive : 0 < max_live_queue_size cfg)
    (Hguids : ∀ i, (i < all_course_guids w0 a)%nat → fresh_guid i ≠ key ∧ fresh_guid i ≠ fresh_guid (S i))
    (Hserver : all_serves log start a) :
  let p := end_position start (l_historical a) in
  let tg := confirmed_position (l_confirmation a) in
  let read := concat (l_historical a).*1 in
  let '(missing, missed, caught_up) :=
    match l_missed a with
    | None => (from p log, [], p)
    | Some (ms, (pre, t, _, _)) =>
        (once false (slice_events ms ++ [pre ++ [t]]) ++ after tg log, concat (slice_events ms ++ [pre]), tg)
    end in
  from start log = read ++ missing ∧
  ∃ j s q w, run step w0 (all_course this ea dr key cfg w0 start a j) w ∧
    asked (w0 := w0) (all_requests cfg w0 start a) w ∧
    calls w = calls w0 ++ deliver ea (read ++ missed ++ after tg log) ∧
    objects w !! this =
      Some (all_object s (mk_all_members (default caught_up (last (pos <$> after tg log))) cfg q tg)) ∧
    q_rel q [] ∧ is_Some (subscriptions_map_ w !! key).
Proof.
  intros p tg read. pose proof Hserver as [Hlog Hhist _ _ Hmissed Hlv Hpush]. unfold all_pushes in Hpush.
  fold p tg in Hmissed, Hpush.
  destruct (historical_served_read log (l_historical a) start Hhist) as [Hfrom _]. fold p read in Hfrom.
  destruct (all_course_confirmed this ea dr key cfg w0 (all_course_guids w0 a) log start a)
    as (s & w1 & Hrun & Hr1 & Hw1); [done..|unfold all_course_guids; lia|]. fold p tg read in Hw1.
  unfold all_course, all_requests, all_course_guids in *. fold p.
  destruct (l_missed a) as [[ms [[[pre e] post] body]]|].
  - destruct Hmissed as (Hgt & Hserved & Hbody). rewrite Hgt in Hw1. destruct Hw1 as [t Hw1].
    pose proof (missed_served_once log tg ms pre e post Hlog p false Hserved) as Honce. cbn [tail] in Honce.
    assert (Forall has_position (pushed_while ms)) as Hpos.
    { assert (Forall has_position (pushed_while ms ++ (l_live a).*1)) as Hpos by (rewrite Hpush; apply Forall_filter, Hlog).
      by apply Forall_app in Hpos as [? _]. }
    destruct (all_missed_delivered this ea dr key cfg w0
      (guids w0 + S (length (l_historical a)) + S (reads ms)) s tg (S (guids w0 + length (l_historical a)))
      ms pre e post body log p read _ t w1 Hkey Hguids Hlive Hrun ltac:(lia) Hlog Hpos Hgt Hserved Hbody Hw1)
      as (j & w2 & Hr2 & Hw2).
    destruct (all_live_delivered this ea dr key cfg w0 s tg tg (pushed_while ms) _ _ _ (l_live a) log w2
      Hkey Hlive Hrun Hlog Hpush Hlv ltac:(by rewrite Position.gt_lt, Position.lt_irrefl) Hw2) as (w3 & Hr3 & [Hw3 Hsent]).
    split; [by rewrite Hfrom, Honce|]. destruct Hw3. destruct p_object as (q & Hq & Hrel).
    exists j, s, q, w3. split_and!; [| | |done|done|by rewrite p_subs, lookup_singleton_eq].
    + pose proof (run_trans _ _ _ _ _ _ Hr1 (run_trans _ _ _ _ _ _ Hr2 Hr3)) as Hr. rewrite <- !app_assoc in *. exact Hr.
    + rewrite <- !app_assoc in *. exact Hsent.
    + rewrite p_calls, concat_app, <- sliced_events, <- Hpush, <- !app_assoc. simpl. by rewrite app_nil_r.
  - rewrite Hmissed in Hw1. split; [exact Hfrom|].
    destruct (all_live_delivered this ea dr key cfg w0 s p tg [] _ _ _ (l_live a) log w1
      Hkey Hlive Hrun Hlog Hpush Hlv Hmissed Hw1) as (w3 & Hr3 & [Hw3 Hsent]).
    destruct Hw3. destruct p_object as (q & Hq & Hrel).
    exists 0%nat, s, q, w3. split_and!; [| | |done|done|by rewrite p_subs, lookup_singleton_eq].
    + pose proof (run_trans _ _ _ _ _ _ Hr1 Hr3) as Hr. rewrite <- !app_assoc in *. exact Hr.
    + exact Hsent.
    + by rewrite p_calls, <- Hpush.
Qed.

(** The log has eight events: the client reads event 0 and the end of the log,
    and subscribes; the confirmation says that the log ends at position 5; the
    missed events come in the slices [1; 2], [2; 3] and [3; 4; 5]; 6 is pushed
    meanwhile and 7 later. *)
Definition sample_all_answers : all_answers := {|
  l_historical := [([sample_event 0], [x00])];
  l_end := [x01];
  l_confirmation := [x00];
  l_missed := Some (
    [a_slice [sample_event 1; sample_event 2] [x02]; a_push (sample_event 6) [x06];
     a_slice [sample_event 2; sample_event 3] [x03]],
    ([sample_event 3; sample_event 4], sample_event 5, [], [x04]));
  l_live := [(sample_event 7, [x07])]
|}.

Lemma catchup_all_delivers_log_witness :
  let log := sample_event <$> ([0; 1; 2; 3; 4; 5; 6; 7] : list Z) in
  let cfg := default_catchup_subscription_settings in
  let start := mk_position 0 0 in
  all_idle (PB := sample_protobuf) (AE := linux_asio_errors) sample_connected ∧
  all_serves (PB := sample_protobuf) log start sample_all_answers ∧
  ∃ j w, run (step (AL := zero_allocator) (PB := sample_protobuf) (AE := linux_asio_errors) (GS := counting_guids))
      sample_connected
      (all_course (GS := counting_guids) 0 1 2 (replicate 16 x05) cfg sample_connected start
        sample_all_answers j) w ∧
    calls w = calls sample_connected ++ deliver 1 (sample_event <$> ([0; 1; 2; 2; 3; 3; 4; 6; 7] : list Z)).
Proof.
  intros log cfg start.
  assert (all_idle (PB := sample_protobuf) (AE := linux_asio_errors) sample_connected) as Hidle.
  { split; [split; [|split|..]|..]; try (vm_compute; reflexivity); [vm_compute; lia|vm_compute; lia|by intros []..|].
    vm_compute. by repeat constructor. }
  assert (all_serves (PB := sample_protobuf) log start sample_all_answers) as Hserves.
  { split.
    - split; [|]; vm_compute; repeat constructor; try (by eexists); vm_compute; reflexivity.
    - split_and!; [discriminate|repeat split; vm_compute; reflexivity|vm_compute; reflexivity|exact I].
    - repeat split; vm_compute; reflexivity.
    - vm_compute. reflexivity.
    - split; [vm_compute; reflexivity|]. split; [|repeat split; vm_compute; reflexivity].
      split; [exists (sample_event <$> ([3; 4; 5; 6; 7] : list Z)); vm_compute; reflexivity|].
      split; [apply (bool_decide_unpack _); vm_compute; exact I|]. split; [repeat split; vm_compute; reflexivity|].
      split; [repeat split; vm_compute; reflexivity|].
      split; [exists (sample_event <$> ([4; 5; 6; 7] : list Z)); vm_compute; reflexivity|].
      split; [apply (bool_decide_unpack _); vm_compute; exact I|]. split; [repeat split; vm_compute; reflexivity|].
      split; [exists (sample_event <$> ([6; 7] : list Z)); vm_compute; reflexivity|vm_compute; reflexivity].
    - apply Forall_cons_2; [|constructor]. repeat split; vm_compute; reflexivity.
    - vm_compute. reflexivity. }
  split; [exact Hidle|]. split; [exact Hserves|].
  assert (∀ i, (i < all_course_guids sample_connected sample_all_answers)%nat →
    fresh_guid (GuidSource := counting_guids) i ≠ replicate 16 x05 ∧
    fresh_guid (GuidSource := counting_guids) i ≠ fresh_guid (GuidSource := counting_guids) (S i)) as Hguids.
  { intros i Hi. replace (all_course_guids sample_connected sample_all_answers) with 7%nat in Hi by (vm_compute; reflexivity).
    do 7 (destruct i as [|i]; [vm_compute; split; discriminate|]). lia. }
  destruct (catchup_all_delivers_log (AL := zero_allocator) (PB := sample_protobuf) (AE := linux_asio_errors)
    (GS := counting_guids) 0 1 2 (replicate 16 x05) cfg sample_connected log start sample_all_answers Hidle
    eq_refl eq_refl Hguids Hserves) as (_ & j & _ & _ & w & Hr & _ & Hc & _).
  exists j, w. split; [exact Hr|]. rewrite Hc. f_equal.
Defined.
