(* ===== verification/Reentrant.v ===== *)
(** Event handlers that call the client: the delivery loop of a catch-up
    subscription (read_subscription_events of
    include/subscription/catchup_subscription.hpp) when the handler, before it
    returns, makes requests or unsubscribes. *)
From S2P Require Import Prelude Errors Basics BufferQueue TcpPackage Messages Events Settings Operations.
From S2P Require Import OperationsMap World Connection Requests Subscription Catchup.

Section reentrant.
Context {AL : Allocator} {PB : Protobuf} {AE : AsioErrors} {GS : GuidSource}.

(** [react e]: what the handler does with the event [e] before it returns. *)
Context (react : resolved_event → prog unit).

Definition read_one_event_reacting (r this event_appeared : nat) : prog unit :=
  '(_, _, buffer) ← catchup_members this;
  event ← lift (q_front buffer);
  call_reference r this event_appeared (cb_event event);;
  react event;;
  '(n, settings, buffer) ← catchup_members this;
  buffer ← lift (q_pop_front buffer);
  set_catchup_members this n settings buffer;;
  increment_event_number this.

Fixpoint read_events_reacting (rounds : nat) (r this event_appeared : nat) : prog unit :=
  match rounds with
  | O => skip
  | S rounds =>
      '(_, _, buffer) ← catchup_members this;
      if q_empty buffer then skip
      else read_one_event_reacting r this event_appeared;; read_events_reacting rounds r this event_appeared
  end.

Definition read_subscription_events_reacting (r this event_appeared : nat) : prog unit :=
  '(_, settings, _) ← catchup_members this;
  read_events_reacting (Z.to_nat (max_live_queue_size settings)) r this event_appeared;;
  '(_, _, buffer) ← catchup_members this;
  if negb (q_empty buffer) then post (read_buffered r this event_appeared) else skip.

(** ** Handlers that leave the subscription alone

    [P]: what the reaction needs of the state. *)
Context (P : world → Prop).
Definition harmless : Prop := ∀ e w, P w → ∃ w', run_prog (react e) w = Ret (tt, w') ∧ P w' ∧
  objects w' = objects w ∧ subscriptions_map_ w' = subscriptions_map_ w ∧ calls w' = calls w ∧
  posted w `prefix_of` posted w'.
Definition indifferent : Prop := ∀ w os cs, P w → P (set_objects os (set_calls cs w)).

Lemma read_one_event_reacting_run r this s cb n settings buffer e l w :
  harmless → indifferent → P w →
  objects w !! this = Some (catchup_object s n settings buffer) → q_rel buffer (e :: l) →
  refers r (key_ s) w → in_i64 (n + 1) →
  ∃ buffer' w', q_rel buffer' l ∧ run_prog (read_one_event_reacting r this cb) w = Ret (tt, w') ∧ P w' ∧
    objects w' !! this = Some (catchup_object s (n + 1) settings buffer') ∧
    subscriptions_map_ w' = subscriptions_map_ w ∧ calls w' = calls w ++ [(cb, cb_event e)] ∧
    posted w `prefix_of` posted w'.
Proof.
  intros Hharm Hind HP Hs Hq Hk Hn. destruct (q_pop_front_rel _ _ _ Hq) as (buffer' & Hpop & Hq').
  assert (P (set_calls (calls w ++ [(cb, cb_event e)]) w)) as HP1.
  { specialize (Hind w (objects w) (calls w ++ [(cb, cb_event e)]) HP). by destruct w. }
  destruct (Hharm e _ HP1) as (w1 & Hr1 & HPw1 & Ho1 & Hsub1 & Hc1 & Hp1). simpl in Ho1, Hsub1, Hc1, Hp1.
  exists buffer', (with_members this s (n + 1) settings buffer' w1).
  assert (objects w1 !! this = Some (catchup_object s n settings buffer)) as Hs1 by by rewrite Ho1.
  split; [done|]. split_and!; try done.
  - unfold read_one_event_reacting.
    rewrite run_bind, (run_catchup_members _ _ _ _ _ _ Hs). run_simpl.
    rewrite run_bind, run_perform, (q_front_rel _ _ _ Hq). run_simpl.
    rewrite run_bind, (run_call_reference _ _ _ _ _ _ Hs Hk). run_simpl.
    rewrite run_bind, Hr1. run_simpl.
    rewrite run_bind, (run_catchup_members this s n settings buffer) by done. run_simpl.
    rewrite run_bind, run_perform, Hpop. run_simpl.
    rewrite run_bind, (run_set_catchup_members this s n settings buffer) by done. run_simpl.
    rewrite (run_increment this s n settings buffer') by (done || apply lookup_with_members).
    by rewrite with_members_members.
  - specialize (Hind w1 (<[this := catchup_object s (n + 1) settings buffer']> (objects w1)) (calls w1) HPw1).
    by destruct w1.
  - apply lookup_with_members.
Qed.

Lemma read_events_reacting_run rounds r this s cb settings : harmless → indifferent → ∀ n buffer l w, P w →
  objects w !! this = Some (catchup_object s n settings buffer) → q_rel buffer l →
  refers r (key_ s) w → in_i64 n → in_i64 (n + Z.of_nat (length l)) →
  ∃ buffer' w', q_rel buffer' (drop rounds l) ∧ run_prog (read_events_reacting rounds r this cb) w = Ret (tt, w') ∧
    objects w' !! this = Some (catchup_object s (n + Z.of_nat (length (take rounds l))) settings buffer') ∧
    calls w' = calls w ++ deliver cb (take rounds l) ∧ posted w `prefix_of` posted w'.
Proof.
  intros Hharm Hind. induction rounds as [|rounds IH]; intros n buffer l w HP Hs Hq Hk Hn0 Hn;
    cbn [read_events_reacting].
  - exists buffer, w. split_and!; [done..|by cbn; rewrite Z.add_0_r|by rewrite app_nil_r|done].
  - rewrite run_bind, (run_catchup_members _ _ _ _ _ _ Hs). run_simpl. rewrite (q_empty_rel _ _ Hq).
    destruct l as [|e l]; cbn [drop take].
    + exists buffer, w. split_and!; [done..|by cbn; rewrite Z.add_0_r|by rewrite app_nil_r|done].
    + rewrite bool_decide_eq_false_2 by done. simpl length in Hn.
      assert (in_i64 (n + 1)) as Hn1 by (unfold in_i64 in *; lia).
      destruct (read_one_event_reacting_run _ this s cb n settings buffer e l w Hharm Hind HP Hs Hq Hk Hn1)
        as (b1 & w1 & Hq1 & Hrun & HP1 & Hs1 & Hsub1 & Hc1 & Hp1).
      rewrite run_bind, Hrun. run_simpl.
      destruct (IH (n + 1) b1 l w1) as (b2 & w2 & Hq2 & Hrun2 & Hs2 & Hc2 & Hp2);
        [done|done|done|by unfold refers; rewrite Hsub1|done|unfold in_i64 in *; lia|].
      exists b2, w2. split_and!; [done|exact Hrun2| |by rewrite Hc2, Hc1, <- app_assoc|by etrans].
      rewrite Hs2. simpl length. by replace (n + 1 + Z.of_nat (length (take rounds l)))
        with (n + Z.of_nat (S (length (take rounds l)))) by lia.
Qed.
End reentrant.

(** A handler that calls nothing is the handler of the other files. *)
Lemma reacting_nothing {AL : Allocator} {PB : Protobuf} {AE : AsioErrors} {GS : GuidSource} r this cb w :
  run_prog (read_subscription_events_reacting (λ _, skip) r this cb) w = run_prog (read_subscription_events r this cb) w.
Proof.
  assert (∀ w, run_prog (read_one_event_reacting (λ _, skip) r this cb) w = run_prog (read_one_event r this cb) w) as Hone.
  { intros w1. unfold read_one_event_reacting, read_one_event. rewrite !run_bind.
    destruct (run_prog (catchup_members this) w1) as [[[[n st] q] w2]| |]; [|done..]. run_simpl.
    rewrite !run_bind. destruct (run_prog (lift (q_front q)) w2) as [[e w3]| |]; [|done..]. run_simpl.
    rewrite !run_bind. destruct (run_prog (call_reference r this cb (cb_event e)) w3) as [[[] w4]| |]; [|done..].
    run_simpl. by rewrite run_bind. }
  assert (∀ k w, run_prog (read_events_reacting (λ _, skip) k r this cb) w = run_prog (read_events k r this cb) w) as Hall.
  { induction k as [|k IH]; intros w1; [done|]. cbn [read_events_reacting read_events]. rewrite !run_bind.
    destruct (run_prog (catchup_members this) w1) as [[[[n st] q] w2]| |]; [|done..]. run_simpl.
    destruct (q_empty q); [done|]. rewrite !run_bind, Hone.
    destruct (run_prog (read_one_event r this cb) w2) as [[[] w3]| |]; [|done..]. apply IH. }
  unfold read_subscription_events_reacting, read_subscription_events. rewrite !run_bind.
  destruct (run_prog (catchup_members this) w) as [[[[n st] q] w2]| |]; [|done..]. run_simpl.
  by rewrite !run_bind, Hall.
Qed.

(** Making a request is harmless. *)
Definition connected_fit (w : world) : Prop := alive w = true ∧ credentials_fit w.

Lemma request_harmless {AL : Allocator} {AE : AsioErrors} {GS : GuidSource} cmd (m : connection_settings → bytes)
    (build : resolved_event → connection_settings → guid_type → outcome tcp_package) h :
  (∀ e s k, build e s k = make_request s cmd k (m s)) → (∀ s, Z.of_nat (length (m s)) < 2 ^ 30) →
  harmless (λ e, issue (build e) h) connected_fit.
Proof.
  intros Hb Hm e w [Ha Hc].
  destruct (issue_make_request cmd (m (settings_ w)) h (build e) w) as (p & v & fl & creds & Hrun & _);
    [done|done|done|by intros|].
  exists (issued p h w). split_and!; try done. by apply prefix_app_r.
Qed.

Lemma connected_indifferent : indifferent connected_fit.
Proof. by intros w os cs [? ?]. Qed.

(** ** The queue after pop_front on it while it was empty *)
Definition popped_empty : event_queue := BufferQueue.mk_buffer_queue [] 1 (wrap_u32 (-1)).

Lemma pop_cleared (q : event_queue) : q_pop_front (q_clear q) = Ret popped_empty.
Proof. reflexivity. Qed.

(** An element put into it cannot be read: the front is the slot after it. *)
Lemma popped_empty_front e : ∃ q, q_emplace_back e popped_empty = Ret q ∧ q_front q = Undef out_of_bounds.
Proof. eexists. split; reflexivity. Qed.

(** The loop when the handler unsubscribes on the first event. *)
Lemma unsubscribing_run {AL : Allocator} {PB : Protobuf} {AE : AsioErrors} {GS : GuidSource}
    c s n settings buffer e l w :
  objects w !! sc_this c = Some (catchup_object s n settings buffer) → q_rel buffer (e :: l) →
  handle_guard_ s = false → subscriptions_map_ w !! key_ s = Some c → alive w = true → Guid.wf (key_ s) →
  Z.of_nat (length (SerializeAsString mk_UnsubscribeFromStream)) < 2 ^ 30 →
  in_i64 (n + 1) → 0 < max_live_queue_size settings →
  let this := sc_this c in
  let s' := set_handle_guard true (set_is_subscribed false s) in
  ∃ p w', run_prog (read_subscription_events_reacting (λ _, unsubscribe this) (sc_stamp c) this (sc_event_appeared c)) w =
      Ret (tt, w') ∧
    calls w' = calls w ++ [(sc_event_appeared c, cb_event e)] ∧ posted w' = posted w ++ [send_package p] ∧
    objects w' !! this = Some (catchup_object s' (n + 1) settings popped_empty).
Proof.
  intros Hs Hq Hopen Hreg Halive Hkey Hsize Hn Hlive this s'.
  assert (refers (sc_stamp c) (key_ s) w) as Href by (unfold refers; by rewrite Hreg).
  set (w1 := set_calls (calls w ++ [(sc_event_appeared c, cb_event e)]) w).
  destruct (unsubscribe_run c (catchup_object s n settings buffer) w1) as (p & v & _ & _ & _ & Hu); [done..|].
  set (w2 := sent_with _ _ _ _) in Hu.
  assert (objects w2 !! this = Some (catchup_object s' n settings (q_clear buffer))) as Hw2 by apply lookup_insert_eq.
  set (w3 := with_members this s' (n + 1) settings popped_empty w2).
  assert (run_prog (read_one_event_reacting (λ _, unsubscribe this) (sc_stamp c) this (sc_event_appeared c)) w = Ret (tt, w3)) as Hone.
  { unfold read_one_event_reacting.
    rewrite run_bind, (run_catchup_members _ _ _ _ _ _ Hs). run_simpl.
    rewrite run_bind, run_perform, (q_front_rel _ _ _ Hq). run_simpl.
    rewrite run_bind, (run_call_reference _ _ _ _ _ _ Hs Href). run_simpl.
    rewrite run_bind. fold w1. unfold this. rewrite Hu. run_simpl.
    rewrite run_bind, (run_catchup_members _ _ _ _ _ _ Hw2). run_simpl.
    rewrite run_bind, run_perform, pop_cleared. run_simpl.
    rewrite run_bind, (run_set_catchup_members _ s' n settings (q_clear buffer)) by done. run_simpl.
    rewrite (run_increment _ s' n settings popped_empty) by (done || apply lookup_with_members).
    by rewrite with_members_members. }
  assert (objects w3 !! this = Some (catchup_object s' (n + 1) settings popped_empty)) as Hw3
    by apply lookup_with_members.
  exists p, w3. split_and!; [|done..].
  unfold read_subscription_events_reacting. rewrite run_bind, (run_catchup_members _ _ _ _ _ _ Hs). run_simpl.
  destruct (Z.to_nat (max_live_queue_size settings)) as [|k] eqn:Ek; [lia|]. cbn [read_events_reacting].
  rewrite run_bind, run_bind, (run_catchup_members _ _ _ _ _ _ Hs). run_simpl.
  rewrite (q_empty_rel _ _ Hq), bool_decide_eq_false_2 by done. rewrite run_bind, Hone. run_simpl.
  assert (run_prog (read_events_reacting (λ _, unsubscribe this) k (sc_stamp c) this (sc_event_appeared c)) w3 = Ret (tt, w3)) as ->.
  { destruct k; [done|]. cbn [read_events_reacting]. by rewrite run_bind, (run_catchup_members _ _ _ _ _ _ Hw3). }
  run_simpl. by rewrite run_bind, (run_catchup_members _ _ _ _ _ _ Hw3).
Qed.

(** C30: What an event handler that calls the client does to the delivery of the
    buffered events.  Calls that leave the subscription alone, such as further
    requests, change nothing: the events are delivered in order, each once, at
    most max_live_queue_size() of them, and the rest is posted.  When the
    handler unsubscribes, no further event is delivered and one unsubscribe
    package is sent; but pop_front then runs on the queue that unsubscribing
    has cleared, and when the subscription is started again, the first event
    pushed to it makes front() read a slot in which no event has been
    constructed. *)
Theorem handler_calls_client {AL : Allocator} {PB : Protobuf} {AE : AsioErrors} {GS : GuidSource}
    c s n settings buffer e l w
    (Hs : objects w !! sc_this c = Some (catchup_object s n settings buffer)) (Hq : q_rel buffer (e :: l))
    (Hopen : handle_guard_ s = false) (Hreg : subscriptions_map_ w !! key_ s = Some c)
    (Halive : alive w = true) (Hkey : Guid.wf (key_ s))
    (Hsize : Z.of_nat (length (SerializeAsString mk_UnsubscribeFromStream)) < 2 ^ 30)
    (Hn : in_i64 n) (Hmax : in_i64 (n + Z.of_nat (length (e :: l)))) (Hlive : 0 < max_live_queue_size settings) :
  let this := sc_this c in
  let cb := sc_event_appeared c in
  let k := Z.to_nat (max_live_queue_size settings) in
  (∀ react P, harmless react P → indifferent P → P w →
    ∃ buffer' w', run_prog (read_subscription_events_reacting react (sc_stamp c) this cb) w = Ret (tt, w') ∧
      calls w' = calls w ++ deliver cb (take k (e :: l)) ∧
      objects w' !! this = Some (catchup_object s (n + Z.of_nat (length (take k (e :: l)))) settings buffer') ∧
      q_rel buffer' (drop k (e :: l)) ∧ posted w `prefix_of` posted w' ∧
      (drop k (e :: l) ≠ [] → last (posted w') = Some (read_buffered (sc_stamp c) this cb))) ∧
  (∃ p w', run_prog (read_subscription_events_reacting (λ _, unsubscribe this) (sc_stamp c) this cb) w = Ret (tt, w') ∧
    calls w' = calls w ++ [(cb, cb_event e)] ∧ posted w' = posted w ++ [send_package p] ∧
    objects w' !! this =
      Some (catchup_object (set_handle_guard true (set_is_subscribed false s)) (n + 1) settings popped_empty)) ∧
  (∀ w2 s2 m view bs e', objects w2 !! this = Some (catchup_object s2 m settings popped_empty) →
    handle_guard_ s2 = false → command view = Ret Command.stream_event_appeared → message_bytes view = Ret bs →
    resolved_of_ResolvedEvent (sea_event (ParseFromArray bs)) = Ret e' →
    run_prog (subscription_lambda catchup_on_package_received c success view) w2 = Undef out_of_bounds).
Proof.
  intros this cb k. split_and!.
  - intros react P Hharm Hind HP.
    destruct (read_events_reacting_run react P k (sc_stamp c) this s cb settings Hharm Hind n buffer (e :: l) w)
      as (buffer' & w1 & Hq1 & Hrun & Hs1 & Hc1 & Hp1); [done|done|done|by unfold refers; rewrite Hreg|done|done|].
    exists buffer', (if bool_decide (drop k (e :: l) = []) then w1
                     else set_posted (posted w1 ++ [read_buffered (sc_stamp c) this cb]) w1).
    split.
    + unfold read_subscription_events_reacting. rewrite run_bind, (run_catchup_members _ _ _ _ _ _ Hs). run_simpl.
      fold k. rewrite run_bind, Hrun. run_simpl. rewrite run_bind, (run_catchup_members _ _ _ _ _ _ Hs1). run_simpl.
      rewrite (q_empty_rel _ _ Hq1). by case_bool_decide.
    + case_bool_decide; split_and!; try done; [by apply prefix_app_r|]. intros _. simpl. by rewrite last_snoc.
  - eapply unsubscribing_run; try done. unfold in_i64 in *. simpl length in Hmax. lia.
  - intros w2 s2 m view bs e' Hs2 Hg Hcmd Hbs He.
    destruct (popped_empty_front e') as (q & Hput & Hfront).
    rewrite (open_lambda_package _ c _ _ _ Hs2) by done.
    unfold lambda_on_package, catchup_on_package_received. cbv zeta.
    rewrite run_bind, run_bind, run_perform, Hcmd. run_simpl.
    rewrite bool_decide_eq_false_2 by done. rewrite bool_decide_eq_true_2 by done.
    rewrite run_bind, run_perform, (parse_view_ok (M := StreamEventAppeared) _ _ Hbs). run_simpl.
    rewrite run_bind, run_perform, He. run_simpl.
    rewrite run_bind, (run_catchup_members _ _ _ _ _ _ Hs2). run_simpl. rewrite run_bind, run_perform, Hput. run_simpl.
    rewrite run_bind, (run_set_catchup_members _ s2 m settings popped_empty) by done. run_simpl.
    by rewrite run_bind, run_perform, Hfront.
Qed.

Lemma handler_calls_client_witness :
  let settings := mk_catchup_subscription_settings 2 10 true "name" in
  let kind := catchup 7 settings (sample_buffer [sample_event 7; sample_event 8; sample_event 9]) in
  let w := sample_subscribed kind in
  let copy (e : resolved_event) := issue
    (λ s k, append_request (AL := zero_allocator) (PB := sample_protobuf) s k "copy" [] (-2)) (on_append 9) in
  max_live_queue_size settings = 2 ∧
  (∃ buffer' w', run_prog (AE := linux_asio_errors) (GS := counting_guids)
      (read_subscription_events_reacting copy 0 0 1) w = Ret (tt, w') ∧
    calls w' = [(1%nat, cb_event (sample_event 7)); (1%nat, cb_event (sample_event 8))] ∧
    objects w' !! 0%nat = Some (catchup_object (sample_subscription kind) 9 settings buffer')) ∧
  (∃ p w', run_prog (AE := linux_asio_errors) (GS := counting_guids)
      (read_subscription_events_reacting (λ _, unsubscribe (AL := zero_allocator) (PB := sample_protobuf) 0) 0 0 1) w =
      Ret (tt, w') ∧
    calls w' = [(1%nat, cb_event (sample_event 7))] ∧ posted w' = [send_package p]).
Proof.
  intros settings kind w copy. split; [reflexivity|].
  destruct (handler_calls_client (AL := zero_allocator) (PB := sample_protobuf) (AE := linux_asio_errors)
    (GS := counting_guids) sample_closure (sample_subscription kind) 7 settings
    (sample_buffer [sample_event 7; sample_event 8; sample_event 9]) (sample_event 7) [sample_event 8; sample_event 9] w
    ltac:(vm_compute; reflexivity) (sample_buffer_rel _) eq_refl ltac:(vm_compute; reflexivity) eq_refl eq_refl eq_refl
    ltac:(unfold in_i64; lia) ltac:(unfold in_i64; cbn; lia) eq_refl) as (H1 & (p & w' & Hr & Hc & Hp & _) & _).
  split; [|exists p, w'; split; [exact Hr|split; [exact Hc|exact Hp]]].
  destruct (H1 copy connected_fit) as (b & w1 & Hr1 & Hc1 & Ho & _);
    [apply (request_harmless (AL := zero_allocator) Command.write_events (λ _, []) (λ _ s k,
       append_request (AL := zero_allocator) (PB := sample_protobuf) s k "copy" [] (-2))); intros; reflexivity|apply connected_indifferent|
     split; [reflexivity|split; vm_compute; lia]|].
  exists b, w1. split; [exact Hr1|split; [exact Hc1|exact Ho]].
Defined.
