(* ===== verification/Answers.v ===== *)
(** Over whole executions of the client, the handler of a request is called at
    most once. *)
From S2P Require Import Prelude Errors Basics BufferQueue TcpPackage Messages Events Settings Operations.
From S2P Require Import OperationsMap World Triples Connection Requests ConnectOps Subscription Catchup.
From S2P Require Import CatchupAll Client Lifecycle.

Section answers.
Context {AL : Allocator} {PB : Protobuf} {AE : AsioErrors} {GS : GuidSource}.

(** The handler whose calls are counted, and the number of guids generated. *)
Context (cb bound : nat).

(** ** Where the handler can be

    A request's handler is in the operations map under the correlation id of
    the request, or in a posted call; no other closure has it. *)
Definition reader_user (r : slice_reader) : option nat :=
  match r with slice_to_user u => Some u | _ => None end.

Definition response_user (h : response_handler) : option nat :=
  match h with
  | on_append u | on_conditional_append u | on_delete u | on_start_transaction u
  | on_transactional_write u | on_commit_transaction u | on_read_stream_event _ _ u
  | on_get_stream_metadata _ u | on_create_persistent u | on_update_persistent u
  | on_delete_persistent u => Some u
  | on_read_stream_events _ _ _ r | on_read_all_events _ r => reader_user r
  | on_unsubscribe _ _ _ => None
  end.

Definition response_weight (h : response_handler) : nat :=
  if decide (response_user h = Some cb) then 1 else 0.
Definition op_weight (op : operation_closure) : nat :=
  match op with op_response h _ => response_weight h | _ => 0 end.
Definition job_weight (j : job) : nat :=
  match j with call_handler u _ => if decide (u = cb) then 1 else 0 | _ => 0 end.
Definition call_weight (c : nat * callback) : nat := if decide (c.1 = cb) then 1 else 0.

(** The closures that must not have it. *)
Definition reader_free (r : slice_reader) : Prop :=
  match r with
  | slice_to_user _ => True
  | slice_to_historical _ a d | slice_to_missed _ _ a d _ => a ≠ cb ∧ d ≠ cb
  end.
Definition response_free (h : response_handler) : Prop :=
  match h with
  | on_read_stream_events _ _ _ r | on_read_all_events _ r => reader_free r
  | on_unsubscribe _ _ d => d ≠ cb
  | _ => True
  end.
Definition op_free (op : operation_closure) : Prop :=
  match op with
  | op_response h _ => response_free h
  | op_authentication h _ | op_identification h _ _ _ => h ≠ Some cb
  end.
Definition sub_free (c : subscription_closure) : Prop := sc_event_appeared c ≠ cb ∧ sc_dropped c ≠ cb.
Definition waiter_free (x : waiter) : Prop :=
  match x with wait_identify _ _ h _ => h ≠ Some cb | _ => True end.
Definition timer_free (t : timer) : Prop :=
  match waiting t with Some x => waiter_free x | None => True end.
Definition job_free (j : job) : Prop :=
  match j with
  | drop_subscription _ _ d => d ≠ cb
  | read_buffered _ _ a => a ≠ cb
  | wait_completed x _ _ => waiter_free x
  | _ => True
  end.
Definition async_free (o : async_op) : Prop :=
  match o with async_discover u | async_socket_connect _ u => u ≠ cb | _ => True end.

(** The waits of authentication and identification call what they find under
    their correlation id without erasing it: no request may be there. *)
Definition waiter_key (x : waiter) : option guid_type :=
  match x with
  | wait_authenticate i => Some (authentication_correlation_id i)
  | wait_identify i _ _ _ => Some (identity_correlation_id i)
  | _ => None
  end.
Definition timer_key (t : timer) : option guid_type := waiting t ≫= waiter_key.
Definition job_key (j : job) : option guid_type :=
  match j with wait_completed x _ _ => waiter_key x | _ => None end.
Definition wait_keys (w : world) : list guid_type := omap timer_key (timers w) ++ omap job_key (posted w).

Definition drawn (w : world) (k : guid_type) : Prop := ∃ i, (i < guids w)%nat ∧ k = fresh_guid i.

(** The invariant; [keys] are correlation ids of the connection's own
    operations that the code at hand is going to use. *)
Record Inv (keys : list guid_type) (w : world) : Prop := mk_Inv {
  inv_ops : map_Forall (λ _ op, op_free op) (operations_map_ w);
  inv_subs : map_Forall (λ _ c, sub_free c) (subscriptions_map_ w);
  inv_jobs : Forall job_free (posted w);
  inv_pending : Forall async_free (pending w);
  inv_timers : Forall timer_free (timers w);
  inv_drawn : ∀ k op, operations_map_ w !! k = Some op → op_weight op ≠ 0%nat → drawn w k;
  inv_keys : ∀ k, k ∈ keys ++ wait_keys w →
    drawn w k ∧ ∀ op, operations_map_ w !! k = Some op → op_weight op = 0%nat
}.

Definition ops_weight (m : operations_map operation_closure) : nat :=
  map_fold (λ _ op n, (op_weight op + n)%nat) 0%nat m.

(** How often the handler has been called or still can be. *)
Definition weight (w : world) : nat :=
  (sum_list_with call_weight (calls w) + ops_weight (operations_map_ w) +
   sum_list_with job_weight (posted w))%nat.

Lemma ops_weight_insert m k op :
  m !! k = None → ops_weight (<[k := op]> m) = (op_weight op + ops_weight m)%nat.
Proof. intros Hk. unfold ops_weight. rewrite map_fold_insert_L; [done|intros; lia|done]. Qed.

Lemma ops_weight_delete m k op :
  m !! k = Some op → ops_weight m = (op_weight op + ops_weight (delete k m))%nat.
Proof. intros Hk. unfold ops_weight. rewrite (map_fold_delete_L _ _ k op m); [done|intros; lia|done]. Qed.

Lemma ops_weight_erase m k : (ops_weight (erase k m) ≤ ops_weight m)%nat.
Proof.
  unfold erase. destruct (m !! k) as [op|] eqn:Hk.
  - rewrite (ops_weight_delete m k op) by done. lia.
  - by rewrite delete_id.
Qed.

(** A state that differs in nothing the invariant and the weight depend on. *)
Definition same_closures (w w' : world) : Prop :=
  operations_map_ w' = operations_map_ w ∧ subscriptions_map_ w' = subscriptions_map_ w ∧
  posted w' = posted w ∧ pending w' = pending w ∧ timers w' = timers w ∧ calls w' = calls w ∧
  (guids w ≤ guids w')%nat.

Ltac solve_same := unfold same_closures; split_and!; first [done | simpl; lia].

(** ** The commands *)
Section commands.
Context (keys : list guid_type).
Abbreviation tri := (triple bound (Inv keys) weight).

Lemma same_closures_inv w w' : same_closures w w' → Inv keys w → Inv keys w' ∧ weight w' = weight w.
Proof.
  intros (Ho & Hs & Hp & Hpe & Ht & Hca & Hg) []. split; [|unfold weight; congruence].
  assert (∀ k, drawn w k → drawn w' k) as Hd by (intros k (i & ? & ?); exists i; split; [lia|done]).
  constructor; unfold wait_keys; rewrite ?Ho, ?Hs, ?Hp, ?Hpe, ?Ht; eauto.
  intros k Hk. destruct (inv_keys0 k Hk). eauto.
Qed.

Lemma tri_quiet {A} n (c : cmd A) :
  (∀ w a w', run_cmd c w = Ret (a, w') → same_closures w w') → tri n (perform c) (λ _, True).
Proof. intros Hc. apply triple_quiet. intros w a w' Hw Hr. eapply same_closures_inv; eauto. Qed.

Lemma tri_post n j :
  job_free j → job_key j = None → (job_weight j ≤ n)%nat → tri n (post j) (λ _, True).
Proof.
  intros Hf Hk Hn. apply triple_perform. intros w a w' [] Hr. simpl in Hr. simplify_eq/=. split_and!; [|unfold weight; simpl|done].
  - constructor; simpl; try done; [by apply Forall_app_2; [|apply Forall_singleton]|].
    unfold wait_keys; simpl. rewrite omap_app. simpl. rewrite Hk, app_nil_r. done.
  - rewrite sum_list_with_app. simpl. lia.
Qed.

Lemma tri_call_user n u c : (call_weight (u, c) ≤ n)%nat → tri n (call_user u c) (λ _, True).
Proof.
  intros Hn. apply triple_perform. intros w a w' [] Hr. simpl in Hr. simplify_eq/=. split_and!; [|unfold weight; simpl|done].
  - by constructor.
  - rewrite sum_list_with_app. simpl. lia.
Qed.

Lemma tri_call_other n u c : u ≠ cb → tri n (call_user u c) (λ _, True).
Proof. intros Hu. apply tri_call_user. unfold call_weight. simpl. rewrite decide_False by done. lia. Qed.

(** Registering an operation of the connection itself. *)
Lemma tri_put_operation n key op :
  op_free op → op_weight op = 0%nat → tri n (put_operation key op) (λ _, True).
Proof.
  intros Hf Hz. apply triple_perform. intros w a w' Hw Hr. simpl in Hr. simplify_eq/=.
  split_and!; [| |done]; unfold register_op; destruct (operations_map_ w !! key) as [op'|] eqn:Hk.
  - by destruct w, Hw.
  - destruct Hw. constructor; simpl; try done.
    + by apply map_Forall_insert_2.
    + intros k op1 [[<- <-]|[_ H1]]%lookup_insert_Some ?; [done|]. eauto.
    + intros k Hin. destruct (inv_keys0 k Hin) as [? H0]. split; [done|].
      intros op1 [[<- <-]|[_ H1]]%lookup_insert_Some; eauto.
  - unfold weight; simpl. lia.
  - unfold weight; simpl. rewrite ops_weight_insert, Hz by done. lia.
Qed.

Lemma tri_update_operation n key op :
  op_free op → op_weight op = 0%nat → tri n (update_operation key op) (λ _, True).
Proof.
  intros Hf Hz. apply triple_perform. intros w a w' Hw Hr. simpl in Hr. simplify_eq/=.
  unfold contains. destruct (operations_map_ w !! key) as [op'|] eqn:Hk.
  - split_and!; [| |done].
    + destruct Hw. constructor; simpl; try done.
      * by apply map_Forall_insert_2.
      * intros k op1 [[<- <-]|[_ H1]]%lookup_insert_Some ?; [done|]. eauto.
      * intros k Hin. destruct (inv_keys0 k Hin) as [? H0]. split; [done|].
        intros op1 [[<- <-]|[_ H1]]%lookup_insert_Some; eauto.
    + unfold weight; simpl. rewrite (ops_weight_delete (operations_map_ w) key op') by done.
      rewrite <- insert_delete_eq, ops_weight_insert, Hz by apply lookup_delete_eq. lia.
  - split_and!; [by destruct w, Hw|unfold weight; simpl; lia|done].
Qed.

Lemma erase_inv key w : Inv keys w → Inv keys (set_operations_map (erase key (operations_map_ w)) w).
Proof.
  intros []. unfold erase. constructor; simpl; try done.
  - by apply map_Forall_delete.
  - intros k op [_ H1]%lookup_delete_Some ?. eauto.
  - intros k Hin. destruct (inv_keys0 k Hin) as [? H0]. split; [done|].
    intros op [_ H1]%lookup_delete_Some. eauto.
Qed.

Lemma tri_erase_operation n key : tri n (erase_operation key) (λ _, True).
Proof.
  apply triple_perform. intros w a w' Hw Hr. simpl in Hr. simplify_eq/=. split_and!; [by apply erase_inv| |done].
  unfold weight; simpl. pose proof (ops_weight_erase (operations_map_ w) key). lia.
Qed.

Lemma tri_put_subscription n key c : sub_free c → tri n (put_subscription key c) (λ _, True).
Proof.
  intros Hc. apply triple_quiet. intros w a w' [] Hr. simpl in Hr. simplify_eq/=. split; [|done].
  constructor; simpl; try done. unfold register_op. destruct (_ !! key); [done|]. by apply map_Forall_insert_2.
Qed.

Lemma tri_erase_subscription n key : tri n (erase_subscription key) (λ _, True).
Proof.
  apply triple_quiet. intros w a w' [] Hr. simpl in Hr. simplify_eq/=. split; [|done].
  constructor; simpl; try done. by apply map_Forall_delete.
Qed.

(** *** Timers *)

(** A timer whose wait is taken out, its completion being queued. *)
Lemma timer_expired_inv t d x ec w :
  timers w !! t = Some (mk_timer d (Some x)) → Inv keys w →
  let w' := set_posted (posted w ++ [wait_completed x t ec]) (set_timers (<[t := mk_timer d None]> (timers w)) w) in
  Inv keys w' ∧ weight w' = weight w.
Proof.
  intros Ht [] w'. pose proof (Forall_lookup_1 _ _ _ _ inv_timers0 Ht) as Hx. cbn in Hx.
  split.
  - constructor; simpl; try done.
    + by apply Forall_app_2; [|apply Forall_singleton].
    + by apply Forall_insert.
    + intros k Hk. apply inv_keys0. unfold wait_keys in *. simpl in Hk.
      rewrite !elem_of_app, !list_elem_of_omap in *.
      destruct Hk as [Hk|[(tm & Hin & Hk)|(j & Hin & Hk)]]; [by left|right; left..|].
      * apply list_elem_of_lookup in Hin as (i & Hi).
        destruct (decide (i = t)) as [->|Hne].
        { rewrite list_lookup_insert_eq in Hi by (by eapply lookup_lt_Some). by simplify_eq. }
        rewrite list_lookup_insert_ne in Hi by done. exists tm. split; [|done]. by eapply list_elem_of_lookup_2.
      * apply elem_of_app in Hin as [Hin|Hin]; [right; right; eauto|].
        apply list_elem_of_singleton in Hin as ->. right; left.
        exists (mk_timer d (Some x)). split; [by eapply list_elem_of_lookup_2|done].
  - unfold weight; simpl. rewrite sum_list_with_app. simpl. lia.
Qed.

Lemma abort_wait_inv t w : Inv keys w → Inv keys (abort_wait t w) ∧ weight (abort_wait t w) = weight w.
Proof.
  intros Hw. unfold abort_wait. destruct (timers w !! t) as [[d [x|]]|] eqn:Ht; [|done..].
  by apply timer_expired_inv.
Qed.

Lemma tri_cancel_timer n t : tri n (cancel_timer t) (λ _, True).
Proof.
  apply triple_quiet. intros w a w' Hw Hr. simpl in Hr. simplify_eq/=. by apply abort_wait_inv.
Qed.

(** Replacing a timer by one without a wait. *)
Lemma set_timers_inv ts w :
  Inv keys w → Forall timer_free ts → (∀ k, k ∈ omap timer_key ts → k ∈ omap timer_key (timers w) ++ keys) →
  Inv keys (set_timers ts w) ∧ weight (set_timers ts w) = weight w.
Proof.
  intros [] Hts Hk. split; [|done]. constructor; simpl; try done.
  intros k Hin. apply inv_keys0. unfold wait_keys in *. simpl in Hin.
  rewrite !elem_of_app in *. specialize (Hk k). rewrite elem_of_app in Hk.
  destruct Hin as [?|[?|?]]; [by left| |by right; right]. destruct Hk; [done|right; by left|by left].
Qed.

Lemma tri_expires_after n t d : tri n (expires_after t d) (λ _, True).
Proof.
  apply triple_quiet. intros w a w' Hw Hr. simpl in Hr. simplify_eq/=.
  destruct (abort_wait_inv t w Hw) as [Hi Hweight]. rewrite <- Hweight. apply set_timers_inv; [done| |].
  - apply Forall_insert; [apply Hi|done].
  - intros k (tm & Hin & Hk)%list_elem_of_omap. apply elem_of_app. left. apply list_elem_of_omap.
    apply list_elem_of_lookup in Hin as (i & [(<- & <- & _)|(_ & Hin)]%list_lookup_insert_Some); [done|].
    exists tm. split; [by eapply list_elem_of_lookup_2|done].
Qed.

Lemma tri_make_timer n : tri n make_timer (λ _, True).
Proof.
  apply triple_quiet. intros w a w' Hw Hr. simpl in Hr. simplify_eq/=. apply set_timers_inv; [done| |].
  - apply Forall_app_2; [apply Hw|by apply Forall_singleton].
  - intros k. rewrite omap_app. simpl. rewrite app_nil_r, elem_of_app. by left.
Qed.

Lemma tri_async_wait n t x :
  waiter_free x → (∀ k, waiter_key x = Some k → k ∈ keys) → tri n (async_wait t x) (λ _, True).
Proof.
  intros Hx Hk. apply triple_quiet. intros w a w' Hw Hr. simpl in Hr. simplify_eq/=. apply set_timers_inv; [done| |].
  - apply Forall_alter; [apply Hw|]. done.
  - intros k (tm & Hin & Htm)%list_elem_of_omap. apply elem_of_app.
    apply list_elem_of_lookup in Hin as (i & Hi). destruct (decide (i = t)) as [->|Hne].
    + rewrite list_lookup_alter_eq in Hi. destruct (timers w !! t); simplify_eq/=. right. by apply Hk.
    + rewrite list_lookup_alter_ne in Hi by done. left. apply list_elem_of_omap.
      exists tm. split; [by eapply list_elem_of_lookup_2|done].
Qed.

(** *** The rest *)
Lemma tri_start n o : async_free o → tri n (start o) (λ _, True).
Proof.
  intros Ho. apply triple_quiet. intros w a w' Hw Hr.
  assert (Inv keys (set_pending (pending w ++ [o]) w)) as Hi.
  { destruct Hw. constructor; simpl; try done. by apply Forall_app_2; [|apply Forall_singleton]. }
  destruct o; simpl in Hr; simplify_eq/=; try done. split; [|done]. by destruct Hi.
Qed.

Lemma tri_make_guid n : tri n make_guid (λ _, True).
Proof. apply tri_quiet. intros w a w' Hr. simpl in Hr. simplify_eq/=. solve_same. Qed.
Lemma tri_set_object n this s : tri n (set_object this s) (λ _, True).
Proof. apply tri_quiet. intros w a w' Hr. simpl in Hr. simplify_eq/=. solve_same. Qed.
Lemma tri_next_package_no n : tri n next_package_no (λ _, True).
Proof. apply tri_quiet. intros w a w' Hr. simpl in Hr. simplify_eq/=. solve_same. Qed.
Lemma tri_close_socket n : tri n close_socket (λ _, True).
Proof. apply tri_quiet. intros w a w' Hr. simpl in Hr. simplify_eq/=. solve_same. Qed.
End commands.

Abbreviation tri keys := (triple bound (Inv keys) weight).

Lemma at_key_op_free keys w key op :
  Inv keys w → at_key (operations_map_ w) key = Ret op → op_free op.
Proof. intros Hw. unfold at_key. destruct (_ !! _) eqn:E; intros [= <-]. by apply (inv_ops _ _ Hw _ _ E). Qed.
Lemma at_key_sub_free keys w key c :
  Inv keys w → at_key (subscriptions_map_ w) key = Ret c → sub_free c.
Proof. intros Hw. unfold at_key. destruct (_ !! _) eqn:E; intros [= <-]. by apply (inv_subs _ _ Hw _ _ E). Qed.

#[local] Hint Resolve tri_call_other tri_put_operation tri_update_operation tri_erase_operation
  tri_put_subscription tri_erase_subscription tri_cancel_timer tri_expires_after tri_make_timer
  tri_start tri_make_guid tri_set_object tri_next_package_no tri_close_socket : triples.
#[local] Hint Extern 2 (triple _ _ _ _ (post _) _) => apply tri_post; [simpl; by auto|done|simpl; lia] : triples.
#[local] Hint Extern 2 (triple _ _ _ _ (async_wait _ _) _) =>
  apply tri_async_wait; [simpl; by auto|simpl; intros; simplify_eq; set_solver] : triples.
#[local] Hint Unfold async_send async_start_receive close : triples.

(** *** Sending *)
Lemma tri_operation_op keys n key h :
  response_free h → response_weight h = 0%nat → tri keys n (operation_op key h) (λ _, True).
Proof. intros. unfold operation_op. tri_walk. Qed.
#[local] Hint Resolve tri_operation_op : triples.

Lemma tri_async_send_with keys n p h :
  response_free h → response_weight h = 0%nat → tri keys n (async_send_with p h) (λ _, True).
Proof. intros. unfold async_send_with, async_send. tri_walk. Qed.
#[local] Hint Resolve tri_async_send_with : triples.

Lemma tri_issue keys n build h :
  response_free h → response_weight h = 0%nat → tri keys n (issue build h) (λ _, True).
Proof. intros. unfold issue. tri_walk. Qed.
#[local] Hint Resolve tri_issue : triples.

(** *** Subscriptions *)
Implicit Types (keys : list guid_type) (this : nat).

Lemma tri_get_object keys n this : tri keys n (get_object this) (λ _, True).
Proof. unfold get_object. tri_walk. Qed.
#[local] Hint Resolve tri_get_object : triples.
Lemma tri_update_object keys n this f : tri keys n (update_object this f) (λ _, True).
Proof. unfold update_object. tri_walk. Qed.
#[local] Hint Resolve tri_update_object : triples.

Lemma tri_unsubscribe_dropping keys n this ec d : d ≠ cb → tri keys n (unsubscribe_dropping this ec d) (λ _, True).
Proof. intros. unfold unsubscribe_dropping. tri_walk. Qed.
#[local] Hint Resolve tri_unsubscribe_dropping : triples.
Lemma tri_run_drop keys n this ec d : d ≠ cb → tri keys n (run_drop this ec d) (λ _, True).
Proof. intros. unfold run_drop. tri_walk. Qed.
#[local] Hint Resolve tri_run_drop : triples.
Lemma tri_unsubscribe_response keys n this ec d err :
  d ≠ cb → tri keys n (unsubscribe_response this ec d err) (λ _, True).
Proof. intros. unfold unsubscribe_response. tri_walk. Qed.
Lemma tri_lambda_on_error keys n c ec : sub_free c → tri keys n (lambda_on_error c ec) (λ _, True).
Proof. intros []. unfold lambda_on_error. tri_walk. Qed.
#[local] Hint Resolve tri_lambda_on_error at_key_sub_free : triples.
Lemma tri_unsubscribe_with keys n this ec : tri keys n (unsubscribe_with this ec) (λ _, True).
Proof. unfold unsubscribe_with. tri_walk. Qed.
#[local] Hint Resolve tri_unsubscribe_with : triples.
Lemma tri_base_async_start keys n this a d : a ≠ cb → d ≠ cb → tri keys n (base_async_start this a d) (λ _, True).
Proof. intros. unfold base_async_start. tri_walk. apply tri_put_subscription. by split. Qed.
#[local] Hint Resolve tri_base_async_start : triples.
Lemma tri_volatile_async_start keys n this b a d :
  a ≠ cb → d ≠ cb → tri keys n (volatile_async_start this b a d) (λ _, True).
Proof. intros. unfold volatile_async_start, async_send. tri_walk. Qed.
Lemma tri_persistent_async_start keys n this g i a d :
  a ≠ cb → d ≠ cb → tri keys n (persistent_async_start this g i a d) (λ _, True).
Proof. intros. unfold persistent_async_start, async_send. tri_walk. Qed.
#[local] Hint Resolve tri_volatile_async_start tri_persistent_async_start : triples.
Lemma tri_acknowledge keys n this items : tri keys n (acknowledge this items) (λ _, True).
Proof. unfold acknowledge, async_send. tri_walk. Qed.
Lemma tri_fail keys n this items action : tri keys n (fail this items action) (λ _, True).
Proof. unfold fail, async_send. tri_walk. Qed.
#[local] Hint Resolve tri_acknowledge : triples.

Lemma tri_volatile_package keys n c v : sub_free c → tri keys n (volatile_on_package_received c v) (λ _, True).
Proof. intros []. unfold volatile_on_package_received. tri_walk. Qed.
Lemma tri_persistent_package keys n g i b c v :
  sub_free c → tri keys n (persistent_on_package_received g i b c v) (λ _, True).
Proof. intros []. unfold persistent_on_package_received. tri_walk. Qed.

(** *** Catch-up subscriptions *)
Lemma tri_through_reference keys n r this : tri keys n (through_reference r this) (λ _, True).
Proof. unfold through_reference. tri_walk. Qed.
#[local] Hint Resolve tri_through_reference : triples.
Lemma tri_call_reference keys n r this a c : a ≠ cb → tri keys n (call_reference r this a c) (λ _, True).
Proof. intros. unfold call_reference. tri_walk. Qed.
Lemma tri_drop_reference keys n r this ec d : d ≠ cb → tri keys n (drop_reference r this ec d) (λ _, True).
Proof. intros. unfold drop_reference. tri_walk. Qed.
#[local] Hint Resolve tri_call_reference tri_drop_reference : triples.
Lemma tri_catchup_members keys n this : tri keys n (catchup_members this) (λ _, True).
Proof. unfold catchup_members. tri_walk. Qed.
#[local] Hint Resolve tri_catchup_members : triples.
Lemma tri_set_catchup_members keys n this m s b : tri keys n (set_catchup_members this m s b) (λ _, True).
Proof. unfold set_catchup_members. tri_walk. Qed.
#[local] Hint Resolve tri_set_catchup_members : triples.
Lemma tri_increment keys n this : tri keys n (increment_event_number this) (λ _, True).
Proof. unfold increment_event_number. tri_walk. Qed.
#[local] Hint Resolve tri_increment : triples.

(** A read for one of the lambdas of the catch-up subscriptions. *)
Lemma response_weight_reader s from dir r :
  reader_user r = None →
  response_weight (on_read_stream_events s from dir r) = 0%nat ∧ response_weight (on_read_all_events dir r) = 0%nat.
Proof. intros Hr. unfold response_weight; simpl. by rewrite Hr. Qed.

Lemma tri_catch_up_events keys n this from count r :
  reader_free r → reader_user r = None → tri keys n (catch_up_events this from count r) (λ _, True).
Proof.
  intros Hf Hr. unfold catch_up_events, async_read_stream_events. tri_walk.
  apply tri_issue; [done|]. by apply response_weight_reader.
Qed.
#[local] Hint Extern 2 (triple _ _ _ _ (catch_up_events _ _ _ _) _) =>
  apply tri_catch_up_events; [by split|done] : triples.

Lemma tri_catchup_async_start keys n this a d :
  a ≠ cb → d ≠ cb → tri keys n (catchup_async_start this a d) (λ _, True).
Proof. intros. unfold catchup_async_start. tri_walk. Qed.
Lemma tri_catchup_do_async_start keys n this a d :
  a ≠ cb → d ≠ cb → tri keys n (catchup_do_async_start this a d) (λ _, True).
Proof. intros. unfold catchup_do_async_start. tri_walk. Qed.
#[local] Hint Resolve tri_catchup_async_start tri_catchup_do_async_start : triples.
Lemma tri_historical_slice_read keys n this a d ec r :
  a ≠ cb → d ≠ cb → tri keys n (historical_slice_read this a d ec r) (λ _, True).
Proof. intros. unfold historical_slice_read. tri_walk. Qed.
Lemma tri_catch_up_missed_events keys n r this count a d :
  a ≠ cb → d ≠ cb → tri keys n (catch_up_missed_events r this count a d) (λ _, True).
Proof. intros. unfold catch_up_missed_events. tri_walk. Qed.
#[local] Hint Resolve tri_catch_up_missed_events : triples.
Lemma tri_missed_slice_read keys n r this a d count ec o :
  a ≠ cb → d ≠ cb → tri keys n (missed_slice_read r this a d count ec o) (λ _, True).
Proof. intros. unfold missed_slice_read. tri_walk. Qed.
Lemma tri_read_one_event keys n r this a : a ≠ cb → tri keys n (read_one_event r this a) (λ _, True).
Proof. intros. unfold read_one_event. tri_walk. Qed.
#[local] Hint Resolve tri_read_one_event : triples.
Lemma tri_read_events keys n rounds r this a : a ≠ cb → tri keys n (read_events rounds r this a) (λ _, True).
Proof. intros. induction rounds; cbn [read_events read_all_buffered]; tri_walk. Qed.
#[local] Hint Resolve tri_read_events : triples.
Lemma tri_read_subscription_events keys n r this a :
  a ≠ cb → tri keys n (read_subscription_events r this a) (λ _, True).
Proof. intros. unfold read_subscription_events. tri_walk. Qed.
#[local] Hint Resolve tri_read_subscription_events : triples.
Lemma tri_catchup_package keys n c v :
  sub_free c → tri keys n (catchup_on_package_received c v) (λ _, True).
Proof. intros []. unfold catchup_on_package_received. tri_walk. Qed.

(** *** Catch-up subscriptions to the log *)
Lemma tri_all_members keys n this : tri keys n (catchup_all_members this) (λ _, True).
Proof. unfold catchup_all_members. tri_walk. Qed.
#[local] Hint Resolve tri_all_members : triples.
Lemma tri_update_all_members keys n this f : tri keys n (update_all_members this f) (λ _, True).
Proof. unfold update_all_members. tri_walk. Qed.
#[local] Hint Resolve tri_update_all_members : triples.
Lemma tri_catch_up_all_events keys n this from count r :
  reader_free r → reader_user r = None → tri keys n (catch_up_all_events this from count r) (λ _, True).
Proof.
  intros Hf Hr. unfold catch_up_all_events, async_read_all_events. tri_walk.
  apply tri_issue; [done|]. by apply (response_weight_reader "" 0).
Qed.
#[local] Hint Extern 2 (triple _ _ _ _ (catch_up_all_events _ _ _ _) _) =>
  apply tri_catch_up_all_events; [by split|done] : triples.
Lemma tri_catchup_all_async_start keys n this a d :
  a ≠ cb → d ≠ cb → tri keys n (catchup_all_async_start this a d) (λ _, True).
Proof. intros. unfold catchup_all_async_start. tri_walk. Qed.
Lemma tri_catchup_all_do_async_start keys n this a d :
  a ≠ cb → d ≠ cb → tri keys n (catchup_all_do_async_start this a d) (λ _, True).
Proof. intros. unfold catchup_all_do_async_start. tri_walk. Qed.
#[local] Hint Resolve tri_catchup_all_async_start tri_catchup_all_do_async_start : triples.
Lemma tri_historical_all_slice_read keys n this a d ec r :
  a ≠ cb → d ≠ cb → tri keys n (historical_all_slice_read this a d ec r) (λ _, True).
Proof. intros. unfold historical_all_slice_read. tri_walk. Qed.
Lemma tri_catch_up_missed_all_events keys n r this count a d :
  a ≠ cb → d ≠ cb → tri keys n (catch_up_missed_all_events r this count a d) (λ _, True).
Proof. intros. unfold catch_up_missed_all_events. tri_walk. Qed.
#[local] Hint Resolve tri_catch_up_missed_all_events : triples.
Lemma tri_read_one_all_event keys n r this a : a ≠ cb → tri keys n (read_one_all_event r this a) (λ _, True).
Proof. intros. unfold read_one_all_event. tri_walk. Qed.
#[local] Hint Resolve tri_read_one_all_event : triples.
Lemma tri_read_all_buffered keys n rounds r this a :
  a ≠ cb → tri keys n (read_all_buffered rounds r this a) (λ _, True).
Proof. intros. induction rounds; cbn [read_events read_all_buffered]; tri_walk. Qed.
#[local] Hint Resolve tri_read_all_buffered : triples.
Lemma tri_read_all_subscription_events keys n r this a :
  a ≠ cb → tri keys n (read_all_subscription_events r this a) (λ _, True).
Proof. intros. unfold read_all_subscription_events. tri_walk. Qed.
#[local] Hint Resolve tri_read_all_subscription_events : triples.
Lemma tri_missed_all_loop keys n r this a l : a ≠ cb → tri keys n (missed_all_loop r this a l) (λ _, True).
Proof. intros. induction l; cbn [missed_all_loop]; tri_walk. Qed.
#[local] Hint Resolve tri_missed_all_loop : triples.
Lemma tri_missed_all_slice_read keys n r this a d count ec o :
  a ≠ cb → d ≠ cb → tri keys n (missed_all_slice_read r this a d count ec o) (λ _, True).
Proof. intros. unfold missed_all_slice_read. tri_walk. Qed.
Lemma tri_catchup_all_package keys n c v :
  sub_free c → tri keys n (catchup_all_on_package_received c v) (λ _, True).
Proof. intros []. unfold catchup_all_on_package_received. tri_walk. Qed.

(** *** The responses *)

(** A closure of the connection, or a request with another handler. *)
Lemma tri_call_with {R} keys n u (f : R → callback) c :
  u ≠ cb → tri keys n (call_with u f c) (λ _, True).
Proof. intros. unfold call_with. tri_walk. Qed.
#[local] Hint Resolve tri_call_with : triples.

Lemma not_user (u : nat) : (if decide (Some u = Some cb) then 1 else 0)%nat = 0%nat → u ≠ cb.
Proof. case_decide; naive_solver. Qed.

Lemma tri_stream_slice_read keys n r ec slice :
  reader_free r → reader_user r ≠ Some cb → tri keys n (stream_slice_read r ec slice) (λ _, True).
Proof.
  destruct r; simpl; intros Hf Hr; [apply tri_call_other; congruence|..]; destruct Hf;
    [by apply tri_historical_slice_read|by apply tri_missed_slice_read].
Qed.
Lemma tri_all_slice_read keys n r ec slice :
  reader_free r → reader_user r ≠ Some cb → tri keys n (all_slice_read r ec slice) (λ _, True).
Proof.
  destruct r; simpl; intros Hf Hr; [apply tri_call_other; congruence|..]; destruct Hf;
    [by apply tri_historical_all_slice_read|by apply tri_missed_all_slice_read].
Qed.
#[local] Hint Resolve tri_stream_slice_read tri_all_slice_read : triples.

Lemma tri_run_response keys n h ec v :
  response_free h → response_user h ≠ Some cb → tri keys n (run_response h ec v) (λ _, True).
Proof.
  intros Hf Hu.
  destruct h; simpl in Hf, Hu; cbn [run_response];
    first [apply tri_call_with; congruence | by apply tri_unsubscribe_response | idtac].
  - eapply triple_bind; [apply triple_lift|]. intros [[]|] _; tri_walk.
  - eapply triple_bind; [apply triple_lift|]. intros [[]|] _; tri_walk.
Qed.
#[local] Hint Resolve tri_run_response : triples.

Lemma response_weight_zero h : response_weight h = 0%nat → response_user h ≠ Some cb.
Proof. unfold response_weight. by case_decide. Qed.
#[local] Hint Resolve response_weight_zero : triples.

(** The response of a request with the handler: it changes nothing but the
    calls, where there is at most one more. *)
Lemma response_calls_one h ec v u :
  response_user h = Some u →
  ∃ cs, response_calls h ec v = Some cs ∧ ∀ l, cs = Ret l → l = [] ∨ ∃ c, l = [(u, c)].
Proof.
  assert (∀ R (f : R → callback) (c : outcome (option R)) l,
    user_call u f c = Ret l → l = [] ∨ ∃ c, l = [(u, c)]) as Huser.
  { intros R f c l. unfold user_call. destruct c as [[r|]| |]; simpl; intros [=]; subst; eauto. }
  intros Hu. destruct h; try (destruct reader); simpl in Hu; simplify_eq/=; eauto.
Qed.

Lemma run_response_one h ec v w x w' :
  response_user h = Some cb → run_prog (run_response h ec v) w = Ret (x, w') →
  ∃ cs, w' = set_calls (calls w ++ cs) w ∧ (sum_list_with call_weight cs ≤ 1)%nat.
Proof.
  intros Hu Hr. destruct (response_calls_one h ec v cb Hu) as (cs & Hcs & Hone).
  rewrite (run_response_user _ _ _ _ _ Hcs) in Hr. destruct cs as [cs| |]; simpl in Hr; simplify_eq.
  exists cs. split; [done|]. destruct (Hone cs) as [->|[c ->]]; simpl; [done|lia|].
  unfold call_weight; simpl. case_decide; lia.
Qed.

(** *** The connection's own operations *)
Section own_operations.
(** The guids generated are different from each other. *)
Context (Hinj : ∀ i j, (i < bound)%nat → (j < bound)%nat → fresh_guid i = fresh_guid j → i = j).

(** A new correlation id is not that of any request. *)
Lemma fresh_key keys w :
  Inv keys w → (guids w < bound)%nat → Inv (fresh_guid (guids w) :: keys) (set_guids (S (guids w)) w).
Proof.
  intros [] Hg. assert (∀ k, drawn w k → drawn (set_guids (S (guids w)) w) k) as Hd.
  { intros k (i & ? & ?). exists i. split; [simpl; lia|done]. }
  constructor; simpl; try done; [eauto|].
  intros k [->|Hk]%elem_of_cons.
  - split; [exists (guids w); split; [simpl; lia|done]|].
    intros op Hop. destruct (decide (op_weight op = 0%nat)) as [|Hne]; [done|].
    destruct (inv_drawn0 _ _ Hop Hne) as (i & Hi & Heq). apply Hinj in Heq; lia.
  - destruct (inv_keys0 k Hk). eauto.
Qed.

Lemma inv_forget_key k keys w : Inv (k :: keys) w → Inv keys w.
Proof. intros []. constructor; try done. intros k' Hk. apply inv_keys0. by apply elem_of_cons; right. Qed.

Lemma triple_fresh_key {A} keys n (f : guid_type → prog A) Q :
  (∀ g, tri (g :: keys) n (f g) Q) → tri keys n (make_guid ≫= f) Q.
Proof.
  intros Hf w a w' Hw Hr Hg. rewrite run_bind, run_perform in Hr. simpl in Hr.
  assert (guids w < bound)%nat as Hlt by (apply run_prog_guids in Hr; simpl in Hr; lia).
  destruct (Hf (fresh_guid (guids w)) (set_guids (S (guids w)) w) a w' (fresh_key _ _ Hw Hlt) Hr Hg) as (Hi & Hle & HQ).
  split_and!; [by eapply inv_forget_key|exact Hle|done].
Qed.

Lemma tri_connection_lambda keys n h ec v g :
  h ≠ Some cb → tri keys n (connection_lambda h ec v g) (λ _, True).
Proof. intros. unfold connection_lambda. tri_walk. all: apply tri_call_other; congruence. Qed.
#[local] Hint Resolve tri_connection_lambda : triples.

Lemma tri_identify_initiate keys n t info r h b :
  h ≠ Some cb → identity_correlation_id info ∈ keys →
  tri keys n (identify_initiate t info r h b) (λ _, True).
Proof.
  intros Hh Hk. unfold identify_initiate, async_send. tri_walk.
Qed.
#[local] Hint Resolve tri_identify_initiate : triples.

Lemma tri_identify_op keys n h b : h ≠ Some cb → tri keys n (identify_op h b) (λ _, True).
Proof.
  intros Hh. unfold identify_op. eapply triple_bind; [apply tri_make_timer|]. intros t _.
  apply triple_fresh_key. intros g. tri_walk. apply tri_identify_initiate; [done|]. simpl. by left.
Qed.
#[local] Hint Resolve tri_identify_op : triples.

Lemma tri_identification_closure keys n h t b g ec v :
  h ≠ Some cb → tri keys n (identification_closure h t b g ec v) (λ _, True).
Proof. intros. unfold identification_closure. tri_walk. Qed.

Lemma tri_authentication_closure keys n k h t ec v :
  h ≠ Some cb → tri keys n (authentication_closure k h t ec v) (λ _, True).
Proof.
  intros. unfold authentication_closure, authentication_handler. tri_walk. by apply tri_update_operation.
Qed.

Lemma tri_authenticate_op keys n u : u ≠ cb → tri keys n (authenticate_op u) (λ _, True).
Proof.
  intros Hu. unfold authenticate_op, async_send. eapply triple_bind; [apply tri_make_timer|]. intros t _.
  apply triple_fresh_key. intros g. tri_walk.
  apply tri_put_operation; [simpl; congruence|done].
Qed.
#[local] Hint Resolve tri_authenticate_op : triples.

(** *** Calling the closures *)
Lemma tri_run_operation keys n key op ec v :
  op_free op → op_weight op = 0%nat → tri keys n (run_operation key op ec v) (λ _, True).
Proof.
  intros Hf Hz. destruct op; simpl in Hf, Hz; cbn [run_operation];
    [|by apply tri_authentication_closure|by apply tri_identification_closure].
  apply response_weight_zero in Hz. tri_walk.
Qed.

Lemma at_key_own keys w key op :
  Inv keys w → key ∈ keys → at_key (operations_map_ w) key = Ret op → op_weight op = 0%nat.
Proof.
  intros Hw Hk. unfold at_key. destruct (_ !! _) eqn:E; intros [= <-].
  by apply (inv_keys _ _ Hw key); [apply elem_of_app; left|].
Qed.

(** A call of what is registered under a key, and its removal: the weight
    of the operation becomes that of the call. *)
Lemma call_and_erase keys key op ec v w w' (Hg : (guids w' ≤ bound)%nat) :
  Inv keys w → at_key (operations_map_ w) key = Ret op →
  run_prog (run_operation key op ec v;; erase_operation key) w = Ret (tt, w') →
  Inv keys w' ∧ (weight w' ≤ weight w)%nat.
Proof.
  intros Hw Hat Hr. pose proof (at_key_op_free _ _ _ _ Hw Hat) as Hf.
  destruct (decide (op_weight op = 0%nat)) as [Hz|Hone].
  - assert (tri keys 0 (run_operation key op ec v;; erase_operation key) (λ _, True)) as Ht.
    { eapply triple_bind; [by apply tri_run_operation|]. intros. apply tri_erase_operation. }
    by destruct (Ht _ _ _ Hw Hr Hg) as (? & ? & _).
  - destruct op as [h t|? ?|? ? ? ?]; [|done..]. cbn [run_operation] in Hr. simpl in Hone.
    assert (response_user h = Some cb) as Hu by (unfold response_weight in Hone; by case_decide).
    rewrite run_bind, run_bind, run_perform in Hr. cbn [run_cmd mbind outcome_bind fst snd] in Hr.
    destruct (run_prog (run_response h ec v) (abort_wait t w)) as [[x w1]| |] eqn:E; simpl in Hr; [|done..].
    destruct (run_response_one _ _ _ _ _ _ Hu E) as (cs & -> & Hcs). simplify_eq.
    destruct (abort_wait_inv keys t w Hw) as [Hi Hweight]. split.
    { apply (erase_inv keys key (set_calls _ _)). by destruct Hi. }
    rewrite <- Hweight. unfold weight. simpl. rewrite sum_list_with_app.
    unfold at_key in Hat. destruct (operations_map_ w !! key) as [op|] eqn:Hop; [|done]. injection Hat as ->.
    rewrite (ops_weight_delete (operations_map_ (abort_wait t w)) key (op_response h t))
      by (by rewrite abort_wait_operations).
    unfold erase. simpl in *. lia.
Qed.

(** The part of the dispatch that looks up an operation, calls and erases it. *)
Lemma lookup_call_erase keys key ec v w x w' :
  (guids w' ≤ bound)%nat → Inv keys w →
  run_prog (op ← lift (at_key (operations_map_ w) key);
            run_operation key op ec v;; erase_operation key) w = Ret (x, w') →
  Inv keys w' ∧ (weight w' ≤ 0 + weight w)%nat ∧ True.
Proof.
  intros Hg Hw Hr. rewrite run_bind, run_perform in Hr. cbn [run_cmd] in Hr.
  destruct (at_key (operations_map_ w) key) as [op| |] eqn:Hat; simpl in Hr; [|done..].
  destruct x. by destruct (call_and_erase keys key op ec v w w' Hg Hw Hat Hr).
Qed.

(** A triple used in a given state. *)
Lemma triple_here {A} keys (p : prog A) w a w' :
  tri keys 0 p (λ _, True) → (guids w' ≤ bound)%nat → Inv keys w → run_prog p w = Ret (a, w') →
  Inv keys w' ∧ (weight w' ≤ 0 + weight w)%nat ∧ True.
Proof. intros Hp Hg Hw Hr. exact (Hp _ _ _ Hw Hr Hg). Qed.

Lemma tri_operation_wait keys key ec : tri keys 0 (operation_wait_completed key ec) (λ _, True).
Proof.
  unfold operation_wait_completed. apply triple_get_world_here. intros w a w' Hw Hr Hg.
  destruct (negb (alive w)); [exact (triple_here _ _ _ _ _ (triple_skip_any _ _ _ _) Hg Hw Hr)|].
  destruct (negb (failed ec)); [exact (lookup_call_erase _ _ _ _ _ _ _ Hg Hw Hr)|].
  case_bool_decide; [exact (triple_here _ _ _ _ _ (triple_skip_any _ _ _ _) Hg Hw Hr)|].
  destruct (contains _ _); [exact (lookup_call_erase _ _ _ _ _ _ _ Hg Hw Hr)|].
  exact (triple_here _ _ _ _ _ (triple_skip_any _ _ _ _) Hg Hw Hr).
Qed.

Lemma tri_child keys n c v : sub_free c → tri keys n (child_on_package_received c v) (λ _, True).
Proof.
  intros. unfold child_on_package_received. eapply triple_bind; [apply tri_get_object|]. intros s _.
  destruct (kind_ s); [by apply tri_volatile_package|by apply tri_persistent_package|
    by apply tri_catchup_package|by apply tri_catchup_all_package].
Qed.
#[local] Hint Resolve tri_child : triples.

Lemma tri_invoke_subscription keys n c ec v :
  sub_free c → tri keys n (subscription_lambda child_on_package_received c ec v) (λ _, True).
Proof. intros Hc. pose proof Hc as []. unfold subscription_lambda, lambda_on_package. tri_walk. Qed.

Lemma tri_on_package_received keys ec v : tri keys 0 (on_package_received ec v) (λ _, True).
Proof.
  unfold on_package_received. eapply triple_bind; [apply tri_next_package_no|intros _ _].
  do 2 (eapply triple_bind; [apply triple_lift|intros ? _]).
  apply triple_get_world_here. intros w x w' Hw Hr Hg.
  destruct (contains _ _); [exact (lookup_call_erase _ _ _ _ _ _ _ Hg Hw Hr)|].
  refine (triple_here _ _ _ _ _ _ Hg Hw Hr). destruct (contains _ _).
  - eapply triple_bind; [apply triple_lift|]. intros c Hc.
    apply tri_invoke_subscription. exact (at_key_sub_free _ _ _ _ Hw Hc).
  - unfold async_send. tri_walk.
Qed.
#[local] Hint Resolve tri_on_package_received : triples.

Lemma tri_receive_completed keys ec m n : tri keys 0 (receive_completed ec m n) (λ _, True).
Proof.
  unfold receive_completed, receive_token, async_start_receive, close. tri_walk.
Qed.

(** *** The jobs *)
Lemma tri_run_read_buffered keys n r this u : u ≠ cb → tri keys n (run_read_buffered r this u) (λ _, True).
Proof. intros. unfold run_read_buffered. tri_walk. Qed.
#[local] Hint Resolve tri_run_read_buffered : triples.

(** The key of the wait being completed is among [keys]. *)
Lemma tri_run_waiter keys x t ec :
  waiter_free x → (∀ k, waiter_key x = Some k → k ∈ keys) → tri keys 0 (run_waiter x t ec) (λ _, True).
Proof.
  intros Hf Hk. destruct x; simpl in Hf, Hk; cbn [run_waiter].
  - apply tri_operation_wait.
  - unfold heartbeat_wait_completed, heartbeat_initiate, heartbeat_error, async_send, close. tri_walk.
  - unfold authenticate_wait_completed. tri_walk;
      (apply tri_run_operation; [by eauto using at_key_op_free|by eauto using at_key_own]).
  - unfold identify_wait_completed. tri_walk;
      (apply tri_run_operation; [by eauto using at_key_op_free|by eauto using at_key_own]).
Qed.

(** What the connection does at the completion of discovery and connect. *)
Lemma tri_endpoint_discovered keys u ec e : u ≠ cb → tri keys 0 (endpoint_discovered u ec e) (λ _, True).
Proof. intros. unfold endpoint_discovered. tri_walk. all: apply tri_connection_lambda; congruence. Qed.
Lemma tri_tcp_connected keys u ec : u ≠ cb → tri keys 0 (tcp_connected u ec) (λ _, True).
Proof.
  intros. unfold tcp_connected, async_start_receive, heartbeat_op, heartbeat_initiate, heartbeat_error,
    async_send, close. tri_walk.
  all: first [apply tri_identify_op; congruence|apply tri_connection_lambda; congruence].
Qed.

(** *** The user's calls *)

(** The handler an API call gives to a request. *)
Definition request_handler (a : api_call) : option nat :=
  match a with
  | api_append _ _ _ u | api_conditional_append _ _ _ u | api_delete _ _ _ u
  | api_start_transaction _ _ u | api_read_event _ _ _ u | api_read_stream _ _ _ _ _ u
  | api_read_all _ _ _ _ u | api_get_metadata _ u | api_set_metadata _ _ _ u
  | api_create_persistent _ _ _ u | api_update_persistent _ _ _ u | api_delete_persistent _ _ u => Some u
  | api_transaction _ (tx_commit u) | api_transaction _ (tx_write _ u) => Some u
  | _ => None
  end.

(** The handlers an API call gives to something that calls them repeatedly. *)
Definition other_handlers (a : api_call) : list nat :=
  match a with
  | api_connect u => [u]
  | api_start_subscription _ u d => [u; d]
  | _ => []
  end.

Definition request_weight (a : api_call) : nat := if decide (request_handler a = Some cb) then 1 else 0.

(** Registering an operation under a key that was just drawn. *)
Lemma put_fresh keys key op w :
  Inv keys w → drawn w key → key ∉ keys ++ wait_keys w → op_free op →
  let w' := set_operations_map (register_op key op (operations_map_ w)) w in
  Inv keys w' ∧ (weight w' ≤ op_weight op + weight w)%nat.
Proof.
  intros [] Hd Hkey Hf w'. subst w'. unfold register_op.
  destruct (operations_map_ w !! key) as [op'|] eqn:Hop; (split; [constructor; simpl; try done|]).
  - unfold weight; simpl. lia.
  - by apply map_Forall_insert_2.
  - intros k op1 [[<- <-]|[_ H1]]%lookup_insert_Some ?; [done|]. eauto.
  - intros k Hin. destruct (inv_keys0 k Hin) as [? H0]. split; [done|].
    intros op1 [[<- <-]|[_ H1]]%lookup_insert_Some; [done|]. eauto.
  - unfold weight; simpl. rewrite ops_weight_insert by done. lia.
Qed.

(** The state in which a request registers its operation. *)
Definition about_to_register (p : tcp_package) (w : world) : world :=
  set_timers (timers w ++ [mk_timer 0 None])
    (set_posted (posted w ++ [send_package p]) (set_guids (S (guids w)) w)).

Lemma about_to_register_inv keys p w :
  Inv keys w → (guids w < bound)%nat →
  Inv keys (about_to_register p w) ∧ weight (about_to_register p w) = weight w ∧
  drawn (about_to_register p w) (fresh_guid (guids w)) ∧
  fresh_guid (guids w) ∉ keys ++ wait_keys (about_to_register p w).
Proof.
  intros Hw Hlt. pose proof (inv_forget_key _ _ _ (fresh_key _ _ Hw Hlt)) as Hg.
  assert (wait_keys (about_to_register p w) = wait_keys w) as Hk.
  { unfold wait_keys, about_to_register. simpl. by rewrite !omap_app, !app_nil_r. }
  split_and!.
  - destruct Hg. constructor; simpl; try done.
    + by apply Forall_app_2; [|apply Forall_singleton].
    + by apply Forall_app_2; [|apply Forall_singleton].
    + by rewrite Hk.
  - unfold weight, about_to_register. simpl. rewrite sum_list_with_app. simpl. lia.
  - exists (guids w). split; [simpl; lia|done].
  - rewrite Hk. intros Hin. destruct (inv_keys _ _ Hw _ Hin) as [(i & Hi & Heq) _].
    apply Hinj in Heq; lia.
Qed.

Definition builds (build : connection_settings → guid_type → outcome tcp_package) : Prop :=
  ∀ s c p, length c = 16%nat → build s c = Ret p → carries c p.

(** A request puts its handler under a fresh correlation id. *)
Lemma triple_issue keys build h :
  builds build → response_free h → tri keys (response_weight h) (issue build h) (λ _, True).
Proof.
  intros Hb Hf w x w' Hw Hr Hg. unfold issue in Hr.
  apply run_perform_inv in Hr as (? & ? & [= <- <-] & Hr).
  apply run_perform_inv in Hr as (? & ? & [= <- <-] & Hr).
  apply run_lift_inv in Hr as (p & Hp & Hr). unfold async_send_with in Hr.
  apply run_lift_inv in Hr as (v & Hv & Hr). apply run_lift_inv in Hr as (c & Hc & Hr).
  assert (c = fresh_guid (guids w)) as ->.
  { eapply built_correlation_id; [by eapply Hb, Hp; apply fresh_guid_wf|apply fresh_guid_wf|done..]. }
  rewrite Guid.guid_from_chars_self in Hr by apply fresh_guid_wf.
  apply run_lift_inv in Hr as (g & [= <-] & Hr). unfold async_send, operation_op in Hr.
  do 3 apply run_perform_inv in Hr as (? & ? & [= <- <-] & Hr). cbv beta in Hr.
  change (set_timers _ _) with (about_to_register p w) in Hr.
  assert (guids w < bound)%nat as Hlt by (apply run_prog_guids in Hr; simpl in Hr; lia).
  destruct (about_to_register_inv keys p w Hw Hlt) as (Hi & Hweight & Hdrawn & Hnew).
  destruct (negb (alive (about_to_register p w))).
  { simpl in Hr. simplify_eq. split_and!; [done|lia|done]. }
  apply run_perform_inv in Hr as (? & ? & [= <- <-] & Hr). cbv beta in Hr.
  set (op := op_response h _) in Hr.
  destruct (put_fresh keys (fresh_guid (guids w)) op _ Hi Hdrawn Hnew Hf) as [Hi1 Hle1].
  assert (tri keys 0 (expires_after (length (timers w)) (operation_timeout_ (settings_ w));;
    async_wait (length (timers w)) (wait_operation (fresh_guid (guids w)))) (λ _, True)) as Ht by tri_walk.
  destruct (Ht _ _ _ Hi1 Hr Hg) as (? & Hle & _). split_and!; [done| |done].
  change (op_weight op) with (response_weight h) in Hle1. rewrite Hweight in Hle1. lia.
Qed.

Lemma triple_issue_user keys n build h :
  builds build → response_free h → (response_weight h ≤ n)%nat → tri keys n (issue build h) (λ _, True).
Proof. intros. eapply triple_weaken; [by apply triple_issue|done|done]. Qed.

(** Every request package is built by make_request. *)
Ltac built_by_make_request :=
  let Hp := fresh in intros ? ? ? ? Hp; lazy delta [append_request conditional_append_request delete_request
    start_transaction_request transactional_write_request commit_transaction_request
    read_stream_event_request read_stream_events_request read_all_events_request
    get_stream_metadata_request set_stream_metadata_request create_persistent_subscription_request
    update_persistent_subscription_request delete_persistent_subscription_request] beta in Hp;
  try (apply outcome_bind_Ret_inv in Hp as (? & _ & Hp));
  by apply make_request_carries in Hp.

Ltac one_request :=
  apply triple_issue_user; [built_by_make_request|done|done].

Lemma posted_call_weight u c : job_weight (call_handler u c) = (if decide (Some u = Some cb) then 1 else 0)%nat.
Proof. simpl. repeat case_decide; naive_solver. Qed.

Lemma tri_transaction_call keys t c :
  tri keys (request_weight (api_transaction t c)) (run_transaction_call t c) (λ _, True).
Proof.
  destruct c as [u|events u|]; cbn [run_transaction_call]; [| |apply triple_ret_any];
    unfold async_commit, async_write_events; destruct (failed _);
    (eapply triple_bind_first; [|intros; apply triple_ret_any]).
  all: first [apply tri_post; [done..|by rewrite posted_call_weight] |
              unfold async_commit_transaction, async_transactional_write; one_request].
Qed.

(** A call of the API: a request adds its handler, nothing else does. *)
Lemma tri_api keys a : cb ∉ other_handlers a → tri keys (request_weight a) (run_api a) (λ _, True).
Proof.
  intros Hn. destruct a; cbn [run_api]; simpl in Hn;
    unfold async_append_to_stream, async_conditional_append_to_stream, async_delete_stream,
      async_start_transaction, async_read_stream_event, async_read_stream_events, async_read_all_events,
      async_get_stream_metadata, async_set_stream_metadata, async_create_persistent_subscription,
      async_update_persistent_subscription, async_delete_persistent_subscription; try one_request.
  - unfold async_connect, connect_initiate. tri_walk. apply tri_start. simpl. set_solver.
  - apply tri_close_socket.
  - eapply triple_bind_first; [apply tri_transaction_call|intros; apply triple_skip_any].
  - eapply triple_bind; [apply tri_make_guid|intros]. one_request.
  - apply tri_set_object.
  - unfold start_subscription. eapply triple_bind; [apply tri_get_object|intros s _].
    apply not_elem_of_cons in Hn as [Hu Hd]. apply not_elem_of_cons in Hd as [Hd _].
    destruct (kind_ s); auto with triples.
  - apply tri_unsubscribe_with.
  - apply tri_acknowledge.
  - apply tri_fail.
Qed.

(** ** The steps of the client *)
Definition event_weight (e : event) : nat := match e with ev_api a => request_weight a | _ => 0 end.
Definition event_allowed (e : event) : Prop := match e with ev_api a => cb ∉ other_handlers a | _ => True end.

Lemma effect_weight keys n p w w1 :
  tri keys n p (λ _, True) → Inv keys w → effect p w = Ret w1 → (guids w1 ≤ bound)%nat → Inv keys w1 ∧ (weight w1 ≤ n + weight w)%nat.
Proof.
  unfold effect. intros Hp Hw Hr Hg. destruct (run_prog p w) as [[a w2]| |] eqn:E; simpl in Hr; simplify_eq.
  by destruct (Hp _ _ _ Hw E Hg) as (? & ? & _).
Qed.

(** Taking the oldest job from the queue. *)
Lemma take_job j js w :
  posted w = j :: js → Inv [] w →
  Inv (option_list (job_key j)) (set_posted js w) ∧ weight w = (job_weight j + weight (set_posted js w))%nat ∧
  job_free j.
Proof.
  intros Hp []. rewrite Hp in inv_jobs0. apply Forall_cons in inv_jobs0 as [Hj Hjs]. split_and!; [|unfold weight; rewrite Hp; simpl; lia|done].
  constructor; try done. intros k Hk. apply inv_keys0. unfold wait_keys in *. rewrite Hp. simpl in *.
  rewrite !elem_of_app in *.
  destruct (job_key j) as [k'|]; simpl in *; rewrite ?elem_of_cons, ?elem_of_nil in *; tauto.
Qed.

Lemma inv_forget_keys keys w : Inv keys w → Inv [] w.
Proof. intros []. constructor; try done. intros k Hk. apply inv_keys0. apply elem_of_app. by right. Qed.

Lemma run_send_same p w w1 : run_send p w = Ret w1 → same_closures w w1.
Proof.
  unfold run_send, do_async_send. intros Hr. destruct (negb (alive w)); [done|].
  destruct (message_queue_ w) eqn:E; simpl in Hr; rewrite ?E in Hr; simpl in Hr; simplify_eq; solve_same.
Qed.

Lemma write_completed_same ec w w1 : write_completed ec w = Ret w1 → same_closures w w1.
Proof.
  unfold write_completed, do_async_send. intros Hr. destruct (negb (alive w)), (negb (failed ec)); try done.
  - destruct (message_queue_ w) as [|p q]; [done|]. destruct q; simpl in Hr; simplify_eq; solve_same.
  - simplify_eq. solve_same.
Qed.

Lemma run_job_weight j js w w1 :
  posted w = j :: js → Inv [] w → run_job j (set_posted js w) = Ret w1 → (guids w1 ≤ bound)%nat →
  Inv [] w1 ∧ (weight w1 ≤ weight w)%nat.
Proof.
  intros Hp Hw Hr Hg. destruct (take_job j js w Hp Hw) as (Hi & -> & Hf).
  destruct j; cbn [run_job] in Hr; simpl in Hf.
  - destruct (same_closures_inv [] _ _ (run_send_same _ _ _ Hr) Hi) as [? ->]. split; [done|simpl; lia].
  - by destruct (effect_weight [] 0 _ _ _ (tri_run_drop _ _ _ _ _ Hf) Hi Hr Hg).
  - by destruct (effect_weight [] 0 _ _ _ (tri_run_read_buffered _ _ _ _ _ Hf) Hi Hr Hg).
  - eapply (effect_weight []) in Hr; [exact Hr|by apply tri_call_user|exact Hi|exact Hg].
  - eapply (effect_weight (option_list (waiter_key w0)) 0) in Hr; [|apply tri_run_waiter; [done|]|exact Hi|exact Hg].
    + destruct Hr as [? ?]. split; [by eapply inv_forget_keys|done].
    + intros k ->. simpl. set_solver.
Qed.

Lemma take_pending_inv {A} (f : async_op → option A) keys w a rest :
  take_pending f (pending w) = Some (a, rest) → Inv keys w →
  Inv keys (set_pending rest w) ∧ ∃ o, f o = Some a ∧ async_free o.
Proof.
  intros Ht Hw. assert (Forall async_free rest ∧ ∃ o, f o = Some a ∧ async_free o) as [Hr Ho].
  { destruct Hw as [_ _ _ Hp _ _ _]. revert rest Ht Hp. induction (pending w) as [|o l IH]; simpl; intros rest Ht Hp; [done|].
    apply Forall_cons in Hp as [Ho Hl]. destruct (f o) eqn:Hf; simplify_eq; [eauto|].
    destruct (take_pending f l) as [[a' l']|] eqn:E; simpl in Ht; simplify_eq.
    destruct (IH _ eq_refl Hl) as [? ?]. split; [by constructor|done]. }
  split; [|done]. destruct Hw. by constructor.
Qed.

Lemma same_closures_step w w1 :
  same_closures w w1 → Inv [] w → Inv [] w1 ∧ (weight w1 ≤ 0 + weight w)%nat.
Proof. intros Hs Hw. destruct (same_closures_inv [] w w1 Hs Hw) as [? ->]. split; [done|lia]. Qed.

Lemma step_weight w e w1 :
  Inv [] w → step w e w1 → event_allowed e → (guids w1 ≤ bound)%nat →
  Inv [] w1 ∧ (weight w1 ≤ event_weight e + weight w)%nat.
Proof.
  unfold step. intros Hw He Ha Hg. destruct e; cbn [exec event_weight] in *.
  - injection He as He. eapply (effect_weight []) in He; [exact He|by apply tri_api|done|done].
  - destruct (posted w) as [|j js] eqn:Hp; [done|]. injection He as He. by eapply run_job_weight.
  - destruct (timers w !! t) as [[d [x|]]|] eqn:Ht; [|done..]. injection He as <-.
    destruct (timer_expired_inv [] t d x success w Ht Hw) as [? ->]. split; [done|lia].
  - destruct (writes w) as [|n] eqn:Hn; [done|]. injection He as He.
    by apply (same_closures_step w); [exact (write_completed_same _ _ _ He)|].
  - unfold complete in He. destruct (take_pending is_receive _) as [[u rest]|] eqn:Hp; simpl in He; [|done].
    injection He as He. destruct (take_pending_inv _ [] w u rest Hp Hw) as [Hi _].
    eapply (effect_weight []) in He; [exact He|by apply tri_receive_completed|done|done].
  - unfold complete in He. destruct (take_pending is_discover _) as [[u rest]|] eqn:Hp; simpl in He; [|done].
    injection He as He. destruct (take_pending_inv _ [] w u rest Hp Hw) as [Hi (o & Ho & Hf)].
    eapply (effect_weight []) in He; [exact He|apply tri_endpoint_discovered|done|done].
    destruct o; simpl in Ho; by simplify_eq.
  - unfold complete in He. destruct (take_pending is_connect _) as [[u rest]|] eqn:Hp; simpl in He; [|done].
    injection He as He. destruct (take_pending_inv _ [] w u rest Hp Hw) as [Hi (o & Ho & Hf)].
    eapply (effect_weight []) in He; [exact He|apply tri_tcp_connected|done|done].
    destruct o; simpl in Ho; by simplify_eq.
  - injection He as <-. by apply (same_closures_step w); [solve_same|].
  - destruct (objects w !! this); [|done]. injection He as <-.
    by apply (same_closures_step w); [solve_same|].
  - destruct (decide (objects w = ∅)); [|done]. injection He as <-.
    by apply (same_closures_step w); [solve_same|].
Qed.
End own_operations.
End answers.

Section guids.
Context {AL : Allocator} {PB : Protobuf} {AE : AsioErrors} {GS : GuidSource}.

Lemma effect_guids p w w1 : effect p w = Ret w1 → (guids w ≤ guids w1)%nat.
Proof. unfold effect. intros He. inv_ret. destruct x. by eapply run_prog_guids. Qed.

Lemma step_guids w e w1 : step w e w1 → (guids w ≤ guids w1)%nat.
Proof.
  unfold step. intros He. destruct e; cbn [exec] in He; unfold complete in He;
    try (injection He as He; by apply effect_guids in He);
    try (destruct (take_pending _ _) as [[u rest]|]; simpl in He; [|done]; injection He as He;
         by apply effect_guids in He).
  - destruct (posted w) as [|j js]; [done|]. injection He as He.
    destruct j; cbn [run_job] in He; try (by apply effect_guids in He). by apply run_send_same in He as (_&_&_&_&_&_&?).
  - destruct (timers w !! t) as [[d [x|]]|]; [|done..]. by injection He as <-.
  - destruct (writes w); [done|]. injection He as He. by apply write_completed_same in He as (_&_&_&_&_&_&?).
  - by injection He as <-.
  - destruct (objects w !! this); [|done]. by injection He as <-.
  - destruct (decide _); [|done]. by injection He as <-.
Qed.

Lemma run_guids w es w1 : run step w es w1 → (guids w ≤ guids w1)%nat.
Proof. induction 1 as [|w e w1 es w2 Hs _ IH]; [lia|]. apply step_guids in Hs. lia. Qed.
End guids.

(** ** Counting *)
Definition event_request (e : event) : option nat := match e with ev_api a => request_handler a | _ => None end.
Definition event_others (e : event) : list nat := match e with ev_api a => other_handlers a | _ => [] end.

(** How often [cb] was given to a request, how often it was called, and in
    how many pending operations it still is. *)
Definition requests_with (cb : nat) (es : list event) : nat :=
  length (filter (λ e, event_request e = Some cb) es).
Definition answers_to (cb : nat) (w : world) : nat := length (filter (λ c, c.1 = cb) (calls w)).
Definition op_user (op : operation_closure) : option nat :=
  match op with op_response h _ => response_user h | _ => None end.
Definition pending_requests (cb : nat) (w : world) : nat :=
  size (filter (λ kv, op_user kv.2 = Some cb) (operations_map_ w)).

Lemma sum_indicator {A} (P : A → Prop) `{!∀ x, Decision (P x)} (f : A → nat) (l : list A) :
  (∀ x, f x = if decide (P x) then 1 else 0)%nat → sum_list_with f l = length (filter P l).
Proof.
  intros Hf. induction l as [|x l IH]; [done|]. rewrite filter_cons. simpl. rewrite Hf, IH. by case_decide.
Qed.

Lemma pending_requests_weight cb w : ops_weight cb (operations_map_ w) = pending_requests cb w.
Proof.
  unfold pending_requests. induction (operations_map_ w) as [|k op m Hk IH] using map_ind.
  - unfold ops_weight. by rewrite map_fold_empty, map_filter_empty, map_size_empty.
  - rewrite ops_weight_insert, IH by done. rewrite map_filter_insert. simpl.
    assert (op_weight cb op = if decide (op_user op = Some cb) then 1 else 0)%nat as -> by by destruct op.
    case_decide.
    + rewrite map_size_insert_None; [done|]. apply map_lookup_filter_None. by left.
    + by rewrite delete_id by done.
Qed.

Section counting.
Context {AL : Allocator} {PB : Protobuf} {AE : AsioErrors} {GS : GuidSource}.

Lemma run_weight cb bound es w w1 :
  (∀ i j, (i < bound)%nat → (j < bound)%nat → fresh_guid i = fresh_guid j → i = j) →
  run step w es w1 → Forall (λ e, cb ∉ event_others e) es → (guids w1 ≤ bound)%nat → Inv cb [] w →
  (weight cb w1 ≤ requests_with cb es + weight cb w)%nat.
Proof.
  intros Hinj. induction 1 as [|w e w1 es w2 Hs Hr IH]; intros Ha Hg Hw; [lia|].
  apply Forall_cons in Ha as [He Ha]. pose proof (run_guids _ _ _ Hr).
  destruct (step_weight cb bound Hinj w e w1 Hw Hs) as [Hw1 Hle]; [by destruct e|lia|].
  specialize (IH Ha Hg Hw1). unfold requests_with in *. rewrite filter_cons.
  assert (event_weight cb e = if decide (event_request e = Some cb) then 1 else 0)%nat as Heq by by destruct e.
  case_decide; simpl; lia.
Qed.
End counting.

Lemma answers_bound {AL : Allocator} {PB : Protobuf} {AE : AsioErrors} {GS : GuidSource}
    settings name cb es w
    (Hrun : run step (new_connection settings name) es w)
    (Hrequests : Forall (λ e, cb ∉ event_others e) es)
    (Hguids : ∀ i j, (i < guids w)%nat → (j < guids w)%nat → fresh_guid i = fresh_guid j → i = j) :
  (answers_to cb w + pending_requests cb w ≤ requests_with cb es)%nat.
Proof.
  assert (Inv cb [] (new_connection settings name)) as H0.
  { constructor; simpl; try done. intros k Hk. by apply elem_of_nil in Hk. }
  pose proof (run_weight cb (guids w) es _ w Hguids Hrun Hrequests (le_n _) H0) as Hle.
  unfold weight in Hle. rewrite pending_requests_weight in Hle.
  rewrite (sum_indicator (λ c, c.1 = cb)) in Hle by done. unfold answers_to. simpl in Hle.
  change (ops_weight cb ∅) with 0%nat in Hle. lia.
Qed.

(** C3: Over every execution of the client from a new connection, whatever the
    server, the network and the timers do, a handler given to requests only is
    called at most once for each request it was given to: the calls made, plus
    the requests still pending with it, never exceed the requests issued.  In
    particular a handler used for one request is called at most once, and no
    more once its request has left the operations map.  The guids the
    execution has drawn are assumed to be different from each other. *)
Theorem requests_answered_at_most_once {AL : Allocator} {PB : Protobuf} {AE : AsioErrors} {GS : GuidSource}
    settings name cb es w
    (Hrun : run step (new_connection settings name) es w)
    (Hrequests : Forall (λ e, cb ∉ event_others e) es)
    (Hguids : ∀ i j, (i < guids w)%nat → (j < guids w)%nat → fresh_guid i = fresh_guid j → i = j) :
  (answers_to cb w + pending_requests cb w ≤ requests_with cb es)%nat.
Proof. exact (answers_bound settings name cb es w Hrun Hrequests Hguids). Qed.

Lemma requests_answered_at_most_once_witness :
  let es := connected 1 ++
    [ev_api (api_append "s" [] 0 7); ev_api (api_delete "s" 0 false 7); ev_api (api_append "s" [] 0 8); ev_job;
     ev_job; response Command.write_events_completed 2 x00] in
  let w := after (AL := zero_allocator) (PB := sample_protobuf) (AE := linux_asio_errors) (GS := counting_guids)
    es (new_connection default_connection_settings "ES-1") in
  requests_with 7 es = 2%nat ∧ answers_to 7 w = 1%nat ∧ pending_requests 7 w = 1%nat ∧
  (answers_to 7 w + pending_requests 7 w ≤ requests_with 7 es)%nat.
Proof.
  intros es w. split_and!; [vm_compute; reflexivity..|].
  assert (guids w = 5%nat) as Hg by (vm_compute; reflexivity).
  apply (requests_answered_at_most_once (AL := zero_allocator) (PB := sample_protobuf)
    (AE := linux_asio_errors) (GS := counting_guids) default_connection_settings "ES-1" 7 es w).
  - apply after_run. vm_compute. reflexivity.
  - apply (bool_decide_unpack _). vm_compute. exact I.
  - rewrite Hg. intros i j Hi Hj. apply counting_guids_inj; lia.
Defined.
