(* ===== verification/WellFormed.v ===== *)
(** Two invariants of the whole client, over every execution: what it sends
    is made by the package constructors with a request command, its own
    credentials and a correlation id of the right length, so that the
    receiving loop takes the stream apart again; and what it hands to the
    user's handlers is consistent, a result coming exactly with success. *)
From S2P Require Import Prelude Errors Basics BufferQueue TcpPackage Framing Messages Events Settings.
From S2P Require Import Operations OperationsMap World Triples Connection Requests ConnectOps.
From S2P Require Import Subscription Catchup CatchupAll Client.

(** ** Packages *)

(** The commands of the packages a client sends. *)
Definition client_commands : list tcp_command :=
  [Command.heartbeat_request_command; Command.heartbeat_response_command; Command.authenticate;
   Command.identify_client; Command.write_events; Command.delete_stream; Command.transaction_start;
   Command.transaction_write; Command.transaction_commit; Command.read_event;
   Command.read_stream_events_forward; Command.read_stream_events_backward;
   Command.read_all_events_forward; Command.read_all_events_backward;
   Command.create_persistent_subscription; Command.update_persistent_subscription;
   Command.delete_persistent_subscription; Command.subscribe_to_stream;
   Command.unsubscribe_from_stream; Command.connect_to_persistent_subscription;
   Command.persistent_subscription_ack_events; Command.persistent_subscription_nak_events].

(** What a package was made from. *)
Record sent_package := mk_sent_package {
  sent_command : tcp_command;
  sent_credentials : option (string * string);
  sent_correlation : guid_type;
  sent_message : bytes
}.

Definition sent_flags (s : sent_package) : tcp_flags :=
  match sent_credentials s with None => flags_none | Some _ => flags_authenticated end.

(** The constructor of tcp_package that made it. *)
Definition construct {AL : Allocator} (s : sent_package) : outcome tcp_package :=
  match sent_credentials s with
  | None => tcp_package_plain (sent_command s) flags_none (sent_correlation s) (sent_message s)
  | Some (user, pass) =>
      tcp_package_auth (sent_command s) flags_authenticated (sent_correlation s) user pass (sent_message s)
  end.

(** The only credentials a client with these settings sends. *)
Definition sent_ok (settings : connection_settings) (s : sent_package) : Prop :=
  sent_command s ∈ client_commands ∧ length (sent_correlation s) = 16%nat ∧
  (sent_credentials s = None ∨
   sent_credentials s = Some (username (default_user_credentials_ settings),
                              password (default_user_credentials_ settings))).

Definition package_ok {AL : Allocator} (settings : connection_settings) (p : tcp_package) : Prop :=
  ∃ s, sent_ok settings s ∧ construct s = Ret p.

(** ** Calls of the user's handlers *)

(** A result comes exactly with success; the connection handler gets one with
    authentication_failed as well; a subscription is dropped with an error. *)
Definition call_ok (c : callback) : Prop :=
  match c with
  | cb_write (ec, r) => is_Some r ↔ failed ec = false
  | cb_delete (ec, r) => is_Some r ↔ failed ec = false
  | cb_transaction (ec, r) => is_Some r ↔ failed ec = false
  | cb_event_read (ec, r) => is_Some r ↔ failed ec = false
  | cb_stream_slice (ec, r) => is_Some r ↔ failed ec = false
  | cb_all_slice (ec, r) => is_Some r ↔ failed ec = false
  | cb_metadata (ec, r) => is_Some r ↔ failed ec = false
  | cb_connection (ec, r) => is_Some r ↔ failed ec = false ∨ ec = make_error_code authentication_failed
  | cb_dropped ec _ => failed ec = true
  | cb_error _ | cb_reason _ | cb_event _ | cb_persistent_event _ _ => True
  end.

Section invariant.
Context {AL : Allocator} {PB : Protobuf} {AE : AsioErrors} {GS : GuidSource}.
Context (settings : connection_settings) (bound : nat).

Abbreviation package_ok := (package_ok settings).

Definition response_ok (h : response_handler) : Prop :=
  match h with on_unsubscribe _ ec _ => failed ec = true | _ => True end.
Definition op_ok (op : operation_closure) : Prop :=
  match op with op_response h _ => response_ok h | _ => True end.
Definition waiter_ok (x : waiter) : Prop :=
  match x with wait_identify info _ _ _ => length (identity_correlation_id info) = 16%nat | _ => True end.
Definition timer_ok (t : timer) : Prop :=
  match waiting t with Some x => waiter_ok x | None => True end.
Definition job_ok (j : job) : Prop :=
  match j with
  | send_package p => package_ok p
  | drop_subscription _ ec _ => failed ec = true
  | read_buffered _ _ _ => True
  | call_handler _ c => call_ok c
  | wait_completed x _ _ => waiter_ok x
  end.
Definition object_ok (s : subscription) : Prop := length (key_ s) = 16%nat.

Record well_formed (w : world) : Prop := mk_well_formed {
  wf_settings : settings_ w = settings;
  wf_queue : Forall package_ok (message_queue_ w);
  wf_wire : Forall package_ok (wire w);
  wf_ops : map_Forall (λ _ op, op_ok op) (operations_map_ w);
  wf_jobs : Forall job_ok (posted w);
  wf_timers : Forall timer_ok (timers w);
  wf_objects : map_Forall (λ _ s, object_ok s) (objects w);
  wf_calls : Forall (λ c, call_ok c.2) (calls w)
}.

Abbreviation tri := (triple bound well_formed (λ _, 0%nat) 0).

(** ** The commands *)
Lemma tri_command {A} (c : cmd A) (Q : A → Prop) :
  (∀ w a w', well_formed w → run_cmd c w = Ret (a, w') → well_formed w' ∧ Q a) → tri (perform c) Q.
Proof.
  intros Hc. apply triple_perform. intros w a w' Hw Hr. destruct (Hc _ _ _ Hw Hr). split_and!; [done|lia|done].
Qed.

Ltac command_keeps :=
  apply tri_command; intros w ? ? [] Hr; cbn [run_cmd] in Hr; simplify_eq; split; [constructor; simpl; try done|done].

Lemma ok_post j : job_ok j → tri (post j) (λ _, True).
Proof. intros Hj. command_keeps. by apply Forall_app_2; [|apply Forall_singleton]. Qed.

Lemma ok_call_user cb c : call_ok c → tri (call_user cb c) (λ _, True).
Proof. intros Hc. command_keeps. by apply Forall_app_2; [|apply Forall_singleton]. Qed.

Lemma ok_put_operation key op : op_ok op → tri (put_operation key op) (λ _, True).
Proof.
  intros Hop. command_keeps. unfold register_op. destruct (_ !! key); [done|]. by apply map_Forall_insert_2.
Qed.

Lemma ok_update_operation key op : op_ok op → tri (update_operation key op) (λ _, True).
Proof. intros Hop. command_keeps. destruct (contains _ _); [|done]. by apply map_Forall_insert_2. Qed.

Lemma ok_erase_operation key : tri (erase_operation key) (λ _, True).
Proof. command_keeps. by apply map_Forall_delete. Qed.

Lemma ok_put_subscription key c : tri (put_subscription key c) (λ _, True).
Proof. command_keeps. Qed.

Lemma ok_erase_subscription key : tri (erase_subscription key) (λ _, True).
Proof. command_keeps. Qed.

Lemma ok_set_object this s : object_ok s → tri (set_object this s) (λ _, True).
Proof. intros Hs. command_keeps. by apply map_Forall_insert_2. Qed.

(** A wait that ends, by its expiry or by being cancelled. *)
Lemma wait_ends_wf t d x ec w :
  timers w !! t = Some (mk_timer d (Some x)) → well_formed w →
  well_formed (set_posted (posted w ++ [wait_completed x t ec]) (set_timers (<[t := mk_timer d None]> (timers w)) w)).
Proof.
  intros Ht []. pose proof (Forall_lookup_1 _ _ _ _ wf_timers0 Ht) as Hx.
  constructor; simpl; try done; [by apply Forall_app_2; [|apply Forall_singleton]|by apply Forall_insert].
Qed.

Lemma abort_wait_wf t w : well_formed w → well_formed (abort_wait t w).
Proof.
  unfold abort_wait. destruct (timers w !! t) as [[d [x|]]|] eqn:Ht; [|done..]. by apply wait_ends_wf.
Qed.

Lemma ok_cancel_timer t : tri (cancel_timer t) (λ _, True).
Proof.
  apply tri_command. intros w a w' Hw Hr. cbn [run_cmd] in Hr. simplify_eq. split; [by apply abort_wait_wf|done].
Qed.

Lemma ok_expires_after t d : tri (expires_after t d) (λ _, True).
Proof.
  apply tri_command. intros w a w' Hw Hr. cbn [run_cmd] in Hr. simplify_eq. split; [|done].
  destruct (abort_wait_wf t w Hw). constructor; simpl; try done. by apply Forall_insert.
Qed.

Lemma ok_async_wait t x : waiter_ok x → tri (async_wait t x) (λ _, True).
Proof. intros Hx. command_keeps. by apply Forall_alter. Qed.

Lemma ok_make_timer : tri make_timer (λ _, True).
Proof. command_keeps. by apply Forall_app_2; [|apply Forall_singleton]. Qed.

Lemma ok_start o : tri (start o) (λ _, True).
Proof.
  apply tri_command. intros w a w' [] Hr. cbn [run_cmd] in Hr. simplify_eq.
  split; [|done]. destruct o; by constructor.
Qed.

Lemma ok_make_guid : tri make_guid (λ g, length g = 16%nat).
Proof.
  apply tri_command. intros w a w' [] Hr. cbn [run_cmd] in Hr. simplify_eq. split; [by constructor|].
  apply fresh_guid_wf.
Qed.

Lemma ok_next_package_no : tri next_package_no (λ _, True).
Proof. command_keeps. Qed.

Lemma ok_close_socket : tri close_socket (λ _, True).
Proof. command_keeps. Qed.

(** ** The packages the code builds *)
Lemma plain_ok cmd corr msg p :
  tcp_package_plain cmd flags_none corr msg = Ret p → cmd ∈ client_commands → length corr = 16%nat → package_ok p.
Proof. intros Hp ? ?. exists (mk_sent_package cmd None corr msg). split; [|exact Hp]. by split_and!; [..|left]. Qed.

Lemma auth_ok w cmd corr msg p :
  let creds := default_user_credentials_ (settings_ w) in
  well_formed w → tcp_package_auth cmd flags_authenticated corr (username creds) (password creds) msg = Ret p →
  cmd ∈ client_commands → length corr = 16%nat → package_ok p.
Proof.
  intros creds Hw Hp ? ?. unfold creds in Hp. rewrite (wf_settings _ Hw) in Hp.
  eexists (mk_sent_package cmd (Some (_, _)) corr msg). split; [|exact Hp]. by split_and!; [..|right].
Qed.

Lemma request_ok w cmd corr msg p :
  well_formed w → make_request (settings_ w) cmd corr msg = Ret p →
  cmd ∈ client_commands → length corr = 16%nat → package_ok p.
Proof. unfold make_request. intros. destruct (credentials_null _); [by eapply plain_ok|by eapply auth_ok]. Qed.

Lemma identify_ok w name corr authenticated p :
  well_formed w → identify_package (settings_ w) name corr authenticated = Ret p → length corr = 16%nat → package_ok p.
Proof.
  unfold identify_package. intros Hw Hp Hc.
  destruct authenticated; [eapply auth_ok|eapply plain_ok]; eauto; by apply (bool_decide_unpack _); vm_compute.
Qed.

Lemma correlation_id_ok v corr g :
  correlation_id v = Ret corr → Guid.guid_from_chars corr = Ret g → length g = 16%nat.
Proof.
  intros Hc Hg. apply correlation_id_length in Hc. rewrite Guid.guid_from_chars_self in Hg by done. by simplify_eq.
Qed.
End invariant.

(** The package is one of those above; its command is on the list. *)
Ltac on_the_list := by apply (bool_decide_unpack _); vm_compute.
Ltac package_sent :=
  first [eapply request_ok; [eassumption|eassumption|on_the_list|eassumption] |
         eapply plain_ok; [eassumption|on_the_list|eassumption] |
         eapply auth_ok; [eassumption|eassumption|on_the_list|eassumption] |
         eapply identify_ok; eassumption].

(** The package of a request comes from make_request. *)
Ltac made_by_make_request :=
  let Hp := fresh in intros ? ? ? Hp; lazy delta [append_request conditional_append_request delete_request
    start_transaction_request transactional_write_request commit_transaction_request
    read_stream_event_request read_stream_events_request read_all_events_request
    get_stream_metadata_request set_stream_metadata_request create_persistent_subscription_request
    update_persistent_subscription_request delete_persistent_subscription_request] beta in Hp;
  try (apply outcome_bind_Ret_inv in Hp as (? & _ & Hp));
  eexists _, _; split; [exact Hp|first [on_the_list | match goal with |- context [_ ?d] => destruct d; on_the_list end]].

(** ** The programs *)
Section programs.
Context {AL : Allocator} {PB : Protobuf} {AE : AsioErrors} {GS : GuidSource}.
Context (settings : connection_settings) (bound : nat).
Abbreviation well_formed := (well_formed settings).
Abbreviation tri := (triple bound well_formed (λ _, 0%nat) 0).

#[local] Hint Resolve ok_call_user ok_put_operation ok_update_operation ok_erase_operation
  ok_put_subscription ok_erase_subscription ok_set_object ok_cancel_timer ok_expires_after
  ok_make_timer ok_start ok_make_guid ok_next_package_no ok_close_socket : triples.
#[local] Hint Unfold async_send async_start_receive close : triples.
#[local] Hint Extern 2 (triple _ _ _ _ (async_wait _ _) _) => apply ok_async_wait; simpl; by auto : triples.
#[local] Hint Extern 2 (triple _ _ _ _ (call_user _ _) _) => apply ok_call_user; exact I : triples.

#[local] Hint Extern 2 (triple _ _ _ _ (post (send_package _)) _) => apply ok_post; package_sent : triples.
#[local] Hint Extern 3 (triple _ _ _ _ (post _) _) => apply ok_post; simpl; by auto : triples.

(** *** Sending *)
Lemma ok_operation_op key h : response_ok h → tri (operation_op key h) (λ _, True).
Proof. intros. unfold operation_op. tri_walk. Qed.
#[local] Hint Resolve ok_operation_op : triples.

Lemma ok_async_send_with p h : package_ok settings p → response_ok h → tri (async_send_with p h) (λ _, True).
Proof. intros. unfold async_send_with, async_send. tri_walk. Qed.

(** Every request package is built by make_request. *)
Definition builds (build : connection_settings → guid_type → outcome tcp_package) : Prop :=
  ∀ s c p, build s c = Ret p →
    ∃ cmd msg, make_request s cmd c msg = Ret p ∧ cmd ∈ client_commands.

Lemma ok_issue build h : builds build → response_ok h → tri (issue build h) (λ _, True).
Proof.
  intros Hb Hh. unfold issue. tri_walk. apply ok_async_send_with; [|done].
  match goal with H : build _ _ = Ret _ |- _ => destruct (Hb _ _ _ H) as (cmd & msg & ? & ?) end.
  by eapply request_ok.
Qed.

(** *** Subscriptions *)
Lemma ok_get_object this : tri (get_object this) object_ok.
Proof.
  unfold get_object. tri_walk. eapply triple_weaken; [apply triple_lift|done|].
  intros s Hs. destruct (objects _ !! this) eqn:E; simplify_eq. by eapply (wf_objects settings _).
Qed.
#[local] Hint Resolve ok_get_object : triples.

Lemma ok_update_object this f : (∀ s, key_ (f s) = key_ s) → tri (update_object this f) (λ _, True).
Proof. intros Hf. unfold update_object. tri_walk. apply ok_set_object. unfold object_ok. by rewrite Hf. Qed.

Lemma shutdown_key s : key_ (shutdown s) = key_ s.
Proof. unfold shutdown. by destruct (kind_ s). Qed.
Lemma confirm_event_number_key n s : key_ (confirm_event_number n s) = key_ s.
Proof. by destruct n. Qed.
#[local] Hint Extern 2 (triple _ _ _ _ (update_object _ _) _) =>
  apply ok_update_object; intros; rewrite ?shutdown_key; simpl; rewrite ?confirm_event_number_key; done : triples.

Lemma ok_unsubscribe_dropping this ec d : failed ec = true → tri (unsubscribe_dropping this ec d) (λ _, True).
Proof.
  intros. unfold unsubscribe_dropping. tri_walk. apply ok_async_send_with; [package_sent|done].
Qed.
#[local] Hint Extern 2 (triple _ _ _ _ (unsubscribe_dropping _ _ _) _) =>
  apply ok_unsubscribe_dropping; first [assumption | reflexivity] : triples.
Lemma ok_run_drop this ec d : failed ec = true → tri (run_drop this ec d) (λ _, True).
Proof. intros. unfold run_drop. tri_walk. Qed.
Lemma ok_unsubscribe_response this ec d err :
  failed ec = true → tri (unsubscribe_response this ec d err) (λ _, True).
Proof.
  intros. unfold unsubscribe_response. destruct (failed err) eqn:?; simpl; [tri_walk|by apply ok_run_drop].
Qed.
Lemma ok_lambda_on_error c ec : failed ec = true → tri (lambda_on_error c ec) (λ _, True).
Proof. intros. unfold lambda_on_error. tri_walk. Qed.
Lemma ok_unsubscribe_with this ec : failed ec = true → tri (unsubscribe_with this ec) (λ _, True).
Proof. intros. unfold unsubscribe_with. tri_walk. by apply ok_lambda_on_error. Qed.
Lemma ok_base_async_start this a d : tri (base_async_start this a d) (λ _, True).
Proof. unfold base_async_start. tri_walk. Qed.
#[local] Hint Resolve ok_base_async_start : triples.

Lemma subscribe_request_ok w s b p :
  well_formed w → object_ok s → subscribe_request (settings_ w) s b = Ret p → package_ok settings p.
Proof. intros ? ? Hp. unfold subscribe_request in Hp. package_sent. Qed.
#[local] Hint Extern 2 (triple _ _ _ _ (post (send_package _)) _) =>
  apply ok_post; eapply subscribe_request_ok; eassumption : triples.
Lemma ok_volatile_async_start this b a d : tri (volatile_async_start this b a d) (λ _, True).
Proof. unfold volatile_async_start, async_send. tri_walk. Qed.
Lemma ok_persistent_async_start this g i a d : tri (persistent_async_start this g i a d) (λ _, True).
Proof. unfold persistent_async_start, async_send. tri_walk. Qed.
#[local] Hint Resolve ok_volatile_async_start ok_persistent_async_start : triples.
Lemma ok_acknowledge this items : tri (acknowledge this items) (λ _, True).
Proof. unfold acknowledge, async_send. tri_walk. Qed.
Lemma ok_fail this items action : tri (fail this items action) (λ _, True).
Proof. unfold fail, async_send. tri_walk. Qed.
#[local] Hint Resolve ok_acknowledge ok_fail : triples.

Lemma ok_volatile_package c v : tri (volatile_on_package_received c v) (λ _, True).
Proof. unfold volatile_on_package_received. tri_walk. Qed.
Lemma ok_persistent_package g i b c v : tri (persistent_on_package_received g i b c v) (λ _, True).
Proof.
  unfold persistent_on_package_received. tri_walk. apply ok_unsubscribe_with. by destruct (sd_reason _).
Qed.

(** *** Catch-up subscriptions *)
Lemma ok_through_reference r this : tri (through_reference r this) (λ _, True).
Proof. unfold through_reference. tri_walk. Qed.
#[local] Hint Resolve ok_through_reference : triples.
Lemma ok_call_reference r this a c : call_ok c → tri (call_reference r this a c) (λ _, True).
Proof. intros. unfold call_reference. tri_walk. Qed.
Lemma ok_drop_reference r this ec d : failed ec = true → tri (drop_reference r this ec d) (λ _, True).
Proof. intros. unfold drop_reference. tri_walk. Qed.
#[local] Hint Resolve ok_drop_reference : triples.
#[local] Hint Extern 2 (triple _ _ _ _ (call_reference _ _ _ _) _) => apply ok_call_reference; exact I : triples.
Lemma ok_catchup_members this : tri (catchup_members this) (λ _, True).
Proof. unfold catchup_members. tri_walk. Qed.
Lemma ok_set_catchup_members this m c b : tri (set_catchup_members this m c b) (λ _, True).
Proof. unfold set_catchup_members. tri_walk. Qed.
#[local] Hint Resolve ok_catchup_members ok_set_catchup_members : triples.
Lemma ok_increment this : tri (increment_event_number this) (λ _, True).
Proof. unfold increment_event_number. tri_walk. Qed.
#[local] Hint Resolve ok_increment : triples.

#[local] Hint Extern 2 (triple _ _ _ _ (issue _ _) _) => apply ok_issue; [made_by_make_request|exact I] : triples.

Lemma ok_catch_up_events this from count r : tri (catch_up_events this from count r) (λ _, True).
Proof. unfold catch_up_events, async_read_stream_events. tri_walk. Qed.
#[local] Hint Resolve ok_catch_up_events : triples.
Lemma ok_catchup_async_start this a d : tri (catchup_async_start this a d) (λ _, True).
Proof. unfold catchup_async_start. tri_walk. Qed.
Lemma ok_catchup_do_async_start this a d : tri (catchup_do_async_start this a d) (λ _, True).
Proof. unfold catchup_do_async_start. tri_walk. Qed.
#[local] Hint Resolve ok_catchup_async_start ok_catchup_do_async_start : triples.
Lemma ok_historical_slice_read this a d ec r : tri (historical_slice_read this a d ec r) (λ _, True).
Proof. unfold historical_slice_read. tri_walk. Qed.
Lemma ok_catch_up_missed_events r this count a d : tri (catch_up_missed_events r this count a d) (λ _, True).
Proof. unfold catch_up_missed_events. tri_walk. Qed.
#[local] Hint Resolve ok_historical_slice_read ok_catch_up_missed_events : triples.
Lemma ok_missed_slice_read r this a d count ec o : tri (missed_slice_read r this a d count ec o) (λ _, True).
Proof. unfold missed_slice_read. destruct (failed ec) eqn:?; cbn [negb]; tri_walk. Qed.
#[local] Hint Resolve ok_missed_slice_read : triples.
Lemma ok_read_one_event r this a : tri (read_one_event r this a) (λ _, True).
Proof. unfold read_one_event. tri_walk. Qed.
#[local] Hint Resolve ok_read_one_event : triples.
Lemma ok_read_events rounds r this a : tri (read_events rounds r this a) (λ _, True).
Proof. induction rounds; cbn [read_events]; tri_walk. Qed.
#[local] Hint Resolve ok_read_events : triples.
Lemma ok_read_subscription_events r this a : tri (read_subscription_events r this a) (λ _, True).
Proof. unfold read_subscription_events. tri_walk. Qed.
#[local] Hint Resolve ok_read_subscription_events : triples.
Lemma ok_catchup_package c v : tri (catchup_on_package_received c v) (λ _, True).
Proof. unfold catchup_on_package_received. tri_walk. Qed.

(** *** Catch-up subscriptions to the log *)
Lemma ok_all_members this : tri (catchup_all_members this) (λ _, True).
Proof. unfold catchup_all_members. tri_walk. Qed.
#[local] Hint Resolve ok_all_members : triples.
Lemma ok_update_all_members this f : tri (update_all_members this f) (λ _, True).
Proof. unfold update_all_members. tri_walk. Qed.
#[local] Hint Resolve ok_update_all_members : triples.
Lemma ok_catch_up_all_events this from count r : tri (catch_up_all_events this from count r) (λ _, True).
Proof. unfold catch_up_all_events, async_read_all_events. tri_walk. Qed.
#[local] Hint Resolve ok_catch_up_all_events : triples.
Lemma ok_catchup_all_async_start this a d : tri (catchup_all_async_start this a d) (λ _, True).
Proof. unfold catchup_all_async_start. tri_walk. Qed.
Lemma ok_catchup_all_do_async_start this a d : tri (catchup_all_do_async_start this a d) (λ _, True).
Proof. unfold catchup_all_do_async_start. tri_walk. Qed.
#[local] Hint Resolve ok_catchup_all_async_start ok_catchup_all_do_async_start : triples.
Lemma ok_historical_all_slice_read this a d ec r : tri (historical_all_slice_read this a d ec r) (λ _, True).
Proof. unfold historical_all_slice_read. tri_walk. Qed.
Lemma ok_catch_up_missed_all_events r this count a d : tri (catch_up_missed_all_events r this count a d) (λ _, True).
Proof. unfold catch_up_missed_all_events. tri_walk. Qed.
#[local] Hint Resolve ok_historical_all_slice_read ok_catch_up_missed_all_events : triples.
Lemma ok_read_one_all_event r this a : tri (read_one_all_event r this a) (λ _, True).
Proof. unfold read_one_all_event. tri_walk. Qed.
#[local] Hint Resolve ok_read_one_all_event : triples.
Lemma ok_read_all_buffered rounds r this a : tri (read_all_buffered rounds r this a) (λ _, True).
Proof. induction rounds; cbn [read_all_buffered]; tri_walk. Qed.
#[local] Hint Resolve ok_read_all_buffered : triples.
Lemma ok_read_all_subscription_events r this a : tri (read_all_subscription_events r this a) (λ _, True).
Proof. unfold read_all_subscription_events. tri_walk. Qed.
#[local] Hint Resolve ok_read_all_subscription_events : triples.
Lemma ok_missed_all_loop r this a l : tri (missed_all_loop r this a l) (λ _, True).
Proof. induction l; cbn [missed_all_loop]; tri_walk. Qed.
#[local] Hint Resolve ok_missed_all_loop : triples.
Lemma ok_missed_all_slice_read r this a d count ec o : tri (missed_all_slice_read r this a d count ec o) (λ _, True).
Proof. unfold missed_all_slice_read. destruct (failed ec) eqn:?; cbn [negb]; tri_walk. Qed.
#[local] Hint Resolve ok_missed_all_slice_read : triples.
Lemma ok_catchup_all_package c v : tri (catchup_all_on_package_received c v) (λ _, True).
Proof. unfold catchup_all_on_package_received. tri_walk. Qed.
(** *** The responses *)
Lemma ok_call_with {R} u (f : R → callback) c :
  (∀ r, c = Ret (Some r) → call_ok (f r)) → tri (call_with u f c) (λ _, True).
Proof.
  intros Hf. unfold call_with. eapply triple_bind; [apply triple_lift|].
  intros [r|] Hr; [apply ok_call_user; auto|apply triple_skip_any].
Qed.

Lemma tri_call_result {R} u (f : error_code * option R → callback) c :
  (∀ ec r, (is_Some r ↔ failed ec = false) → call_ok (f (ec, r))) → result_iff_success c →
  tri (call_with u f c) (λ _, True).
Proof. intros Hf Hc. apply ok_call_with. intros [ec r] Hr. by eapply Hf, Hc. Qed.

Lemma tri_call_free {R} u (f : R → callback) c : (∀ r, call_ok (f r)) → tri (call_with u f c) (λ _, True).
Proof. intros. by apply ok_call_with. Qed.

Lemma ok_stream_slice_read r ec slice :
  (is_Some slice ↔ failed ec = false) → tri (stream_slice_read r ec slice) (λ _, True).
Proof. intros. destruct r; simpl; auto with triples. Qed.
Lemma ok_all_slice_read r ec slice :
  (is_Some slice ↔ failed ec = false) → tri (all_slice_read r ec slice) (λ _, True).
Proof. intros. destruct r; simpl; auto with triples. Qed.

Lemma ok_run_response h ec v : response_ok h → tri (run_response h ec v) (λ _, True).
Proof.
  intros Hh. destruct h; cbn [run_response];
    try (apply tri_call_result; [by intros|by auto with es]); try (apply tri_call_free; by intros).
  - eapply triple_bind; [apply triple_lift|]. intros [[ec' slice]|] Hr; [|apply triple_skip_any].
    by eapply ok_stream_slice_read, read_stream_events_result.
  - eapply triple_bind; [apply triple_lift|]. intros [[ec' slice]|] Hr; [|apply triple_skip_any].
    by eapply ok_all_slice_read, read_all_events_result.
  - by apply ok_unsubscribe_response.
Qed.
#[local] Hint Resolve ok_run_response : triples.

(** *** The connection's own operations *)
Lemma ok_connection_lambda h ec v g : tri (connection_lambda h ec v g) (λ _, True).
Proof.
  unfold connection_lambda. destruct h as [cb|]; [|apply triple_lift_any].
  destruct (_ || _) eqn:E; tri_walk; apply ok_call_user; simpl; rewrite <- is_error_iff.
  - apply orb_true_iff in E as [E%negb_true_iff|E]; (split; [|by eauto]); intros _; auto.
  - apply orb_false_iff in E as [E%negb_false_iff Ha]. rewrite E, Ha. by split; [intros []|intros []].
Qed.
#[local] Hint Resolve ok_connection_lambda : triples.

Lemma ok_identify_initiate t info r h b :
  length (identity_correlation_id info) = 16%nat → tri (identify_initiate t info r h b) (λ _, True).
Proof. intros. unfold identify_initiate, async_send. tri_walk. Qed.
#[local] Hint Resolve ok_identify_initiate : triples.
Lemma ok_identify_op h b : tri (identify_op h b) (λ _, True).
Proof. unfold identify_op. tri_walk. Qed.
#[local] Hint Resolve ok_identify_op : triples.
Lemma ok_identification_closure h t b g ec v : tri (identification_closure h t b g ec v) (λ _, True).
Proof. unfold identification_closure. tri_walk. Qed.
Lemma ok_authentication_closure k h t ec v : tri (authentication_closure k h t ec v) (λ _, True).
Proof. unfold authentication_closure, authentication_handler. tri_walk. Qed.
Lemma ok_authenticate_op u : tri (authenticate_op u) (λ _, True).
Proof. unfold authenticate_op, async_send. tri_walk. Qed.
#[local] Hint Resolve ok_identification_closure ok_authentication_closure ok_authenticate_op : triples.

(** *** Calling the closures *)
Lemma ok_run_operation key op ec v : op_ok op → tri (run_operation key op ec v) (λ _, True).
Proof. intros. destruct op; cbn [run_operation]; tri_walk. Qed.

Lemma at_key_op_ok w key op : well_formed w → at_key (operations_map_ w) key = Ret op → op_ok op.
Proof. intros Hw. unfold at_key. destruct (_ !! _) eqn:E; intros [= <-]. by apply (wf_ops _ _ Hw _ _ E). Qed.
#[local] Hint Extern 2 (triple _ _ _ _ (run_operation _ _ _ _) _) =>
  apply ok_run_operation; eapply at_key_op_ok; eassumption : triples.

Lemma ok_operation_wait key ec : tri (operation_wait_completed key ec) (λ _, True).
Proof. unfold operation_wait_completed. cbn [invoke_operation client_dispatch]. tri_walk. Qed.

Lemma ok_child c v : tri (child_on_package_received c v) (λ _, True).
Proof.
  unfold child_on_package_received. eapply triple_bind; [apply ok_get_object|]. intros s _.
  destruct (kind_ s); [apply ok_volatile_package|apply ok_persistent_package|
    apply ok_catchup_package|apply ok_catchup_all_package].
Qed.
#[local] Hint Resolve ok_child : triples.

Lemma ok_invoke_subscription c ec v : tri (subscription_lambda child_on_package_received c ec v) (λ _, True).
Proof. unfold subscription_lambda, lambda_on_package. tri_walk. Qed.
#[local] Hint Resolve ok_invoke_subscription : triples.

Lemma ok_on_package_received ec v : tri (on_package_received ec v) (λ _, True).
Proof.
  unfold on_package_received, async_send. cbn [invoke_operation invoke_subscription client_dispatch]. tri_walk.
Qed.
#[local] Hint Resolve ok_on_package_received : triples.

Lemma ok_receive_completed ec m n : tri (receive_completed ec m n) (λ _, True).
Proof. unfold receive_completed, receive_token, async_start_receive, close. tri_walk. Qed.

(** *** The jobs *)
Lemma ok_run_read_buffered r this u : tri (run_read_buffered r this u) (λ _, True).
Proof. unfold run_read_buffered. tri_walk. Qed.

Lemma ok_run_waiter x t ec : waiter_ok x → tri (run_waiter x t ec) (λ _, True).
Proof.
  intros Hx. destruct x; cbn [run_waiter].
  - apply ok_operation_wait.
  - unfold heartbeat_wait_completed, heartbeat_initiate, heartbeat_error, async_send, close. tri_walk.
  - unfold authenticate_wait_completed. cbn [invoke_operation client_dispatch]. tri_walk.
  - unfold identify_wait_completed. cbn [invoke_operation client_dispatch]. tri_walk.
Qed.

Lemma ok_endpoint_discovered u ec e : tri (endpoint_discovered u ec e) (λ _, True).
Proof. unfold endpoint_discovered. tri_walk. Qed.
Lemma ok_tcp_connected u ec : tri (tcp_connected u ec) (λ _, True).
Proof.
  unfold tcp_connected, async_start_receive, heartbeat_op, heartbeat_initiate, heartbeat_error, async_send, close.
  tri_walk.
Qed.
End programs.

(** ** The steps of the client *)
Section steps.
Context {AL : Allocator} {PB : Protobuf} {AE : AsioErrors} {GS : GuidSource}.
Context (settings : connection_settings).
Abbreviation well_formed := (well_formed settings).

Definition preserves (p : prog unit) : Prop :=
  ∀ bound, triple bound well_formed (λ _, 0%nat) 0 p (λ _, True).

(** Subscription objects are made with keys of 16 bytes, as guids are. *)
Definition event_ok (e : event) : Prop :=
  match e with ev_api (api_new_subscription _ key _) => length key = 16%nat | _ => True end.

Ltac one_request := intros bound; apply ok_issue; [made_by_make_request|exact I].

Lemma transaction_call_preserves t c : preserves (run_transaction_call t c;; skip).
Proof.
  destruct c as [u|events u|]; cbn [run_transaction_call]; unfold async_commit, async_write_events;
    [destruct (failed _) eqn:E..|]; intros bound; (eapply triple_bind; [|intros; apply triple_skip_any]).
  - eapply triple_bind; [apply ok_post|intros; apply triple_ret_any]. simpl. rewrite E. by split; [intros []|].
  - eapply triple_bind; [|intros; apply triple_ret_any]. revert bound. one_request.
  - eapply triple_bind; [by apply ok_post|intros; apply triple_ret_any].
  - eapply triple_bind; [|intros; apply triple_ret_any]. revert bound. one_request.
  - apply triple_ret_any.
Qed.

Lemma api_preserves a : event_ok (ev_api a) → preserves (run_api a).
Proof.
  intros Ha. destruct a; cbn [run_api];
    unfold async_append_to_stream, async_conditional_append_to_stream, async_delete_stream,
      async_start_transaction, async_read_stream_event, async_read_stream_events, async_read_all_events,
      async_get_stream_metadata, async_set_stream_metadata, async_create_persistent_subscription,
      async_update_persistent_subscription, async_delete_persistent_subscription; try one_request.
  - intros bound. unfold async_connect, connect_initiate. tri_walk. apply ok_start.
  - intros bound. apply ok_close_socket.
  - apply transaction_call_preserves.
  - intros bound. eapply triple_bind; [apply ok_make_guid|intros ? _]. revert bound. one_request.
  - intros bound. apply ok_set_object. destruct args; exact Ha.
  - intros bound. unfold start_subscription. eapply triple_bind; [apply ok_get_object|intros s _].
    destruct (kind_ s); [apply ok_volatile_async_start|apply ok_persistent_async_start|
      apply ok_catchup_async_start|apply ok_catchup_all_async_start].
  - intros bound. by apply ok_unsubscribe_with.
  - intros bound. apply ok_acknowledge.
  - intros bound. apply ok_fail.
Qed.

Lemma effect_wf p w w1 : preserves p → well_formed w → effect p w = Ret w1 → well_formed w1.
Proof.
  unfold effect. intros Hp Hw Hr. destruct (run_prog p w) as [[a w2]| |] eqn:E; simpl in Hr; simplify_eq.
  by destruct (Hp (guids w1) _ _ _ Hw E).
Qed.

(** A step on the queue of packages. *)
Lemma run_send_wf p w w1 : package_ok settings p → well_formed w → run_send p w = Ret w1 → well_formed w1.
Proof.
  unfold run_send. intros Hp [] Hr. destruct (alive w); [|done]. cbn [negb] in Hr.
  assert (Forall (package_ok settings) (message_queue_ w ++ [p])) as Hq.
  { by apply Forall_app_2; [|apply Forall_singleton]. }
  destruct (message_queue_ w) as [|front q] eqn:E; cbn in Hr; simplify_eq; constructor; simpl; try done.
  by apply Forall_app_2; [|apply Forall_singleton].
Qed.

Lemma write_completed_wf ec w w1 : well_formed w → write_completed ec w = Ret w1 → well_formed w1.
Proof.
  unfold write_completed. intros [] Hr. destruct (alive w), (failed ec); cbn [negb] in Hr; try done; simplify_eq;
    [by constructor|].
  destruct (message_queue_ w) as [|front q]; [done|]. apply Forall_cons in wf_queue0 as [_ Hq].
  destruct q as [|next q]; cbn in Hr; simplify_eq; constructor; simpl; try done.
  apply Forall_cons in Hq as [Hn _]. by apply Forall_app_2; [|apply Forall_singleton].
Qed.

Lemma run_job_wf j js w w1 :
  posted w = j :: js → well_formed w → run_job j (set_posted js w) = Ret w1 → well_formed w1.
Proof.
  intros Hp Hw Hr. assert (job_ok settings j ∧ well_formed (set_posted js w)) as [Hj Hw'].
  { destruct Hw. rewrite Hp in wf_jobs0. apply Forall_cons in wf_jobs0 as [? ?]. split; [done|by constructor]. }
  destruct j; cbn [run_job] in Hr; simpl in Hj; [by eapply run_send_wf|..]; (eapply effect_wf; [|exact Hw'|exact Hr]);
    intros bound; [by apply ok_run_drop|apply ok_run_read_buffered|by apply ok_call_user|by apply ok_run_waiter].
Qed.

Lemma step_wf w e w1 : event_ok e → well_formed w → step w e w1 → well_formed w1.
Proof.
  unfold step. intros Ha Hw He. destruct e; cbn [exec] in He; unfold complete in He;
    try (destruct (take_pending _ _) as [[u rest]|]; simpl in He; [|done]; injection He as He;
         assert (well_formed (set_pending rest w)) as Hw' by (destruct Hw; by constructor)).
  - injection He as He. eapply effect_wf; [by apply api_preserves|done|done].
  - destruct (posted w) as [|j js] eqn:Hp; [done|]. injection He as He. by eapply run_job_wf.
  - destruct (timers w !! t) as [[d [x|]]|] eqn:Ht; [|done..]. injection He as <-. by apply wait_ends_wf.
  - destruct (writes w) as [|n]; [done|]. injection He as He. eapply write_completed_wf; [|exact He].
    destruct Hw; by constructor.
  - eapply effect_wf; [|exact Hw'|exact He]. intros bound. apply ok_receive_completed.
  - eapply effect_wf; [|exact Hw'|exact He]. intros bound. apply ok_endpoint_discovered.
  - eapply effect_wf; [|exact Hw'|exact He]. intros bound. apply ok_tcp_connected.
  - injection He as <-. destruct Hw; by constructor.
  - destruct (objects w !! this); [|done]. injection He as <-. destruct Hw. constructor; try done.
    by apply map_Forall_delete.
  - destruct (decide (objects w = ∅)); [|done]. injection He as <-. destruct Hw; by constructor.
Qed.

Lemma run_wf name tr w :
  Forall event_ok tr → run step (new_connection settings name) tr w → well_formed w.
Proof.
  intros Htr Hr. assert (well_formed (new_connection settings name)) as Hw.
  { constructor; simpl; try done; apply map_Forall_empty. }
  revert Hw. induction Hr as [w|w e w1 tr w2 Hs _ IH]; [done|].
  apply Forall_cons in Htr as [He Htr]. intros Hw. apply (IH Htr). by eapply step_wf.
Qed.
End steps.

(** ** Reading back what was sent *)
Section reading.
Context {AL : Allocator}.

Definition sent_body (s : sent_package) : bytes :=
  match sent_credentials s with
  | None => sent_message s
  | Some (user, pass) => auth_body user pass (sent_message s)
  end.
Definition sent_frame (s : sent_package) : bytes :=
  plain_frame (sent_command s) (sent_flags s) (sent_correlation s) (sent_body s).

(** The server accepts a frame of this length, and the credentials fit the
    byte that holds their length. *)
Definition sent_fits (s : sent_package) : Prop :=
  Z.of_nat (length (sent_body s)) + 18 ≤ kMaxPackageSize ∧
  match sent_credentials s with
  | None => True
  | Some (user, pass) => (string_size user < 256)%nat ∧ (string_size pass < 256)%nat
  end.

(** A constructor writes the message inside the memory of the package. *)
Lemma construct_length s p mem :
  construct s = Ret p → package_ p = Some mem → (22 + length (sent_body s) ≤ length mem)%nat.
Proof.
  unfold construct, sent_body. intros Hp Hmem. destruct (sent_credentials s) as [[user pass]|].
  - rewrite length_auth_body. unfold tcp_package_auth in Hp.
    destruct (has_authenticated _); cbn [negb] in Hp; inv_ret; simplify_eq/=.
    match goal with H : write_at _ (sent_message s) _ = _ |- _ => apply write_at_length in H as [-> ?] end.
    unfold_offsets. lia.
  - unfold tcp_package_plain in Hp. destruct (has_authenticated _); inv_ret; simplify_eq/=.
    match goal with H : write_at _ (sent_message s) _ = _ |- _ => apply write_at_length in H as [-> ?] end.
    unfold_offsets. lia.
Qed.

(** A package short enough for the receiving side, from a client whose
    credentials fit their length bytes. *)
Definition short_enough (p : tcp_package) : Prop :=
  ∃ mem, package_ p = Some mem ∧ Z.of_nat (length mem) ≤ 4 + kMaxPackageSize.

Lemma construct_fits settings s p :
  sent_ok settings s → construct s = Ret p → short_enough p →
  (string_size (username (default_user_credentials_ settings)) < 256)%nat →
  (string_size (password (default_user_credentials_ settings)) < 256)%nat → sent_fits s.
Proof.
  intros (_ & _ & Hcr) Hp (mem & Hmem & Hl) Hu Hpw. split.
  - pose proof (construct_length _ _ _ Hp Hmem). lia.
  - by destruct Hcr as [->| ->].
Qed.

(** What a view of the package reads. *)
Definition view_reads_sent (v : tcp_package_view) (s : sent_package) : Prop :=
  view_reads v (sent_command s) (sent_flags s)
    ((λ '(user, pass), (string_bytes user, string_bytes pass)) <$> sent_credentials s)
    (sent_correlation s) (sent_message s).

Lemma construct_frame s p :
  length (sent_correlation s) = 16%nat → sent_fits s → construct s = Ret p → package_ p = Some (sent_frame s).
Proof.
  unfold construct, sent_fits, sent_frame, sent_flags, sent_body, kMaxPackageSize. intros Hc [Hm Hcr] Hp.
  destruct (sent_credentials s) as [[user pass]|].
  - rewrite tcp_package_auth_layout in Hp by (done || lia). by injection Hp as <-.
  - rewrite tcp_package_plain_layout in Hp by (done || lia). by injection Hp as <-.
Qed.

Lemma sent_frame_view s :
  length (sent_correlation s) = 16%nat → sent_fits s →
  ∃ v, make_view (Some (sent_frame s)) (Z.of_nat (length (sent_frame s))) = Ret v ∧ view_reads_sent v s.
Proof.
  unfold view_reads_sent, sent_fits, sent_frame. intros Hc [Hm Hcr]. rewrite length_plain_frame by done.
  replace (Z.of_nat (22 + length (sent_body s))) with (22 + Z.of_nat (length (sent_body s))) by lia.
  unfold sent_body, sent_flags, kMaxPackageSize in *. destruct (sent_credentials s) as [[user pass]|].
  - destruct Hcr. destruct (make_view_auth (sent_command s) (sent_correlation s) user pass (sent_message s))
      as (v & Hv & Hr & _); [done..|lia|]. by exists v.
  - destruct (make_view_plain (sent_command s) flags_none (sent_correlation s) (sent_message s))
      as (v & Hv & Hr & _); [done..|lia|]. by exists v.
Qed.

(** A sequence of packages on a stream. *)
Lemma sent_stream eof sent pkgs `{DynamicBufferLaws B} (b : B) r p :
  failed eof = true → db_rel b r p →
  Forall (λ s, length (sent_correlation s) = 16%nat ∧ sent_fits s) sent →
  Forall2 (λ s pkg, construct s = Ret pkg) sent pkgs →
  ∃ frames, receive_loop eof (S (length sent)) (concat (default [] ∘ package_ <$> pkgs)) b = Ret (frames, Some eof) ∧
    Forall2 (λ s '(mem, size), ∃ v, make_view (Some mem) size = Ret v ∧ view_reads_sent v s) sent frames.
Proof.
  intros He Hb Hs Hp. exists ((λ f, (f, Z.of_nat (length f))) <$> (sent_frame <$> sent)). split.
  - assert (default [] ∘ package_ <$> pkgs = sent_frame <$> sent) as ->.
    { induction Hp as [|s pkg sent pkgs Hp _ IH]; [done|]. apply Forall_cons in Hs as [[Hc Hf] Hs].
      rewrite !fmap_cons, (IH Hs). simpl. by rewrite (construct_frame s pkg). }
    rewrite <- (app_nil_r (concat _)), <- (length_fmap sent_frame sent).
    apply (receive_loop_frames eof (sent_frame <$> sent) [] b r p); [done|done| |simpl; lia].
    apply Forall_fmap. eapply Forall_impl; [exact Hs|]. intros s [Hc [Hf _]]. by apply plain_frame_ok.
  - clear Hp. induction Hs as [|s sent [Hc Hf] _ IH]; constructor; [|exact IH]. by apply sent_frame_view.
Qed.
End reading.

(** C11: Everything the client puts on the wire, over every execution from a
    new connection, is a package made by a constructor of tcp_package from one
    of the request commands, with a correlation id of 16 bytes and either no
    credentials or the default ones of the settings; and as long as no package
    is longer than the limit of the receiving side, and the credentials fit
    their length bytes, the receive loop run on the bytes of the wire delivers
    exactly these packages, in order, each with a view that reads back its
    command, flags, credentials, correlation id and message. *)
Theorem wire_readable {AL : Allocator} {PB : Protobuf} {AE : AsioErrors} {GS : GuidSource}
    `{DynamicBufferLaws B} settings name tr w eof (b : B) r p
    (Hrun : run step (new_connection settings name) tr w) (Htr : Forall event_ok tr)
    (Heof : failed eof = true) (Hb : db_rel b r p)
    (Huser : (string_size (username (default_user_credentials_ settings)) < 256)%nat)
    (Hpass : (string_size (password (default_user_credentials_ settings)) < 256)%nat) :
  ∃ sent, Forall (sent_ok settings) sent ∧ Forall2 (λ s pkg, construct s = Ret pkg) sent (wire w) ∧
    (Forall short_enough (wire w) → ∃ frames,
      receive_loop eof (S (length (wire w))) (concat (default [] ∘ package_ <$> wire w)) b = Ret (frames, Some eof) ∧
      Forall2 (λ s '(mem, size), ∃ v, make_view (Some mem) size = Ret v ∧ view_reads_sent v s) sent frames).
Proof.
  pose proof (wf_wire _ _ (run_wf _ _ _ _ Htr Hrun)) as Hw.
  assert (∃ sent, Forall (sent_ok settings) sent ∧ Forall2 (λ s pkg, construct s = Ret pkg) sent (wire w))
    as (sent & Hok & Hsent).
  { induction Hw as [|pkg pkgs (s & Hs & Hc) _ (sent & ? & ?)]; [by exists []|].
    exists (s :: sent). split; by constructor. }
  exists sent. split_and!; [done..|]. intros Hshort. rewrite <- (Forall2_length _ _ _ Hsent).
  apply (sent_stream eof sent _ b r p); [done..| |done].
  clear Hw. induction Hsent as [|s pkg sent pkgs Hs _ IH]; [done|].
  apply Forall_cons in Hok as [Hok1 Hok], Hshort as [Hsh1 Hsh]. constructor; [|by apply IH].
  split; [apply Hok1|by eapply construct_fits].
Qed.

Lemma wire_readable_witness :
  let w0 := new_connection default_connection_settings "ES-1" in
  let eof := mk_error_code 2 system_category in
  let es := [ev_api (api_append "s" [] (-2) 1%nat); ev_api (api_delete "s" (-2) true 2%nat);
             ev_job; ev_job; ev_written success] in
  let w := after (AL := zero_allocator) (PB := sample_protobuf) (AE := linux_asio_errors) (GS := counting_guids)
             es w0 in
  length (wire w) = 2%nat ∧
  ∃ frames, receive_loop eof 3 (concat (default [] ∘ package_ <$> wire w)) (mk_vector_buffer [] 0) =
    Ret (frames, Some eof) ∧ length frames = 2%nat.
Proof.
  intros w0 eof es w. split; [vm_compute; reflexivity|].
  destruct (wire_readable (AL := zero_allocator) (PB := sample_protobuf) (AE := linux_asio_errors)
    (GS := counting_guids) default_connection_settings "ES-1" es w eof (mk_vector_buffer [] 0) [] [])
    as (sent & _ & Hsent & Hread).
  - apply after_run. vm_compute. reflexivity.
  - repeat constructor.
  - reflexivity.
  - split; reflexivity.
  - vm_compute. lia.
  - vm_compute. lia.
  - destruct Hread as (frames & Hloop & Hframes).
    + assert (∃ p1 p2 m1 m2, wire w = [p1; p2] ∧ package_ p1 = Some m1 ∧ package_ p2 = Some m2 ∧
        (length m1 ≤ 100)%nat ∧ (length m2 ≤ 100)%nat) as (p1 & p2 & m1 & m2 & -> & H1 & H2 & ? & ?).
      { do 4 eexists. split_and!; [vm_compute; reflexivity..| |]; vm_compute; lia. }
      repeat constructor; [exists m1|exists m2]; (split; [done|unfold kMaxPackageSize; lia]).
    + exists frames. split; [exact Hloop|].
      rewrite <- (Forall2_length _ _ _ Hframes), (Forall2_length _ _ _ Hsent). vm_compute. reflexivity.
Defined.

(** C13: Every call of a user's handler, over every execution from a new
    connection: the handlers of the operations get a result exactly when the
    error code is success, the connection handler gets one on success and on
    authentication_failed and in no other case, and a subscription's dropped
    handler always gets an error. *)
Theorem handlers_called_consistently {AL : Allocator} {PB : Protobuf} {AE : AsioErrors} {GS : GuidSource}
    settings name tr w cb c
    (Hrun : run step (new_connection settings name) tr w) (Htr : Forall event_ok tr)
    (Hcall : (cb, c) ∈ calls w) : call_ok c.
Proof.
  exact (proj1 (Forall_forall _ _) (wf_calls _ _ (run_wf _ _ _ _ Htr Hrun)) _ Hcall).
Qed.

Lemma handlers_called_consistently_witness :
  let w0 := new_connection default_connection_settings "ES-1" in
  let timeout := make_error_code operation_timeout in
  let es := [ev_api (api_append "s" [] (-2) 1%nat); ev_job; ev_timer 0; ev_job] in
  let w := after (AL := zero_allocator) (PB := sample_protobuf) (AE := linux_asio_errors) (GS := counting_guids)
             es w0 in
  calls w = [(1%nat, cb_write (timeout, None))] ∧ call_ok (cb_write (timeout, None)).
Proof.
  intros w0 timeout es w. assert (calls w = [(1%nat, cb_write (timeout, None))]) as Hc by (vm_compute; reflexivity).
  split; [exact Hc|].
  apply (handlers_called_consistently (AL := zero_allocator) (PB := sample_protobuf) (AE := linux_asio_errors)
    (GS := counting_guids) default_connection_settings "ES-1" es w 1%nat).
  - apply after_run. vm_compute. reflexivity.
  - repeat constructor.
  - rewrite Hc. by apply list_elem_of_singleton.
Defined.
