(* ===== verification/PackageMemory.v ===== *)
(** The memory of packages (class tcp_package of include/tcp/tcp_package.hpp):
    the pointer to its bytes each object holds, moved from the function that
    builds the package to the job posted to the io_context, from there to the
    write queue, and given back when its write has completed.  The packages of
    the other files are values; they are the abstract specification. *)
From S2P Require Import Prelude Errors Basics TcpPackage Messages Events Settings OperationsMap ErasedOperations.
From S2P Require Import World Connection Requests Client Lifecycle Sending WellFormed.

Section packages.
Context {MA : Malloc}.

(** ** The members of a package *)
Inductive pointer : Type :=
| p_indeterminate   (* the default constructor gives it no value *)
| p_null
| p_block (a : nat).

Record package_object := mk_package_object { pointer_ : pointer; object_length_ : Z }.

(** Blocks of memory and the bytes in them. *)
Abbreviation memory := (gmap nat bytes).

(** tcp_package() *)
Definition default_package : package_object := mk_package_object p_indeterminate 0.

(** A constructor that gives the package the value [v]. *)
Definition build_package (v : tcp_package) (hp : memory) : package_object * memory :=
  match package_ v with
  | None => (mk_package_object p_null (length_ v), hp)
  | Some bs =>
      let a := malloc (dom hp) in
      (mk_package_object (p_block a) (length_ v), <[a := bs]> hp)
  end.

(** tcp_package(tcp_package&&): the new object, and what is left of the other. *)
Definition move_package (other : package_object) : package_object * package_object :=
  (mk_package_object (pointer_ other) (object_length_ other), mk_package_object p_null (object_length_ other)).

(** operator=(tcp_package&&): the block of the assigned object is not given
    back. *)
Definition assign_package (this other : package_object) : package_object * package_object :=
  (mk_package_object (pointer_ other) (object_length_ other), mk_package_object p_null (object_length_ other)).

(** The block a pointer designates. *)
Definition block_at (p : pointer) (hp : memory) : outcome bytes :=
  match p with
  | p_indeterminate => Undef indeterminate_value
  | p_null => Undef null_dereference
  | p_block a => match hp !! a with Some bs => Ret bs | None => Undef dangling_reference end
  end.

(** data() and size(), as a buffer for a write. *)
Definition package_buffer (p : package_object) (hp : memory) : outcome bytes :=
  bs ← block_at (pointer_ p) hp;
  read_at 0 (Z.to_nat (object_length_ p + 4)) bs.

(** tcp_package(tcp_package const&) *)
Definition copy_package (other : package_object) (hp : memory) : outcome (package_object * memory) :=
  bs ← package_buffer other hp;
  let a := malloc (dom hp) in
  Ret (mk_package_object (p_block a) (object_length_ other), <[a := bs]> hp).

(** operator=(tcp_package const&): the copy is made, the block of the assigned
    object is not given back, and nothing is returned. *)
Definition copy_assign_package (this other : package_object) (hp : memory) :
    outcome (package_object * memory) :=
  _ ← copy_package other hp; Undef missing_return.

(** ~tcp_package(): the size given back must be the size allocated. *)
Definition destroy_package (p : package_object) (hp : memory) : outcome memory :=
  match pointer_ p with
  | p_indeterminate => Undef indeterminate_value
  | p_null => Ret hp
  | p_block a =>
      match hp !! a with
      | None => Undef dangling_reference
      | Some bs =>
          if decide (Z.of_nat (length bs) = object_length_ p + 4) then Ret (delete a hp) else Undef bad_deallocation
      end
  end.

(** ** Sending

    The packages the posted jobs have captured, those in message_queue_, the
    memory, and the bytes given to the socket. *)
Record write_side := mk_write_side {
  captured : list package_object;
  queued : list package_object;
  memory_ : memory;
  bytes_written : list bytes
}.

(** async_send(package): the job captures the package; the io_context moves
    the job [moves] times before it is in its queue. *)
Fixpoint relocate (moves : nat) (p : package_object) (hp : memory) : outcome (package_object * memory) :=
  match moves with
  | O => Ret (p, hp)
  | S moves =>
      let '(q, p) := move_package p in
      hp ← destroy_package p hp;
      relocate moves q hp
  end.

Definition send_object (moves : nat) (p : package_object) (s : write_side) : outcome (package_object * write_side) :=
  let '(job, p) := move_package p in
  '(job, hp) ← relocate moves job (memory_ s);
  Ret (p, mk_write_side (captured s ++ [job]) (queued s) hp (bytes_written s)).

(** A function that sends a request: the package is declared, a temporary is
    built and assigned to it, and it is sent. *)
Definition send_request (moves : nat) (v : tcp_package) (s : write_side) : outcome write_side :=
  let package := default_package in
  let '(temporary, hp) := build_package v (memory_ s) in
  let '(package, temporary) := assign_package package temporary in
  hp ← destroy_package temporary hp;
  '(package, s) ← send_object moves package (mk_write_side (captured s) (queued s) hp (bytes_written s));
  hp ← destroy_package package (memory_ s);
  Ret (mk_write_side (captured s) (queued s) hp (bytes_written s)).

(** A package built in place and sent. *)
Definition send_temporary (moves : nat) (v : tcp_package) (s : write_side) : outcome write_side :=
  let '(temporary, hp) := build_package v (memory_ s) in
  '(temporary, s) ← send_object moves temporary (mk_write_side (captured s) (queued s) hp (bytes_written s));
  hp ← destroy_package temporary (memory_ s);
  Ret (mk_write_side (captured s) (queued s) hp (bytes_written s)).

(** do_async_send() *)
Definition start_write (s : write_side) : outcome write_side :=
  match queued s with
  | [] => Undef empty_container
  | front :: _ =>
      bs ← package_buffer front (memory_ s);
      Ret (mk_write_side (captured s) (queued s) (memory_ s) (bytes_written s ++ [bs]))
  end.

(** The oldest job that sends: emplace_back, the write, and the end of the
    job and of what it captured. *)
Definition run_captured (s : write_side) : outcome write_side :=
  match captured s with
  | [] => Undef empty_container
  | job :: jobs =>
      let write_in_progress := match queued s with [] => false | _ => true end in
      let '(node, job) := move_package job in
      let s := mk_write_side jobs (queued s ++ [node]) (memory_ s) (bytes_written s) in
      s ← (if write_in_progress then Ret s else start_write s);
      hp ← destroy_package job (memory_ s);
      Ret (mk_write_side (captured s) (queued s) hp (bytes_written s))
  end.

(** The completion of a write without error. *)
Definition finish_write (s : write_side) : outcome write_side :=
  match queued s with
  | [] => Undef empty_container
  | front :: q =>
      hp ← destroy_package front (memory_ s);
      let s := mk_write_side (captured s) q hp (bytes_written s) in
      match q with [] => Ret s | _ => start_write s end
  end.

(** The members of a connection that is destroyed: message_queue_ destroys its
    packages, among them the one being written, whose bytes the socket has
    been told to read. The jobs posted keep what they have captured. *)
Fixpoint destroy_packages (ps : list package_object) (hp : memory) : outcome memory :=
  match ps with
  | [] => Ret hp
  | p :: ps => hp ← destroy_package p hp; destroy_packages ps hp
  end.

Definition release_queue (s : write_side) : outcome write_side :=
  hp ← destroy_packages (queued s) (memory_ s);
  Ret (mk_write_side (captured s) [] hp (bytes_written s)).

(** ** The memory implements the values

    [holds hp p v]: the object [p] owns a block with the bytes of [v]. *)
Definition holds (hp : memory) (p : package_object) (v : tcp_package) : Prop :=
  ∃ a bs, p = mk_package_object (p_block a) (length_ v) ∧ package_ v = Some bs ∧ hp !! a = Some bs ∧
    Z.of_nat (length bs) = length_ v + 4.

Definition address (p : package_object) : option nat :=
  match pointer_ p with p_block a => Some a | _ => None end.
Definition owned (s : write_side) : list nat := omap address (captured s ++ queued s).

(** The queue of the connection, while there is one. *)
Definition live_queue (w : world) : list tcp_package := if alive w then message_queue_ w else [].

Record implements (w : world) (s : write_side) : Prop := {
  im_captured : Forall2 (holds (memory_ s)) (captured s) (sends (posted w));
  im_queued : Forall2 (holds (memory_ s)) (queued s) (live_queue w);
  im_bytes : bytes_written s = default [] ∘ package_ <$> wire w;
  im_once : NoDup (owned s);
  im_blocks : ∀ a, is_Some (memory_ s !! a) ↔ a ∈ owned s
}.

(** What the constructors give a package whose command and flags agree. *)
Definition sized (v : tcp_package) : Prop :=
  ∃ bs, package_ v = Some bs ∧ Z.of_nat (length bs) = length_ v + 4.

Lemma holds_insert hp a bs p v : hp !! a = None → holds hp p v → holds (<[a := bs]> hp) p v.
Proof.
  intros Ha (b & bs' & -> & Hv & Hb & Hl). exists b, bs'. split_and!; try done.
  rewrite lookup_insert_ne; [done|]. intros ->. congruence.
Qed.

Lemma holds_delete hp a p v : address p ≠ Some a → holds hp p v → holds (delete a hp) p v.
Proof.
  intros Ha (b & bs' & -> & Hv & Hb & Hl). exists b, bs'. split_and!; try done.
  rewrite lookup_delete_ne; [done|]. by intros ->.
Qed.

Lemma holds_delete_all hp a ps vs :
  Forall2 (holds hp) ps vs → (∀ p, p ∈ ps → address p ≠ Some a) → Forall2 (holds (delete a hp)) ps vs.
Proof.
  induction 1 as [|p v ps vs Hp _ IH]; intros Ha; constructor.
  - apply holds_delete; [apply Ha; by left|done].
  - apply IH. intros q Hq. apply Ha. by right.
Qed.

Lemma holds_moved hp p v : holds hp p v → (move_package p).1 = p.
Proof. by intros (a & bs & -> & _). Qed.

Lemma destroy_moved p hp : destroy_package (move_package p).2 hp = Ret hp.
Proof. done. Qed.

Lemma relocate_moved moves p hp v : holds hp p v → relocate moves p hp = Ret (p, hp).
Proof.
  intros Hp. induction moves as [|moves IH]; [done|]. cbn [relocate].
  rewrite (surjective_pairing (move_package p)), destroy_moved. cbn [mbind outcome_bind].
  by rewrite (holds_moved _ _ _ Hp).
Qed.

Lemma holds_buffer hp p v bs : holds hp p v → package_ v = Some bs → package_buffer p hp = Ret bs.
Proof.
  intros (a & bs' & -> & Hv & Ha & Hl) Hbs. simplify_eq. unfold package_buffer. simpl. rewrite Ha. simpl.
  rewrite <- Hl, Nat2Z.id. apply read_at_all.
Qed.

Lemma build_holds v hp : sized v →
  ∃ a bs, build_package v hp = (mk_package_object (p_block a) (length_ v), <[a := bs]> hp) ∧ hp !! a = None ∧
    holds (<[a := bs]> hp) (mk_package_object (p_block a) (length_ v)) v.
Proof.
  intros (bs & Hv & Hl). unfold build_package. rewrite Hv. set (a := malloc (dom hp)).
  assert (hp !! a = None) as Ha by apply not_elem_of_dom, malloc_fresh.
  exists a, bs. split_and!; [done..|]. exists a, bs. by rewrite lookup_insert_eq.
Qed.

(** The state after a package has been sent. *)
Definition sent_object (a : nat) (bs : bytes) (v : tcp_package) (s : write_side) : write_side :=
  mk_write_side (captured s ++ [mk_package_object (p_block a) (length_ v)]) (queued s)
    (<[a := bs]> (memory_ s)) (bytes_written s).

Lemma owned_sent a bs v s : owned (sent_object a bs v s) ≡ₚ (a :: owned s).
Proof. unfold owned. simpl. rewrite !omap_app. simpl. rewrite <- app_assoc. symmetry. apply Permutation_middle. Qed.

Lemma implements_sent w s a bs v :
  implements w s → memory_ s !! a = None →
  holds (<[a := bs]> (memory_ s)) (mk_package_object (p_block a) (length_ v)) v →
  implements (set_posted (posted w ++ [send_package v]) w) (sent_object a bs v s).
Proof.
  intros [] Ha Hv. constructor; simpl.
  - rewrite sends_app. apply Forall2_app; [|by repeat constructor].
    eapply Forall2_impl; [exact im_captured0|]. intros. by apply holds_insert.
  - eapply Forall2_impl; [exact im_queued0|]. intros. by apply holds_insert.
  - done.
  - rewrite owned_sent. constructor; [|done]. rewrite <- im_blocks0, Ha. by intros [].
  - intros b. rewrite owned_sent, elem_of_cons, <- im_blocks0. destruct (decide (b = a)) as [->|].
    + rewrite lookup_insert_eq. split; [by left|by eexists].
    + rewrite lookup_insert_ne by done. split; [by right|by intros [?|?]].
Qed.

Lemma send_request_ok moves w s v : implements w s → sized v →
  ∃ s', send_request moves v s = Ret s' ∧ implements (set_posted (posted w ++ [send_package v]) w) s'.
Proof.
  intros Hw Hv. destruct (build_holds v (memory_ s) Hv) as (a & bs & Hb & Ha & Hh).
  exists (sent_object a bs v s). split; [|by apply implements_sent].
  unfold send_request. rewrite Hb. unfold assign_package, send_object, move_package. simpl.
  by rewrite (relocate_moved _ _ _ _ Hh).
Qed.

Lemma send_temporary_ok moves w s v : implements w s → sized v →
  ∃ s', send_temporary moves v s = Ret s' ∧ implements (set_posted (posted w ++ [send_package v]) w) s'.
Proof.
  intros Hw Hv. destruct (build_holds v (memory_ s) Hv) as (a & bs & Hb & Ha & Hh).
  exists (sent_object a bs v s). split; [|by apply implements_sent].
  unfold send_temporary. rewrite Hb. unfold send_object, move_package. simpl.
  by rewrite (relocate_moved _ _ _ _ Hh).
Qed.

(** The front of the queue is given to the socket. *)
Lemma start_write_ok w s front q :
  implements w s → live_queue w = front :: q →
  ∃ s', start_write s = Ret s' ∧ captured s' = captured s ∧ memory_ s' = memory_ s ∧
    implements (set_writes (S (writes w)) (set_wire (wire w ++ [front]) w)) s'.
Proof.
  intros [] Hq. rewrite Hq in im_queued0. inversion im_queued0 as [|node ? nodes ? Hn Hns Eq]; subst.
  destruct Hn as (a & bs & Hnode & Hbs & Ha & Hl).
  assert (holds (memory_ s) node front) as Hn by by exists a, bs.
  unfold start_write. rewrite <- Eq, (holds_buffer _ _ _ _ Hn Hbs). simpl. eexists. split; [done|]. split; [done|].
  split; [done|]. constructor; unfold live_queue in *; simpl; rewrite ?Hq, ?Eq; try done.
  rewrite fmap_app, im_bytes0. simpl. by rewrite Hbs.
Qed.

Lemma run_captured_ok w s p js w' :
  implements w s → posted w = send_package p :: js → run_send p (set_posted js w) = Ret w' →
  ∃ s', run_captured s = Ret s' ∧ implements w' s'.
Proof.
  intros [] Hp Hrun. unfold run_send in Hrun. simpl in Hrun. destruct (alive w) eqn:Ha; [|done]. simpl in Hrun.
  unfold live_queue in im_queued0. rewrite Ha in im_queued0.
  rewrite Hp in im_captured0. unfold sends in im_captured0. simpl in im_captured0. fold (sends js) in im_captured0.
  inversion im_captured0 as [|job ? jobs ? Hj Hjs Eq]; subst.
  set (s1 := mk_write_side jobs (queued s ++ [job]) (memory_ s) (bytes_written s)).
  set (w1 := set_message_queue (message_queue_ w ++ [p]) (set_posted js w)).
  assert (implements w1 s1) as H1.
  { assert (owned s1 ≡ₚ owned s) as Hown.
    { unfold owned, s1. simpl. rewrite <- Eq, !omap_app. simpl. destruct (address job); [|by rewrite app_nil_r].
      rewrite app_assoc, <- Permutation_cons_append. done. }
    constructor; unfold live_queue; simpl; rewrite ?Ha; try done.
    - by apply Forall2_app; [|repeat constructor].
    - by rewrite Hown.
    - intros a. by rewrite Hown. }
  unfold run_captured. rewrite <- Eq, (surjective_pairing (move_package job)), (holds_moved _ _ _ Hj). fold s1.
  destruct (queued s) as [|node nodes] eqn:Eqs, (message_queue_ w) as [|front q] eqn:Eqw;
    [|by inversion im_queued0|by inversion im_queued0|]; simpl in Hrun; injection Hrun as <-.
  - destruct (start_write_ok w1 s1 p [] H1) as (s2 & Hs2 & Hc & Hm & H2); [by unfold live_queue; simpl; rewrite Ha|].
    rewrite Hs2. simpl. exists s2. split; [by destruct s2|exact H2].
  - simpl. exists s1. split; [done|exact H1].
Qed.

Lemma finish_write_ok w s ec n w' :
  implements w s → failed ec = false → write_completed ec (set_writes n w) = Ret w' →
  ∃ s', finish_write s = Ret s' ∧ implements w' s'.
Proof.
  intros [] Hec Hrun. unfold write_completed in Hrun. rewrite Hec in Hrun. simpl in Hrun.
  destruct (alive w) eqn:Hal; [|done]. simpl in Hrun. unfold live_queue in im_queued0. rewrite Hal in im_queued0.
  destruct (message_queue_ w) as [|front q] eqn:Eq; [done|].
  inversion im_queued0 as [|node ? nodes ? Hn Hns E]; subst.
  destruct Hn as (a & bs & -> & Hbs & Ha & Hl).
  set (s1 := mk_write_side (captured s) nodes (delete a (memory_ s)) (bytes_written s)).
  set (w1 := set_message_queue q (set_writes n w)).
  assert (owned s ≡ₚ (a :: owned s1)) as Hown.
  { unfold owned, s1. simpl. rewrite <- E, !omap_app. simpl. symmetry. apply Permutation_middle. }
  assert ((a ∉ owned s1) ∧ NoDup (owned s1)) as [Hna Hnd] by (rewrite Hown in im_once0; by apply NoDup_cons in im_once0).
  assert (∀ p, p ∈ captured s ++ nodes → address p ≠ Some a) as Hne.
  { intros p Hp Hpa. apply Hna. unfold owned, s1. simpl. apply list_elem_of_omap. eauto. }
  assert (implements w1 s1) as H1.
  { constructor; unfold live_queue; simpl; rewrite ?Hal; try done.
    - apply holds_delete_all; [done|]. intros p Hp. apply Hne. apply elem_of_app. by left.
    - apply holds_delete_all; [done|]. intros p Hp. apply Hne. apply elem_of_app. by right.
    - intros b. destruct (decide (b = a)) as [->|].
      + rewrite lookup_delete_eq. split; [by intros []|done].
      + rewrite lookup_delete_ne, im_blocks0, Hown, elem_of_cons by done. split; [by intros [|]|by right]. }
  unfold finish_write. rewrite <- E. unfold destroy_package. simpl. rewrite Ha, decide_True by done. simpl. fold s1.
  destruct Hns as [|node v nodes' q' Hn Hns]; simpl in Hrun.
  - injection Hrun as <-. exists s1. by split.
  - unfold do_async_send in Hrun. simpl in Hrun. injection Hrun as <-.
    destruct (start_write_ok w1 s1 v q' H1) as (s2 & Hs2 & _ & _ & H2);
      [by unfold live_queue; simpl; rewrite Hal|by exists s2].
Qed.

(** The connection goes, and with it its queue. *)
Lemma destroy_packages_ok ps : ∀ cs hp vs us,
  Forall2 (holds hp) ps vs → Forall2 (holds hp) cs us → NoDup (omap address ps ++ omap address cs) →
  (∀ a, is_Some (hp !! a) ↔ a ∈ omap address ps ++ omap address cs) →
  ∃ hp', destroy_packages ps hp = Ret hp' ∧ Forall2 (holds hp') cs us ∧
    (∀ a, is_Some (hp' !! a) ↔ a ∈ omap address cs).
Proof.
  induction ps as [|p ps IH]; intros cs hp vs us Hps Hcs Hnd Hb; [by exists hp|].
  inversion Hps as [|? v ? vs' Hp Hps']; subst. destruct Hp as (a & bs & -> & Hv & Ha & Hl).
  cbn [omap list_omap address pointer_ app] in Hnd, Hb. apply NoDup_cons in Hnd as [Hna Hnd].
  assert (∀ q, q ∈ ps ++ cs → address q ≠ Some a) as Hne.
  { intros q Hq Hqa. apply Hna. rewrite <- omap_app. apply list_elem_of_omap. eauto. }
  cbn [destroy_packages]. unfold destroy_package. simpl. rewrite Ha, decide_True by done. cbn [mbind outcome_bind].
  apply (IH cs (delete a hp) vs' us); [|apply holds_delete_all..|done|].
  - apply holds_delete_all; [done|]. intros q Hq. apply Hne, elem_of_app. by left.
  - done.
  - intros q Hq. apply Hne, elem_of_app. by right.
  - intros b. destruct (decide (b = a)) as [->|].
    + rewrite lookup_delete_eq. split; [by intros []|done].
    + rewrite lookup_delete_ne, Hb, elem_of_cons by done. split; [by intros [|]|by right].
Qed.

Lemma release_queue_ok w s : implements w s →
  ∃ s', release_queue s = Ret s' ∧ implements (set_alive false w) s'.
Proof.
  intros [].
  assert (omap address (queued s) ++ omap address (captured s) ≡ₚ owned s) as Hown
    by (unfold owned; rewrite omap_app; apply Permutation_app_comm).
  destruct (destroy_packages_ok (queued s) (captured s) (memory_ s) (live_queue w) (sends (posted w)))
    as (hp & Hhp & Hc & Hb); [done|done|by rewrite Hown|intros a; by rewrite Hown|].
  exists (mk_write_side (captured s) [] hp (bytes_written s)). split; [unfold release_queue; by rewrite Hhp|].
  constructor; unfold live_queue, owned; simpl; rewrite ?app_nil_r; try done.
  unfold owned in im_once0. rewrite omap_app in im_once0. apply NoDup_app in im_once0. by destruct_and!.
Qed.

(** ** Sequences of operations on the memory

    [how v]: whether the package [v] is sent by the function that declares a
    package first, and how often its job is moved. *)
Inductive memory_op : Type := m_send (v : tcp_package) | m_run | m_finish | m_release.
Context (how : tcp_package → bool * nat).

Definition do_memory_op (o : memory_op) (s : write_side) : outcome write_side :=
  match o with
  | m_send v => let '(declared, moves) := how v in
      if declared then send_request moves v s else send_temporary moves v s
  | m_run => run_captured s
  | m_finish => finish_write s
  | m_release => release_queue s
  end.

Fixpoint memory_run (ops : list memory_op) (s : write_side) : outcome write_side :=
  match ops with
  | [] => Ret s
  | o :: ops => s ← do_memory_op o s; memory_run ops s
  end.

Lemma memory_run_app ops ops' s : memory_run (ops ++ ops') s = (s ← memory_run ops s; memory_run ops' s).
Proof.
  revert s. induction ops as [|o ops IH]; intros s; [done|]. cbn [memory_run app].
  destruct (do_memory_op o s) as [s1| |]; [|done..]. apply IH.
Qed.

Definition new_write_side : write_side := mk_write_side [] [] ∅ [].

(** Only the packages among the jobs, the queue and the wire matter. *)
Lemma implements_same w w' s :
  sends (posted w') = sends (posted w) → message_queue_ w' = message_queue_ w → wire w' = wire w →
  alive w' = alive w → implements w s → implements w' s.
Proof.
  intros Hs Hq Hw Ha []. assert (live_queue w' = live_queue w) as Hl by (unfold live_queue; by rewrite Ha, Hq).
  constructor; by rewrite ?Hs, ?Hl, ?Hw.
Qed.

Lemma send_all_ok ps : ∀ w s, Forall sized ps → implements w s →
  ∃ s', memory_run (m_send <$> ps) s = Ret s' ∧ implements (set_posted (posted w ++ (send_package <$> ps)) w) s'.
Proof.
  induction ps as [|p ps IH]; intros w s Hps Hw; simpl.
  - exists s. split; [done|]. by rewrite app_nil_r; destruct w.
  - apply Forall_cons in Hps as [Hp Hps].
    assert (∃ s1, do_memory_op (m_send p) s = Ret s1 ∧ implements (set_posted (posted w ++ [send_package p]) w) s1)
      as (s1 & Hs1 & H1).
    { simpl. destruct (how p) as [[] moves]; [by apply send_request_ok|by apply send_temporary_ok]. }
    destruct (IH _ _ Hps H1) as (s2 & Hs2 & H2). exists s2. simpl in Hs1. rewrite Hs1. split; [done|].
    simpl in H2. by rewrite <- app_assoc in H2.
Qed.

Lemma blocks_counted w s : implements w s →
  size (memory_ s) = (length (sends (posted w)) + length (live_queue w))%nat.
Proof.
  intros []. rewrite <- (Forall2_length _ _ _ im_captured0), <- (Forall2_length _ _ _ im_queued0), <- length_app.
  assert (length (owned s) = length (captured s ++ queued s)) as <-.
  { assert (Forall2 (holds (memory_ s)) (captured s ++ queued s) (sends (posted w) ++ live_queue w)) as H
      by by apply Forall2_app.
    unfold owned. induction H as [|p v ps vs Hp _ IH]; [done|]. destruct Hp as (a & bs & -> & _). simpl. by f_equal. }
  rewrite <- size_dom. rewrite <- (size_list_to_set (C := gset nat) (owned s)) by done. f_equal.
  apply set_eq. intros a. by rewrite elem_of_dom, elem_of_list_to_set, im_blocks0.
Qed.
End packages.

(** ** Whole executions *)
Section executions.
Context {MA : Malloc} {AL : Allocator} {PB : Protobuf} {AE : AsioErrors} {GS : GuidSource}.
Context (how : tcp_package → bool * nat).

(** What the constructors build has the size it says. *)
Lemma construct_sized s p : construct s = Ret p → sized p.
Proof.
  unfold construct. intros Hp. destruct (sent_credentials s) as [[user pass]|].
  - unfold tcp_package_auth in Hp. destruct (has_authenticated _) eqn:E; [|done]. cbn [negb] in Hp.
    inv_ret. simplify_eq. eexists. split; [done|]. simpl.
    repeat match goal with H : write_at _ _ _ = Ret _ |- _ => apply write_at_length in H as [? _] end.
    rewrite length_allocate in *.
    pose proof (wrap_u64_nonneg (18 + 1 + Z.of_nat (string_size user) + 1 + Z.of_nat (string_size pass)
      + Z.of_nat (length (sent_message s)))). lia.
  - unfold tcp_package_plain in Hp. destruct (has_authenticated _) eqn:E; [done|]. inv_ret. simplify_eq.
    eexists. split; [done|]. simpl.
    repeat match goal with H : write_at _ _ _ = Ret _ |- _ => apply write_at_length in H as [? _] end.
    rewrite length_allocate in *. pose proof (wrap_u64_nonneg (18 + Z.of_nat (length (sent_message s)))). lia.
Qed.

Lemma package_ok_sized settings p : package_ok settings p → sized p.
Proof. intros (s & _ & Hs). by eapply construct_sized. Qed.

Lemma jobs_sized settings js : Forall (job_ok settings) js → Forall sized (sends js).
Proof.
  induction 1 as [|j js Hj _ IH]; [constructor|]. unfold sends. simpl. fold (sends js).
  destruct j; try done. constructor; [by eapply package_ok_sized|done].
Qed.

(** The operations on the memory a step performs: a posted send that runs, a
    write that completes, the end of the connection, and otherwise the sending
    of the packages the step has posted, in their order. *)
Definition step_ops (w : world) (e : event) (w' : world) : list memory_op :=
  match e, posted w with
  | ev_job, send_package _ :: _ => [m_run]
  | ev_written ec, _ => if failed ec then [] else [m_finish]
  | ev_release, _ => [m_release]
  | _, _ => m_send <$> sends (drop (length (taken e (posted w))) (posted w'))
  end.

(** The operations of a whole execution. *)
Fixpoint trace_ops (es : list event) (w : world) : list memory_op :=
  match es with
  | [] => []
  | e :: es =>
      match exec e w with
      | Some (Ret w') => step_ops w e w' ++ trace_ops es w'
      | _ => []
      end
  end.

Lemma trace_ops_step es w e w' w'' :
  run step w es w' → step w' e w'' → trace_ops (es ++ [e]) w = trace_ops es w ++ step_ops w' e w''.
Proof.
  induction 1 as [w|w e1 w1 es w' Hs _ IH]; intros He; cbn [app trace_ops].
  - rewrite He. by rewrite app_nil_r.
  - rewrite Hs, (IH He). by rewrite app_assoc.
Qed.

(** A step that posts. *)
Lemma posting_memory settings w w1 w' s :
  well_formed settings w' → implements w s → same_sending w w1 → only_posts w1 w' → alive w1 = alive w →
  ∃ s', memory_run how (m_send <$> sends (drop (length (posted w1)) (posted w'))) s = Ret s' ∧ implements w' s'.
Proof.
  intros Hwf Hw (Hq1 & Hw1 & _ & Hs1) (Hq2 & Hw2 & _ & Ha2 & js & Hjs) Ha1.
  rewrite Hjs, drop_app_length.
  destruct (send_all_ok how (sends js) w1 s) as (s1 & Hs2 & H2).
  - apply wf_jobs in Hwf. rewrite Hjs in Hwf. apply Forall_app in Hwf as [_ Hwf]. by eapply jobs_sized.
  - by apply (implements_same w).
  - exists s1. split; [done|].
    apply (implements_same (set_posted (posted w1 ++ (send_package <$> sends js)) w1)); try done; simpl;
      [|congruence..]. rewrite Hjs, !sends_app. f_equal. by rewrite sends_packages.
Qed.

Lemma posting_ops w e w1 w' :
  same_sending w w1 → undisturbed e w w1 → e ≠ ev_release →
  step_ops w e w' = m_send <$> sends (drop (length (posted w1)) (posted w')).
Proof.
  intros (_ & _ & _ & Hsends) [Hw1 Hu] Hne. rewrite Hw1 in *. unfold step_ops. destruct e; try done.
  destruct (posted w) as [|[p| | | |] js]; try done. exfalso.
  apply (f_equal length) in Hsends. unfold sends, taken in Hsends. simpl in Hsends. by apply n_Sn in Hsends.
Qed.

(** One step of the client. *)
Lemma step_memory settings w e w' s :
  well_formed settings w' → implements w s → step w e w' →
  ∃ s', memory_run how (step_ops w e w') s = Ret s' ∧ implements w' s'.
Proof.
  intros Hwf Hw Hs.
  destruct (step_sending _ _ _ Hs) as [p js w' Hp Hr|ec n w' Hn Hr|e w1 w' Hsame Hu Hposts].
  - destruct (run_captured_ok _ _ _ _ _ Hw Hp Hr) as (s1 & Hs1 & H1). exists s1. unfold step_ops. rewrite Hp.
    simpl. by rewrite Hs1.
  - unfold step_ops. destruct (failed ec) eqn:Hec.
    + exists s. split; [done|]. unfold write_completed in Hr. rewrite Hec in Hr. simpl in Hr.
      destruct (alive w) eqn:Ha; [|done]. injection Hr as <-. by apply (implements_same w).
    + destruct (finish_write_ok _ _ _ _ _ Hw Hec Hr) as (s1 & Hs1 & H1). exists s1. simpl. by rewrite Hs1.
  - assert (e = ev_release ∨ e ≠ ev_release) as [->|Hne] by (destruct e; auto).
    + destruct (release_queue_ok _ _ Hw) as (s1 & Hs1 & H1). exists s1.
      unfold step in Hs. cbn [exec] in Hs. destruct (decide (objects w = ∅)); [|done]. injection Hs as <-.
      simpl. by rewrite Hs1.
    + destruct (posting_memory settings w w1 w' s) as (s1 & Hs1 & H1); [done..| |].
      { destruct e; try apply Hu; [by destruct Hu|done]. }
      exists s1. split; [|done]. by rewrite (posting_ops _ _ _ _ Hsame Hu Hne).
Qed.

Lemma run_memory settings name tr w :
  run step (new_connection settings name) tr w → Forall event_ok tr →
  ∃ s, memory_run how (trace_ops tr (new_connection settings name)) new_write_side = Ret s ∧ implements w s.
Proof.
  revert w. induction tr as [|e tr IH] using rev_ind; intros w Hr Htr.
  - inversion Hr; subst. exists new_write_side. split; [done|]. constructor; try done; [constructor..|].
    intros a. simpl. rewrite lookup_empty. split; [by intros []|by intros ?%elem_of_nil].
  - pose proof (run_wf _ _ _ _ Htr Hr) as Hwf. destruct (run_app _ _ _ _ _ Hr) as (w1 & Hr1 & Hs%run_single).
    apply Forall_app in Htr as [Htr _]. destruct (IH _ Hr1 Htr) as (s & Hops & Hs1).
    destruct (step_memory _ _ _ _ _ Hwf Hs1 Hs) as (s' & Hops' & Hs').
    exists s'. split; [|done]. rewrite (trace_ops_step _ _ _ _ _ Hr1 Hs). by rewrite memory_run_app, Hops.
Qed.
End executions.

(** C12: The memory of the packages, over every execution of the client from a
    new connection, whatever blocks the allocator gives, whichever way each
    function builds the package it sends and however often the io_context
    moves a posted job: the constructions, moves and destructions of package
    objects that the steps of that execution perform, one after the other (a
    send for each package a step posts, the run of a posted send, the
    completion of a write, the destruction of the queue with the connection),
    never read a pointer without a value, a null pointer or a block given back,
    and give every block back with the size it was allocated with; the socket
    is given the bytes of the packages in order; and the blocks then in use are
    exactly those of the packages still posted or, while the connection
    exists, queued, each owned by one object: none is left when everything has
    been written, or when the connection has gone and nothing is posted. *)
Theorem package_memory_safe {MA : Malloc} {AL : Allocator} {PB : Protobuf} {AE : AsioErrors} {GS : GuidSource}
    how settings name tr w
    (Hrun : run step (new_connection settings name) tr w) (Htr : Forall event_ok tr) :
  ∃ s, memory_run how (trace_ops tr (new_connection settings name)) new_write_side = Ret s ∧
    bytes_written s = default [] ∘ package_ <$> wire w ∧
    Forall2 (holds (memory_ s)) (captured s ++ queued s) (sends (posted w) ++ live_queue w) ∧
    NoDup (owned s) ∧ size (memory_ s) = (length (sends (posted w)) + length (live_queue w))%nat ∧
    (sends (posted w) = [] → live_queue w = [] → memory_ s = ∅).
Proof.
  destruct (run_memory how settings name tr w Hrun Htr) as (s & Hops & Hs).
  pose proof (blocks_counted _ _ Hs) as Hsize. exists s. destruct Hs. split_and!; try done.
  - by apply Forall2_app.
  - intros Hp Hq. rewrite Hp, Hq in Hsize. by apply map_size_empty_inv.
Qed.

(** Three requests, of which the last is still queued when the connection goes. *)
Lemma package_memory_safe_witness :
  let w0 := new_connection default_connection_settings "ES-1" in
  let app cb := ev_api (api_append "s" [] (-2) cb) in
  let es := [app 1%nat; app 2%nat; ev_job; app 3%nat; ev_job; ev_job; ev_written success; ev_release] in
  let w := after (AL := zero_allocator) (PB := sample_protobuf) (AE := linux_asio_errors) (GS := counting_guids) es w0 in
  length (wire w) = 2%nat ∧ length (message_queue_ w) = 2%nat ∧
  ∃ s, memory_run (MA := fresh_malloc) (λ _, (true, 2%nat)) (trace_ops (AL := zero_allocator)
      (PB := sample_protobuf) (AE := linux_asio_errors) (GS := counting_guids) es w0) new_write_side = Ret s ∧
    bytes_written s = default [] ∘ package_ <$> wire w ∧ memory_ s = ∅.
Proof.
  intros w0 app es w. split; [vm_compute; reflexivity|]. split; [vm_compute; reflexivity|].
  destruct (package_memory_safe (MA := fresh_malloc) (AL := zero_allocator) (PB := sample_protobuf)
    (AE := linux_asio_errors) (GS := counting_guids) (λ _, (true, 2%nat)) default_connection_settings "ES-1" es w)
    as (s & Hops & Hb & _ & _ & _ & He).
  - unfold w. apply after_run. vm_compute. reflexivity.
  - unfold es. by repeat constructor.
  - exists s. split; [exact Hops|]. split; [exact Hb|]. apply He; vm_compute; reflexivity.
Defined.
