(* ===== verification/UnitTests.v ===== *)
(** The repository's unit tests (tests/) as executions of the definitions:
    what each test case requires is evaluated here. *)
From S2P Require Import Prelude Errors Basics BufferQueue TcpPackage Framing OperationsMap ErasedOperations.

(** ** tests/buffer/buffer_queue.cpp

    A queue of dummies in chunks of three.  A section is a list of calls and
    of groups of requirements: on size(), and empty() with it, and on the
    members of front(). *)
Record dummy := mk_dummy { data1 : Z; data2 : string }.
#[global] Instance dummy_eq_dec : EqDecision dummy.
Proof. solve_decision. Defined.

Inductive queue_call :=
| push (d : dummy) (* push_back of an l-value or an r-value, emplace_back *)
| pop
| require_size (n : Z)
| require_front (d : dummy).

Definition queue_check (o : outcome bool) (q : BufferQueue.buffer_queue dummy) :
    outcome (bool * BufferQueue.buffer_queue dummy) :=
  b ← o; Ret (b, q).

Definition run_call (c : queue_call) (q : BufferQueue.buffer_queue dummy) : outcome (bool * BufferQueue.buffer_queue dummy) :=
  match c with
  | push d => q ← BufferQueue.emplace_back 3 d q; Ret (true, q)
  | pop => q ← BufferQueue.pop_front 3 q; Ret (true, q)
  | require_size n =>
      Ret ((BufferQueue.size 3 q =? n) && Bool.eqb (BufferQueue.empty q) (n =? 0), q)
  | require_front d => queue_check (d' ← BufferQueue.front q; Ret (bool_decide (d' = d))) q
  end.

(** Whether all the requirements hold. *)
Fixpoint run_section (cs : list queue_call) (q : BufferQueue.buffer_queue dummy) : outcome bool :=
  match cs with
  | [] => Ret true
  | c :: cs => '(b, q) ← run_call c q; if (b : bool) then run_section cs q else Ret false
  end.

Definition dummies : list dummy :=
  [mk_dummy 1 "a"; mk_dummy 2 "b"; mk_dummy 3 "c"; mk_dummy 4 "d"; mk_dummy 5 "e"; mk_dummy 6 "f"; mk_dummy 7 "g"].

(** Empties a queue of which [ds] are left, requiring size and front each time. *)
Fixpoint tear_down (ds : list dummy) : list queue_call :=
  match ds with
  | [] => [require_size 0]
  | d :: ds => [require_size (Z.of_nat (length (d :: ds))); require_front d; pop] ++ tear_down ds
  end.

(** "linear fashion (build up tear down)" *)
Definition linear_section : list queue_call :=
  [require_size 0] ++ (push <$> drop 2 dummies) ++ tear_down (drop 2 dummies).

(** "unordered fashion (build, build, tear, build build build, tear)", with
    l-values, r-values and emplace_back. *)
Definition unordered_section : list queue_call :=
  [require_size 0] ++ (push <$> take 3 dummies) ++
  [require_size 3; require_front (mk_dummy 1 "a"); pop; require_size 2; require_front (mk_dummy 2 "b")] ++
  (push <$> drop 3 dummies) ++ tear_down (drop 1 dummies).

(** "fill up, empty, fill up" *)
Definition refill_section : list queue_call :=
  [require_size 0] ++ (push <$> take 1 dummies) ++ tear_down (take 1 dummies) ++
  [push (mk_dummy 2 "b"); require_size 1; require_front (mk_dummy 2 "b")].

Example buffer_queue_tests :
  (λ s, run_section s BufferQueue.new) <$> [linear_section; unordered_section; refill_section] =
  [Ret true; Ret true; Ret true].
Proof. vm_compute. reflexivity. Qed.

(** ** tests/tcp/operations_map.cpp

    Two tokens are registered and called; a call runs the token registered
    under its key, so each variable a token changes is changed once.  Tokens
    are numbered. *)
Definition two_tokens (key1 key2 : guid_type) : outcome (nat * nat) :=
  let OS : OpSize nat := λ _, 16%nat in
  let MA := fresh_malloc in
  s ← register_token false key1 1%nat new_erased_map;
  s ← register_token false key2 2%nat s;
  t1 ← call_token key1 s;
  t2 ← call_token key2 s;
  Ret (t1, t2).

Example operations_map_test : two_tokens (replicate 16 x01) (replicate 16 x02) = Ret (1%nat, 2%nat).
Proof. vm_compute. reflexivity. Qed.

(** ** tests/tcp/read.cpp

    A read of a frame whose length prefix is given.  What follows the prefix
    is not looked at; the stream does not end. *)
Definition read_test (eof : error_code) (prefix : Z) : outcome (option (error_code * Z)) :=
  r ← read_frame (B := vector_buffer) eof
        (le_encode 4 prefix ++ replicate 200 x00) (mk_vector_buffer [] 0);
  Ret r.1.1.

Example read_tests eof :
  read_test eof 200 = Ret (Some (success, 204)) ∧
  read_test eof 17 = Ret (Some (make_error_code bad_length_prefix, 4)) ∧
  read_test eof (kMaxPackageSize + 1) = Ret (Some (make_error_code bad_length_prefix, 4)).
Proof. vm_compute. repeat split. Qed.

(** ** tests/tcp/tcp_package.cpp *)
Definition same_bytes (p : tcp_package) (v : tcp_package_view) : bool := bool_decide (package_ p = v_package v).

(** What both sections require of a package and its view. *)
Definition package_requirements (p : tcp_package) (v : tcp_package_view) (cmd : tcp_command) (guid message : bytes)
    (size : Z) : outcome bool :=
  valid ← package_is_valid p;
  header_valid ← is_header_valid p;
  view_command ← command v;
  corr_id ← correlation_id v;
  n ← message_size v;
  off ← message_offset v;
  Ret (valid && header_valid && (package_size p =? size) && is_valid v && bool_decide (view_command = cmd) &&
       bool_decide (corr_id = guid) && (n =? Z.of_nat (length message)) && (view_size v =? size) &&
       (n =? view_size v - Z.of_nat off) && same_bytes p v).

Definition unauthenticated_section (guid message : bytes) : outcome bool :=
  let AL := zero_allocator in
  p ← tcp_package_plain Command.identify_client flags_none guid message;
  v ← to_view p;
  required ← package_requirements p v Command.identify_client guid message (18 + Z.of_nat (length message) + 4);
  auth ← is_authenticated v;
  fl ← flags v;
  Ret (required && negb auth && bool_decide (fl = flags_none)).

Definition authenticated_section (guid message : bytes) (user pass : string) : outcome bool :=
  let AL := zero_allocator in
  p ← tcp_package_auth Command.authenticate flags_authenticated guid user pass message;
  v ← to_view p;
  required ← package_requirements p v Command.authenticate guid message
    (4 + 18 + 1 + Z.of_nat (string_size user) + 1 + Z.of_nat (string_size pass) + Z.of_nat (length message));
  auth ← is_authenticated v;
  fl ← flags v;
  user' ← login v;
  pass' ← view_password v;
  Ret (required && auth && bool_decide (fl = flags_authenticated) &&
       bool_decide (user' = string_bytes user) && bool_decide (pass' = string_bytes pass)).

Example tcp_package_tests :
  unauthenticated_section (replicate 16 x07) (string_bytes "a message of ES-1") = Ret true ∧
  authenticated_section (replicate 16 x07) [] "admin" "changeit" = Ret true.
Proof. vm_compute. by split. Qed.
