(* ===== verification/Programs.v ===== *)
(** User programs over the client: a main function that calls the client and
    polls the io_context until its handlers have been called, or waits for them
    next to a thread that runs the io_context; the handlers it passes; and the
    executions of both together with the client. *)
From S2P Require Import Prelude Errors Basics TcpPackage Messages Events Settings World Connection.
From S2P Require Import Requests Client.
From Stdlib Require Import Ascii.

(** ** std::stoi and std::stoll, base 10

    Leading white space and a sign, then the longest sequence of digits. *)
Definition is_space (c : ascii) : bool :=
  let n := nat_of_ascii c in Nat.eqb n 32 || (Nat.leb 9 n && Nat.leb n 13).

Fixpoint skip_spaces (s : string) : string :=
  match s with
  | String c s' => if is_space c then skip_spaces s' else s
  | EmptyString => s
  end.

Definition digit_value (c : ascii) : option Z :=
  let n := nat_of_ascii c in
  if Nat.leb 48 n && Nat.leb n 57 then Some (Z.of_nat (n - 48)) else None.

(** [acc] is the value of the digits read, [None] when there is none yet. *)
Fixpoint read_digits (acc : option Z) (s : string) : option Z :=
  match s with
  | String c s =>
      match digit_value c with
      | Some d => read_digits (Some (default 0 acc * 10 + d)) s
      | None => acc
      end
  | EmptyString => acc
  end.

Definition read_number (s : string) : option Z :=
  match skip_spaces s with
  | String "-" s => Z.opp <$> read_digits None s
  | String "+" s => read_digits None s
  | s => read_digits None s
  end.

Definition number_in (in_range : Z → bool) (s : string) : outcome Z :=
  match read_number s with
  | None => Throw std_invalid_argument
  | Some n => if in_range n then Ret n else Throw std_out_of_range
  end.
Definition stoi : string → outcome Z := number_in (λ n, (- 2 ^ 31 <=? n) && (n <? 2 ^ 31)).
Definition stoll : string → outcome Z := number_in (λ n, (- 2 ^ 63 <=? n) && (n <? 2 ^ 63)).

(** ** Local variables of the main functions

    Each program uses those it declares. *)
Record locals := mk_locals {
  is_connected : bool;
  notification : bool;
  transaction_ : option transaction;
  err : error_code;
  test : bool
}.

Definition initial_locals : locals := mk_locals false false None success true.
Definition set_connected (b : bool) (l : locals) : locals :=
  mk_locals b (notification l) (transaction_ l) (err l) (test l).
Definition set_notification (b : bool) (l : locals) : locals :=
  mk_locals (is_connected l) b (transaction_ l) (err l) (test l).
Definition set_transaction (t : option transaction) (l : locals) : locals :=
  mk_locals (is_connected l) (notification l) t (err l) (test l).
Definition set_err (ec : error_code) (l : locals) : locals :=
  mk_locals (is_connected l) (notification l) (transaction_ l) ec (test l).
Definition set_test (b : bool) (l : locals) : locals :=
  mk_locals (is_connected l) (notification l) (transaction_ l) (err l) b.

(** Code of the user between two waits: it changes its variables and calls
    the client. *)
Definition user_code : Type := locals → outcome (locals * list api_call).

(** ** Main functions *)
Inductive main : Type :=
| m_return                                       (* return 0; *)
| m_run                                          (* ioc.run(), or joining the thread that runs it; return 0; *)
| m_do (code : user_code) (k : main)
| m_pump (k : main)                              (* std::thread message_pump{[&ioc]() { ioc.run(); }}; *)
| m_wait (k : main)                              (* while (!notification) ioc.poll(), or waiting for it *)
| m_if (cond : locals → bool) (k k' : main)
| m_terminate.                                   (* std::terminate(): a joinable thread is destroyed *)

(** A program: the settings and the discovery service of its connection, its
    main function, and what its handlers do when they are called. *)
Record program := mk_program {
  program_settings : connection_settings;
  program_endpoint : endpoint + cluster_settings;
  program_main : main;
  program_handler : nat → callback → user_code
}.

Section execution.
Context {AL : Allocator} {PB : Protobuf} {AE : AsioErrors} {GS : GuidSource}.

(** ** Executions

    A configuration is the rest of the main function, whether a thread runs
    the io_context next to it, its variables, the client, and how many calls
    of handlers the program has seen.  A handler runs when the client calls
    it; what it asks of the client is done at the end of the client's step.

    With a thread, the client's steps come between any two statements of main;
    a statement and a step are not interleaved with each other. *)
Record config := mk_config {
  rest : main;
  pumping : bool;
  vars : locals;
  client : world;
  seen : nat
}.

(** The handlers, on the calls they have not seen. *)
Fixpoint deliver (handler : nat → callback → user_code) (cs : list (nat * callback)) (l : locals) :
    outcome (locals * list api_call) :=
  match cs with
  | [] => Ret (l, [])
  | (cb, c) :: cs =>
      '(l, calls) ← handler cb c l;
      '(l, calls') ← deliver handler cs l;
      Ret (l, calls ++ calls')
  end.

(** The io_context may run a job: main is inside of it, and there it stays
    after the notification until poll() returns, or the thread is. *)
Definition io_may_run (c : config) : bool :=
  match rest c with
  | m_run | m_wait _ => true
  | m_return | m_terminate => false
  | m_do _ _ | m_pump _ | m_if _ _ _ => pumping c
  end.

Definition is_api (e : event) : bool := match e with ev_api _ => true | _ => false end.

Inductive main_step (p : program) : config → list event → config → Prop :=
| step_do code k b l w n l' calls w' :
    code l = Ret (l', calls) → run step w (ev_api <$> calls) w' →
    main_step p (mk_config (m_do code k) b l w n) (ev_api <$> calls) (mk_config k b l' w' n)
| step_pump k b l w n :
    main_step p (mk_config (m_pump k) b l w n) [] (mk_config k true l w n)
| step_notified k b l w n :
    notification l = true → main_step p (mk_config (m_wait k) b l w n) [] (mk_config k b l w n)
| step_if cond k k' b l w n :
    main_step p (mk_config (m_if cond k k') b l w n) [] (mk_config (if cond l then k else k') b l w n)
| step_io c e w1 l' calls w2 :
    io_may_run c = true → is_api e = false → step (client c) e w1 →
    deliver (program_handler p) (drop (seen c) (World.calls w1)) (vars c) = Ret (l', calls) →
    run step w1 (ev_api <$> calls) w2 →
    main_step p c (e :: (ev_api <$> calls))
      (mk_config (rest c) (pumping c) l' w2 (length (World.calls w1))).

Inductive main_run (p : program) : config → list event → config → Prop :=
| main_nil c : main_run p c [] c
| main_cons c tr c1 tr' c2 : main_step p c tr c1 → main_run p c1 tr' c2 → main_run p c (tr ++ tr') c2.

Definition start_config (p : program) (name : string) : config :=
  mk_config (program_main p) false initial_locals (new_connection (program_settings p) name) 0.

(** Calls of handlers are recorded for good. *)
Lemma effect_calls q w w' : effect q w = Ret w' → World.calls w `prefix_of` World.calls w'.
Proof.
  assert (∀ t u, World.calls (abort_wait t u) = World.calls u) as Habort.
  { intros t u. unfold abort_wait. by destruct (timers u !! t) as [[? [?|]]|]. }
  unfold effect. intros He. inv_ret. destruct x.
  refine (run_prog_preserves (λ w w', World.calls w `prefix_of` World.calls w') _ _ _ _ _ _ _ _ H);
    [done|intros; by etrans|].
  intros Y d u1 y u2 Hd. destruct d; cbn [run_cmd] in Hd; inv_ret; rewrite ?Habort; simpl; try done.
  - by apply prefix_app_r.
  - by destruct o.
Qed.

Lemma run_send_calls p w w' : run_send p w = Ret w' → World.calls w' = World.calls w.
Proof.
  unfold run_send, do_async_send. destruct (alive w); [|done].
  destruct (message_queue_ w) as [|front q] eqn:E; cbn; rewrite ?E; by intros [= <-].
Qed.

Lemma write_completed_calls ec w w' : write_completed ec w = Ret w' → World.calls w' = World.calls w.
Proof.
  unfold write_completed, do_async_send. destruct (alive w), (failed ec); try done; cbn; [by intros [= <-]|].
  destruct (message_queue_ w) as [|? [|? ?]]; cbn; try done; by intros [= <-].
Qed.

Lemma step_calls w e w' : step w e w' → World.calls w `prefix_of` World.calls w'.
Proof.
  unfold step. intros He. destruct e; cbn [exec] in He; unfold complete in He;
    try (destruct (take_pending _ _) as [[? ?]|]; simpl in He; [|done]); repeat case_match; simplify_eq;
    try done; try (injection He as He); try (by apply effect_calls in He).
  - destruct j; cbn [run_job] in He; try (by apply effect_calls in He). by rewrite (run_send_calls _ _ _ He).
  - by rewrite (write_completed_calls _ _ _ He).
Qed.

Lemma run_calls w tr w' : run step w tr w' → World.calls w `prefix_of` World.calls w'.
Proof. induction 1 as [|w e w1 tr w2 Hs _ IH]; [done|]. etrans; [by eapply step_calls|done]. Qed.

(** The client inside a program goes through an execution of the client. *)
Lemma main_step_client p c tr c' : main_step p c tr c' → run step (client c) tr (client c').
Proof. intros []; simpl; try done; try constructor. by econstructor. Qed.

Lemma main_run_client p c tr c' : main_run p c tr c' → run step (client c) tr (client c').
Proof.
  induction 1 as [c|c tr c1 tr' c2 Hs _ IH]; [constructor|]. eapply run_trans; [|exact IH].
  by apply main_step_client with p.
Qed.

(** ** Running a program

    [advance] runs the main function until it waits; [drive] gives the client
    the events of a list, one after the other. *)
Fixpoint advance (m : main) (b : bool) (l : locals) (w : world) : option (main * bool * locals * world) :=
  match m with
  | m_do code k =>
      match code l with
      | Ret (l, calls) =>
          match exec_all (ev_api <$> calls) w with
          | Some (Ret w) => advance k b l w
          | _ => None
          end
      | _ => None
      end
  | m_pump k => advance k true l w
  | m_wait k => if notification l then advance k b l w else Some (m, b, l, w)
  | m_if cond k k' => if cond l then advance k b l w else advance k' b l w
  | m_return | m_run | m_terminate => Some (m, b, l, w)
  end.

Definition io (p : program) (e : event) (c : config) : option config :=
  if io_may_run c && negb (is_api e) then
    match exec e (client c) with
    | Some (Ret w1) =>
        match deliver (program_handler p) (drop (seen c) (World.calls w1)) (vars c) with
        | Ret (l, calls) =>
            match exec_all (ev_api <$> calls) w1 with
            | Some (Ret w2) => Some (mk_config (rest c) (pumping c) l w2 (length (World.calls w1)))
            | _ => None
            end
        | _ => None
        end
    | _ => None
    end
  else None.

Definition advanced (c : config) : option config :=
  '(m, b, l, w) ← advance (rest c) (pumping c) (vars c) (client c); Some (mk_config m b l w (seen c)).

Fixpoint drive (p : program) (es : list event) (c : config) : option config :=
  c ← advanced c;
  match es with
  | [] => Some c
  | e :: es => c ← io p e c; drive p es c
  end.

Lemma main_run_trans p c1 tr c2 tr' c3 :
  main_run p c1 tr c2 → main_run p c2 tr' c3 → main_run p c1 (tr ++ tr') c3.
Proof.
  induction 1 as [|c tr c1 tr1 c2 Hs _ IH]; intros H2; [done|]. rewrite <- app_assoc. econstructor; eauto.
Qed.

Lemma advance_sound p n m : ∀ b l w m' b' l' w', advance m b l w = Some (m', b', l', w') →
  ∃ tr, main_run p (mk_config m b l w n) tr (mk_config m' b' l' w' n).
Proof.
  assert (∀ c tr c1 tr' c2, main_step p c tr c1 → main_run p c1 tr' c2 → ∃ tr, main_run p c tr c2) as Hcons.
  { intros. eexists. by econstructor. }
  induction m as [| |code k IH|k IH|k IH|cond k IH k' IH'|]; intros b l w m' b' l' w' Ha; cbn [advance] in Ha;
    try (simplify_eq; by eexists; constructor).
  - destruct (code l) as [[l1 calls]| |] eqn:Hc; [|done..].
    destruct (exec_all _ w) as [[w1| |]|] eqn:Hw; [|done..]. destruct (IH _ _ _ _ _ _ _ Ha) as [tr Hr].
    eapply Hcons; [|exact Hr]. econstructor; [exact Hc|by apply exec_all_run].
  - destruct (IH _ _ _ _ _ _ _ Ha) as [tr Hr]. eapply Hcons; [|exact Hr]. constructor.
  - destruct (notification l) eqn:Hn; [|simplify_eq; by eexists; constructor].
    destruct (IH _ _ _ _ _ _ _ Ha) as [tr Hr]. eapply Hcons; [|exact Hr]. by constructor.
  - destruct (cond l) eqn:Hcond;
      [destruct (IH _ _ _ _ _ _ _ Ha) as [tr Hr]|destruct (IH' _ _ _ _ _ _ _ Ha) as [tr Hr]];
      (eapply Hcons; [constructor|rewrite Hcond; exact Hr]).
Qed.

Lemma io_sound p e c c' : io p e c = Some c' → ∃ tr, main_step p c tr c'.
Proof.
  unfold io. intros Hio. destruct (io_may_run c) eqn:Hw; simpl in Hio; [|done].
  destruct (is_api e) eqn:Ha; simpl in Hio; [done|].
  destruct (exec e (client c)) as [[w1| |]|] eqn:He; [|done..].
  destruct (deliver _ _ _) as [[l calls]| |] eqn:Hd; [|done..].
  destruct (exec_all _ w1) as [[w2| |]|] eqn:Hx; [|done..]. simplify_eq.
  eexists. by eapply step_io; [exact Hw|exact Ha|exact He|exact Hd|apply exec_all_run].
Qed.

Lemma advanced_sound p c c' : advanced c = Some c' → ∃ tr, main_run p c tr c'.
Proof.
  unfold advanced. destruct c as [m b l w n]; cbn [rest pumping vars client seen].
  destruct (advance m b l w) as [[[[m' b'] l'] w']|] eqn:E; intros H; simplify_eq/=. by eapply advance_sound.
Qed.

Lemma drive_sound p es : ∀ c c', drive p es c = Some c' → ∃ tr, main_run p c tr c'.
Proof.
  induction es as [|e es IH]; intros c c' Hd; cbn [drive] in Hd;
    destruct (advanced c) as [c1|] eqn:Ha; simpl in Hd; [|done| |done];
    destruct (advanced_sound p _ _ Ha) as [tr1 H1].
  - simplify_eq. eauto.
  - destruct (io p e c1) as [c2|] eqn:Hio; simpl in Hd; [|done].
    destruct (io_sound _ _ _ _ Hio) as [tr2 H2]. destruct (IH _ _ Hd) as [tr3 H3].
    eexists. eapply main_run_trans; [exact H1|]. econstructor; [exact H2|exact H3].
Qed.
End execution.
