(* ===== verification/Examples.v ===== *)
(** The programs of src/examples, on the client: each main function with the
    handlers it passes.  Logging is left out, but what is evaluated for a log
    message is not: an argument may throw. *)
From S2P Require Import Prelude Errors Basics TcpPackage Messages Events Settings Cluster World Requests.
From S2P Require Import Subscription Client Lifecycle WellFormed Answers Programs.

(** ** What the programs share *)

(** A text in double quotes. *)
Definition quoted (s : string) : string :=
  let q := String (Ascii.ascii_of_nat 34) EmptyString in (q ++ s ++ q)%string.

Definition test_pair : string := (quoted "test" ++ ": " ++ quoted "data")%string.
Definition test_data : string := ("{ " ++ test_pair ++ "}")%string.

(** The handlers a program passes are numbered in the order in which main
    passes them; the first is that of async_connect. *)
Abbreviation connect_cb := 0%nat.

Definition quietly (o : outcome unit) (l : locals) : outcome (locals * list api_call) := _ ← o; Ret (l, []).

(** [optional.value()] for its exception. *)
Definition has_result {A} (r : option A) : outcome unit := _ ← opt_value r; Ret tt.

Definition connect_handler (c : callback) : user_code := λ l,
  match c with
  | cb_connection (ec, result) =>
      let l := set_notification true l in
      if negb (failed ec) || is_error ec authentication_failed then
        _ ← has_result result;
        Ret (set_connected true l, [])
      else Ret (l, [])
  | _ => Ret (l, [])
  end.

(** Call async_connect and wait for its handler, in a polling loop or next to
    the thread that runs the io_context; without a connection main returns,
    with a thread without joining it. *)
Definition gives_up (pump : bool) : main := if pump then m_terminate else m_return.
Definition awaiting (pump : bool) (k : main) : main := m_wait (m_if is_connected k (gives_up pump)).
Definition connecting (pump : bool) (k : main) : main :=
  m_do (λ l, Ret (l, [api_connect connect_cb]))
    (if pump then m_pump (awaiting pump k) else awaiting pump k).

Definition polling (k : main) : main := connecting false k.
Definition with_message_pump (k : main) : main := connecting true k.

Definition calling (calls : list api_call) (k : main) : main := m_do (λ l, Ret (l, calls)) k.

Definition example_settings (username password : string) : connection_settings :=
  build_connection_settings [with_default_user_credentials (mk_user_credentials username password);
                             require_master false].

(** Handlers that only print. *)
Definition write_printed (c : callback) : user_code :=
  quietly match c with
          | cb_write (ec, result) => if negb (failed ec) then has_result result else Ret tt
          | _ => Ret tt
          end.

Section examples.
(** The addresses boost accepts, and the guids that the user's code draws. *)
Context (valid : string → bool) (user_guid : nat → guid_type).

(** A program that connects to one node; [None] when main returns at once. *)
Definition single_node (ep : string) (port : Z) (username password : string) (k : main)
    (handler : nat → callback → user_code) : outcome (option program) :=
  ip ← make_address_v4 valid ep;
  Ret (Some (mk_program (example_settings username password) (inl (make_endpoint ip port)) k
    (λ cb, match cb with 0%nat => connect_handler | _ => handler cb end))).

Definition test_event (n : nat) (data : string) : event_data :=
  mk_event_data (user_guid n) "Test.Type" true data (Some "test metadata").

(** ** append_to_stream.cpp *)
Definition append_handler (cb : nat) (c : callback) : user_code := write_printed c.

Definition append_to_stream (argv : list string) : outcome (option program) :=
  match argv with
  | [_; ep; port; username; password; lvl] =>
      port ← stoi port;
      single_node ep port username password
        (with_message_pump
          (calling [api_append "test-stream" [test_event 0 test_data] (expected_version_value any) 1%nat] m_run))
        append_handler
  | _ => Ret None
  end.

(** ** append_to_stream_batch.cpp *)
Definition batch_data : string :=
  ("{ " ++ String.concat ", " (replicate 15 test_pair) ++ "}")%string.

Definition append_to_stream_batch (argv : list string) : outcome (option program) :=
  match argv with
  | [_; ep; port; username; password; num_events; lvl] =>
      port ← stoi port;
      num_events ← stoi num_events;
      single_node ep port username password
        (with_message_pump
          (m_do (λ l,
             (* events.reserve(num_events) *)
             if num_events <? 0 then Throw std_length_error
             else
               let events := (λ i, test_event i batch_data) <$> seq 0 (Z.to_nat num_events) in
               Ret (l, [api_append "test-stream" events (expected_version_value any) 1%nat])) m_run))
        append_handler
  | _ => Ret None
  end.

(** ** append_to_stream_cluster.cpp *)

(** [cluster_settings_builder()]: the members without initialisers are zero. *)
Definition zero_cluster_settings : cluster_settings :=
  mk_cluster_settings EmptyString (Some 0) (Some 0) [] (Some 0) (Some prefer_master).

Definition append_to_stream_cluster (argv : list string) : outcome (option program) :=
  match argv with
  | [_; username; password; ep1; port1; ep2; port2; ep3; port3; lvl] =>
      port1 ← stoi port1; port2 ← stoi port2; port3 ← stoi port3;
      ip1 ← make_address_v4 valid ep1; ip2 ← make_address_v4 valid ep2; ip3 ← make_address_v4 valid ep3;
      let settings := build_connection_settings
        [with_default_user_credentials (mk_user_credentials username password); require_master false;
         with_gossip_endpoints [make_endpoint ip1 port1; make_endpoint ip2 port2; make_endpoint ip3 port3]] in
      let discovery :=
        cluster_with_gossip_timeout (nanoseconds_of_seconds 60)
          (cluster_with_max_discover_attempts 10
            (with_gossip_seed_endpoints (inl <$> gossip_seeds_ settings)
              (keep_discovering zero_cluster_settings))) in
      Ret (Some (mk_program settings (inr discovery)
        (with_message_pump
          (calling [api_append "test-stream" [test_event 0 test_data] (expected_version_value any) 1%nat] m_run))
        (λ cb, match cb with 0%nat => connect_handler | _ => append_handler cb end)))
  | _ => Ret None
  end.

(** ** delete_stream.cpp *)
Definition delete_stream_handler (cb : nat) (c : callback) : user_code :=
  quietly match c with
          | cb_delete (ec, result) => if negb (failed ec) then has_result result else Ret tt
          | _ => Ret tt
          end.

Definition delete_stream (argv : list string) : outcome (option program) :=
  match argv with
  | [_; ep; port; username; password; stream; expected_version; lvl] =>
      port ← stoi port;
      expected_version ← stoll expected_version;
      single_node ep port username password
        (polling (calling [api_delete stream expected_version false 1%nat] m_run)) delete_stream_handler
  | _ => Ret None
  end.

(** ** read_stream_event.cpp *)
Definition read_stream_event_handler (cb : nat) (c : callback) : user_code :=
  quietly match c with
          | cb_event_read (ec, result) =>
              if negb (failed ec) then
                read_result ← opt_value result;
                match err_event read_result with
                | None => Ret tt
                | Some event => has_result (event_ event)
                end
              else Ret tt
          | _ => Ret tt
          end.

Definition read_stream_event (argv : list string) : outcome (option program) :=
  match argv with
  | [_; ep; port; username; password; stream; event_no; lvl] =>
      port ← stoi port;
      event_no ← stoll event_no;
      single_node ep port username password
        (with_message_pump (calling [api_read_event stream event_no true 1%nat] m_run)) read_stream_event_handler
  | _ => Ret None
  end.

(** ** read_stream_events.cpp and read_all_events.cpp *)

(** The loop over the events: event().value() of each one. *)
Fixpoint print_events (events : list resolved_event) : outcome unit :=
  match events with
  | [] => Ret tt
  | event :: events => _ ← has_result (event_ event); print_events events
  end.

Definition read_stream_events_handler (cb : nat) (c : callback) : user_code :=
  quietly match c with
          | cb_stream_slice (ec, result) =>
              if negb (failed ec) then value ← opt_value result; print_events (ses_events value) else Ret tt
          | _ => Ret tt
          end.

Definition read_all_events_handler (cb : nat) (c : callback) : user_code :=
  quietly match c with
          | cb_all_slice (ec, result) =>
              if negb (failed ec) then value ← opt_value result; print_events (aes_events value) else Ret tt
          | _ => Ret tt
          end.

Definition read_direction_of (s : string) : option read_direction :=
  if String.eqb s "forward" then Some forward else if String.eqb s "backward" then Some backward else None.

Definition read_stream_events (argv : list string) : outcome (option program) :=
  match argv with
  | [_; ep; port; username; password; stream; from_event_number; max_count; direction_str; lvl] =>
      port ← stoi port;
      from_event_number ← stoll from_event_number;
      max_count ← stoi max_count;
      match read_direction_of direction_str with
      | None => Ret None
      | Some dir =>
          single_node ep port username password
            (polling (calling [api_read_stream stream dir from_event_number max_count true 1%nat] m_run))
            read_stream_events_handler
      end
  | _ => Ret None
  end.

Definition read_all_events (argv : list string) : outcome (option program) :=
  match argv with
  | [_; ep; port; username; password; commit_position; prepare_position; max_count; direction_str; lvl] =>
      port ← stoi port;
      commit_position ← stoll commit_position;
      prepare_position ← stoll prepare_position;
      max_count ← stoi max_count;
      match read_direction_of direction_str with
      | None => Ret None
      | Some dir =>
          single_node ep port username password
            (polling (calling [api_read_all dir (mk_position commit_position prepare_position) max_count true 1%nat] m_run))
            read_all_events_handler
      end
  | _ => Ret None
  end.

(** ** stream_metadata.cpp: on success the first handler reads back what was
    written, with the second handler *)
Definition stream_metadata_handler (cb : nat) (c : callback) : user_code := λ l,
  match cb, c with
  | 1%nat, cb_write (ec, result) =>
      if negb (failed ec) then
        _ ← has_result result;
        Ret (l, [api_get_metadata "test-stream" 2%nat])
      else Ret (l, [])
  | 2%nat, cb_metadata (ec, result) =>
      if negb (failed ec) then _ ← has_result result; Ret (l, []) else Ret (l, [])
  | _, _ => Ret (l, [])
  end.

Definition metadata : string := ("{ " ++ quoted "key" ++ ": 1029014814 }")%string.

Definition stream_metadata (argv : list string) : outcome (option program) :=
  match argv with
  | [_; ep; port; username; password; lvl] =>
      port ← stoi port;
      single_node ep port username password
        (with_message_pump
          (calling [api_set_metadata "test-stream" (expected_version_value any) metadata 1%nat] m_run))
        stream_metadata_handler
  | _ => Ret None
  end.

(** ** transaction.cpp *)
Definition transaction_handler (cb : nat) (c : callback) : user_code := λ l,
  match cb, c with
  | 1%nat, cb_transaction (ec, result) =>
      let l := set_notification true l in
      if negb (failed ec) then Ret (set_transaction (new_transaction <$> result) l, []) else Ret (l, [])
  | 2%nat, cb_error ec => Ret (set_err ec (set_notification true l), [])
  | 3%nat, cb_write (ec, result) =>
      if negb (failed ec) then _ ← has_result result; Ret (l, []) else Ret (l, [])
  | _, _ => Ret (l, [])
  end.

(** A call on the transaction object. *)
Definition on_transaction (c : transaction_call) (l : locals) : outcome (locals * list api_call) :=
  t ← opt_value (transaction_ l);
  Ret (l, [api_transaction t c]).

Definition transaction_main (stream : string) (expected_version : Z) : main :=
  polling
    (m_do (λ l, Ret (set_notification false l, [api_start_transaction stream expected_version 1%nat]))
    (m_wait
    (m_if (λ l, bool_decide (is_Some (transaction_ l)))
      (m_do (λ l, on_transaction (tx_write [test_event 0 test_data] 2%nat) (set_err success (set_notification false l)))
      (m_wait
      (m_if (λ l, negb (failed (err l)))
        (m_do (on_transaction (tx_commit 3%nat)) m_run)
        m_return)))
      m_return))).

Definition transaction (argv : list string) : outcome (option program) :=
  match argv with
  | [_; ep; port; username; password; expected_version; lvl] =>
      port ← stoi port;
      expected_version ← stoll expected_version;
      single_node ep port username password (transaction_main "test-stream" expected_version) transaction_handler
  | _ => Ret None
  end.

(** ** persistent_subscription_operations.cpp *)

(** [persistent_subscription_settings_builder().build()]: the member without
    an initialiser is zero. *)
Definition zero_persistent_settings : persistent_subscription_settings :=
  persistent_builder_step default_persistent_subscription_settings (pb_start_from 0).

Definition silent_handler (cb : nat) (c : callback) : user_code := λ l, Ret (l, []).

Definition persistent_subscription_operations (argv : list string) : outcome (option program) :=
  match argv with
  | [_; ep; port; username; password; action; stream; group; lvl] =>
      port ← stoi port;
      single_node ep port username password
        (polling
          (calling (if String.eqb action "create"
                    then [api_create_persistent stream group zero_persistent_settings 1%nat] else [])
          (calling (if String.eqb action "update"
                    then [api_update_persistent stream group zero_persistent_settings 2%nat] else [])
          (calling (if String.eqb action "delete" then [api_delete_persistent stream group 3%nat] else [])
          m_run))))
        silent_handler
  | _ => Ret None
  end.

(** ** The subscriptions

    The subscription object is at the address 0 and has a fresh guid for a
    key; its two handlers are the first and the second. *)
Definition subscribing (key : guid_type) (args : subscription_args) (k : main) : main :=
  calling [api_new_subscription 0%nat key args; api_start_subscription 0%nat 1%nat 2%nat] k.

(** *** persistent_subscription.cpp *)
Definition persistent_subscription_handler (cb : nat) (c : callback) : user_code :=
  quietly match c with
          | cb_persistent_event event _ =>
              _ ← original_stream_id event; _ ← original_event_number event; Ret tt
          | _ => Ret tt
          end.

Definition persistent_subscription (argv : list string) : outcome (option program) :=
  match argv with
  | [_; ep; port; username; password; stream; group; allowed_in_flight_messages; lvl] =>
      port ← stoi port;
      allowed_in_flight_messages ← stoi allowed_in_flight_messages;
      single_node ep port username password
        (polling (subscribing (user_guid 0) (args_persistent stream group allowed_in_flight_messages true) m_run))
        persistent_subscription_handler
  | _ => Ret None
  end.

(** *** volatile_subscription.cpp *)
Definition volatile_subscription_handler (cb : nat) (c : callback) : user_code :=
  quietly match c with
          | cb_event event => has_result (event_ event)
          | _ => Ret tt
          end.

Definition volatile_subscription (argv : list string) : outcome (option program) :=
  match argv with
  | [_; ep; port; username; password; stream; lvl] =>
      port ← stoi port;
      single_node ep port username password
        (polling (subscribing (user_guid 0)
          (if String.eqb stream "all" then args_volatile_all true else args_volatile stream true) m_run))
        volatile_subscription_handler
  | _ => Ret None
  end.

(** *** catchup_subscription.cpp: event().value() only after has_value() *)
Definition catchup_subscription_handler (cb : nat) (c : callback) : user_code :=
  quietly match c with
          | cb_event event => _ ← original_event_number event; _ ← original_stream_id event; Ret tt
          | _ => Ret tt
          end.

Definition catchup_subscription (argv : list string) : outcome (option program) :=
  match argv with
  | [_; ep; port; username; password; stream; from_event_number; lvl] =>
      port ← stoi port;
      from_event_number ← stoll from_event_number;
      let settings := with_subscription_name "my-subscription"
        (with_read_batch_size 2 (with_resolve_link_tos true default_catchup_subscription_settings)) in
      single_node ep port username password
        (polling (subscribing (user_guid 0) (args_catchup stream from_event_number settings) m_run))
        catchup_subscription_handler
  | _ => Ret None
  end.

(** *** catchup_all_subscription.cpp: the first event makes it append one *)
Definition catchup_all_subscription_handler (cb : nat) (c : callback) : user_code := λ l,
  match cb, c with
  | 1%nat, cb_event event =>
      _ ← original_event_number event; _ ← original_stream_id event;
      if test l then
        Ret (set_test false l,
          [api_append "test-stream" [test_event 1 test_data] (expected_version_value any) 3%nat])
      else Ret (l, [])
  | _, _ => write_printed c l
  end.

Definition catchup_all_subscription (argv : list string) : outcome (option program) :=
  match argv with
  | [_; ep; port; username; password; from_prepare_position; from_commit_position; read_batch_size; lvl] =>
      port ← stoi port;
      from_prepare_position ← stoll from_prepare_position;
      from_commit_position ← stoll from_commit_position;
      read_batch_size ← stoi read_batch_size;
      let settings := with_subscription_name "my-all-subscription"
        (with_read_batch_size read_batch_size (with_resolve_link_tos true default_catchup_subscription_settings)) in
      single_node ep port username password
        (polling (subscribing (user_guid 0)
          (args_catchup_all (mk_position from_commit_position from_prepare_position) settings) m_run))
        catchup_all_subscription_handler
  | _ => Ret None
  end.

(** All of them, but for the batch, whose number of events matters. *)
Definition other_examples : list (list string → outcome (option program)) :=
  [append_to_stream; append_to_stream_cluster; delete_stream; read_stream_event; read_stream_events;
   read_all_events; stream_metadata; transaction; persistent_subscription_operations;
   persistent_subscription; volatile_subscription; catchup_subscription; catchup_all_subscription].

(** A program started with arguments that it accepts. *)
Definition is_example (p : program) : Prop :=
  ∃ argv, (∃ example, example ∈ other_examples ∧ example argv = Ret (Some p)) ∨
    (append_to_stream_batch argv = Ret (Some p) ∧ ∀ n, argv !! 5%nat ≫= read_number = Some n → 0 ≤ n).
End examples.

(** ** Facts *)
Section facts.
Context (valid : string → bool) (user_guid : nat → guid_type) (user_guid_wf : ∀ n, length (user_guid n) = 16%nat).

(** What the programs take for granted about the events they print: the
    event itself is there, not only the link to it. *)
Definition call_complete (c : callback) : Prop :=
  match c with
  | cb_event e => is_Some (event_ e)
  | cb_persistent_event e _ => is_Some (original_event e)
  | cb_event_read (_, Some r) => match err_event r with Some e => is_Some (event_ e) | None => True end
  | cb_stream_slice (_, Some s) => Forall (λ e, is_Some (event_ e)) (ses_events s)
  | cb_all_slice (_, Some s) => Forall (λ e, is_Some (event_ e)) (aes_events s)
  | _ => True
  end.

Definition code_ok (code : user_code) : Prop :=
  ∀ l l' calls, code l = Ret (l', calls) → Forall event_ok (ev_api <$> calls).

Fixpoint main_ok (m : main) : Prop :=
  match m with
  | m_do code k => code_ok code ∧ main_ok k
  | m_pump k | m_wait k => main_ok k
  | m_if _ k k' => main_ok k ∧ main_ok k'
  | m_return | m_run | m_terminate => True
  end.

(** The handlers never take the transaction away. *)
Definition keeps (l l' : locals) : Prop := is_Some (transaction_ l) → is_Some (transaction_ l').

#[global] Instance keeps_preorder : PreOrder keeps.
Proof. split; [by intros l ?|]. intros l1 l2 l3 H1 H2 H. auto. Qed.

(** The statements of the main function do not throw from [l] on, whatever
    the handlers do before each of them. *)
Fixpoint main_safe (m : main) (l : locals) : Prop :=
  match m with
  | m_do code k => ∀ l1, keeps l l1 → ∃ l' calls, code l1 = Ret (l', calls) ∧ main_safe k l'
  | m_pump k | m_wait k => main_safe k l
  | m_if cond k k' => ∀ l1, keeps l l1 → if cond l1 then main_safe k l1 else main_safe k' l1
  | m_return | m_run | m_terminate => True
  end.

Lemma main_safe_keeps m : ∀ l l', keeps l l' → main_safe m l → main_safe m l'.
Proof.
  induction m; intros l l' Hk Hs; simpl in *; eauto; intros l1 H1; apply Hs; by etrans.
Qed.

(** What is shown of the handlers of each program: which calls of the client
    they make, that they do not throw, and that they keep the transaction. *)
Record handler_fine (h : nat → callback → user_code) : Prop := {
  hf_code cb c : code_ok (h cb c);
  hf_total cb c l : call_ok c → call_complete c → ∃ l' calls, h cb c l = Ret (l', calls);
  hf_keeps cb c l l' calls : call_ok c → h cb c l = Ret (l', calls) → keeps l l'
}.

Lemma silent_code_ok l' : code_ok (λ _, Ret (l', [])).
Proof. by intros ? ? ? [= <- <-]. Qed.

Lemma quietly_code_ok o : code_ok (quietly o).
Proof. unfold quietly. intros l l' calls H. inv_ret. by simplify_eq. Qed.

Lemma quietly_keeps o l l' calls : quietly o l = Ret (l', calls) → keeps l l'.
Proof. unfold quietly. intros H. inv_ret. by simplify_eq. Qed.

Lemma quietly_total o l : o = Ret tt → ∃ l' calls, quietly o l = Ret (l', calls).
Proof. unfold quietly. intros ->. simpl. eauto. Qed.

Lemma has_result_some {A} (r : option A) : is_Some r → has_result r = Ret tt.
Proof. by intros [x ->]. Qed.

Lemma print_events_total es : Forall (λ e, is_Some (event_ e)) es → print_events es = Ret tt.
Proof. induction 1 as [|e es He _ IH]; [done|]. simpl. by rewrite (has_result_some _ He). Qed.

Lemma original_event_some e : is_Some (event_ e) → is_Some (original_event e).
Proof. unfold original_event. by destruct (link_ e). Qed.

(** A handler that only prints. *)
Lemma quiet_handler (f : nat → callback → outcome unit) :
  (∀ cb c, call_ok c → call_complete c → f cb c = Ret tt) → handler_fine (λ cb c, quietly (f cb c)).
Proof.
  intros Hf. split; intros cb c.
  - apply quietly_code_ok.
  - intros l Hc Hcomp. apply quietly_total. auto.
  - intros l l' calls _ H. by eapply quietly_keeps.
Qed.

(** Case analysis on the call a handler gets. *)
Ltac by_call :=
  intros cb c Hok Hcomp; destruct c as [| |[ec r]|[ec r]| |[ec r]|[ec r]|[ec r]| | |e|e n| ]; simpl in *; try done;
  try (destruct (failed ec) eqn:Hf; simpl; [done|]; destruct r as [r|]; [|by destruct Hok as [_ []]]; simpl in *).

Lemma append_handler_fine : handler_fine append_handler.
Proof. apply (quiet_handler (λ _ c, _)). by_call. by apply has_result_some. Qed.
Lemma delete_stream_handler_fine : handler_fine delete_stream_handler.
Proof. apply (quiet_handler (λ _ c, _)). by_call. by apply has_result_some. Qed.

Lemma read_stream_event_handler_fine : handler_fine read_stream_event_handler.
Proof.
  apply (quiet_handler (λ _ c, _)). by_call. destruct (err_event r); [by apply has_result_some|done].
Qed.

Lemma read_stream_events_handler_fine : handler_fine read_stream_events_handler.
Proof. apply (quiet_handler (λ _ c, _)). by_call. by apply print_events_total. Qed.

Lemma read_all_events_handler_fine : handler_fine read_all_events_handler.
Proof. apply (quiet_handler (λ _ c, _)). by_call. by apply print_events_total. Qed.

Lemma original_reads e :
  is_Some (original_event e) → is_Some (event_ e) →
  (_ ← original_event_number e; _ ← original_stream_id e; Ret tt) = Ret tt.
Proof. intros [o Ho] _. unfold original_event_number, original_stream_id. by rewrite Ho. Qed.

Lemma persistent_subscription_handler_fine : handler_fine persistent_subscription_handler.
Proof.
  apply (quiet_handler (λ _ c, _)). by_call. destruct Hcomp as [o Ho].
  unfold original_event_number, original_stream_id. by rewrite Ho.
Qed.

Lemma volatile_subscription_handler_fine : handler_fine volatile_subscription_handler.
Proof. apply (quiet_handler (λ _ c, _)). by_call. by apply has_result_some. Qed.

Lemma catchup_subscription_handler_fine : handler_fine catchup_subscription_handler.
Proof. apply (quiet_handler (λ _ c, _)). by_call. apply original_reads; auto using original_event_some. Qed.

(** The handlers that do more, case by case. *)
Ltac run_handler :=
  repeat match goal with
  | H : context [match ?x with _ => _ end] |- _ =>
      lazymatch x with context [match _ with _ => _ end] => fail | _ => destruct x eqn:? end; simpl in *
  end; try (inv_ret; simplify_eq/=).

Lemma silent_handler_fine : handler_fine silent_handler.
Proof. split; [by intros ? ? ? ? ? [= <- <-]|eauto|by intros ? ? ? ? ? _ [= <- <-]]. Qed.

Lemma write_printed_fine c :
  code_ok (write_printed c) ∧
  (∀ l, call_ok c → ∃ l' calls, write_printed c l = Ret (l', calls)) ∧
  (∀ l l' calls, write_printed c l = Ret (l', calls) → keeps l l').
Proof.
  split_and!; [apply quietly_code_ok| |by intros; eapply quietly_keeps].
  intros l Hok. destruct (hf_total _ append_handler_fine 1%nat (match c with cb_write r => cb_write r | _ => cb_error success end) l)
    as (l' & calls & H); [by destruct c|by destruct c|].
  exists l', calls. rewrite <- H. by destruct c.
Qed.

Lemma stream_metadata_handler_fine : handler_fine stream_metadata_handler.
Proof.
  split; intros cb c.
  - intros l l' calls H. unfold stream_metadata_handler in H. run_handler; repeat constructor.
  - intros l Hok _. unfold stream_metadata_handler. destruct cb as [|[|[|cb]]], c as [| |[ec r]|[]| |[]|[]|[]|[ec r]|[]| | |]; eauto;
      simpl in *; destruct (failed ec); simpl; eauto; destruct r; simpl; eauto; by destruct Hok as [_ []].
  - intros l l' calls _ H. unfold stream_metadata_handler in H. run_handler; done.
Qed.

Lemma transaction_handler_fine : handler_fine transaction_handler.
Proof.
  split; intros cb c.
  - intros l l' calls H. unfold transaction_handler in H. run_handler; done.
  - intros l Hok _. unfold transaction_handler.
    destruct cb as [|[|[|[|cb]]]], c as [| |[ec r]|[]|[ec r]|[]|[]|[]|[]|[]| | |]; eauto; simpl in *;
      destruct (failed ec); simpl; eauto; destruct r; simpl; eauto; by destruct Hok as [_ []].
  - intros l l' calls Hok H. unfold transaction_handler in H. run_handler; try (by intros ?).
    intros _. destruct Hok as [_ [id ->]]; [by apply negb_true_iff|]. by eexists.
Qed.

Lemma catchup_all_subscription_handler_fine : handler_fine (catchup_all_subscription_handler user_guid).
Proof.
  split; intros cb c.
  - intros l l' calls H. unfold catchup_all_subscription_handler in H.
    destruct cb as [|[|cb]]; [by eapply write_printed_fine| |by eapply write_printed_fine].
    destruct c; try (by eapply write_printed_fine). inv_ret. destruct (test l); simplify_eq; repeat constructor.
  - intros l Hok Hcomp. unfold catchup_all_subscription_handler.
    destruct cb as [|[|cb]]; [by apply write_printed_fine| |by apply write_printed_fine].
    destruct c; try (by apply write_printed_fine). simpl in Hcomp. destruct (original_event_some _ Hcomp) as [o Ho].
    unfold original_event_number, original_stream_id. rewrite Ho. simpl. destruct (test l); eauto.
  - intros l l' calls Hok H. unfold catchup_all_subscription_handler in H.
    destruct cb as [|[|cb]]; [by eapply write_printed_fine| |by eapply write_printed_fine].
    destruct c; try (by eapply write_printed_fine). inv_ret. destruct (test l); simplify_eq; by intros ?.
Qed.

(** ** The main functions *)
Definition main_fine (k : main) : Prop := main_ok k ∧ ∀ l, main_safe k l.

Lemma calling_fine calls k :
  Forall event_ok (ev_api <$> calls) → main_fine k → main_fine (calling calls k).
Proof.
  intros Hc [Hok Hs]. split; [split; [|done]|].
  - by intros l l' calls' [= <- <-].
  - intros l l1 _. exists l1, calls. split; [done|apply Hs].
Qed.

Lemma calling_if_fine (b : bool) call k :
  event_ok (ev_api call) → main_fine k → main_fine (calling (if b then [call] else []) k).
Proof. intros Hc. apply calling_fine. destruct b; [by repeat constructor|done]. Qed.

Lemma run_fine : main_fine m_run.
Proof. by split. Qed.

Lemma subscribing_fine args k : main_fine k → main_fine (subscribing (user_guid 0) args k).
Proof. intros Hk. apply calling_fine; [|done]. constructor; [exact (user_guid_wf 0)|by repeat constructor]. Qed.

Lemma on_transaction_ok c : code_ok (on_transaction c).
Proof. unfold on_transaction. intros l l' calls H. inv_ret. simplify_eq. by repeat constructor. Qed.

(** The example with several phases: what follows connecting. *)
Definition transaction_body (stream : string) (expected_version : Z) : main :=
  match transaction_main user_guid stream expected_version with
  | m_do _ (m_wait (m_if _ k _)) => k
  | m => m
  end.

Lemma transaction_main_shape stream v :
  transaction_main user_guid stream v = polling (transaction_body stream v).
Proof. done. Qed.

Lemma transaction_body_fine stream v : main_fine (transaction_body stream v).
Proof.
  split.
  - simpl. split_and!; try done; [by intros l l' calls [= <- <-]; repeat constructor| |apply on_transaction_ok].
    intros l l' calls H. by apply on_transaction_ok in H.
  - intros l l0 _. simpl. eexists _, _. split; [reflexivity|]. intros l1 _. case_bool_decide as Ht; [|done].
    intros l2 [t Ht2]; [exact Ht|]. unfold on_transaction at 1. simpl. rewrite Ht2. simpl.
    eexists _, _. split; [reflexivity|]. intros l3 Hk3. destruct (failed (err l3)); [done|]. simpl.
    intros l4 [t4 Ht4]; [apply Hk3; by exists t|]. unfold on_transaction. rewrite Ht4. simpl. eauto.
Qed.

(** Every example connects first, and is well behaved. *)
Record example_shape (p : program) (pump : bool) (k : main) (h : nat → callback → user_code) : Prop := {
  es_main : program_main p = connecting pump k;
  es_handler cb c : program_handler p cb c = match cb with 0%nat => connect_handler c | _ => h cb c end;
  es_main_fine : main_fine k;
  es_handler_fine : handler_fine h
}.

Lemma single_node_shape ep port u pw pump k h p :
  single_node valid ep port u pw (connecting pump k) h = Ret (Some p) →
  main_fine k → handler_fine h → ∃ pump k h, example_shape p pump k h.
Proof.
  unfold single_node. intros H Hk Hh. inv_ret. simplify_eq. exists pump, k, h. split; try done. by intros [].
Qed.

(** Read the arguments. *)
Ltac by_arguments H :=
  repeat match type of H with
  | match ?x with _ => _ end = _ => destruct x eqn:?; try discriminate H
  | (_ ≫= _) = _ => apply outcome_bind_Ret_inv in H as (? & ? & H)
  end.
Ltac single H :=
  by_arguments H; unfold polling, with_message_pump in H; eapply single_node_shape; [exact H|..].

Lemma other_example_shape argv example p :
  example ∈ other_examples valid user_guid → example argv = Ret (Some p) → ∃ pump k h, example_shape p pump k h.
Proof.
  intros He Hp. unfold other_examples in He. repeat (apply elem_of_cons in He as [->|He]); [..|by apply elem_of_nil in He].
  - unfold append_to_stream in Hp. single Hp; [|apply append_handler_fine].
    apply calling_fine; [by repeat constructor|apply run_fine].
  - unfold append_to_stream_cluster in Hp. by_arguments Hp. simplify_eq.
    eexists true, _, append_handler. split; [done|by intros []| |apply append_handler_fine].
    apply calling_fine; [by repeat constructor|apply run_fine].
  - unfold delete_stream in Hp. single Hp; [|apply delete_stream_handler_fine].
    apply calling_fine; [by repeat constructor|apply run_fine].
  - unfold read_stream_event in Hp. single Hp; [|apply read_stream_event_handler_fine].
    apply calling_fine; [by repeat constructor|apply run_fine].
  - unfold read_stream_events in Hp. single Hp; [|apply read_stream_events_handler_fine].
    apply calling_fine; [by repeat constructor|apply run_fine].
  - unfold read_all_events in Hp. single Hp; [|apply read_all_events_handler_fine].
    apply calling_fine; [by repeat constructor|apply run_fine].
  - unfold stream_metadata in Hp. single Hp; [|apply stream_metadata_handler_fine].
    apply calling_fine; [by repeat constructor|apply run_fine].
  - unfold transaction in Hp. by_arguments Hp. rewrite transaction_main_shape in Hp.
    unfold polling, with_message_pump in Hp; eapply single_node_shape; [exact Hp|apply transaction_body_fine|apply transaction_handler_fine].
  - unfold persistent_subscription_operations in Hp. single Hp; [|apply silent_handler_fine].
    do 3 (apply calling_if_fine; [done|]). apply run_fine.
  - unfold persistent_subscription in Hp. single Hp; [|apply persistent_subscription_handler_fine].
    apply subscribing_fine, run_fine.
  - unfold volatile_subscription in Hp. single Hp; [|apply volatile_subscription_handler_fine].
    apply subscribing_fine, run_fine.
  - unfold catchup_subscription in Hp. single Hp; [|apply catchup_subscription_handler_fine].
    apply subscribing_fine, run_fine.
  - unfold catchup_all_subscription in Hp. single Hp; [|apply catchup_all_subscription_handler_fine].
    apply subscribing_fine, run_fine.
Qed.

Lemma stoi_number s n : stoi s = Ret n → read_number s = Some n.
Proof. unfold stoi, number_in. destruct (read_number s); [|done]. by case_match; intros [= <-]. Qed.

Lemma is_example_shape p : is_example valid user_guid p → ∃ pump k h, example_shape p pump k h.
Proof.
  intros (argv & [(example & He & Hp)|[Hp Hn]]); [by eapply other_example_shape|].
  unfold append_to_stream_batch in Hp. by_arguments Hp. unfold polling, with_message_pump in Hp; eapply single_node_shape; [exact Hp| |apply append_handler_fine].
  match goal with H : stoi _ = Ret ?n |- context [?n <? 0] => apply stoi_number in H; specialize (Hn n H) end.
  split.
  - split; [|done]. intros l' l1' calls H1. case_match; simplify_eq. by repeat constructor.
  - intros l' l1' _. simpl. rewrite (proj2 (Z.ltb_ge _ _)) by done. eauto.
Qed.
End facts.

(** ** Executions of the examples *)
Section executions.
Context {AL : Allocator} {PB : Protobuf} {AE : AsioErrors} {GS : GuidSource}.

Definition program_fine (p : program) : Prop :=
  main_ok (program_main p) ∧ main_safe (program_main p) initial_locals ∧ handler_fine (program_handler p).

Lemma connect_handler_total c l :
  call_ok c → ∃ l', connect_handler c l = Ret (l', []) ∧ keeps l l'.
Proof.
  unfold connect_handler. intros Hok. destruct c as [| | | | | | | | |[ec r]| | |]; try (by exists l; split; [|intros ?]).
  cbn [call_ok] in Hok. rewrite <- is_error_iff in Hok.
  destruct (negb (failed ec) || is_error ec authentication_failed) eqn:E.
  - destruct (proj2 Hok) as [x ->].
    { by apply orb_true_iff in E as [E%negb_true_iff|E]; [left|right]. }
    simpl. eexists. split; [reflexivity|]. by intros ?.
  - eexists. split; [reflexivity|]. by intros ?.
Qed.

Lemma connect_handler_code c l l' calls : connect_handler c l = Ret (l', calls) → calls = [].
Proof.
  unfold connect_handler. intros H. destruct c as [| | | | | | | | |[ec r]| | |]; simplify_eq; try done.
  destruct (_ || _); inv_ret; by simplify_eq.
Qed.

Lemma shape_fine p pump k h : example_shape p pump k h → program_fine p.
Proof.
  intros [Hm Hh [Hok Hs] [Hcode Htot Hkeep]]. unfold program_fine. rewrite Hm. split_and!.
  - split; [by intros l l' calls [= <- <-]; repeat constructor|]. by destruct pump.
  - intros l _. eexists _, _. split; [reflexivity|].
    enough (main_safe (awaiting pump k) l) by by destruct pump.
    intros l1 _. destruct (is_connected l1); [exact (Hs l1)|by destruct pump].
  - split; intros cb c.
    + intros l l' calls. rewrite Hh. destruct cb; [|apply Hcode].
      intros H%connect_handler_code. by subst.
    + intros l Hc Hcomp. rewrite Hh. destruct cb; [|by apply Htot].
      destruct (connect_handler_total c l Hc) as (l' & H & _). eauto.
    + intros l l' calls Hc. rewrite Hh. destruct cb; [|by apply Hkeep].
      destruct (connect_handler_total c l Hc) as (l1 & -> & Hk). by intros [= <- <-].
Qed.

(** Delivering consistent calls. *)
Lemma deliver_ok p cs : program_fine p → Forall (λ c, call_ok c.2) cs → ∀ l,
  (∀ l' calls, deliver (program_handler p) cs l = Ret (l', calls) →
    keeps l l' ∧ Forall event_ok (ev_api <$> calls)) ∧
  (Forall (λ c, call_complete c.2) cs → ∃ l' calls, deliver (program_handler p) cs l = Ret (l', calls)).
Proof.
  intros (_ & _ & [Hcode Htot Hkeep]). induction 1 as [|[cb c] cs Hc _ IH]; intros l.
  { split; [|simpl; eauto]. intros l' calls [= <- <-]. split; [by intros ?|done]. }
  simpl in *. split.
  - intros l' calls H. apply outcome_bind_Ret_inv in H as ([l1 calls1] & H1 & H).
    apply outcome_bind_Ret_inv in H as ([l2 calls2] & H2 & [= <- <-]).
    destruct (proj1 (IH l1) _ _ H2) as [Hk Hcs]. split; [etrans; [by eapply Hkeep|done]|].
    rewrite fmap_app. apply Forall_app; split; [by eapply Hcode|done].
  - intros [Hcomp Hrest]%Forall_cons. destruct (Htot cb c l Hc Hcomp) as (l1 & calls1 & H1).
    destruct (proj2 (IH l1) Hrest) as (l2 & calls2 & H2). rewrite H1. simpl. rewrite H2. simpl. eauto.
Qed.

(** The events of a program keep the client well formed, and its main
    function stays safe. *)
Lemma program_run p name tr c :
  program_fine p → main_run p (start_config p name) tr c →
  Forall event_ok tr ∧ main_ok (rest c) ∧ main_safe (rest c) (vars c).
Proof.
  intros Hp Hr.
  enough (∀ c0 tr0, run step (new_connection (program_settings p) name) tr0 (client c0) → Forall event_ok tr0 →
    main_ok (rest c0) → main_safe (rest c0) (vars c0) → main_run p c0 tr c →
    Forall event_ok tr ∧ main_ok (rest c) ∧ main_safe (rest c) (vars c)) as Hall.
  { apply (Hall (start_config p name) []); [constructor|constructor|apply Hp|apply Hp|done]. }
  clear Hr. intros c0 tr0 Hr0 Hev0 Hok0 Hs0 Hr. revert tr0 Hr0 Hev0 Hok0 Hs0.
  induction Hr as [c|c tr c1 tr' c2 Hst _ IH]; intros tr0 Hr0 Hev0 Hok0 Hs0; [done|].
  assert (Forall event_ok tr ∧ main_ok (rest c1) ∧ main_safe (rest c1) (vars c1)) as (Hev & Hok & Hs).
  { inversion Hst as [code k b l w n l' calls w' Hcode Hrun|k b l w n|k b l w n Hn|cond k k' b l w n|
      c' e w1 l' calls w2 Hio Hapi Hstep Hdel Hrun]; subst; simpl in *.
    - destruct Hok0 as [Hc Hk]. destruct (Hs0 l) as (l1 & calls1 & H1 & Hs); [done|].
      rewrite Hcode in H1. simplify_eq. split_and!; [by eapply Hc|done|done].
    - by split_and!.
    - by split_and!.
    - destruct Hok0. specialize (Hs0 l (reflexivity l)). destruct (cond l); split_and!; done.
    - assert (Forall event_ok (tr0 ++ [e])) as Hev1.
      { apply Forall_app; split; [done|]. constructor; [by destruct e|done]. }
      assert (well_formed (program_settings p) w1) as Hwf.
      { eapply run_wf; [exact Hev1|]. eapply run_trans; [exact Hr0|]. econstructor; [exact Hstep|constructor]. }
      destruct (deliver_ok p (drop (seen c) (World.calls w1)) Hp) with (vars c) as [Hd _].
      { apply Forall_drop, (wf_calls _ _ Hwf). }
      destruct (Hd _ _ Hdel) as [Hk Hcs]. split_and!; [constructor; [by destruct e|done]|done|].
      eapply main_safe_keeps; [exact Hk|exact Hs0]. }
  destruct (IH (tr0 ++ tr)) as (? & ? & ?).
  - eapply run_trans; [exact Hr0|]. exact (main_step_client p _ _ _ Hst).
  - by apply Forall_app.
  - done.
  - done.
  - split_and!; [by apply Forall_app|done|done].
Qed.
End executions.

(** *** Connecting first *)
Section connect_first.
Context {AL : Allocator} {PB : Protobuf} {AE : AsioErrors} {GS : GuidSource}.

(** The connection handler has been called with a result. *)
Definition established (w : world) : Prop :=
  ∃ ec r, (connect_cb, cb_connection (ec, Some r)) ∈ World.calls w.

Definition only_connects (tr : list event) : Prop :=
  Forall (λ e, match e with ev_api a => a = api_connect connect_cb | _ => True end) tr.

Lemma established_mono w w' : World.calls w `prefix_of` World.calls w' → established w → established w'.
Proof. intros [cs Hcs] (ec & r & Hin). exists ec, r. rewrite Hcs. apply elem_of_app. by left. Qed.

(** As long as the client was asked for nothing but a connection, it calls no
    other handler. *)
Lemma only_connect_called settings name tr w cb c :
  run step (new_connection settings name) tr w → only_connects tr →
  (∀ i j, (i < guids w)%nat → (j < guids w)%nat → fresh_guid i = fresh_guid j → i = j) →
  (cb, c) ∈ World.calls w → cb = connect_cb.
Proof.
  intros Hr Htr Hinj Hin. destruct (decide (cb = connect_cb)) as [|Hne]; [done|].
  pose proof (answers_bound settings name cb tr w Hr) as Hb.
  assert (answers_to cb w ≠ 0%nat) as Hpos.
  { unfold answers_to. intros H0%length_zero_iff_nil.
    assert ((cb, c) ∈ filter (λ c, c.1 = cb) (World.calls w)) as Hf by by apply list_elem_of_filter.
    rewrite H0 in Hf. by apply elem_of_nil in Hf. }
  assert (requests_with cb tr = 0%nat) as Hz.
  { unfold requests_with. clear -Htr. induction Htr as [|e tr He _ IH]; [done|]. rewrite filter_cons.
    case_decide as Hd; [|done]. destruct e as [a| | | | | | | | |]; simpl in Hd; try done. by rewrite He in Hd. }
  exfalso. rewrite Hz in Hb. enough (answers_to cb w + pending_requests cb w ≤ 0)%nat by lia. apply Hb; [|done].
  eapply Forall_impl; [exact Htr|]. intros e He. destruct e as [a| | | | | | | | |]; simpl; try apply not_elem_of_nil.
  rewrite He. simpl. by intros Hc%list_elem_of_singleton.
Qed.

Lemma deliver_connect p pump k h cs : example_shape p pump k h → Forall (λ c, c.1 = connect_cb) cs → ∀ l l' calls,
  deliver (program_handler p) cs l = Ret (l', calls) →
  calls = [] ∧ (is_connected l' = true → is_connected l = true ∨
    ∃ ec r, (connect_cb, cb_connection (ec, Some r)) ∈ cs).
Proof.
  intros Hs. induction 1 as [|[cb c] cs Hc _ IH]; intros l l' calls H; simpl in *.
  { simplify_eq. auto. }
  apply outcome_bind_Ret_inv in H as ([l1 calls1] & H1 & H).
  apply outcome_bind_Ret_inv in H as ([l2 calls2] & H2 & [= <- <-]).
  subst cb. rewrite (es_handler _ _ _ _ Hs) in H1. pose proof (connect_handler_code _ _ _ _ H1) as ->.
  destruct (IH _ _ _ H2) as [-> Hconn]. split; [done|]. intros Ht.
  destruct (Hconn Ht) as [Hl1|(ec & r & Hin)]; [|right; exists ec, r; by apply elem_of_cons; right].
  unfold connect_handler in H1. destruct c as [| | | | | | | | |[ec [r|]]| | |]; simplify_eq; try (by left).
  - right. exists ec, r. apply elem_of_cons. by left.
  - destruct (_ || _); simpl in H1; simplify_eq. by left.
Qed.

(** Before the connection is established, main is still connecting, or has
    given up. *)
Definition still_connecting (pump : bool) (k : main) : list main :=
  [connecting pump k; m_pump (awaiting pump k); awaiting pump k; m_if is_connected k (gives_up pump)].

Lemma elem_still_connecting pump k m :
  m ∈ still_connecting pump k ↔ m = connecting pump k ∨ m = m_pump (awaiting pump k) ∨ m = awaiting pump k ∨
    m = m_if is_connected k (gives_up pump).
Proof. unfold still_connecting. rewrite !elem_of_cons, elem_of_nil. tauto. Qed.

Definition connects_first (pump : bool) (k : main) (tr : list event) (c : config) : Prop :=
  established (client c) ∨
  (only_connects tr ∧
    (rest c = gives_up pump ∨ rest c ∈ still_connecting pump k ∧ is_connected (vars c) = false)).

Lemma main_step_connects settings name p pump k h tr0 c tr c1 :
  example_shape p pump k h → run step (new_connection settings name) tr0 (client c) →
  (∀ i j, (i < guids (client c1))%nat → (j < guids (client c1))%nat → fresh_guid i = fresh_guid j → i = j) →
  connects_first pump k tr0 c → main_step p c tr c1 → connects_first pump k (tr0 ++ tr) c1.
Proof.
  intros Hs Hr Hinj Hc Hst. destruct Hc as [Hest|(Honly & Hc)].
  { left. eapply established_mono; [|exact Hest]. by eapply run_calls, main_step_client. }
  destruct Hst as [code m b l w n l' calls w' Hcode Hrun|m b l w n|m b l w n Hn|cond m m' b l w n|
    c e w1 l' calls w2 Hio Hapi Hstep Hdel Hrun]; simpl in *.
  - right. destruct Hc as [E|[Hin Hf]]; [by destruct pump|]. apply elem_still_connecting in Hin.
    destruct Hin as [E|[E|[E|E]]]; try done.
    injection E as -> ->. injection Hcode as <- <-. split.
    { apply Forall_app; split; [done|]. by repeat constructor. }
    right. simpl. split; [|done]. apply elem_still_connecting. destruct pump; auto.
  - right. rewrite app_nil_r. split; [done|]. destruct Hc as [E|[Hin Hf]]; [by destruct pump|].
    apply elem_still_connecting in Hin as [E|[E|[E|E]]]; try done.
    injection E as ->. right. split; [|done]. apply elem_still_connecting. auto.
  - right. rewrite app_nil_r. split; [done|]. destruct Hc as [E|[Hin Hf]]; [by destruct pump|].
    apply elem_still_connecting in Hin as [E|[E|[E|E]]]; try done.
    injection E as ->. right. split; [|done]. apply elem_still_connecting. auto.
  - right. rewrite app_nil_r. split; [done|]. destruct Hc as [E|[Hin Hf]]; [by destruct pump|].
    apply elem_still_connecting in Hin as [E|[E|[E|E]]]; try done.
    injection E as -> -> ->. left. simpl. by rewrite Hf.
  - assert (run step (new_connection settings name) (tr0 ++ [e]) w1) as Hr1.
    { eapply run_trans; [exact Hr|]. econstructor; [exact Hstep|constructor]. }
    assert (only_connects (tr0 ++ [e])) as Honly1.
    { apply Forall_app; split; [done|]. constructor; [by destruct e|constructor]. }
    assert (Forall (λ c, c.1 = connect_cb) (drop (seen c) (World.calls w1))) as Hcs.
    { apply Forall_drop, Forall_forall. intros [cb x] Hin. eapply only_connect_called; [exact Hr1|done| |exact Hin].
      pose proof (run_guids _ _ _ Hrun). intros i j Hi Hj. apply Hinj; lia. }
    destruct (deliver_connect p pump k h _ Hs Hcs _ _ _ Hdel) as [-> Hconn].
    destruct (is_connected l') eqn:El.
    + destruct (Hconn eq_refl) as [Hl|(ec & r & Hin)].
      { exfalso. destruct Hc as [E|[_ Hf]]; [|congruence]. unfold io_may_run in Hio. rewrite E in Hio. by destruct pump. }
      left. simpl. inversion Hrun; subst. exists ec, r. by eapply subseteq_drop.
    + right. split; [exact Honly1|]. destruct Hc as [E|[Hk _]]; [by left|by right].
Qed.

Lemma main_run_connects settings name p pump k h c tr c1 :
  example_shape p pump k h → main_run p c tr c1 →
  (∀ i j, (i < guids (client c1))%nat → (j < guids (client c1))%nat → fresh_guid i = fresh_guid j → i = j) →
  ∀ tr0, run step (new_connection settings name) tr0 (client c) → connects_first pump k tr0 c →
  connects_first pump k (tr0 ++ tr) c1.
Proof.
  intros Hs. induction 1 as [c|c tr c1 tr' c2 Hst Hrun IH]; intros Hinj tr0 Hr Hc; [by rewrite app_nil_r|].
  rewrite app_assoc. pose proof (main_run_client _ _ _ _ Hrun) as Hr2. apply IH; [done| |].
  - eapply run_trans; [exact Hr|]. by eapply main_step_client.
  - eapply main_step_connects; [done|exact Hr| |done|exact Hst].
    pose proof (run_guids _ _ _ Hr2). intros i j Hi Hj. apply Hinj; lia.
Qed.
End connect_first.

(** The example programs ask nothing of the server before the connection
    is established: in every execution of any of them, as long as no two of
    the identifiers drawn are the same, main and the handlers call a function
    of the client other than async_connect only when the connection handler
    has been called with the connection.  (Each prefix of an execution is an
    execution, so the call comes after the handler's.) *)
Theorem examples_connect_first {AL : Allocator} {PB : Protobuf} {AE : AsioErrors} {GS : GuidSource}
    valid user_guid p name tr c a
    (Huser : ∀ n, length (user_guid n) = 16%nat) (Hp : is_example valid user_guid p)
    (Hrun : main_run p (start_config p name) tr c)
    (Hdistinct : ∀ i j, (i < guids (client c))%nat → (j < guids (client c))%nat →
      fresh_guid i = fresh_guid j → i = j)
    (Ha : ev_api a ∈ tr) :
  a = api_connect connect_cb ∨ established (client c).
Proof.
  destruct (is_example_shape valid user_guid Huser p Hp) as (pump & k & h & Hshape).
  destruct (main_run_connects (program_settings p) name p pump k h _ _ _ Hshape Hrun Hdistinct [])
    as [He|[Honly _]]; [constructor| |by right|].
  - right. split; [constructor|]. right. split; [|done]. apply elem_of_cons. left. apply Hshape.
  - left. by apply (proj1 (Forall_forall _ _) Honly _ Ha).
Qed.

(** *** A run of the transaction example *)
Section run.
#[local] Existing Instances zero_allocator sample_protobuf linux_asio_errors counting_guids.

Definition sample_user_guid (n : nat) : guid_type := le_encode 16 (1000 + Z.of_nat n).

Lemma sample_user_guid_wf n : length (sample_user_guid n) = 16%nat.
Proof. apply length_le_encode. Qed.

Definition transaction_argv : list string :=
  ["transaction"; "127.0.0.1"; "1113"; "admin"; "changeit"; "-2"; "info"].

Definition transaction_program : program :=
  mk_program (example_settings "admin" "changeit") (inl (mk_endpoint "127.0.0.1" 1113))
    (transaction_main sample_user_guid "test-stream" (-2)) (λ cb,
      match cb with 0%nat => connect_handler | _ => transaction_handler cb end).

Lemma transaction_program_ok : transaction (λ _, true) sample_user_guid transaction_argv = Ret (Some transaction_program).
Proof. reflexivity. Qed.

Lemma transaction_is_example : is_example (λ _, true) sample_user_guid transaction_program.
Proof.
  exists transaction_argv. left. exists (transaction (λ _, true) sample_user_guid).
  split; [|exact transaction_program_ok]. unfold other_examples. repeat (apply elem_of_cons; first [by left|right]).
Qed.

(** The connection is established, and the transaction is started, written
    and committed. *)
Definition connection_events : list event :=
  [ev_discovered success (mk_endpoint "127.0.0.1" 1113); ev_connected success; ev_job;
   response Command.authenticated 0 x00; ev_written success; ev_job; ev_job; ev_job;
   response Command.client_identified 2 x00; ev_job].
Definition transaction_events : list event :=
  connection_events ++ [response Command.transaction_start_completed 3 x00;
    response Command.transaction_write_completed 4 x00; response Command.transaction_commit_completed 5 x00].

Definition transaction_run (es : list event) : option config :=
  drive transaction_program es (start_config transaction_program "ES-1").

Lemma transaction_run_sound es c :
  transaction_run es = Some c → ∃ tr, main_run transaction_program (start_config transaction_program "ES-1") tr c.
Proof. apply drive_sound. Qed.

(** The run up to the point where the transaction starts. *)
Definition started : option (config * world) :=
  c ← transaction_run connection_events;
  match exec (response Command.transaction_start_completed 3 x00) (client c) with
  | Some (Ret w) => Some (c, w)
  | _ => None
  end.

Definition complete_call (c : callback) : bool :=
  match c with
  | cb_transaction _ => true
  | _ => false
  end.

Definition started_ok (o : option (config * world)) : bool :=
  match o with
  | Some (c, w) =>
      Nat.eqb (length (drop (seen c) (World.calls w))) 1 && forallb (λ x, complete_call x.2) (drop (seen c) (World.calls w))
  | None => false
  end.

Lemma started_check : started_ok started = true.
Proof. vm_compute. reflexivity. Qed.

Lemma started_Some c w : started = Some (c, w) →
  transaction_run connection_events = Some c ∧
  step (client c) (response Command.transaction_start_completed 3 x00) w.
Proof.
  unfold started, step. destruct (transaction_run connection_events) as [c'|]; [|done]. intros H.
  change (match exec (response Command.transaction_start_completed 3 x00) (client c') with
          | Some (Ret w) => Some (c', w) | _ => None end = Some (c, w)) in H.
  destruct (exec _ (client c')) as [[w'| |]|] eqn:E; [|done..]. by injection H as -> ->.
Qed.

Lemma started_run : ∃ c w1,
  transaction_run connection_events = Some c ∧
  step (client c) (response Command.transaction_start_completed 3 x00) w1 ∧
  length (drop (seen c) (World.calls w1)) = 1%nat ∧
  Forall (λ x, call_complete x.2) (drop (seen c) (World.calls w1)).
Proof.
  pose proof started_check as H. destruct started as [[c w]|] eqn:E; [|discriminate H].
  destruct (started_Some _ _ E) as [Hc Hw]. exists c, w.
  apply andb_true_iff in H as [Hl%Nat.eqb_eq Hcs]. clear E. refine (conj Hc (conj Hw (conj Hl _))).
  clear -Hcs. apply Is_true_true_2, forallb_True in Hcs.
  eapply Forall_impl; [exact Hcs|]. by intros [cb []] Hx.
Qed.

Lemma transaction_run_guids :
  match transaction_run transaction_events with Some c => Nat.eqb (World.guids (client c)) 6 | None => false end = true.
Proof. vm_compute. reflexivity. Qed.
End run.

(** C37: The code of the example programs does not throw, wherever the
    server and the thread that runs the io_context have brought them: in every
    execution of any of them with the client (with arguments it accepts, and a
    batch of no negative size), the code of main's next statement and, on
    whatever calls a next step of the client makes of them, the handlers come
    to their ends with their requests to the client, as long as every event
    handed over carries the event itself and not only the link to it.  In the
    programs with a thread the steps of the client also come between two
    statements of main.  The results and the transaction that the programs
    take out of their optionals are therefore always there.  What the functions
    of the client they call, or a step of the client, throws on its own is not
    theirs and not claimed. *)
Theorem example_code_never_throws {AL : Allocator} {PB : Protobuf} {AE : AsioErrors} {GS : GuidSource}
    valid user_guid p name tr c
    (Huser : ∀ n, length (user_guid n) = 16%nat) (Hp : is_example valid user_guid p)
    (Hrun : main_run p (start_config p name) tr c) :
  (∀ code k, rest c = m_do code k → ∃ l' calls, code (vars c) = Ret (l', calls)) ∧
  (∀ e w1, is_api e = false → step (client c) e w1 →
    Forall (λ x, call_complete x.2) (drop (seen c) (World.calls w1)) →
    ∃ l' calls, deliver (program_handler p) (drop (seen c) (World.calls w1)) (vars c) = Ret (l', calls)).
Proof.
  destruct (is_example_shape valid user_guid Huser p Hp) as (pump & k & h & Hshape).
  pose proof (shape_fine _ _ _ _ Hshape) as Hfine.
  destruct (program_run p name tr c Hfine Hrun) as (Hev & _ & Hsafe). split.
  - intros code k1 E. rewrite E in Hsafe. destruct (Hsafe (vars c)) as (l' & calls & H & _); [done|eauto].
  - intros e w1 Hapi Hstep. apply deliver_ok; [done|].
    assert (well_formed (program_settings p) w1) as Hwf.
    { eapply (run_wf _ name (tr ++ [e])).
      - apply Forall_app; split; [done|]. constructor; [by destruct e|done].
      - eapply run_trans; [exact (main_run_client p _ _ _ Hrun)|]. econstructor; [exact Hstep|constructor]. }
    apply Forall_drop, (wf_calls _ _ Hwf).
Qed.

Section throw_witness.
#[local] Existing Instances zero_allocator sample_protobuf linux_asio_errors counting_guids.

Lemma example_code_never_throws_witness :
  ∃ c w1 l' calls, transaction_run connection_events = Some c ∧
    step (client c) (response Command.transaction_start_completed 3 x00) w1 ∧
    length (drop (seen c) (World.calls w1)) = 1%nat ∧
    deliver (program_handler transaction_program) (drop (seen c) (World.calls w1)) (vars c) = Ret (l', calls).
Proof.
  destruct started_run as (c & w1 & Hc & Hw & Hlen & Hcomp).
  destruct (transaction_run_sound _ _ Hc) as [tr Htr].
  destruct (proj2 (example_code_never_throws (λ _, true) sample_user_guid transaction_program "ES-1" tr c sample_user_guid_wf
    transaction_is_example Htr) (response Command.transaction_start_completed 3 x00) w1 eq_refl Hw Hcomp) as (l' & calls & Hd).
  exists c, w1, l', calls. exact (conj Hc (conj Hw (conj Hlen Hd))).
Defined.
End throw_witness.

(** Without that condition they do: one event of a slice whose link did not
    resolve ends read_stream_events and read_all_events with an exception
    thrown out of the io_context. *)
Lemma unresolved_event_throws events :
  ¬ Forall (λ e, is_Some (event_ e)) events → print_events events = Throw std_bad_optional_access.
Proof.
  induction events as [|e events IH]; intros Hn; [by destruct Hn|]. simpl.
  destruct (event_ e) as [r|] eqn:E; simpl; [|done]. apply IH. intros Hall. apply Hn. constructor; [by eexists|done].
Qed.

Section connect_witness.
#[local] Existing Instances zero_allocator sample_protobuf linux_asio_errors counting_guids.

Lemma examples_connect_first_witness :
  ∃ c tr, transaction_run transaction_events = Some c ∧ main_run transaction_program (start_config transaction_program "ES-1") tr c ∧
    ∀ a, ev_api a ∈ tr → a = api_connect connect_cb ∨ established (client c).
Proof.
  pose proof transaction_run_guids as Hg.
  destruct (transaction_run transaction_events) as [c|] eqn:Hc; [|discriminate Hg].
  destruct (transaction_run_sound _ _ Hc) as [tr Htr]. exists c, tr. split; [reflexivity|split; [exact Htr|]].
  intros a. apply (examples_connect_first (λ _, true) sample_user_guid transaction_program "ES-1" tr c a
    sample_user_guid_wf transaction_is_example Htr).
  apply Nat.eqb_eq in Hg. rewrite Hg. intros i j Hi Hj. apply counting_guids_inj; lia.
Defined.
End connect_witness.
