(* ===== verification/Scenarios.v ===== *)
(** Executions of the whole client in which a catch-up subscription loses or
    repeats events, or uses what has been destroyed. *)
From S2P Require Import Prelude Errors Basics BufferQueue TcpPackage Messages Events Settings Operations.
From S2P Require Import OperationsMap World Connection Requests ConnectOps Subscription Catchup.
From S2P Require Import CatchupAll Client Lifecycle.

(** The numbers of the events given to the event handler, in order. *)
Definition delivered_numbers (w : world) : list Z :=
  omap (λ c, match c.2 with
             | cb_event e => event_number_ <$> original_event e
             | _ => None
             end) (calls w).

Definition subscription_key : guid_type := replicate 16 x05.

(** A package for the subscription. *)
Definition pushed (cmd : tcp_command) (b : byte) : event :=
  ev_received success (plain_frame cmd flags_none subscription_key [b]) 23.

Definition start_catchup (args : subscription_args) : list event :=
  connected 9 ++ [ev_api (api_new_subscription 0 subscription_key args);
    ev_api (api_start_subscription 0 1 2)].

(** The client reads event 0 and, at the end of the stream, subscribes; the
    confirmation says that the last event is number 5, so it reads 1, 2, 3 and
    4, each slice of the server having one event; event 6 is pushed. *)
Definition catchup_scenario : list event :=
  start_catchup (args_catchup "stream" 0 default_catchup_subscription_settings) ++
  [response Command.read_stream_events_forward_completed 2 x00;
   pushed Command.subscription_confirmation x00;
   response Command.read_stream_events_forward_completed 3 x01;
   response Command.read_stream_events_forward_completed 4 x02;
   response Command.read_stream_events_forward_completed 5 x03;
   response Command.read_stream_events_forward_completed 6 x04;
   pushed Command.stream_event_appeared x06].

(** A catch-up subscription misses an event: in this execution the server
    answers every read with the events asked for, the subscription stays
    alive, and the user gets the events 0 to 4 and then 6, but never event 5,
    the last one written when the subscription was confirmed. *)
Theorem catchup_misses_event :
  ∃ w, scenario_exec catchup_scenario (new_connection default_connection_settings "ES-1") = Some (Ret w) ∧
    delivered_numbers w = [0; 1; 2; 3; 4; 6] ∧
    (∃ s, objects w !! 0%nat = Some s ∧ last_event_number_ s = Some 5 ∧ subscribed_ s = true).
Proof.
  eexists. split; [vm_compute; reflexivity|]. split; [vm_compute; reflexivity|].
  eexists. split; [vm_compute; reflexivity|]. split; reflexivity.
Qed.

(** The subscription to the whole log: the historical slices are [0] and then
    empty; the confirmation says that the log ends at position 5; every further
    read starts at the position of the last event delivered, and the server's
    slice begins with that event. *)
Definition catchup_all_scenario : list event :=
  start_catchup (args_catchup_all (mk_position 0 0) default_catchup_subscription_settings) ++
  [response Command.read_all_events_forward_completed 2 x00;
   response Command.read_all_events_forward_completed 3 x01;
   pushed Command.subscription_confirmation x00;
   response Command.read_all_events_forward_completed 4 x02;
   response Command.read_all_events_forward_completed 5 x03;
   response Command.read_all_events_forward_completed 6 x04;
   pushed Command.stream_event_appeared x06].

(** A catch-up subscription to the whole log both repeats and misses events:
    in this execution the events at positions 2 and 3 are delivered twice, and
    the event at the position the confirmation gave is never delivered. *)
Theorem catchup_all_repeats_and_misses :
  ∃ w, scenario_exec catchup_all_scenario (new_connection default_connection_settings "ES-1") = Some (Ret w) ∧
    delivered_numbers w = [0; 1; 2; 2; 3; 3; 4; 6].
Proof. eexists. split; vm_compute; reflexivity. Qed.

(** The handler references of the catching-up phase dangle: when the user
    unsubscribes while the read of the missed events is under way and the
    server answers the unsubscription first, the closure that holds the
    handlers is destroyed, and the answer to the read then uses them. *)
Theorem missed_read_uses_destroyed_handlers :
  ∃ w, scenario_exec (take 7 catchup_scenario ++
      [ev_api (api_unsubscribe 0); pushed Command.subscription_dropped x00])
      (new_connection default_connection_settings "ES-1") = Some (Ret w) ∧
    last (calls w) = Some (2%nat, cb_dropped (make_error_code unsubscribed) 0) ∧
    scenario_exec [response Command.read_stream_events_forward_completed 3 x01] w =
      Some (Undef dangling_reference).
Proof. eexists. split; [vm_compute; reflexivity|]. split; vm_compute; reflexivity. Qed.

(** Starting the subscription again does not help: it registers another
    closure under the same key, and the answer to the old read still uses the
    handlers of the one that was destroyed. *)
Example restarted_subscription_keeps_dangling :
  ∃ w, scenario_exec (take 7 catchup_scenario ++
      [ev_api (api_unsubscribe 0); pushed Command.subscription_dropped x00;
       ev_api (api_start_subscription 0 1 2); response Command.read_stream_events_forward_completed 4 x00])
      (new_connection default_connection_settings "ES-1") = Some (Ret w) ∧
    sc_stamp <$> subscriptions_map_ w !! subscription_key = Some 1%nat ∧
    scenario_exec [response Command.read_stream_events_forward_completed 3 x01] w =
      Some (Undef dangling_reference).
Proof. eexists. split; [vm_compute; reflexivity|]. split; vm_compute; reflexivity. Qed.
