(* ===== verification/Drops.v ===== *)
(** Over whole executions of the client, a volatile or persistent subscription
    calls its dropped handler at most once each time it is started; and an
    execution in which a catch-up subscription calls it twice. *)
From S2P Require Import Prelude Errors Basics BufferQueue TcpPackage Messages Events Settings Operations.
From S2P Require Import OperationsMap World Triples Connection Requests ConnectOps Subscription Catchup.
From S2P Require Import CatchupAll Client Lifecycle Answers Scenarios.

(** ** What is counted *)
Section counting.
Context {AL : Allocator} {PB : Protobuf} {AE : AsioErrors} {GS : GuidSource}.

(** The subscription object, its key, and the number of guids generated. *)
Context (this : nat) (key : guid_type) (bound : nat).

Definition one (P : Prop) `{Decision P} : nat := if decide P then 1 else 0.

(** The calls of the dropped handler made, posted, or waiting for the answer
    to an unsubscribe request. *)
Definition call_weight (c : nat * callback) : nat :=
  match c.2 with cb_dropped _ t => one (t = this) | _ => 0 end.
Definition job_weight (j : job) : nat :=
  match j with
  | drop_subscription t _ _ => one (t = this)
  | call_handler u c => call_weight (u, c)
  | _ => 0
  end.
Definition response_weight (h : response_handler) : nat :=
  match h with on_unsubscribe t _ _ => one (t = this) | _ => 0 end.
Definition op_weight (op : operation_closure) : nat :=
  match op with op_response h _ => response_weight h | _ => 0 end.

Definition settled (w : world) : nat :=
  (sum_list_with call_weight (calls w) + from_option op_weight 0 (operations_map_ w !! key) +
   sum_list_with job_weight (posted w))%nat.

(** One more call can come from the registered lambda, unless its guard is
    set. *)
Definition open (w : world) : nat :=
  match subscriptions_map_ w !! key, objects w !! this with
  | Some c, Some s => if handle_guard_ s then 0 else one (sc_this c = this)
  | _, _ => 0
  end.
Definition weight (w : world) : nat := (settled w + open w)%nat.

(** ** The invariant *)
Definition push (k : subscription_kind) : Prop :=
  match k with volatile _ | persistent _ _ _ _ => True | catchup _ _ _ | catchup_all _ _ _ _ => False end.
Definition object_ok (s : subscription) : Prop := key_ s = key ∧ push (kind_ s).

(** The closures of catch-up subscriptions are not those of the object. *)
Definition reader_ok (r : slice_reader) : Prop :=
  match r with
  | slice_to_user _ => True
  | slice_to_historical t _ _ | slice_to_missed _ t _ _ _ => t ≠ this
  end.
Definition response_ok (h : response_handler) : Prop :=
  match h with on_read_stream_events _ _ _ r | on_read_all_events _ r => reader_ok r | _ => True end.
Definition op_ok (op : operation_closure) : Prop :=
  match op with op_response h _ => response_ok h | _ => True end.

(** The waits that call what is registered under their own key, and do not
    erase it, have other keys. *)
Definition waiter_ok (x : waiter) : Prop :=
  match x with
  | wait_authenticate i => authentication_correlation_id i ≠ key
  | wait_identify i _ _ _ => identity_correlation_id i ≠ key
  | _ => True
  end.
Definition timer_ok (t : timer) : Prop := match waiting t with Some x => waiter_ok x | None => True end.
Definition job_ok (j : job) : Prop :=
  match j with
  | read_buffered _ t _ => t ≠ this
  | wait_completed x _ _ => waiter_ok x
  | _ => True
  end.

(** [present]: the object exists. *)
Record Inv (present : bool) (w : world) : Prop := mk_Inv {
  i_object : match objects w !! this with Some s => present = true ∧ object_ok s | None => present = false end;
  i_subs : map_Forall (λ k c, sc_this c = this → k = key ∧ present = true) (subscriptions_map_ w);
  i_ops : map_Forall (λ k op, op_ok op ∧ (op_weight op ≠ 0%nat → k = key)) (operations_map_ w);
  i_jobs : Forall job_ok (posted w);
  i_timers : Forall timer_ok (timers w)
}.

Definition unchanged (w w' : world) : Prop :=
  objects w' = objects w ∧ subscriptions_map_ w' = subscriptions_map_ w ∧
  operations_map_ w' = operations_map_ w ∧ posted w' = posted w ∧ timers w' = timers w ∧ calls w' = calls w.

(** ** The commands *)
Section commands.
Context (present : bool).
Abbreviation tri := (triple bound (Inv present) weight).

Lemma unchanged_inv w w' : unchanged w w' → Inv present w → Inv present w' ∧ weight w' = weight w.
Proof.
  intros (Ho & Hs & Hop & Hp & Ht & Hc) []. split.
  - by constructor; rewrite ?Ho, ?Hs, ?Hop, ?Hp, ?Ht.
  - unfold weight, settled, open. by rewrite Ho, Hs, Hop, Hp, Hc.
Qed.

Lemma dr_quiet {A} n (c : cmd A) :
  (∀ w a w', run_cmd c w = Ret (a, w') → unchanged w w') → tri n (perform c) (λ _, True).
Proof. intros Hc. apply triple_quiet. intros w a w' Hw Hr. eapply unchanged_inv; eauto. Qed.

Lemma dr_post n j : job_ok j → (job_weight j ≤ n)%nat → tri n (post j) (λ _, True).
Proof.
  intros Hj Hn. apply triple_perform. intros w a w' [] Hr. simpl in Hr. simplify_eq. split_and!; [|unfold weight, settled, open; simpl|done].
  - constructor; simpl; try done. by apply Forall_app_2; [|apply Forall_singleton].
  - rewrite sum_list_with_app. simpl. lia.
Qed.

Lemma dr_call n u c : (call_weight (u, c) ≤ n)%nat → tri n (call_user u c) (λ _, True).
Proof.
  intros Hn. apply triple_perform. intros w a w' [] Hr. simpl in Hr. simplify_eq. split_and!; [|unfold weight, settled, open; simpl|done].
  - by constructor.
  - rewrite sum_list_with_app. simpl. lia.
Qed.

Lemma register_key (k : guid_type) (op : operation_closure) (m : operations_map operation_closure) :
  (op_weight op ≠ 0%nat → k = key) →
  (from_option op_weight 0 (register_op k op m !! key) ≤ op_weight op + from_option op_weight 0 (m !! key))%nat.
Proof.
  intros Hk. destruct (decide (k = key)) as [->|Hne].
  - rewrite lookup_register_op. destruct (m !! key); simpl; lia.
  - rewrite lookup_register_op_ne by done. lia.
Qed.

Lemma dr_put_operation n k op :
  op_ok op → (op_weight op ≠ 0%nat → k = key) → (op_weight op ≤ n)%nat → tri n (put_operation k op) (λ _, True).
Proof.
  intros Hop Hk Hn. apply triple_perform. intros w a w' [] Hr. simpl in Hr. simplify_eq.
  split_and!; [|unfold weight, settled, open; simpl|done].
  - constructor; simpl; try done. unfold register_op. destruct (_ !! k); [done|]. by apply map_Forall_insert_2.
  - pose proof (register_key k op (operations_map_ w) Hk). lia.
Qed.

Lemma dr_update_operation n k op :
  op_ok op → op_weight op = 0%nat → tri n (update_operation k op) (λ _, True).
Proof.
  intros Hop Hz. apply triple_perform. intros w a w' [] Hr. simpl in Hr. simplify_eq.
  split_and!; [|unfold weight, settled, open; simpl|done].
  - constructor; simpl; try done. destruct (contains _ _); [|done]. apply map_Forall_insert_2; [|done]. by rewrite Hz.
  - destruct (contains _ _); [|lia]. destruct (decide (k = key)) as [->|].
    + rewrite lookup_insert_eq. simpl. rewrite Hz. lia.
    + rewrite lookup_insert_ne by done. lia.
Qed.

Lemma erase_key (k : guid_type) (m : operations_map operation_closure) :
  (from_option op_weight 0 (erase k m !! key) ≤ from_option op_weight 0 (m !! key))%nat.
Proof.
  unfold erase. destruct (decide (k = key)) as [->|].
  - rewrite lookup_delete_eq. simpl. lia.
  - by rewrite lookup_delete_ne.
Qed.

Lemma dr_erase_operation n k : tri n (erase_operation k) (λ _, True).
Proof.
  apply triple_perform. intros w a w' [] Hr. simpl in Hr. simplify_eq.
  split_and!; [|unfold weight, settled, open; simpl|done].
  - constructor; simpl; try done. by apply map_Forall_delete.
  - pose proof (erase_key k (operations_map_ w)). lia.
Qed.

(** Another object's closure, under whatever key. *)
Lemma dr_put_subscription n k c : sc_this c ≠ this → tri n (put_subscription k c) (λ _, True).
Proof.
  intros Hc. apply triple_perform. intros w a w' [] Hr. simpl in Hr. simplify_eq.
  split_and!; [|unfold weight, settled, open; simpl|done].
  - constructor; simpl; try done. unfold register_op. destruct (_ !! k); [done|]. by apply map_Forall_insert_2.
  - destruct (decide (k = key)) as [->|]; [|by rewrite lookup_register_op_ne by done; lia].
    rewrite lookup_register_op. destruct (subscriptions_map_ w !! key) as [c'|]; simpl; [lia|].
    destruct (objects w !! this) as [s|]; [|lia]. unfold one. rewrite decide_False by done. by destruct (handle_guard_ s); lia.
Qed.

Lemma dr_erase_subscription n k : tri n (erase_subscription k) (λ _, True).
Proof.
  apply triple_perform. intros w a w' [] Hr. simpl in Hr. simplify_eq.
  split_and!; [|unfold weight, settled, open; simpl|done].
  - constructor; simpl; try done. by apply map_Forall_delete.
  - unfold erase. destruct (decide (k = key)) as [->|]; [rewrite lookup_delete_eq; lia|by rewrite lookup_delete_ne by done; lia].
Qed.

Lemma dr_set_object n t s : t ≠ this → tri n (set_object t s) (λ _, True).
Proof.
  intros Ht. apply triple_perform. intros w a w' [] Hr. simpl in Hr. simplify_eq.
  split_and!; [|unfold weight, settled, open; simpl|done].
  - constructor; simpl; try done. by rewrite lookup_insert_ne.
  - rewrite lookup_insert_ne by done. lia.
Qed.

(** A wait that ends, by its expiry or by being cancelled. *)
Lemma wait_ends_inv t d x ec w :
  timers w !! t = Some (mk_timer d (Some x)) → Inv present w →
  let w' := set_posted (posted w ++ [wait_completed x t ec]) (set_timers (<[t := mk_timer d None]> (timers w)) w) in
  Inv present w' ∧ weight w' = weight w.
Proof.
  intros Ht [] w'. pose proof (Forall_lookup_1 _ _ _ _ i_timers0 Ht) as Hx. split.
  - constructor; simpl; try done; [by apply Forall_app_2; [|apply Forall_singleton]|by apply Forall_insert].
  - unfold weight, settled, open; simpl. rewrite sum_list_with_app. simpl. lia.
Qed.

Lemma abort_wait_dr t w : Inv present w → Inv present (abort_wait t w) ∧ weight (abort_wait t w) = weight w.
Proof.
  intros Hw. unfold abort_wait. destruct (timers w !! t) as [[d [x|]]|] eqn:Ht; [|done..]. by apply wait_ends_inv.
Qed.

Lemma set_timers_dr ts w :
  Forall timer_ok ts → Inv present w → Inv present (set_timers ts w) ∧ weight (set_timers ts w) = weight w.
Proof. intros Hts []. by split. Qed.

Lemma dr_cancel_timer n t : tri n (cancel_timer t) (λ _, True).
Proof. apply triple_quiet. intros w a w' Hw Hr. simpl in Hr. simplify_eq. by apply abort_wait_dr. Qed.

Lemma dr_expires_after n t d : tri n (expires_after t d) (λ _, True).
Proof.
  apply triple_quiet. intros w a w' Hw Hr. simpl in Hr. simplify_eq. destruct (abort_wait_dr t w Hw) as [Hi <-].
  apply set_timers_dr; [|done]. apply Forall_insert; [apply Hi|done].
Qed.

Lemma dr_make_timer n : tri n make_timer (λ _, True).
Proof.
  apply triple_quiet. intros w a w' Hw Hr. simpl in Hr. simplify_eq. apply set_timers_dr; [|done].
  apply Forall_app_2; [apply Hw|by apply Forall_singleton].
Qed.

Lemma dr_async_wait n t x : waiter_ok x → tri n (async_wait t x) (λ _, True).
Proof.
  intros Hx. apply triple_quiet. intros w a w' Hw Hr. simpl in Hr. simplify_eq. apply set_timers_dr; [|done].
  by apply Forall_alter; [apply Hw|].
Qed.

Lemma dr_start n o : tri n (start o) (λ _, True).
Proof. apply dr_quiet. intros w a w' Hr. simpl in Hr. simplify_eq. by destruct o. Qed.
Lemma dr_next_package_no n : tri n next_package_no (λ _, True).
Proof. apply dr_quiet. intros w a w' Hr. simpl in Hr. by simplify_eq. Qed.
Lemma dr_close_socket n : tri n close_socket (λ _, True).
Proof. apply dr_quiet. intros w a w' Hr. simpl in Hr. by simplify_eq. Qed.

(** The identifiers drawn are not the key. *)
Lemma dr_make_guid n : (∀ i, (i < bound)%nat → fresh_guid i ≠ key) → tri n make_guid (λ g, g ≠ key).
Proof.
  intros Hk w a w' Hw Hr Hg. simpl in Hr. simplify_eq. simpl in Hg.
  destruct (unchanged_inv w (set_guids (S (guids w)) w)) as [Hi ->]; [by split_and!|done|].
  split_and!; [done|lia|]. apply Hk. lia.
Qed.

(** ** The object *)
Lemma run_get_inv t w s w' : run_prog (get_object t) w = Ret (s, w') → objects w !! t = Some s ∧ w' = w.
Proof.
  destruct (objects w !! t) as [s'|] eqn:E; [rewrite (run_get_object _ _ _ E); by intros [= <- <-]|].
  unfold get_object. run_prog_steps. by rewrite E.
Qed.

Lemma run_update_inv t f w x w' :
  run_prog (update_object t f) w = Ret (x, w') →
  ∃ s, objects w !! t = Some s ∧ w' = set_objects (<[t := f s]> (objects w)) w.
Proof.
  unfold update_object. rewrite run_bind. destruct (run_prog (get_object t) w) as [[s w1]| |] eqn:E; simpl; [|done..].
  destruct (run_get_inv _ _ _ _ E) as [Hs ->]. intros [= <- <-]. by exists s.
Qed.

Lemma dr_get_object n t : tri n (get_object t) (λ s, t = this → present = true ∧ object_ok s).
Proof.
  intros w s w' Hw [Hs ->]%run_get_inv _. split_and!; [done|lia|]. intros ->.
  pose proof (i_object _ _ Hw) as Ho. by rewrite Hs in Ho.
Qed.

(** Changing the object without reopening its guard. *)
Lemma dr_update n t f :
  (t = this → ∀ s, object_ok s → object_ok (f s) ∧ (handle_guard_ s = true → handle_guard_ (f s) = true)) →
  tri n (update_object t f) (λ _, True).
Proof.
  intros Hf w x w' Hw Hr Hg. destruct (run_update_inv _ _ _ _ _ Hr) as (s & Hs & ->).
  destruct (decide (t = this)) as [->|Hne].
  - destruct Hw. rewrite Hs in i_object0. destruct i_object0 as [-> Hok]. destruct (Hf eq_refl s Hok) as [Hok' Hguard].
    split_and!; [|unfold weight, settled, open; simpl|done].
    + constructor; simpl; try done. by rewrite lookup_insert_eq.
    + rewrite lookup_insert_eq, Hs. destruct (subscriptions_map_ w !! key); [|lia].
      destruct (handle_guard_ s); [by rewrite Hguard by done; lia|]. destruct (handle_guard_ (f s)); lia.
  - destruct (dr_set_object n t (f s) Hne w tt (set_objects (<[t := f s]> (objects w)) w)) as (? & ? & ?); by rewrite ?run_perform.
Qed.
End commands.

(** ** The programs *)
Section programs.
Context (present : bool) (key_wf : length key = 16%nat) (key_new : ∀ i, (i < bound)%nat → fresh_guid i ≠ key).
Abbreviation tri := (triple bound (Inv present) weight).

Lemma one_no t : t ≠ this → one (t = this) = 0%nat.
Proof. intros. unfold one. by rewrite decide_False. Qed.

#[local] Hint Extern 2 (triple _ _ _ _ (call_user _ _) _) => apply dr_call, Nat.le_0_l : triples.
#[local] Hint Extern 2 (triple _ _ _ _ (post _) _) => apply dr_post; [first [exact I|assumption]|apply Nat.le_0_l] : triples.
#[local] Hint Resolve dr_erase_operation dr_erase_subscription dr_put_subscription dr_set_object dr_cancel_timer
  dr_expires_after dr_make_timer dr_start dr_next_package_no dr_close_socket dr_get_object : triples.
#[local] Hint Extern 2 (triple _ _ _ _ make_guid _) => by apply dr_make_guid : triples.
#[local] Hint Extern 2 (triple _ _ _ _ (async_wait _ _) _) => apply dr_async_wait; simpl; first [exact I|assumption] : triples.
#[local] Hint Extern 2 (triple _ _ _ _ (put_operation _ _) _) =>
  apply dr_put_operation; [exact I|by intros []|apply Nat.le_0_l] : triples.
#[local] Hint Extern 2 (triple _ _ _ _ (update_operation _ _) _) => apply dr_update_operation; [exact I|done] : triples.
#[local] Hint Extern 2 (triple _ _ _ _ (update_object _ _) _) => by apply dr_update : triples.

(** *** Sending *)
Lemma dr_operation_op n k h :
  response_ok h → (response_weight h ≠ 0%nat → k = key) → (response_weight h ≤ n)%nat →
  tri n (operation_op k h) (λ _, True).
Proof.
  intros Hh Hk Hn. unfold operation_op. eapply triple_bind; [apply dr_make_timer|intros d _].
  eapply triple_bind; [apply triple_get_world|intros w _]. destruct (negb (alive w)); [apply triple_skip_any|].
  eapply triple_bind_first; [by apply dr_put_operation|intros _ _]. tri_walk.
Qed.

Lemma dr_send_with n p h :
  response_ok h → (response_weight h ≠ 0%nat → carries key p) → (response_weight h ≤ n)%nat →
  tri n (async_send_with p h) (λ _, True).
Proof.
  intros Hh Hk Hn. unfold async_send_with, async_send.
  eapply triple_bind; [apply triple_lift|intros v Hv]. eapply triple_bind; [apply triple_lift|intros c Hc].
  eapply triple_bind; [apply triple_lift|intros g Hg]. eapply triple_bind; [by apply dr_post|intros _ _].
  apply dr_operation_op; [done| |done]. intros Hw.
  rewrite (built_correlation_id key p v c (Hk Hw) key_wf Hv Hc) in Hg.
  rewrite Guid.guid_from_chars_self in Hg by done. by simplify_eq.
Qed.

Lemma dr_issue n build h : response_ok h → response_weight h = 0%nat → tri n (issue build h) (λ _, True).
Proof. intros Hh Hz. unfold issue. tri_walk. apply dr_send_with; [done|by rewrite Hz|lia]. Qed.
#[local] Hint Extern 2 (triple _ _ _ _ (issue _ _) _) => apply dr_issue; [first [exact I|assumption]|reflexivity] : triples.

(** *** Ending a subscription *)
Lemma shutdown_ok s : handle_guard_ (shutdown s) = handle_guard_ s ∧ (object_ok s → object_ok (shutdown s)).
Proof. unfold shutdown, object_ok. destruct s as [? ? ? ? ? ? []]; simpl; split; try done; by intros [? []]. Qed.

Lemma locked_ok s : object_ok s → object_ok (ended s) ∧ handle_guard_ (ended s) = true.
Proof.
  intros Hs. unfold ended. destruct (shutdown_ok (set_handle_guard true (set_is_subscribed false s))) as [-> Hk].
  split; [|done]. apply Hk. by destruct s.
Qed.

(** What comes after the guard is set. *)
Definition ending (t : nat) (ec : error_code) (dropped : nat) : prog unit :=
  if is_error ec unsubscribed then
    s ← get_object t;
    package ← lift (tcp_package_plain Command.unsubscribe_from_stream flags_none (key_ s)
                      (SerializeAsString mk_UnsubscribeFromStream));
    async_send_with package (on_unsubscribe t ec dropped)
  else post (drop_subscription t ec dropped).

Lemma dr_ending t ec d : tri (one (t = this)) (ending t ec d) (λ _, True).
Proof.
  unfold ending. destruct (is_error ec unsubscribed); [|by apply dr_post].
  eapply triple_bind; [apply dr_get_object|intros s Hs]. eapply triple_bind; [apply triple_lift|intros p Hp].
  apply dr_send_with; [done| |done]. simpl. unfold one. case_decide as Ht; [|done]. intros _.
  destruct (Hs Ht) as [_ [<- _]]. by apply tcp_package_plain_carries in Hp.
Qed.

Lemma dr_unsubscribe_dropping n t ec d : (one (t = this) ≤ n)%nat → tri n (unsubscribe_dropping t ec d) (λ _, True).
Proof.
  intros Hn. unfold unsubscribe_dropping. eapply triple_bind.
  - apply dr_update. intros _ s Hs. destruct (locked_ok s Hs) as [Hok E]. exact (conj Hok (λ _, E)).
  - intros _ _. eapply triple_weaken; [apply (dr_ending t ec d)|done|done].
Qed.

(** The drop that the registered lambda may cause is paid by its guard. *)
Lemma drop_cost ec d w x w' :
  Inv present w → run_prog (unsubscribe_dropping this ec d) w = Ret (x, w') → (guids w' ≤ bound)%nat →
  Inv present w' ∧ (weight w' + open w ≤ 1 + weight w)%nat.
Proof.
  intros Hw Hr Hg. unfold unsubscribe_dropping in Hr. rewrite run_bind in Hr.
  destruct (run_prog (update_object _ _) w) as [[y w1]| |] eqn:E; simpl in Hr; [|done..].
  destruct (run_update_inv _ _ _ _ _ E) as (s & Hs & Hw1).
  destruct (dr_unsubscribe_dropping 1 this ec d) with w x w' as (Hw' & _ & _);
    [unfold one; case_decide; lia|done|by unfold unsubscribe_dropping; rewrite run_bind, E|done|].
  split; [done|]. pose proof (i_object _ _ Hw) as Ho. rewrite Hs in Ho. destruct (locked_ok s (proj2 Ho)) as [Hok Hguard].
  assert (Inv present w1) as Hi1.
  { subst w1. destruct Hw. constructor; simpl; try done. rewrite lookup_insert_eq. by split; [apply Ho|]. }
  destruct (dr_ending this ec d w1 x w' Hi1 Hr Hg) as (_ & Hle & _).
  assert (open w1 = 0%nat) as Ho1.
  { subst w1. unfold open. simpl. rewrite lookup_insert_eq. destruct (_ !! key); [|done].
    change (handle_guard_ (shutdown (set_handle_guard true (set_is_subscribed false s)))) with (handle_guard_ (ended s)).
    by rewrite Hguard. }
  assert (settled w1 = settled w) as Hs1 by (by subst w1).
  unfold weight in *. rewrite Ho1, Hs1 in Hle. unfold one in Hle. rewrite decide_True in Hle by done. lia.
Qed.

Lemma dr_run_drop n t ec d : (one (t = this) ≤ n)%nat → tri n (run_drop t ec d) (λ _, True).
Proof.
  intros Hn. unfold run_drop. eapply triple_bind; [apply dr_get_object|intros s _].
  eapply triple_bind; [apply dr_erase_subscription|intros _ _]. by apply dr_call.
Qed.

Lemma dr_unsubscribe_response n t ec d err :
  (one (t = this) ≤ n)%nat → tri n (unsubscribe_response t ec d err) (λ _, True).
Proof.
  intros Hn. unfold unsubscribe_response. destruct (negb (failed err)); [by apply dr_run_drop|by apply dr_unsubscribe_dropping].
Qed.

Lemma other_dropping n t ec d : t ≠ this → tri n (unsubscribe_dropping t ec d) (λ _, True).
Proof. intros Ht. apply dr_unsubscribe_dropping. rewrite one_no by done. lia. Qed.
#[local] Hint Resolve other_dropping : triples.

(** A call of a lambda that is in the map. *)
Definition kept {A} (p : prog A) (w : world) : Prop :=
  ∀ x w', run_prog p w = Ret (x, w') → (guids w' ≤ bound)%nat → Inv present w' ∧ (weight w' ≤ weight w)%nat.

Lemma kept_triple {A} (p : prog A) Q w : tri 0 p Q → Inv present w → kept p w.
Proof. intros Hp Hw x w' Hr Hg. by destruct (Hp _ _ _ Hw Hr Hg) as (? & ? & _). Qed.

Lemma triple_kept {A} n (p : prog A) : (∀ w, Inv present w → kept p w) → tri n p (λ _, True).
Proof. intros Hp w x w' Hw Hr Hg. destruct (Hp w Hw x w' Hr Hg). split_and!; [done|lia|done]. Qed.

Lemma kept_get_object {A} t (f : subscription → prog A) w :
  (∀ s, objects w !! t = Some s → kept (f s) w) → kept (s ← get_object t; f s) w.
Proof.
  intros Hf x w' Hr Hg. rewrite run_bind in Hr. destruct (run_prog (get_object t) w) as [[s w1]| |] eqn:E; simpl in Hr; [|done..].
  destruct (run_get_inv _ _ _ _ E) as [Hs ->]. by eapply Hf.
Qed.

Lemma kept_lift {A B} (o : outcome A) (f : A → prog B) w :
  (∀ a, o = Ret a → kept (f a) w) → kept (a ← lift o; f a) w.
Proof. intros Hf x w' (a & Ha & Hr)%run_lift_inv Hg. by eapply Hf. Qed.

Lemma kept_skip w : Inv present w → kept skip w.
Proof. intros Hw. eapply kept_triple; [|done]. apply triple_skip_any. Qed.

(** The object's lambda is registered, under the object's key only. *)
Lemma open_lambda w k c s :
  Inv present w → subscriptions_map_ w !! k = Some c → sc_this c = this → objects w !! this = Some s →
  handle_guard_ s = false → open w = 1%nat.
Proof.
  intros Hw Hk Hc Hs Hg. destruct (i_subs _ _ Hw k c Hk Hc) as [-> _]. unfold open. rewrite Hk, Hs, Hg.
  unfold one. by rewrite decide_True.
Qed.

Lemma kept_dropping w ec d : Inv present w → open w = 1%nat → kept (unsubscribe_dropping this ec d) w.
Proof. intros Hw Ho x w' Hr Hg. destruct (drop_cost _ _ _ _ _ Hw Hr Hg) as [? ?]. split; [done|lia]. Qed.

Lemma kept_lambda_on_error w k c ec : Inv present w → subscriptions_map_ w !! k = Some c → kept (lambda_on_error c ec) w.
Proof.
  intros Hw Hk. unfold lambda_on_error. apply kept_get_object. intros s Hs.
  destruct (handle_guard_ s) eqn:Hg; [by apply kept_skip|].
  destruct (decide (sc_this c = this)) as [E|Hne]; [|by eapply kept_triple; [apply other_dropping|]].
  rewrite E in *. apply kept_dropping; [done|]. by eapply open_lambda.
Qed.

Lemma at_key_Some {A} (m : operations_map A) k a : at_key m k = Ret a → m !! k = Some a.
Proof. unfold at_key. destruct (m !! k); [by intros [= ->]|done]. Qed.

Lemma kept_get_world {A} (f : world → prog A) w : kept (f w) w → kept (w ← get_world; f w) w.
Proof. intros Hf x w' Hr. exact (Hf x w' Hr). Qed.

Lemma dr_unsubscribe_with n t ec : tri n (unsubscribe_with t ec) (λ _, True).
Proof.
  apply triple_kept. intros w Hw. unfold unsubscribe_with. apply kept_get_object. intros s _. apply kept_get_world.
  apply kept_lift. intros c Hc%at_key_Some. by eapply kept_lambda_on_error.
Qed.
#[local] Hint Resolve dr_unsubscribe_with : triples.

(** *** Starting *)
Lemma other_start n t a d : t ≠ this → tri n (base_async_start t a d) (λ _, True).
Proof. intros. unfold base_async_start. tri_walk. Qed.

Lemma this_start a d : tri 1 (base_async_start this a d) (λ _, True).
Proof.
  intros w x w' Hw Hr Hg. unfold base_async_start in Hr. rewrite run_bind in Hr.
  destruct (run_prog (update_object _ _) w) as [[y w1]| |] eqn:E; cbn [mbind outcome_bind fst snd] in Hr; [|done..].
  destruct (run_update_inv _ _ _ _ _ E) as (s & Hs & ->). rewrite run_bind in Hr.
  destruct (run_prog (get_object this) _) as [[s1 w2]| |] eqn:E1; simpl in Hr; [|done..].
  destruct (run_get_inv _ _ _ _ E1) as [Hs1 ->]. simplify_eq. simpl in Hs1. rewrite lookup_insert_eq in Hs1. simplify_eq.
  destruct Hw. rewrite Hs in i_object0. destruct i_object0 as [Hp Hok].
  split_and!; [|unfold weight, settled, open; simpl|done].
  - constructor; simpl; try done; [by rewrite lookup_insert_eq|]. unfold register_op. destruct (_ !! key_ s); [done|].
    apply map_Forall_insert_2; [|done]. simpl. intros _. split; [|done]. apply Hok.
  - destruct (register_op _ _ _ !! key); [|lia]. rewrite lookup_insert_eq. unfold one.
    destruct (handle_guard_ _); [lia|]. case_decide; lia.
Qed.

Lemma dr_volatile_async_start n t b a d :
  t ≠ this ∨ n = 1%nat → tri n (volatile_async_start t b a d) (λ _, True).
Proof.
  intros Hn. unfold volatile_async_start, async_send. do 3 (eapply triple_bind; [tri_walk|intros ? _]).
  eapply triple_bind_first; [|intros _ _; tri_walk]. destruct (decide (t = this)) as [->|]; [|by apply other_start].
  destruct Hn as [| ->]; [done|apply this_start].
Qed.
Lemma dr_persistent_async_start n t g i a d :
  t ≠ this ∨ n = 1%nat → tri n (persistent_async_start t g i a d) (λ _, True).
Proof.
  intros Hn. unfold persistent_async_start, async_send. do 3 (eapply triple_bind; [tri_walk|intros ? _]).
  eapply triple_bind_first; [|intros _ _; tri_walk]. destruct (decide (t = this)) as [->|]; [|by apply other_start].
  destruct Hn as [| ->]; [done|apply this_start].
Qed.

(** *** The packages of a subscription *)
Lemma dr_acknowledge n t items : tri n (acknowledge t items) (λ _, True).
Proof. unfold acknowledge, async_send. tri_walk. Qed.
Lemma dr_fail n t items action : tri n (fail t items action) (λ _, True).
Proof. unfold fail, async_send. tri_walk. Qed.
#[local] Hint Resolve dr_acknowledge dr_fail : triples.

Lemma confirm_ok c n s : object_ok s →
  object_ok (confirm_event_number n (confirm c s)) ∧
  (handle_guard_ s = true → handle_guard_ (confirm_event_number n (confirm c s)) = true).
Proof. by destruct n, s. Qed.

Lemma dr_volatile_package n c v : tri n (volatile_on_package_received c v) (λ _, True).
Proof.
  unfold volatile_on_package_received. eapply triple_bind; [apply triple_lift|intros cmd _].
  case_bool_decide; [|case_bool_decide; tri_walk]. eapply triple_bind; [tri_walk|intros r _].
  eapply triple_bind; [|intros; apply triple_ret_any]. apply dr_update. intros _ s. apply confirm_ok.
Qed.

Lemma dr_persistent_package n g i b c v : tri n (persistent_on_package_received g i b c v) (λ _, True).
Proof.
  unfold persistent_on_package_received. eapply triple_bind; [apply triple_lift|intros cmd _].
  case_bool_decide; [|tri_walk]. eapply triple_bind; [tri_walk|intros r _].
  eapply triple_bind; [|intros; apply triple_ret_any]. apply dr_update. intros _ s [Hk Hp].
  destruct s, (pconf_last_event_number r); by split.
Qed.

(** *** The catch-up subscriptions, which are other objects *)
Lemma other_update n t f : t ≠ this → tri n (update_object t f) (λ _, True).
Proof. intros Ht. by apply dr_update. Qed.
#[local] Hint Resolve other_update dr_volatile_package dr_persistent_package : triples.
#[local] Hint Extern 2 (triple _ _ _ _ (volatile_async_start _ _ _ _) _) => apply dr_volatile_async_start; by left : triples.

Lemma dr_through_reference n r t : tri n (through_reference r t) (λ _, True).
Proof. unfold through_reference. tri_walk. Qed.
#[local] Hint Resolve dr_through_reference : triples.
Lemma dr_call_reference n r t a c : (call_weight (a, c) ≤ 0)%nat → tri n (call_reference r t a c) (λ _, True).
Proof. intros. unfold call_reference. tri_walk. apply dr_call. lia. Qed.
#[local] Hint Extern 2 (triple _ _ _ _ (call_reference _ _ _ _) _) => apply dr_call_reference, Nat.le_0_l : triples.
Lemma other_drop_reference n r t ec d : t ≠ this → tri n (drop_reference r t ec d) (λ _, True).
Proof. intros. unfold drop_reference. tri_walk. Qed.
#[local] Hint Resolve other_drop_reference : triples.

Lemma dr_catchup_members n t : tri n (catchup_members t) (λ _, True).
Proof. unfold catchup_members. tri_walk. Qed.
Lemma other_set_members n t m c b : t ≠ this → tri n (set_catchup_members t m c b) (λ _, True).
Proof. intros. unfold set_catchup_members. tri_walk. Qed.
#[local] Hint Resolve dr_catchup_members other_set_members : triples.
Lemma other_increment n t : t ≠ this → tri n (increment_event_number t) (λ _, True).
Proof. intros. unfold increment_event_number. tri_walk. Qed.
#[local] Hint Resolve other_increment : triples.
Lemma dr_catch_up_events n t from count r : reader_ok r → tri n (catch_up_events t from count r) (λ _, True).
Proof. intros. unfold catch_up_events, async_read_stream_events. tri_walk. Qed.
#[local] Hint Extern 2 (triple _ _ _ _ (catch_up_events _ _ _ _) _) => by apply dr_catch_up_events : triples.
Lemma other_catchup_start n t a d : t ≠ this → tri n (catchup_async_start t a d) (λ _, True).
Proof. intros. unfold catchup_async_start. tri_walk. Qed.
Lemma other_catchup_do_start n t a d : t ≠ this → tri n (catchup_do_async_start t a d) (λ _, True).
Proof. intros. unfold catchup_do_async_start. tri_walk. Qed.
#[local] Hint Resolve other_catchup_start other_catchup_do_start : triples.
Lemma other_historical t a d ec r : t ≠ this → tri 0 (historical_slice_read t a d ec r) (λ _, True).
Proof. intros. unfold historical_slice_read. tri_walk. Qed.
Lemma other_catch_up_missed n r t count a d : t ≠ this → tri n (catch_up_missed_events r t count a d) (λ _, True).
Proof. intros. unfold catch_up_missed_events. tri_walk. Qed.
#[local] Hint Resolve other_historical other_catch_up_missed : triples.
Lemma other_missed r t a d count ec o : t ≠ this → tri 0 (missed_slice_read r t a d count ec o) (λ _, True).
Proof. intros. unfold missed_slice_read. tri_walk. Qed.
Lemma other_read_one_event n r t a : t ≠ this → tri n (read_one_event r t a) (λ _, True).
Proof. intros. unfold read_one_event. tri_walk. Qed.
#[local] Hint Resolve other_missed other_read_one_event : triples.
Lemma other_read_events n rounds r t a : t ≠ this → tri n (read_events rounds r t a) (λ _, True).
Proof. intros. induction rounds; cbn [read_events]; tri_walk. Qed.
#[local] Hint Resolve other_read_events : triples.
Lemma other_read_subscription_events n r t a : t ≠ this → tri n (read_subscription_events r t a) (λ _, True).
Proof. intros. unfold read_subscription_events. tri_walk. Qed.
#[local] Hint Resolve other_read_subscription_events : triples.
Lemma other_catchup_package n c v : sc_this c ≠ this → tri n (catchup_on_package_received c v) (λ _, True).
Proof. intros. unfold catchup_on_package_received. tri_walk. Qed.

Lemma dr_all_members n t : tri n (catchup_all_members t) (λ _, True).
Proof. unfold catchup_all_members. tri_walk. Qed.
#[local] Hint Resolve dr_all_members : triples.
Lemma other_update_members n t f : t ≠ this → tri n (update_all_members t f) (λ _, True).
Proof. intros. unfold update_all_members. tri_walk. Qed.
#[local] Hint Resolve other_update_members : triples.
Lemma dr_catch_up_all_events n t from count r : reader_ok r → tri n (catch_up_all_events t from count r) (λ _, True).
Proof. intros. unfold catch_up_all_events, async_read_all_events. tri_walk. Qed.
#[local] Hint Extern 2 (triple _ _ _ _ (catch_up_all_events _ _ _ _) _) => by apply dr_catch_up_all_events : triples.
Lemma other_all_start n t a d : t ≠ this → tri n (catchup_all_async_start t a d) (λ _, True).
Proof. intros. unfold catchup_all_async_start. tri_walk. Qed.
Lemma other_all_do_start n t a d : t ≠ this → tri n (catchup_all_do_async_start t a d) (λ _, True).
Proof. intros. unfold catchup_all_do_async_start. tri_walk. Qed.
#[local] Hint Resolve other_all_start other_all_do_start : triples.
Lemma other_historical_all t a d ec r : t ≠ this → tri 0 (historical_all_slice_read t a d ec r) (λ _, True).
Proof. intros. unfold historical_all_slice_read. tri_walk. Qed.
Lemma other_catch_up_missed_all n r t count a d : t ≠ this → tri n (catch_up_missed_all_events r t count a d) (λ _, True).
Proof. intros. unfold catch_up_missed_all_events. tri_walk. Qed.
Lemma other_read_one_all n r t a : t ≠ this → tri n (read_one_all_event r t a) (λ _, True).
Proof. intros. unfold read_one_all_event. tri_walk. Qed.
#[local] Hint Resolve other_historical_all other_catch_up_missed_all other_read_one_all : triples.
Lemma other_read_all_buffered n rounds r t a : t ≠ this → tri n (read_all_buffered rounds r t a) (λ _, True).
Proof. intros. induction rounds; cbn [read_all_buffered]; tri_walk. Qed.
#[local] Hint Resolve other_read_all_buffered : triples.
Lemma other_read_all_events n r t a : t ≠ this → tri n (read_all_subscription_events r t a) (λ _, True).
Proof. intros. unfold read_all_subscription_events. tri_walk. Qed.
Lemma other_missed_all_loop n r t a l : t ≠ this → tri n (missed_all_loop r t a l) (λ _, True).
Proof. intros. induction l; cbn [missed_all_loop]; tri_walk. Qed.
#[local] Hint Resolve other_read_all_events other_missed_all_loop : triples.
Lemma other_missed_all r t a d count ec o : t ≠ this → tri 0 (missed_all_slice_read r t a d count ec o) (λ _, True).
Proof. intros. unfold missed_all_slice_read. tri_walk. Qed.
#[local] Hint Resolve other_missed_all : triples.
Lemma other_catchup_all_package n c v : sc_this c ≠ this → tri n (catchup_all_on_package_received c v) (λ _, True).
Proof. intros. unfold catchup_all_on_package_received. tri_walk. Qed.

(** *** The responses *)
Lemma dr_call_with {R} n u (f : R → callback) c :
  (∀ r, (call_weight (u, f r) ≤ n)%nat) → tri n (call_with u f c) (λ _, True).
Proof.
  intros Hf. unfold call_with. eapply triple_bind; [apply triple_lift|].
  intros [r|] _; [by apply dr_call|apply triple_skip_any].
Qed.

Lemma dr_stream_slice_read n r ec slice : reader_ok r → tri n (stream_slice_read r ec slice) (λ _, True).
Proof.
  intros Hr. eapply (triple_weaken _ _ _ _ 0); [|lia|done].
  destruct r; simpl in *; [by apply dr_call|by apply other_historical|by apply other_missed].
Qed.
Lemma dr_all_slice_read n r ec slice : reader_ok r → tri n (all_slice_read r ec slice) (λ _, True).
Proof.
  intros Hr. eapply (triple_weaken _ _ _ _ 0); [|lia|done].
  destruct r; simpl in *; [by apply dr_call|by apply other_historical_all|by apply other_missed_all].
Qed.

Lemma dr_run_response h ec v : response_ok h → tri (response_weight h) (run_response h ec v) (λ _, True).
Proof.
  intros Hh. destruct h; cbn [run_response response_weight]; try (apply dr_call_with; intros; apply Nat.le_0_l).
  - eapply triple_bind; [apply triple_lift|]. intros [[ec' slice]|] _; [by apply dr_stream_slice_read|apply triple_skip_any].
  - eapply triple_bind; [apply triple_lift|]. intros [[ec' slice]|] _; [by apply dr_all_slice_read|apply triple_skip_any].
  - by apply dr_unsubscribe_response.
Qed.

(** *** The connection's own operations *)
Lemma dr_connection_lambda n h ec v g : tri n (connection_lambda h ec v g) (λ _, True).
Proof. unfold connection_lambda. destruct h; tri_walk. Qed.
#[local] Hint Resolve dr_connection_lambda : triples.
Lemma dr_identify_initiate n t info r h b :
  identity_correlation_id info ≠ key → tri n (identify_initiate t info r h b) (λ _, True).
Proof. intros. unfold identify_initiate, async_send. tri_walk. Qed.
#[local] Hint Resolve dr_identify_initiate : triples.
Lemma dr_identify_op n h b : tri n (identify_op h b) (λ _, True).
Proof. unfold identify_op. tri_walk. Qed.
#[local] Hint Resolve dr_identify_op : triples.
Lemma dr_identification_closure n h t b g ec v : tri n (identification_closure h t b g ec v) (λ _, True).
Proof. unfold identification_closure. tri_walk. Qed.
Lemma dr_authentication_closure n k h t ec v : tri n (authentication_closure k h t ec v) (λ _, True).
Proof. unfold authentication_closure, authentication_handler. tri_walk. Qed.
Lemma dr_authenticate_op n u : tri n (authenticate_op u) (λ _, True).
Proof. unfold authenticate_op, async_send. tri_walk. Qed.
#[local] Hint Resolve dr_identification_closure dr_authentication_closure dr_authenticate_op : triples.

Lemma dr_run_operation k op ec v : op_ok op → tri (op_weight op) (run_operation k op ec v) (λ _, True).
Proof.
  intros Hop. destruct op; cbn [run_operation op_weight]; [|tri_walk..].
  eapply triple_bind; [apply dr_cancel_timer|intros _ _]. by apply dr_run_response.
Qed.

(** *** Calling an operation and erasing it *)

(** Registering never replaces: what is registered stays until it is erased
    or changed. *)
Section stays.
Context (op : operation_closure).
Abbreviation stays := (triple bound (λ w, operations_map_ w !! key = Some op) (λ _, 0%nat) 0).

Definition keeps_operations {A} (c : cmd A) : Prop :=
  match c with Do_update_operation _ _ | Do_erase_operation _ => False | _ => True end.

Lemma stays_command {A} (c : cmd A) : keeps_operations c → stays (perform c) (λ _, True).
Proof.
  intros Hc. apply triple_quiet. intros w a w' Hw Hr.
  destruct c; cbn [run_cmd keeps_operations] in *; try done; inv_ret; simplify_eq; split; try done;
    try (by rewrite ?abort_wait_operations).
  - simpl. destruct (decide (key0 = key)) as [->|]; [by rewrite lookup_register_op, Hw|by rewrite lookup_register_op_ne].
  - by destruct o.
Qed.

#[local] Hint Extern 5 (triple _ _ _ _ _ _) => apply stays_command; exact I : triples.

Lemma stays_update t f : stays (update_object t f) (λ _, True).
Proof. unfold update_object, get_object. tri_walk. Qed.
Lemma stays_unsubscribe_response t ec d err : stays (unsubscribe_response t ec d err) (λ _, True).
Proof.
  unfold unsubscribe_response, run_drop, unsubscribe_dropping, async_send_with, async_send, operation_op, get_object.
  pose proof stays_update. tri_walk.
Qed.
End stays.

Lemma at_key_op w k op :
  Inv present w → at_key (operations_map_ w) k = Ret op → op_ok op ∧ (op_weight op ≠ 0%nat → k = key).
Proof. intros Hw Hat%at_key_Some. by apply (i_ops _ _ Hw). Qed.

(** The weight of the operation becomes that of the call. *)
Lemma call_op_and_erase k op ec v w :
  Inv present w → at_key (operations_map_ w) k = Ret op → kept (run_operation k op ec v;; erase_operation k) w.
Proof.
  intros Hw Hat. destruct (at_key_op _ _ _ Hw Hat) as [Hok Hk].
  destruct (decide (op_weight op = 0%nat)) as [Hz|Hone].
  - eapply kept_triple; [|done]. eapply triple_bind; [|intros; apply dr_erase_operation].
    pose proof (dr_run_operation k op ec v Hok) as Ht. by rewrite Hz in Ht.
  - specialize (Hk Hone) as ->. apply at_key_Some in Hat. intros x w' Hr Hg. rewrite run_bind in Hr.
    destruct (run_prog (run_operation key op ec v) w) as [[y w1]| |] eqn:E; simpl in Hr; [|done..]. simplify_eq.
    destruct (dr_run_operation key op ec v Hok w y w1 Hw E Hg) as (Hw1 & Hle & _).
    assert (operations_map_ w1 !! key = Some op) as Hstay.
    { destruct op as [h t|? ?|? ? ? ?]; [|done..]. destruct h; try done. cbn [run_operation run_response] in E.
      rewrite run_bind in E. simpl in E.
      by eapply (stays_unsubscribe_response (op_response (on_unsubscribe sub ec0 dropped) t));
        [|exact E|exact Hg]; rewrite abort_wait_operations. }
    split.
    + destruct Hw1. constructor; simpl; try done. by apply map_Forall_delete.
    + unfold weight, settled, open in *. simpl. unfold erase. rewrite lookup_delete_eq. rewrite Hstay in Hle. simpl in *. lia.
Qed.

Lemma kept_call_and_erase k ec v w :
  Inv present w →
  kept (op ← lift (at_key (operations_map_ w) k); run_operation k op ec v;; erase_operation k) w.
Proof. intros Hw. apply kept_lift. intros op Hat. by apply call_op_and_erase. Qed.

Lemma dr_operation_wait n k ec : tri n (operation_wait_completed k ec) (λ _, True).
Proof.
  apply triple_kept. intros w Hw. unfold operation_wait_completed. apply kept_get_world.
  cbn [invoke_operation client_dispatch]. destruct (negb (alive w)); [by apply kept_skip|].
  destruct (negb (failed ec)); [by apply kept_call_and_erase|]. case_bool_decide; [by apply kept_skip|].
  destruct (contains _ _); [by apply kept_call_and_erase|by apply kept_skip].
Qed.

(** A wait that calls the operation under its own key, which is not the
    subscription's. *)
Lemma other_operation k ec v w :
  k ≠ key → Inv present w → kept (op ← lift (at_key (operations_map_ w) k); run_operation k op ec v) w.
Proof.
  intros Hk Hw. apply kept_lift. intros op Hat. destruct (at_key_op _ _ _ Hw Hat) as [Hok Hkey].
  eapply kept_triple; [|done]. pose proof (dr_run_operation k op ec v Hok) as Ht.
  destruct (op_weight op) eqn:E; [exact Ht|]. by destruct Hk, Hkey.
Qed.

Lemma dr_run_waiter n x t ec : waiter_ok x → tri n (run_waiter x t ec) (λ _, True).
Proof.
  intros Hx. destruct x; cbn [run_waiter]; simpl in Hx.
  - apply dr_operation_wait.
  - unfold heartbeat_wait_completed, heartbeat_initiate, heartbeat_error, async_send, close. tri_walk.
  - apply triple_kept. intros w Hw. unfold authenticate_wait_completed. apply kept_get_world.
    cbn [invoke_operation client_dispatch]. destruct (negb (alive w)); [by apply kept_skip|].
    destruct (negb (failed ec)); [by apply other_operation|]. destruct (negb _); [by apply other_operation|by apply kept_skip].
  - apply triple_kept. intros w Hw. unfold identify_wait_completed. apply kept_get_world.
    cbn [invoke_operation client_dispatch]. destruct (negb (alive w)); [by apply kept_skip|].
    destruct (negb (failed ec)).
    + destruct (_ && _); [|by apply other_operation]. eapply kept_triple; [by apply dr_identify_initiate|done].
    + destruct (negb _); [by apply other_operation|by apply kept_skip].
Qed.

(** *** The registered lambda *)
Lemma child_declines c s w v w' :
  objects w !! sc_this c = Some s → push (kind_ s) →
  run_prog (child_on_package_received c v) w = Ret (false, w') → w' = w.
Proof.
  intros Hs Hp. unfold child_on_package_received. rewrite run_bind, (run_get_object _ _ _ Hs). cbn [mbind outcome_bind fst snd].
  destruct (kind_ s); [| |done..]; unfold volatile_on_package_received, persistent_on_package_received;
    intros (cmd & _ & Hr)%run_lift_inv; repeat case_bool_decide;
    repeat first [apply run_lift_inv in Hr as (? & _ & Hr)|apply run_perform_inv in Hr as (? & ? & _ & Hr)|
      rewrite run_bind in Hr; destruct (run_prog _ _) as [[? ?]| |] in Hr; cbn [mbind outcome_bind fst snd] in Hr];
    try done; by injection Hr.
Qed.

Lemma dr_child n c v :
  sc_this c ≠ this → tri n (child_on_package_received c v) (λ _, True).
Proof.
  intros Hc. unfold child_on_package_received. eapply triple_bind; [apply dr_get_object|]. intros s _.
  destruct (kind_ s); [apply dr_volatile_package|apply dr_persistent_package|
    by apply other_catchup_package|by apply other_catchup_all_package].
Qed.
#[local] Hint Resolve dr_child : triples.

Lemma kept_child c s v w :
  Inv present w → objects w !! sc_this c = Some s → push (kind_ s) → kept (child_on_package_received c v) w.
Proof.
  intros Hw Hs Hp. unfold child_on_package_received. apply kept_get_object. intros s' Hs'.
  rewrite Hs in Hs'. injection Hs' as <-. destruct (kind_ s); [| |done..].
  - eapply kept_triple; [apply dr_volatile_package|done].
  - eapply kept_triple; [apply dr_persistent_package|done].
Qed.

Lemma kept_subscription_lambda w k c ec v :
  Inv present w → subscriptions_map_ w !! k = Some c →
  kept (subscription_lambda child_on_package_received c ec v) w.
Proof.
  intros Hw Hk. destruct (decide (sc_this c = this)) as [E|Hne].
  2: { eapply kept_triple; [|done]. unfold subscription_lambda, lambda_on_package. tri_walk. }
  unfold subscription_lambda. apply kept_get_object. intros s Hs.
  destruct (handle_guard_ s) eqn:Hg; [by apply kept_skip|].
  assert (open w = 1%nat) as Hopen by (rewrite E in Hs; by eapply open_lambda).
  assert (∀ e, kept (unsubscribe_dropping (sc_this c) e (sc_dropped c)) w) as Hdrop.
  { intros e. rewrite E. by apply kept_dropping. }
  destruct (failed ec); [done|].
  assert (push (kind_ s)) as Hp by (pose proof (i_object _ _ Hw) as Ho; rewrite E in Hs; rewrite Hs in Ho; apply Ho).
  unfold lambda_on_package. intros x w' Hr Hgu. rewrite run_bind in Hr.
  destruct (run_prog (child_on_package_received c v) w) as [[[] w1]| |] eqn:Hchild; cbn [mbind outcome_bind fst snd] in Hr; [| |done..].
  - simpl in Hr. simplify_eq. exact (kept_child c s v w Hw Hs Hp _ _ Hchild Hgu).
  - rewrite (child_declines _ _ _ _ _ Hs Hp Hchild) in Hr. revert x w' Hr Hgu.
    match goal with |- ∀ x w', run_prog ?p ?w = _ → _ => change (kept p w) end.
    apply kept_lift. intros cmd _.
    case_bool_decide.
    { apply kept_lift. intros r _. destruct (sd_reason r); try apply Hdrop; by apply kept_skip. }
    case_bool_decide; [apply Hdrop|]. case_bool_decide; [apply Hdrop|]. case_bool_decide; [|apply Hdrop].
    apply kept_get_object. intros s' _. destruct (subscribed_ s'); [apply Hdrop|].
    apply kept_lift. intros r _. apply Hdrop.
Qed.

Lemma dr_on_package_received n ec v : tri n (on_package_received ec v) (λ _, True).
Proof.
  unfold on_package_received, async_send. do 3 (eapply triple_bind; [tri_walk|intros ? _]).
  apply triple_kept. intros w Hw. apply kept_get_world. cbn [invoke_operation invoke_subscription client_dispatch].
  destruct (contains _ _); [by apply kept_call_and_erase|]. destruct (contains _ _).
  - apply kept_lift. intros c Hc%at_key_Some. by eapply kept_subscription_lambda.
  - eapply kept_triple; [tri_walk|done].
Qed.
#[local] Hint Resolve dr_on_package_received : triples.

Lemma dr_receive_completed n ec m k : tri n (receive_completed ec m k) (λ _, True).
Proof. unfold receive_completed, receive_token, async_start_receive, close. tri_walk. Qed.

(** *** The jobs *)
Lemma other_run_read_buffered n r t u : t ≠ this → tri n (run_read_buffered r t u) (λ _, True).
Proof. intros. unfold run_read_buffered. tri_walk. Qed.
Lemma dr_endpoint_discovered n u ec e : tri n (endpoint_discovered u ec e) (λ _, True).
Proof. unfold endpoint_discovered. tri_walk. Qed.
Lemma dr_tcp_connected n u ec : tri n (tcp_connected u ec) (λ _, True).
Proof.
  unfold tcp_connected, async_start_receive, heartbeat_op, heartbeat_initiate, heartbeat_error, async_send, close.
  tri_walk.
Qed.
End programs.

(** ** The steps of the client *)
Section steps.
Context (key_wf : length key = 16%nat) (key_new : ∀ i, (i < bound)%nat → fresh_guid i ≠ key).

Definition costs (present : bool) (n : nat) (p : prog unit) : Prop := triple bound (Inv present) weight n p (λ _, True).

Lemma transaction_call_costs present t c : costs present 0 (run_transaction_call t c;; skip).
Proof.
  unfold costs. destruct c as [u|events u|]; cbn [run_transaction_call]; unfold async_commit, async_write_events;
    (eapply triple_bind; [|intros; apply triple_skip_any]); try destruct (failed _);
    try (eapply triple_bind; [|intros; apply triple_ret_any]); try (by apply dr_post); try (by apply dr_issue).
  apply triple_ret_any.
Qed.

(** How the user treats the object: it is created at most once, as a volatile
    or a persistent subscription with the key, and not destroyed. *)
Definition push_args (a : subscription_args) : Prop :=
  match a with
  | args_volatile _ _ | args_volatile_all _ | args_persistent _ _ _ _ => True
  | args_catchup _ _ _ | args_catchup_all _ _ => False
  end.
Definition event_ok (present : bool) (e : event) : Prop :=
  match e with
  | ev_api (api_new_subscription t k args) => t = this → present = false ∧ k = key ∧ push_args args
  | ev_destroy t => t ≠ this
  | _ => True
  end.
Definition created (present : bool) (e : event) : bool :=
  match e with ev_api (api_new_subscription t _ _) => present || bool_decide (t = this) | _ => present end.
Definition start_weight (e : event) : nat :=
  match e with ev_api (api_start_subscription t _ _) => one (t = this) | _ => 0 end.

Lemma api_costs present a :
  event_ok present (ev_api a) → created present (ev_api a) = present →
  costs present (start_weight (ev_api a)) (run_api a).
Proof.
  intros Ha Hc. unfold costs. destruct a; cbn [run_api start_weight];
    unfold async_append_to_stream, async_conditional_append_to_stream, async_delete_stream,
      async_start_transaction, async_read_stream_event, async_read_stream_events, async_read_all_events,
      async_get_stream_metadata, async_set_stream_metadata, async_create_persistent_subscription,
      async_update_persistent_subscription, async_delete_persistent_subscription; try (by apply dr_issue).
  - unfold async_connect, connect_initiate. tri_walk. apply dr_start.
  - apply dr_close_socket.
  - apply transaction_call_costs.
  - eapply triple_bind; [by apply dr_make_guid|intros ? _]. by apply dr_issue.
  - apply dr_set_object. intros ->. simpl in Ha, Hc. destruct (Ha eq_refl) as [-> _]. by rewrite bool_decide_eq_true_2 in Hc.
  - unfold start_subscription. eapply triple_bind; [apply dr_get_object|intros s Hs].
    destruct (decide (this0 = this)) as [Ht|Ht].
    + destruct (Hs Ht) as [_ [_ Hp]]. unfold one. rewrite decide_True by done.
      destruct (kind_ s); [apply dr_volatile_async_start; auto|apply dr_persistent_async_start; auto|done..].
    + unfold one. rewrite decide_False by done.
      destruct (kind_ s); [apply dr_volatile_async_start; auto|apply dr_persistent_async_start; auto|
        by apply other_catchup_start|by apply other_all_start].
  - by apply dr_unsubscribe_with.
  - by apply dr_acknowledge.
  - by apply dr_fail.
Qed.

Lemma effect_costs present n p w w1 :
  costs present n p → Inv present w → effect p w = Ret w1 → (guids w1 ≤ bound)%nat →
  Inv present w1 ∧ (weight w1 ≤ n + weight w)%nat.
Proof.
  unfold effect. intros Hp Hw Hr Hg. destruct (run_prog p w) as [[a w2]| |] eqn:E; simpl in Hr; simplify_eq.
  by destruct (Hp _ _ _ Hw E Hg) as (? & ? & _).
Qed.

(** The creation of the object. *)
Lemma creation_inv k args w :
  Inv false w → k = key → push_args args →
  let w1 := set_objects (<[this := make_subscription k args]> (objects w)) w in
  Inv true w1 ∧ weight w1 = weight w.
Proof.
  intros [] -> Hargs w1. assert (object_ok (make_subscription key args)) as Hok by by destruct args.
  destruct (objects w !! this) as [s|] eqn:Hs; [by destruct i_object0|]. split.
  - constructor; simpl; try done; [by rewrite lookup_insert_eq|].
    intros k c Hk Hc. by destruct (i_subs0 k c Hk Hc).
  - unfold weight, settled, open; simpl. rewrite Hs. destruct (subscriptions_map_ w !! key) as [c|] eqn:Hk; [|done].
    rewrite lookup_insert_eq. unfold one. case_decide as Hc; [by destruct (i_subs0 key c Hk Hc)|].
    destruct (handle_guard_ _); lia.
Qed.

(** What the object and the maps hold does not depend on the rest. *)
Lemma job_taken present j js w :
  posted w = j :: js → Inv present w →
  job_ok j ∧ Inv present (set_posted js w) ∧ (job_weight j + weight (set_posted js w) = weight w)%nat.
Proof.
  intros Hp []. rewrite Hp in i_jobs0. apply Forall_cons in i_jobs0 as [Hj Hjs]. split_and!; [done|by constructor|].
  unfold weight, settled, open. rewrite Hp. simpl. lia.
Qed.

Lemma send_unchanged p w w1 : run_send p w = Ret w1 → unchanged w w1.
Proof.
  unfold run_send. destruct (alive w); [|done]. cbn [negb].
  destruct (message_queue_ w) as [|front q] eqn:E; cbn; intros [= <-]; by split_and!.
Qed.

Lemma write_unchanged ec w w1 : write_completed ec w = Ret w1 → unchanged w w1.
Proof.
  unfold write_completed. destruct (alive w), (failed ec); cbn [negb]; try done; [by intros [= <-]|].
  destruct (message_queue_ w) as [|front [|]]; [done|..]; cbn; intros [= <-]; by split_and!.
Qed.

Lemma job_step present j js w w1 :
  posted w = j :: js → Inv present w → run_job j (set_posted js w) = Ret w1 → (guids w1 ≤ bound)%nat →
  Inv present w1 ∧ (weight w1 ≤ weight w)%nat.
Proof.
  intros Hp Hw Hr Hg. destruct (job_taken _ _ _ _ Hp Hw) as (Hj & Hi & Hle).
  destruct j as [p|t ec d|t u|u c|x t ec]; cbn [run_job job_weight] in *.
  - destruct (unchanged_inv _ _ _ (send_unchanged _ _ _ Hr) Hi). split; [done|lia].
  - edestruct (effect_costs present (one (t = this))) as [? ?]; [by apply dr_run_drop|exact Hi|exact Hr|exact Hg|split; [done|lia]].
  - edestruct (effect_costs present 0) as [? ?]; [by apply other_run_read_buffered|exact Hi|exact Hr|exact Hg|split; [done|lia]].
  - edestruct (effect_costs present (call_weight (u, c))) as [? ?]; [by apply dr_call|exact Hi|exact Hr|exact Hg|split; [done|lia]].
  - edestruct (effect_costs present 0) as [? ?]; [by apply dr_run_waiter|exact Hi|exact Hr|exact Hg|split; [done|lia]].
Qed.

Lemma api_step present a w w1 :
  event_ok present (ev_api a) → Inv present w → effect (run_api a) w = Ret w1 → (guids w1 ≤ bound)%nat →
  Inv (created present (ev_api a)) w1 ∧ (weight w1 ≤ start_weight (ev_api a) + weight w)%nat.
Proof.
  intros Ha Hw Hr Hg. destruct (decide (created present (ev_api a) = present)) as [E|E].
  { rewrite E. eapply effect_costs; [by apply api_costs|done..]. }
  destruct a; try done. simpl in E, Ha. destruct present; [done|]. simpl in E. apply not_false_is_true, bool_decide_eq_true in E.
  subst. destruct (Ha eq_refl) as (_ & -> & Hargs). unfold effect in Hr. cbn [run_api] in Hr. simpl in Hr. simplify_eq.
  destruct (creation_inv key args w Hw eq_refl Hargs) as [Hi Hz]. simpl. rewrite bool_decide_eq_true_2 by done.
  split; [exact Hi|]. rewrite Hz. lia.
Qed.

Lemma destroy_inv present t w :
  t ≠ this → Inv present w →
  Inv present (set_objects (delete t (objects w)) w) ∧ weight (set_objects (delete t (objects w)) w) = weight w.
Proof.
  intros Ht []. split; [constructor; simpl; try done; by rewrite lookup_delete_ne|].
  unfold weight, settled, open. simpl. by rewrite lookup_delete_ne.
Qed.

Lemma completed_step present p rest w w1 :
  costs present 0 p → Inv present w → effect p (set_pending rest w) = Ret w1 → (guids w1 ≤ bound)%nat →
  Inv present w1 ∧ (weight w1 ≤ weight w)%nat.
Proof.
  intros Hp Hw Hr Hg. destruct (unchanged_inv present w (set_pending rest w)) as [Hi <-]; [by split_and!|done|].
  by apply (effect_costs present 0 p).
Qed.

Lemma drops_step present w e w1 :
  event_ok present e → Inv present w → step w e w1 → (guids w1 ≤ bound)%nat →
  Inv (created present e) w1 ∧ (weight w1 ≤ start_weight e + weight w)%nat.
Proof.
  unfold step. intros Ha Hw He Hg. destruct e; cbn [exec] in He; unfold complete in He;
    cbn [start_weight Nat.add];
    try (destruct (take_pending _ _) as [[u rest]|]; simpl in He; [|done]; injection He as He).
  - injection He as He. by apply api_step.
  - destruct (posted w) as [|j js] eqn:Hp; [done|]. injection He as He. by eapply job_step.
  - destruct (timers w !! t) as [[d [x|]]|] eqn:Ht; [|done..]. injection He as <-.
    destruct (wait_ends_inv present t d x success w Ht Hw) as [Hi <-]. split; [exact Hi|done].
  - destruct (writes w) as [|n]; [done|]. injection He as He.
    destruct (unchanged_inv present w w1) as [Hi ->]; [by apply write_unchanged in He|done|by split].
  - eapply completed_step; [by apply dr_receive_completed|done..].
  - eapply completed_step; [by apply dr_endpoint_discovered|done..].
  - eapply completed_step; [by apply dr_tcp_connected|done..].
  - injection He as <-. destruct Hw. by split.
  - destruct (objects w !! this0); [|done]. injection He as <-. destruct (destroy_inv present this0 w Ha Hw) as [Hi ->]. by split.
  - destruct (decide (objects w = ∅)); [|done]. injection He as <-. destruct Hw. by split.
Qed.

(** *** Whole executions *)
Fixpoint trace_ok (present : bool) (es : list event) : Prop :=
  match es with [] => True | e :: es => event_ok present e ∧ trace_ok (created present e) es end.

Lemma drops_run w es w1 present :
  run step w es w1 → trace_ok present es → Inv present w → (guids w1 ≤ bound)%nat →
  (weight w1 ≤ sum_list_with start_weight es + weight w)%nat.
Proof.
  intros Hr. revert present. induction Hr as [|w e w1 es w2 Hs Hr IH]; intros present Ha Hw Hg; [done|].
  destruct Ha as [He Ha]. pose proof (run_guids _ _ _ Hr).
  destruct (drops_step present w e w1 He Hw Hs) as [Hw1 Hle]; [lia|]. specialize (IH _ Ha Hw1 Hg). simpl. lia.
Qed.
End steps.
End counting.

(** ** The theorem *)
Definition drops (this : nat) (c : nat * callback) : bool :=
  match c.2 with cb_dropped _ t => bool_decide (t = this) | _ => false end.
Definition is_start (this : nat) (e : event) : bool :=
  match e with ev_api (api_start_subscription t _ _) => bool_decide (t = this) | _ => false end.

(** How often the dropped handler was called, and how often the subscription
    was started. *)
Definition dropped_calls (this : nat) (w : world) : nat := length (filter (drops this) (calls w)).
Definition starts (this : nat) (es : list event) : nat := length (filter (is_start this) es).

Lemma dropped_calls_weight this w : sum_list_with (call_weight this) (calls w) = dropped_calls this w.
Proof. apply sum_indicator. intros [u c]. unfold call_weight, drops, one. destruct c; try done; simpl. by repeat case_decide. Qed.

Lemma starts_weight this es : sum_list_with (start_weight this) es = starts this es.
Proof. apply sum_indicator. intros e. unfold start_weight, is_start, one. destruct e as [[]| | | | | | | | |]; try done; simpl. by repeat case_decide. Qed.

Lemma drops_bound {AL : Allocator} {PB : Protobuf} {AE : AsioErrors} {GS : GuidSource}
    settings name this key es w
    (Hrun : run step (new_connection settings name) es w)
    (Huser : trace_ok this key false es)
    (Hlength : length key = 16%nat)
    (Hkey : ∀ i, (i < guids w)%nat → fresh_guid i ≠ key) :
  (dropped_calls this w ≤ starts this es)%nat.
Proof.
  assert (Inv this key false (new_connection settings name)) as H0 by by constructor.
  pose proof (drops_run this key (guids w) Hlength Hkey _ es w false Hrun Huser H0 (le_n _)) as Hle.
  assert (weight this key (new_connection settings name) = 0%nat) as Hz.
  { unfold weight, settled, open. simpl. by rewrite !lookup_empty. }
  rewrite Hz, starts_weight in Hle. unfold weight, settled in Hle. rewrite dropped_calls_weight in Hle. lia.
Qed.

(** C4: Over every execution of the client from a new connection, whatever the
    server, the network and the timers do, a volatile or persistent
    subscription calls its dropped handler at most once for each time it is
    started: the guard, the unsubscribe request with its timeout, and the
    server's notices never lead to a second call.  The user creates the object
    at most once, with a key that the client does not draw for a request, and
    does not destroy it. *)
Theorem dropped_at_most_once {AL : Allocator} {PB : Protobuf} {AE : AsioErrors} {GS : GuidSource}
    settings name this key es w
    (Hrun : run step (new_connection settings name) es w)
    (Huser : trace_ok this key false es)
    (Hlength : length key = 16%nat)
    (Hkey : ∀ i, (i < guids w)%nat → fresh_guid i ≠ key) :
  (dropped_calls this w ≤ starts this es)%nat.
Proof. exact (drops_bound settings name this key es w Hrun Huser Hlength Hkey). Qed.

(** The user unsubscribes twice, and the server tells it twice. *)
Definition volatile_scenario : list event :=
  start_catchup (args_volatile "stream" false) ++
  [pushed Command.subscription_confirmation x00; ev_api (api_unsubscribe 0); ev_api (api_unsubscribe 0);
   ev_job; pushed Command.subscription_dropped x00; pushed Command.subscription_dropped x00].

Lemma dropped_at_most_once_witness :
  let w := after (AL := zero_allocator) (PB := sample_protobuf) (AE := linux_asio_errors) (GS := counting_guids)
    volatile_scenario (new_connection default_connection_settings "ES-1") in
  dropped_calls 0 w = 1%nat ∧ starts 0 volatile_scenario = 1%nat ∧
  (dropped_calls 0 w ≤ starts 0 volatile_scenario)%nat.
Proof.
  intros w. split_and!; [vm_compute; reflexivity..|].
  assert (guids w = 2%nat) as Hg by (vm_compute; reflexivity).
  apply (dropped_at_most_once (AL := zero_allocator) (PB := sample_protobuf)
    (AE := linux_asio_errors) (GS := counting_guids) default_connection_settings "ES-1" 0 subscription_key).
  - apply after_run. vm_compute. reflexivity.
  - by repeat split.
  - reflexivity.
  - rewrite Hg. intros i Hi. destruct i as [|[|i]]; [by vm_compute..|lia].
Defined.

(** A catch-up subscription breaks the rule: the user unsubscribes while the
    missed events are read, neither the read nor the unsubscribe request is
    answered, and both waits end; the handler of the slice drops the
    subscription without looking at its guard, so that the dropped handler is
    called twice, and with the same error. *)
Theorem catchup_dropped_twice :
  ∃ w, scenario_exec (take 7 catchup_scenario ++ [ev_api (api_unsubscribe 0); ev_timer 3; ev_timer 4] ++
      replicate 11 ev_job) (new_connection default_connection_settings "ES-1") = Some (Ret w) ∧
    starts 0 (take 7 catchup_scenario) = 1%nat ∧ dropped_calls 0 w = 2%nat.
Proof. eexists. split; [vm_compute; reflexivity|]. split; vm_compute; reflexivity. Qed.
